(* ===== verification/_CoqProject ===== *)
-Q . S2P
Prelude.v
Pmm.v
Vmm.v
KHeap.v
MemInit.v
KPrintf.v
BlockPmm.v
Paging.v
PagingMap.v
NetProto.v
NetPool.v
NetThreads.v
NetSetup.v
NetConfig.v
Scheduler.v
ByteStore.v
MyDevice.v
Devfs.v
Elf.v
KTree.v
KTreeSync.v
Gates.v
Idt.v
Isr.v
Interrupts.v
Pic8259.v
Pic.v
Irq.v
Exceptions.v
Segments.v
Gdt.v
PgTable.v
EarlyPaging.v
EarlyPaging32.v
Multiboot2.v
Syscalls.v
SyscallTable.v
FirstFit.v
FileTask.v
FileTasks.v
SerialPort.v
BootSlab.v
ProcRegistry.v
StealQueue.v
FileObj.v
MoveFile.v
UniquePtr.v
DevTree.v
Text.v
CpuFeatures.v
Records.v
DataProc.v
ProcManager.v
FsHeader.v
Console.v
Platform.v
PoolLife.v
MemAlloc.v
Timers.v
DemoNet.v
Fctl.v
Vectors.v
FsShell.v
