(* ===== verification/Prelude.v ===== *)
(** * FarouKernel: a verification of its C and C++ sources

    ** The program

    The repository collects the parts of a hobby kernel for x86-64 and the user-space
    programs around it, written in C and C++. Its parts and how they interact:

    - Memory. [src/kernel/memory.c]: a physical memory manager (frame bitmap) serves a
      virtual memory manager (four-level page tables reached through a direct map,
      with a TLB to keep coherent), which serves the kernel heap ([kmalloc], [kfree]);
      [memory_init] sets all three up from the boot loader's memory map; [kprintf]
      reports on a serial line. [src/kernel/arch/x86_64/mm] is a second memory system:
      a block allocator, page tables, and ranges of virtual memory on top of both.
      [src/arch/x86_64/kernel.c] (first-fit heap), [src/kernel/boot/Main.c] (a slab
      under a spin lock) and [src/mm/memalloc.cpp] (buddy descriptors) are allocators
      of their own; [src/arch/x86_64/paging.c] builds page tables before all of them.
    - Processor tables and interrupts. Descriptor tables ([src/arch/x86_64/idt.c],
      [isr.c], [pgtable.c], [src/kernel/arch/x86_64/boot/cpu], [src/kernel/interrupts.c]),
      interrupt controllers ([pic.c]), hardware interrupts ([irq.c]), exceptions
      ([exceptions.c]), queries of processor features ([src/arch/x86]).
    - Boot. [src/kernel/startup.c] maps, validates and loads an ELF kernel;
      [src/kernel/bootloader] walks Multiboot2 tags.
    - Kernel services. System calls ([src/kernel/syscall.c] and the older table of
      [src/arch/x86_64/kernel.c]); the task table of [src/kernel/scheduler.c]; the
      process registry [src/kernel/processes.h] and the process manager
      [src/kernel/processes.cpp]; devices and file systems ([src/kernel/mydevice.c],
      [src/kernel/fctl.h], [src/fs/devfs.c], [src/fs/devfs.h], [src/fs/fs.h]); the tree
      library [src/mm/kernel_tree.h].
    - Programs. The TCP line server [src/net/network.c] (acceptor, workers over a
      bounded queue, connection and rate limits) and the small servers beside it; the
      work-stealing pool [src/kernel/main.c]; files ([src/fs/file.cpp],
      [dir_functions.cpp], [read_write.c], [fs.cpp], [src/kernel/platform]); the
      key-value processor [src/kernel/Dataprocessor.cpp]; the command console
      [src/kernel/console]; timers, owning pointers, vectors
      ([src/kernel/timer.c], [util.c], [util.h]).

    ** The files

    - [Prelude]: outcomes of C code, fixed-width integers, arrays, memory words,
      tactics ([inv_ok], [zbool], [zcase]), the hint database [kernel], shared
      lemmas on bits, counts and arrays. [Text]: strings of the C++ library (getline,
      printing and reading numbers), shared by the text programs.
    - Memory: [Pmm], [Vmm], [KHeap], [MemInit], [KPrintf], [SerialPort] (memory.c); [BlockPmm],
      [Paging] and [PagingMap] (kernel/arch/x86_64/mm: the code, and what its operations
      do to the translation); [EarlyPaging], [EarlyPaging32]
      (arch/x86_64/paging.c, [init_paging] of kernel.c); [FirstFit] (kernel.c);
      [BootSlab] (boot/Main.c); [MemAlloc] (memalloc.cpp).
    - Processor: [Gates] (gates as the processor reads them, used by the next four),
      [Idt], [Isr], [Interrupts], [Exceptions]; [Pic8259] (the controllers as a state
      machine on their ports, used by the next two), [Pic], [Irq]; [Segments] (segment
      descriptors as the processor reads them), [Gdt], [PgTable]; [CpuFeatures] (arch/x86).
    - Boot: [Elf] (startup.c), [Multiboot2].
    - Services: [Syscalls], [SyscallTable], [Scheduler], [ProcRegistry] (processes.h),
      [ProcManager] (processes.cpp), [KTree] and [KTreeSync] (kernel_tree.h: one thread,
      and any number on one pool); [ByteStore], the interface (classes
      [ByteStore] and [ByteStoreLaws]) that [MyDevice] and [Devfs] implement, with the
      round trip proved once against it; [DevTree] (devfs.h), [FsHeader] (fs.h), [Fctl].
    - Programs: [NetProto] (lines and sessions), [NetPool] (queue and limits),
      [NetThreads] (acceptor and workers as a step relation), [NetSetup] (start and
      end), [NetConfig] (options, log, signals) for network.c; [DemoNet]; [StealQueue] and [PoolLife] (main.c); [FileTask]
      and [FileTasks] (read_write.c: one thread, and all of them), [FileObj], [MoveFile],
      [FsShell], [Platform]; [DataProc], [Console], [Timers], [UniquePtr], [Vectors], [Records]
      (page.h, system.c).

    Records carry the fields of the structs, classes and globals, definitions the
    names of the functions; a loop of a function is a [Fixpoint] of its own, named in
    the comment before it. A file's definitions are in a Module of its name (or a
    short form of it) wherever its names would clash.

    ** How the code is modelled

    Code runs in the type [outcome]: [Ok] for a return, [Panic] for [kpanic], a
    failed [ASSERT] or an exit with an error, [Hang] for waiting on a lock that the
    same thread holds or for a loop that does not end, [Undef] for a step without a
    defined meaning (an index out of bounds, a fault, a signed overflow, a use of a
    dangling pointer). A theorem that a run is [Ok] therefore says that it terminates,
    stays inside its memory and does not deadlock. C++ exceptions are values of a sum
    or of a result type of the file. Unsigned arithmetic is on [Z] with the wrap
    written out ([u64], [u32], [u16]). Physical memory is a function from addresses to
    words; kernel memory is reached through the translation of the page tables, so a
    write through an unmapped page is [Undef]. Calls that leave the sources
    (allocation, threads, system calls, the Linux VFS, [rand], the TOML and option
    libraries) are inputs: results the environment may return, or functions with their
    documented laws. Threads are interleavings: a step relation whose steps are what
    one thread does while it holds a lock, or one access to shared state.

    ** What is proved

    - Memory: allocation and release of frames on every branch and over any history
      ([Pmm]); mapping and unmapping change exactly one translation, keep the
      page-table tree and the TLB coherent and free exactly the tables that became
      empty ([Vmm]); heap blocks are mapped, aligned, disjoint also as physical
      memory, first fit, merged on release, and keep their data, over any history
      ([KHeap]); after boot a frame is free exactly when it
      is usable and not under the bitmap ([MemInit]); first fit and round trips of the
      other allocators ([BlockPmm], [FirstFit], [BootSlab] under every interleaving of
      its spin lock, [MemAlloc] over allocating histories); the early tables lead
      from the range they were given to the one asked for ([EarlyPaging]); queries agree with the
      hardware walk ([Paging]), allocated pages translate to blocks of their own, a
      range is mapped whole or undone, and releasing pages restores walk and blocks,
      outside the windows through which the tables themselves are reached ([PagingMap]).
    - Processor: after initialisation every vector's gate, as the processor decodes
      it, leads to its stub; the controllers end in the state the drivers promise;
      dispatch calls the registered handler and acknowledges once; the cache of cpuid
      answers what the instruction answered when the leaf was first asked for.
    - Boot: the loader never touches memory it may not, and leaves exactly the address
      space that the program headers prescribe; the tag walk ends, within one turn per
      eight bytes, unless it visits a tag of size 0, and then it never ends.
    - Services: the scheduler's invariant of table, counter, ids, threads and memory in
      every interleaving; safety of every sequence of device calls; the ring buffer
      refines a queue, the bitmap a set, the node pool hands out each node once, and also does so
      to threads that share it, as long as none runs out of tries for the lock; thread
      records own their threads, a pass of the reaper keeps the process table and its
      counter, and the process manager's destructor ends when no signal interferes and its wake-up
      byte can be written; a
      control block per open file and none left over.
    - Programs: the server's limits hold in every interleaving, it does not deadlock
      unless creating a thread fails, and its shutdown ends and closes every connection; the rate limiter refines its
      specification; log file and its name are released once; no task of the stealing queues is lost or run twice; the threads of
      the file program, interleaved, do what each does alone; files (when the system takes
      every write) and both line formats of the processor (with their delimiter) are read
      back as they were written; its
      parallel and sequential processing agree; the console runs every line once; a
      timer shows what a stopwatch shows; pointers are owned once and freed once.

    Other lemmas record behaviour that is hardly meant, about the same definitions:
    wraps of [kmalloc] sizes, the counter race of the server, the wrong address in CR3,
    a reaper that never reaps, a release that edits the free list without its lock ([KTreeSync]), a pool whose shutdown never returns ([PoolLife]), a file
    table that overflows at its 513th entry ([FsHeader]), and others.

    ** Bounds and fuel

    Loops over arrays recurse on the number of elements left. Walks over linked
    structures carry fuel: the heap's list walks get one step per header that fits
    the heap plus one ([list_fuel]), which is enough because a sorted list visits each header
    once; [kmalloc] retries once after each growth and the growth covers the request;
    expansion gets one step per page; loops over a text get one step per character
    and one more, and each reads at least one; the descriptor walks of [MemAlloc] and
    [FsHeader] get one step per descriptor and one more. The theorems state that the
    run returns, so fuel that ran out ([Hang]) would refute them; where the code itself
    does not end, no fuel is enough and that is the lemma. Scripts of answers of the
    environment are lists; a loop that needs more answers than its script has gives no
    result, and the theorems say which scripts are long enough. The constants of the
    sources (64 tasks, 4096 nodes, 512 entries, 65536 descriptors) are kept. Bounds in
    hypotheses are those of the machine: physical addresses below 2^52, fewer than
    2^32 - 1 created tasks, ELF files of at most 2 GiB, pages of at least 64 bytes, heap
    requests of at most 2^46 bytes (larger ones wrap: [kmalloc_size_wraps]).

    ** Taken for granted

    The direct map that the boot loader made stays in force, so that memory.c reaches
    page tables and frames at their offset ([Vmm.load], [Vmm.store]); the second memory
    system reaches them through the tables in force, and its theorems say which pages
    must not be remapped. The counter of requests of an address, an [int], does not reach
    2^31 within the minute that an entry lives ([NetPool]). Steps of threads without a
    defined meaning are no steps of the relations: a pass of the scheduler's manager that
    overflows a priority, and an access of a worker past the array of queues.

    ** Not modelled

    Assembly and linker scripts, and functions that are inline assembly only (the
    [init_gdt_idt] of boot/Main.c loads two tables that nothing has filled); the text of
    log and usage messages; code that the sources cut off or elide ([ktree_insert], which
    ends inside its loop, the end of [start_kernel], the MADT walk of [smp_init], the
    parent's part of [addProcess], options of the server that are only named in a comment,
    and the functions processes.cpp declares and does not define); headers that only declare
    ([thread_pool.h], [network.h], the stubs of [net.h]); demonstrations without state
    ([mm.cpp], [mm.h], [page.cpp] on floating point, [console_interface.hpp]);
    [mm/frame.c] and [frame.h], which copy unique pointers and use members that do not
    exist, so that their meaning would be a guess; of devfs.h the methods that only
    forward to the standard library. *)
From Stdlib Require Import ZArith Lia.
From stdpp Require Import strings numbers gmap base.
From stdpp Require Import list.

Open Scope Z_scope.

(** * Outcomes of C code

    [Ok a] is a normal return, [Panic why] a call of [kpanic] or a failed
    [ASSERT] (neither returns), [Hang] a spin on a lock that the same thread
    already holds, and [Undef why] a step with no defined C meaning
    (out-of-bounds access, read of an absent header). *)
Inductive outcome (A : Type) : Type :=
| Ok (a : A)
| Panic (why : string)
| Hang
| Undef (why : string).

Arguments Ok {_} _.
Arguments Panic {_} _.
Arguments Hang {_}.
Arguments Undef {_} _.

#[export] Instance outcome_ret : MRet outcome := @Ok.

#[export] Instance outcome_bind : MBind outcome := fun A B f m =>
  match m with
  | Ok a => f a
  | Panic why => Panic why
  | Hang => Hang
  | Undef why => Undef why
  end.

(** [ASSERT(cond)] of the kernel: panic unless the condition holds. *)
Definition ASSERT (cond : bool) (msg : string) : outcome () :=
  if cond then Ok tt else Panic msg.

(** Spinlocks: acquiring a held lock never returns in a single thread. *)
Definition spin_acquire (locked : bool) : outcome bool :=
  if locked then Hang else Ok true.

Definition is_ok {A} (o : outcome A) : bool :=
  match o with Ok _ => true | _ => false end.

(** * Fixed-width integers

    Values of type [uintN_t] are integers in [0, 2^N); every operation that
    can leave the range wraps explicitly. *)
Definition wrap (w x : Z) : Z := x mod 2 ^ w.
Definition u64 (x : Z) : Z := wrap 64 x.
Definition u32 (x : Z) : Z := wrap 32 x.
Definition u16 (x : Z) : Z := wrap 16 x.
Definition u8 (x : Z) : Z := wrap 8 x.

(** Reinterpretation of a [w]-bit pattern as a two's complement number. *)
Definition signed (w x : Z) : Z :=
  if wrap w x <? 2 ^ (w - 1) then wrap w x else wrap w x - 2 ^ w.
Definition s64 (x : Z) : Z := signed 64 x.
Definition s32 (x : Z) : Z := signed 32 x.

Definition UINT64_MAX : Z := 2 ^ 64 - 1.
Definition not64 (x : Z) : Z := UINT64_MAX - x.
Definition shl64 (x n : Z) : Z := u64 (Z.shiftl x n).

Definition in_u64 (x : Z) : Prop := 0 <= x < 2 ^ 64.

(** [__builtin_ctzll]: the number of trailing zero bits (undefined at 0). *)
Fixpoint pos_ctz (p : positive) : Z :=
  match p with
  | xO q => 1 + pos_ctz q
  | _ => 0
  end.

Definition ctz (x : Z) : Z :=
  match x with
  | Zpos p => pos_ctz p
  | _ => 0
  end.

(** * Arrays

    A C array is a list; reading or writing outside it is undefined. *)
Definition arr_get {A} (l : list A) (i : Z) : outcome A :=
  if i <? 0 then Undef "array index"
  else match l !! Z.to_nat i with
       | Some a => Ok a
       | None => Undef "array index"
       end.

Definition arr_set {A} (l : list A) (i : Z) (a : A) : outcome (list A) :=
  if (0 <=? i) && (i <? Z.of_nat (length l)) then Ok (<[Z.to_nat i := a]> l)
  else Undef "array index".

(** [a % b] on unsigned operands: division by zero is undefined. *)
Definition cmod (a b : Z) : outcome Z :=
  if b =? 0 then Undef "division by zero" else Ok (a mod b).

(** [for (i = start; i < start + n; i++) body] on a state. *)
Fixpoint for_range {A} (n : nat) (start : Z) (body : Z -> A -> outcome A) (s : A) : outcome A :=
  match n with
  | O => Ok s
  | S n' => s' ← body start s; for_range n' (start + 1) body s'
  end.

(** The number of [i] with [0 <= i < n] that satisfy [P]. *)
Fixpoint count_upto (P : Z -> bool) (n : nat) : Z :=
  match n with
  | O => 0
  | S n' => count_upto P n' + (if P (Z.of_nat n') then 1 else 0)
  end.

(** * Word-addressed memory

    [m a] is the 64-bit word stored at address [a]. *)
Definition upd (m : Z -> Z) (a v : Z) : Z -> Z :=
  fun x => if x =? a then v else m x.

(** [memset(base, 0, len)]. *)
Definition zero_range (m : Z -> Z) (base len : Z) : Z -> Z :=
  fun x => if (base <=? x) && (x <? base + len) then 0 else m x.

(** * Tactics and hint databases *)

Create HintDb kernel.

(** Splits a computation [m ≫= f = Ok b] into the run of [m] and the rest. *)
Lemma bind_Ok {A B} (m : outcome A) (f : A -> outcome B) (b : B) :
  m ≫= f = Ok b <-> exists a, m = Ok a /\ f a = Ok b.
Proof.
  destruct m; cbn; (split; [intros H; eauto; discriminate|]);
    intros (? & H1 & H2); (discriminate || injection H1 as ->; exact H2).
Qed.

Lemma ASSERT_Ok (c : bool) (msg : string) (u : ()) :
  ASSERT c msg = Ok u <-> c = true.
Proof. destruct c, u; naive_solver. Qed.

Lemma spin_acquire_Ok (l r : bool) :
  spin_acquire l = Ok r <-> l = false /\ r = true.
Proof. destruct l, r; cbn; intuition congruence. Qed.

(** Inverts every successful bind, assertion and conditional in sight. *)
Ltac inv_ok_step :=
  match goal with
  | H : Ok _ = Ok _ |- _ => injection H as H; subst
  | H : Panic _ = Ok _ |- _ => discriminate H
  | H : Hang = Ok _ |- _ => discriminate H
  | H : Undef _ = Ok _ |- _ => discriminate H
  | H : mret _ = Ok _ |- _ => unfold mret, outcome_ret in H
  | H : _ ≫= _ = Ok _ |- _ =>
      let a := fresh "r" in let Ha := fresh "E" in
      apply bind_Ok in H as (a & Ha & H)
  | H : ASSERT _ _ = Ok _ |- _ => apply ASSERT_Ok in H
  | H : spin_acquire _ = Ok _ |- _ => apply spin_acquire_Ok in H as [? ->]
  | H : (_, _) = (_, _) |- _ => injection H as H; subst
  | H : exists _, _ |- _ => destruct H
  | H : _ /\ _ |- _ => destruct H
  | H : (let '(_, _) := ?p in _) = Ok _ |- _ => destruct p as [? ?] eqn:?
  end.

Ltac inv_ok := repeat (inv_ok_step; simpl in *).

(** Turns boolean comparisons of the code into propositions. *)
Ltac zbool :=
  repeat match goal with
  | H : (_ =? _) = true |- _ => apply Z.eqb_eq in H
  | H : (_ =? _) = false |- _ => apply Z.eqb_neq in H
  | H : (_ <? _) = true |- _ => apply Z.ltb_lt in H
  | H : (_ <? _) = false |- _ => apply Z.ltb_ge in H
  | H : (_ <=? _) = true |- _ => apply Z.leb_le in H
  | H : (_ <=? _) = false |- _ => apply Z.leb_gt in H
  | H : (_ && _) = true |- _ => apply andb_true_iff in H as [? ?]
  | H : (_ || _) = false |- _ => apply orb_false_iff in H as [? ?]
  | H : negb _ = true |- _ => apply negb_true_iff in H
  | H : negb _ = false |- _ => apply negb_false_iff in H
  end.

(** Decides a conditional of the goal by arithmetic. *)
Ltac zcase b :=
  let E := fresh "E" in destruct b eqn:E; zbool; try lia; try reflexivity.

(** Decides every comparison of the goal. *)
Ltac zcases :=
  repeat match goal with
  | |- context [?a <=? ?b] => zcase (a <=? b)
  | |- context [?a <? ?b] => zcase (a <? b)
  | |- context [?a =? ?b] => zcase (a =? b)
  end.

(** A loop whose iteration [i] always succeeds and sets the [i]-th of a family of
    observations, leaving the others alone, sets exactly those of its range. *)
Lemma for_range_spec {A V} (ok : A -> Prop) (obs : A -> Z -> V) (val : Z -> V) (lo hi : Z)
    (body : Z -> A -> outcome A) :
  (forall s i, ok s -> lo <= i < hi ->
     exists s', body i s = Ok s' /\ ok s' /\ obs s' i = val i /\
       forall j, lo <= j < hi -> j <> i -> obs s' j = obs s j) ->
  forall n start s, ok s -> lo <= start -> start + Z.of_nat n <= hi ->
  exists s', for_range n start body s = Ok s' /\ ok s' /\
    forall j, lo <= j < hi ->
      obs s' j = if (start <=? j) && (j <? start + Z.of_nat n) then val j else obs s j.
Proof.
  intros Hb. induction n as [|n IH]; intros start s Hs H0 Hn; cbn [for_range].
  - exists s. split_and!; try done. intros j Hj. zcases.
  - destruct (Hb s start) as (s1 & -> & Hs1 & Hv & Hk); [done|lia|]. cbn.
    destruct (IH (start + 1) s1) as (s2 & -> & Hs2 & Hv2); [done|lia..|].
    exists s2. split_and!; try done. intros j Hj. rewrite Hv2 by done.
    destruct (decide (j = start)) as [->|Hne]; [|rewrite Hk by done]; zcases. exact Hv.
Qed.

(** ** Integer lemmas *)

Lemma u64_small x : in_u64 x -> u64 x = x.
Proof. intros H. unfold u64, wrap. apply Z.mod_small. exact H. Qed.

Lemma u64_range x : in_u64 (u64 x).
Proof. unfold in_u64, u64, wrap. apply Z.mod_pos_bound. lia. Qed.

Lemma s64_small x : 0 <= x < 2 ^ 63 -> s64 x = x.
Proof.
  intros H. unfold s64, signed, wrap. rewrite Z.mod_small by lia.
  change (64 - 1) with 63. zcase (x <? 2 ^ 63).
Qed.

Lemma testbit_high x w i : 0 <= w -> 0 <= x < 2 ^ w -> w <= i -> Z.testbit x i = false.
Proof.
  intros Hw Hx Hi. rewrite <- (Z.mod_small x (2 ^ w)) by lia.
  apply Z.mod_pow2_bits_high. lia.
Qed.

Lemma bits_range x w :
  0 <= w -> 0 <= x -> (forall i, w <= i -> Z.testbit x i = false) -> x < 2 ^ w.
Proof.
  intros Hw Hx Hb.
  assert (x = x mod 2 ^ w) as ->; [|apply Z.mod_pos_bound; lia].
  apply Z.bits_inj'. intros i Hi. destruct (Z.ltb_spec i w).
  - by rewrite Z.mod_pow2_bits_low by lia.
  - rewrite Z.mod_pow2_bits_high by lia. apply Hb. lia.
Qed.

Lemma shl64_one b : 0 <= b < 64 -> shl64 1 b = 2 ^ b.
Proof.
  intros Hb. unfold shl64. rewrite Z.shiftl_1_l. apply u64_small. split.
  - apply Z.pow_nonneg. lia.
  - apply Z.pow_lt_mono_r; lia.
Qed.

Lemma not64_bits x i :
  in_u64 x -> 0 <= i -> Z.testbit (not64 x) i = (i <? 64) && negb (Z.testbit x i).
Proof.
  intros Hx Hi. unfold not64, UINT64_MAX.
  change (2 ^ 64 - 1) with (Z.ones 64). rewrite Z.sub_nocarry_ldiff.
  - rewrite Z.ldiff_spec. f_equal. rewrite Z.testbit_ones_nonneg by lia. done.
  - apply Z.bits_inj'. intros j Hj. rewrite Z.ldiff_spec, Z.bits_0.
    rewrite Z.testbit_ones_nonneg by lia. destruct (Z.ltb_spec j 64).
    + by rewrite andb_false_r.
    + rewrite (testbit_high x 64 j) by (unfold in_u64 in Hx; lia). done.
Qed.

Lemma not64_range x : in_u64 x -> in_u64 (not64 x).
Proof. unfold in_u64, not64, UINT64_MAX. lia. Qed.

Lemma land_not64 v x : in_u64 v -> in_u64 x -> Z.land v (not64 x) = Z.ldiff v x.
Proof.
  intros Hv Hx. apply Z.bits_inj'. intros i Hi.
  rewrite Z.land_spec, Z.ldiff_spec, not64_bits by done.
  destruct (Z.ltb_spec i 64); [done|].
  rewrite (testbit_high v 64 i) by (unfold in_u64 in Hv; lia). done.
Qed.

(** Clearing the low bits rounds down. *)
Lemma land_not64_pow2 v k :
  0 <= k < 64 -> in_u64 v -> Z.land v (not64 (2 ^ k - 1)) = v / 2 ^ k * 2 ^ k.
Proof.
  intros Hk Hv.
  assert (0 < 2 ^ k < 2 ^ 64) as Hp by (split; [lia|apply Z.pow_lt_mono_r; lia]).
  rewrite land_not64 by (auto; unfold in_u64; lia).
  replace (2 ^ k - 1) with (Z.ones k) by (rewrite Z.ones_equiv; lia).
  rewrite Z.ldiff_ones_r, Z.shiftl_mul_pow2, Z.shiftr_div_pow2 by lia. done.
Qed.

(** ** Single-bit updates of a 64-bit word *)

Lemma setbit64_bits q b i :
  0 <= b < 64 -> 0 <= i ->
  Z.testbit (Z.lor q (shl64 1 b)) i = (i =? b) || Z.testbit q i.
Proof.
  intros Hb Hi. rewrite shl64_one, Z.lor_spec, Z.pow2_bits_eqb, (Z.eqb_sym b i) by lia.
  by rewrite orb_comm.
Qed.

Lemma clearbit64_bits q b i :
  0 <= b < 64 -> in_u64 q -> 0 <= i ->
  Z.testbit (Z.land q (not64 (shl64 1 b))) i = negb (i =? b) && Z.testbit q i.
Proof.
  intros Hb Hq Hi. rewrite Z.land_spec, not64_bits by (try apply u64_range; lia).
  rewrite shl64_one, Z.pow2_bits_eqb, (Z.eqb_sym b i) by lia.
  destruct (Z.ltb_spec i 64).
  - simpl. by rewrite andb_comm.
  - rewrite (testbit_high q 64 i) by (unfold in_u64 in Hq; lia).
    by rewrite !andb_false_r.
Qed.

Lemma testbit64_land q b :
  0 <= b < 64 -> (Z.land q (shl64 1 b) =? 0) = negb (Z.testbit q b).
Proof.
  intros Hb. rewrite shl64_one by done. destruct (Z.testbit q b) eqn:E; simpl.
  - apply Z.eqb_neq. intros Hz.
    assert (Z.testbit (Z.land q (2 ^ b)) b = true) as Hc.
    { rewrite Z.land_spec, E, Z.pow2_bits_true by lia. done. }
    rewrite Hz, Z.bits_0 in Hc. done.
  - apply Z.eqb_eq. apply Z.bits_inj'. intros i Hi.
    rewrite Z.land_spec, Z.pow2_bits_eqb, Z.bits_0 by lia.
    destruct (Z.eqb_spec b i) as [<-|]; [by rewrite E|by rewrite andb_false_r].
Qed.

Lemma setbit64_range q b : 0 <= b < 64 -> in_u64 q -> in_u64 (Z.lor q (shl64 1 b)).
Proof.
  intros Hb Hq. assert (0 <= Z.lor q (shl64 1 b)) as H0.
  { apply Z.lor_nonneg. split; [unfold in_u64 in Hq; lia|apply u64_range]. }
  split; [done|]. apply bits_range; [lia|done|]. intros i Hi.
  rewrite setbit64_bits by lia. rewrite (testbit_high q 64 i) by (unfold in_u64 in Hq; lia).
  zcase (i =? b).
Qed.

Lemma clearbit64_range q b :
  0 <= b < 64 -> in_u64 q -> in_u64 (Z.land q (not64 (shl64 1 b))).
Proof.
  intros Hb Hq. assert (0 <= Z.land q (not64 (shl64 1 b))) as H0.
  { apply Z.land_nonneg. left. unfold in_u64 in Hq; lia. }
  split; [done|]. apply bits_range; [lia|done|]. intros i Hi.
  rewrite clearbit64_bits by (done || lia).
  rewrite (testbit_high q 64 i) by (unfold in_u64 in Hq; lia). by rewrite andb_false_r.
Qed.

(** ** Count of trailing zeros *)

Lemma ctz_nonneg x : 0 <= ctz x.
Proof. destruct x as [|p|p]; simpl; [lia| |lia]. induction p; simpl; lia. Qed.

Lemma ctz_true x : 0 < x -> Z.testbit x (ctz x) = true.
Proof.
  destruct x as [|p|p]; [lia| |lia]. intros _. simpl ctz.
  induction p as [p IH|p IH|]; [done| |done]. simpl pos_ctz.
  rewrite Z.add_1_l, Pos2Z.inj_xO, Z.testbit_even_succ; [exact IH|apply (ctz_nonneg (Zpos p))].
Qed.

Lemma ctz_below x i : 0 < x -> 0 <= i < ctz x -> Z.testbit x i = false.
Proof.
  destruct x as [|p|p]; [lia| |lia]. intros _. simpl ctz. revert i.
  induction p as [p IH|p IH|]; intros i; simpl pos_ctz; [lia| |lia]. intros Hi.
  rewrite Pos2Z.inj_xO. destruct (Z.eq_dec i 0) as [->|]; [apply Z.testbit_even_0|].
  replace i with (Z.succ (i - 1)) by lia.
  rewrite Z.testbit_even_succ by lia. apply IH. lia.
Qed.

Lemma ctz_lt x w : 0 <= w -> 0 < x < 2 ^ w -> ctz x < w.
Proof.
  intros Hw Hx. destruct (Z.ltb_spec (ctz x) w) as [|Hge]; [done|].
  pose proof (ctz_true x ltac:(lia)) as Ht.
  rewrite (testbit_high x w (ctz x)) in Ht by lia. done.
Qed.

(** ** Arrays and memory *)

Lemma arr_get_Ok {A} (l : list A) i a :
  arr_get l i = Ok a <-> 0 <= i /\ l !! Z.to_nat i = Some a.
Proof.
  unfold arr_get. destruct (Z.ltb_spec i 0); [split; [done|lia]|].
  destruct (l !! Z.to_nat i) as [x|]; (split; [|intros [_ [=]]; subst; done]).
  - intros [= <-]. auto with lia.
  - done.
Qed.

Lemma arr_set_Ok {A} (l l' : list A) i a :
  arr_set l i a = Ok l' <->
  0 <= i < Z.of_nat (length l) /\ l' = <[Z.to_nat i := a]> l.
Proof.
  unfold arr_set.
  destruct (Z.leb_spec 0 i), (Z.ltb_spec i (Z.of_nat (length l))); simpl;
    (split; [intros [= <-]; by auto with lia|intros [? ->]; (done || lia)]).
Qed.

Lemma arr_set_in {A} (l : list A) i a :
  0 <= i < Z.of_nat (length l) -> arr_set l i a = Ok (<[Z.to_nat i := a]> l).
Proof. intros H. by apply arr_set_Ok. Qed.

Lemma arr_get_total {A} (l : list A) i :
  0 <= i < Z.of_nat (length l) -> exists a, arr_get l i = Ok a.
Proof.
  intros Hi. destruct (lookup_lt_is_Some_2 l (Z.to_nat i)) as [a Ha]; [lia|].
  exists a. apply arr_get_Ok. auto with lia.
Qed.

Lemma upd_eq m a v : upd m a v a = v.
Proof. unfold upd. by rewrite Z.eqb_refl. Qed.

Lemma upd_ne m a v x : x <> a -> upd m a v x = m x.
Proof. intros H. unfold upd. by apply Z.eqb_neq in H as ->. Qed.

Lemma zero_range_in m b n x : b <= x < b + n -> zero_range m b n x = 0.
Proof. intros H. unfold zero_range. zcase (b <=? x). zcase (x <? b + n). Qed.

Lemma zero_range_out m b n x : x < b \/ b + n <= x -> zero_range m b n x = m x.
Proof. intros H. unfold zero_range. zcase (b <=? x); zcase (x <? b + n). Qed.

#[export] Hint Resolve u64_range setbit64_range clearbit64_range not64_range : kernel.

(** ** Counting *)

Lemma count_upto_ext P Q n :
  (forall i, 0 <= i < Z.of_nat n -> P i = Q i) -> count_upto P n = count_upto Q n.
Proof.
  induction n as [|n IH]; intros H; [done|]. cbn [count_upto].
  rewrite IH by (intros; apply H; lia). by rewrite (H (Z.of_nat n)) by lia.
Qed.

Lemma count_upto_range P n : 0 <= count_upto P n <= Z.of_nat n.
Proof. induction n as [|n IH]; cbn [count_upto]; [lia|]. destruct (P _); lia. Qed.

(** Turning one element on adds one to the count. *)
Lemma count_upto_flip P Q n k :
  0 <= k < Z.of_nat n -> P k = false -> Q k = true ->
  (forall i, i <> k -> Q i = P i) -> count_upto Q n = count_upto P n + 1.
Proof.
  induction n as [|n IH]; intros Hk HP HQ Hext; [lia|]. cbn [count_upto].
  destruct (Z.eq_dec k (Z.of_nat n)) as [->|Hne].
  - rewrite HP, HQ, (count_upto_ext Q P); [lia|]. intros. apply Hext. lia.
  - rewrite IH by (auto; lia). rewrite (Hext (Z.of_nat n)) by lia. lia.
Qed.

Lemma count_upto_full P n :
  count_upto P n = Z.of_nat n <-> forall i, 0 <= i < Z.of_nat n -> P i = true.
Proof.
  split.
  - induction n as [|n IH]; cbn [count_upto]; [lia|]. intros H i Hi.
    pose proof (count_upto_range P n). destruct (P (Z.of_nat n)) eqn:E; [|lia].
    destruct (Z.eq_dec i (Z.of_nat n)) as [->|]; [done|]. apply IH; lia.
  - induction n as [|n IH]; cbn [count_upto]; [done|]. intros H.
    rewrite IH, H by (intros; try apply H; lia). lia.
Qed.
