(* ===== verification/Pmm.v ===== *)
(** Physical memory manager of [src/kernel/memory.c]: the frame bitmap, the
    two free-frame searches and the frame allocator. *)
From Stdlib Require Import ZArith Lia.
From stdpp Require Import strings numbers gmap base.
From stdpp Require Import list.
From S2P Require Import Prelude.
Open Scope Z_scope.

Definition PAGE_SIZE : Z := 0x1000.

(** [align_down] and [align_up] at their 64-bit width. *)
Definition align_down (val align : Z) : Z := Z.land val (not64 (u64 (align - 1))).
Definition align_up (val align : Z) : Z := align_down (u64 (val + align - 1)) align.

(** ** State: the PMM globals of memory.c *)
Record pmm_state := mk_pmm {
  pmm_bitmap : list Z;
  pmm_bitmap_size_qwords : Z;
  pmm_total_frames : Z;
  pmm_used_frames : Z;
  pmm_highest_frame : Z;
  pmm_lock : bool;
  pmm_last_allocated_index : Z;
  hhdm_phys_offset : Z
}.

Definition with_bitmap (st : pmm_state) (bm : list Z) : pmm_state :=
  mk_pmm bm (pmm_bitmap_size_qwords st) (pmm_total_frames st) (pmm_used_frames st)
    (pmm_highest_frame st) (pmm_lock st) (pmm_last_allocated_index st) (hhdm_phys_offset st).
Definition with_used (st : pmm_state) (n : Z) : pmm_state :=
  mk_pmm (pmm_bitmap st) (pmm_bitmap_size_qwords st) (pmm_total_frames st) n
    (pmm_highest_frame st) (pmm_lock st) (pmm_last_allocated_index st) (hhdm_phys_offset st).
Definition with_pmm_lock (st : pmm_state) (b : bool) : pmm_state :=
  mk_pmm (pmm_bitmap st) (pmm_bitmap_size_qwords st) (pmm_total_frames st) (pmm_used_frames st)
    (pmm_highest_frame st) b (pmm_last_allocated_index st) (hhdm_phys_offset st).
Definition with_hint (st : pmm_state) (i : Z) : pmm_state :=
  mk_pmm (pmm_bitmap st) (pmm_bitmap_size_qwords st) (pmm_total_frames st) (pmm_used_frames st)
    (pmm_highest_frame st) (pmm_lock st) i (hhdm_phys_offset st).

(** The PMM together with the physical memory it hands out; [ram p] is the
    64-bit word at physical address [p]. *)
Record phys := mk_phys { pmm : pmm_state; ram : Z -> Z }.

(** ** Higher-half direct map *)
Definition phys_to_virt (st : pmm_state) (phys_addr : Z) : outcome Z :=
  ASSERT (negb (hhdm_phys_offset st =? 0)) "hhdm_phys_offset != 0" ;;
  Ok (u64 (phys_addr + hhdm_phys_offset st)).

Definition virt_to_phys (st : pmm_state) (virt_addr : Z) : outcome Z :=
  ASSERT (negb (hhdm_phys_offset st =? 0)) "hhdm_phys_offset != 0" ;;
  ASSERT (hhdm_phys_offset st <=? virt_addr) "virt_addr >= hhdm_phys_offset" ;;
  Ok (u64 (virt_addr - hhdm_phys_offset st)).

(** The physical address that the direct map gives a virtual address. *)
Definition hhdm_target (st : pmm_state) (virt_addr : Z) : Z :=
  u64 (virt_addr - hhdm_phys_offset st).

(** ** Bitmap primitives *)
Definition pmm_bitmap_set (st : pmm_state) (frame_index : Z) : outcome pmm_state :=
  let idx := frame_index / 64 in
  let bit := frame_index mod 64 in
  ASSERT (idx <? pmm_bitmap_size_qwords st) "idx < pmm_bitmap_size_qwords" ;;
  q ← arr_get (pmm_bitmap st) idx ;
  bm ← arr_set (pmm_bitmap st) idx (Z.lor q (shl64 1 bit)) ;
  Ok (with_bitmap st bm).

Definition pmm_bitmap_clear (st : pmm_state) (frame_index : Z) : outcome pmm_state :=
  let idx := frame_index / 64 in
  let bit := frame_index mod 64 in
  ASSERT (idx <? pmm_bitmap_size_qwords st) "idx < pmm_bitmap_size_qwords" ;;
  q ← arr_get (pmm_bitmap st) idx ;
  bm ← arr_set (pmm_bitmap st) idx (Z.land q (not64 (shl64 1 bit))) ;
  Ok (with_bitmap st bm).

Definition pmm_bitmap_test (st : pmm_state) (frame_index : Z) : outcome bool :=
  let idx := frame_index / 64 in
  let bit := frame_index mod 64 in
  ASSERT (idx <? pmm_bitmap_size_qwords st) "idx < pmm_bitmap_size_qwords" ;;
  q ← arr_get (pmm_bitmap st) idx ;
  Ok (negb (Z.land q (shl64 1 bit) =? 0)).

(** ** Searches

    Loop of the single-frame search: [n] iterations are left, [i] is the loop
    counter. *)
Fixpoint find_single_loop (st : pmm_state) (start_qword : Z) (n : nat) (i : Z) : outcome Z :=
  match n with
  | O => Ok (-1)
  | S n' =>
      current_qword_idx ← cmod (u64 (start_qword + i)) (pmm_bitmap_size_qwords st) ;
      qword ← arr_get (pmm_bitmap st) current_qword_idx ;
      if negb (qword =? UINT64_MAX) then
        let first_free_bit := ctz (not64 qword) in
        let frame_index := u64 (u64 (current_qword_idx * 64) + first_free_bit) in
        if frame_index <=? pmm_highest_frame st then Ok (s64 frame_index)
        else find_single_loop st start_qword n' (i + 1)
      else find_single_loop st start_qword n' (i + 1)
  end.

(** Loop of the contiguous search: [current_offset] runs over
    [0 .. pmm_highest_frame]. *)
Fixpoint find_run_loop (st : pmm_state) (count start_index : Z) (n : nat)
    (current_offset consecutive_free : Z) : outcome Z :=
  match n with
  | O => Ok (-1)
  | S n' =>
      search_index ← cmod (u64 (start_index + current_offset)) (u64 (pmm_highest_frame st + 1)) ;
      used ← pmm_bitmap_test st search_index ;
      if negb used then
        let consecutive_free := u64 (consecutive_free + 1) in
        if consecutive_free =? count then Ok (s64 (u64 (search_index - count + 1)))
        else find_run_loop st count start_index n' (current_offset + 1) consecutive_free
      else find_run_loop st count start_index n' (current_offset + 1) 0
  end.

Definition pmm_find_first_free_contiguous (st : pmm_state) (count : Z) : outcome Z :=
  if count =? 0 then Ok (-1)
  else if count =? 1 then
    let start_qword := pmm_last_allocated_index st / 64 in
    find_single_loop st start_qword (Z.to_nat (pmm_bitmap_size_qwords st)) 0
  else
    let start_index := u64 (pmm_last_allocated_index st + 1) in
    let start_index := if pmm_highest_frame st <? start_index then 0 else start_index in
    find_run_loop st count start_index (Z.to_nat (pmm_highest_frame st + 1)) 0 0.

(** ** Frame allocation *)
Definition pmm_alloc_frame (s : phys) : outcome (Z * phys) :=
  l ← spin_acquire (pmm_lock (pmm s)) ;
  let st := with_pmm_lock (pmm s) l in
  frame_index_signed ← pmm_find_first_free_contiguous st 1 ;
  if frame_index_signed =? -1 then Panic "PMM: Out of physical memory!"
  else
    let frame_index := u64 frame_index_signed in
    used ← pmm_bitmap_test st frame_index ;
    ASSERT (negb used) "!pmm_bitmap_test(frame_index)" ;;
    st ← pmm_bitmap_set st frame_index ;
    let st := with_used st (u64 (pmm_used_frames st + 1)) in
    let st := with_hint st frame_index in
    let phys_addr := u64 (frame_index * PAGE_SIZE) in
    virt_addr ← phys_to_virt st phys_addr ;
    let m := zero_range (ram s) (hhdm_target st virt_addr) PAGE_SIZE in
    Ok (phys_addr, mk_phys (with_pmm_lock st false) m).

Definition pmm_free_frame (s : phys) (phys_addr : Z) : outcome phys :=
  ASSERT (phys_addr mod PAGE_SIZE =? 0) "(phys_addr % PAGE_SIZE) == 0" ;;
  let frame_index := phys_addr / PAGE_SIZE in
  ASSERT (frame_index <=? pmm_highest_frame (pmm s)) "frame_index <= pmm_highest_frame" ;;
  l ← spin_acquire (pmm_lock (pmm s)) ;
  let st := with_pmm_lock (pmm s) l in
  used ← pmm_bitmap_test st frame_index ;
  if negb used then Panic "PMM: Attempted to free already free frame!"
  else
    st ← pmm_bitmap_clear st frame_index ;
    let st := with_used st (u64 (pmm_used_frames st - 1)) in
    Ok (mk_phys (with_pmm_lock st false) (ram s)).

(** ** Abstract view and invariant *)

(** The bit of frame [f]; frames outside the bitmap count as used. *)
Definition frame_used (st : pmm_state) (f : Z) : bool :=
  if f <? 0 then true
  else match pmm_bitmap st !! Z.to_nat (f / 64) with
       | Some q => Z.testbit q (f mod 64)
       | None => true
       end.

Definition used_count (st : pmm_state) : Z :=
  count_upto (frame_used st) (Z.to_nat (pmm_total_frames st)).

Record bitmap_wf (st : pmm_state) : Prop := {
  wf_len : pmm_bitmap_size_qwords st = Z.of_nat (length (pmm_bitmap st));
  wf_words : Forall in_u64 (pmm_bitmap st);
  wf_total : 0 < pmm_total_frames st <= 2 ^ 40;
  wf_cover : pmm_total_frames st <= 64 * pmm_bitmap_size_qwords st < pmm_total_frames st + 64;
  wf_highest : pmm_highest_frame st = pmm_total_frames st - 1;
  wf_hint : 0 <= pmm_last_allocated_index st < pmm_total_frames st;
  wf_hhdm : 0 < hhdm_phys_offset st < 2 ^ 64
}.

Record pmm_wf (st : pmm_state) : Prop := {
  wf_bitmap : bitmap_wf st;
  wf_used : pmm_used_frames st = used_count st;
  wf_unlocked : pmm_lock st = false
}.

(** ** Alignment *)

Lemma align_down_pow2 v k :
  0 <= k < 64 -> in_u64 v -> align_down v (2 ^ k) = v / 2 ^ k * 2 ^ k.
Proof.
  intros Hk Hv. unfold align_down.
  assert (0 < 2 ^ k < 2 ^ 64) as Hp by (split; [lia|apply Z.pow_lt_mono_r; lia]).
  rewrite (u64_small (2 ^ k - 1)) by (unfold in_u64; lia).
  apply land_not64_pow2; done.
Qed.

Lemma align_up_pow2 v k :
  0 <= k < 64 -> 0 <= v -> v + 2 ^ k <= 2 ^ 64 ->
  align_up v (2 ^ k) = (v + 2 ^ k - 1) / 2 ^ k * 2 ^ k.
Proof.
  intros Hk Hv Hs. assert (0 < 2 ^ k) by lia. unfold align_up.
  rewrite u64_small by (unfold in_u64; lia).
  apply align_down_pow2; [done|unfold in_u64; lia].
Qed.

(** The result of [align_up] is the least multiple of the alignment that is
    at least [v]. *)
Lemma align_up_bounds v k :
  0 <= k < 64 -> 0 <= v -> v + 2 ^ k <= 2 ^ 64 ->
  v <= align_up v (2 ^ k) < v + 2 ^ k /\ (2 ^ k | align_up v (2 ^ k)).
Proof.
  intros Hk Hv Hs. rewrite align_up_pow2 by done.
  assert (0 < 2 ^ k) by lia. split; [|apply Z.divide_factor_r].
  pose proof (Z.div_mod (v + 2 ^ k - 1) (2 ^ k) ltac:(lia)).
  pose proof (Z.mod_pos_bound (v + 2 ^ k - 1) (2 ^ k) ltac:(lia)). nia.
Qed.

(** ** Bitmap primitives against the abstract view *)

Lemma frame_split f : 0 <= f -> 0 <= f / 64 /\ 0 <= f mod 64 < 64 /\ f = 64 * (f / 64) + f mod 64.
Proof.
  intros Hf. pose proof (Z.mod_pos_bound f 64 ltac:(lia)).
  pose proof (Z.div_pos f 64 Hf ltac:(lia)). pose proof (Z.div_mod f 64 ltac:(lia)). lia.
Qed.

Lemma frame_lookup st f :
  bitmap_wf st -> 0 <= f < 64 * pmm_bitmap_size_qwords st ->
  exists q, pmm_bitmap st !! Z.to_nat (f / 64) = Some q /\ in_u64 q /\
            f / 64 < pmm_bitmap_size_qwords st.
Proof.
  intros Hwf Hf. pose proof (wf_len st Hwf) as Hlen.
  pose proof (frame_split f ltac:(lia)).
  destruct (lookup_lt_is_Some_2 (pmm_bitmap st) (Z.to_nat (f / 64))) as [q Hq]; [lia|].
  exists q. split; [done|]. split; [|lia].
  eapply Forall_lookup_1; [apply (wf_words st Hwf)|done].
Qed.

Lemma pmm_bitmap_test_spec st f :
  bitmap_wf st -> 0 <= f < 64 * pmm_bitmap_size_qwords st ->
  pmm_bitmap_test st f = Ok (frame_used st f).
Proof.
  intros Hwf Hf. destruct (frame_lookup st f Hwf Hf) as (q & Hq & _ & Hlt).
  pose proof (frame_split f ltac:(lia)).
  unfold pmm_bitmap_test, frame_used, arr_get.
  apply Z.ltb_lt in Hlt as ->. cbn. zcase (f / 64 <? 0). zcase (f <? 0).
  rewrite Hq. cbn. by rewrite testbit64_land, negb_involutive by lia.
Qed.

(** Both bitmap updates, for the word that replaces the one of frame [f]. *)
Lemma bitmap_update_used st f q q' g :
  bitmap_wf st -> 0 <= f < 64 * pmm_bitmap_size_qwords st ->
  pmm_bitmap st !! Z.to_nat (f / 64) = Some q ->
  (forall i, 0 <= i < 64 -> i <> f mod 64 -> Z.testbit q' i = Z.testbit q i) ->
  frame_used (with_bitmap st (<[Z.to_nat (f / 64) := q']> (pmm_bitmap st))) g =
  if g =? f then Z.testbit q' (f mod 64) else frame_used st g.
Proof.
  intros Hwf Hf Hq Hrest. unfold frame_used; cbn.
  pose proof (frame_split f ltac:(lia)) as Hsf. zcase (g <? 0); [zcase (g =? f)|].
  pose proof (frame_split g ltac:(lia)) as Hsg.
  destruct (Z.eq_dec (g / 64) (f / 64)) as [Heq|Hne].
  - rewrite Heq, list_lookup_insert_eq by (by apply lookup_lt_Some in Hq).
    rewrite Hq. zcase (g =? f); [by subst|]. apply Hrest; lia.
  - rewrite list_lookup_insert_ne by lia. zcase (g =? f).
Qed.

Lemma with_bitmap_wf st i q :
  bitmap_wf st -> in_u64 q -> bitmap_wf (with_bitmap st (<[i := q]> (pmm_bitmap st))).
Proof.
  intros [] Hq. constructor; cbn; try done.
  - by rewrite length_insert.
  - by apply Forall_insert.
Qed.

Lemma pmm_bitmap_set_spec st f :
  bitmap_wf st -> 0 <= f < 64 * pmm_bitmap_size_qwords st ->
  exists bm, pmm_bitmap_set st f = Ok (with_bitmap st bm) /\ bitmap_wf (with_bitmap st bm) /\
    forall g, frame_used (with_bitmap st bm) g = (g =? f) || frame_used st g.
Proof.
  intros Hwf Hf. destruct (frame_lookup st f Hwf Hf) as (q & Hq & Hqr & Hlt).
  pose proof (frame_split f ltac:(lia)) as Hs.
  exists (<[Z.to_nat (f / 64) := Z.lor q (shl64 1 (f mod 64))]> (pmm_bitmap st)).
  split; [|split].
  - unfold pmm_bitmap_set, arr_get, arr_set. rewrite <- (wf_len st Hwf).
    apply Z.ltb_lt in Hlt as ->. cbn. zcase (f / 64 <? 0). rewrite Hq. cbn.
    zcase (0 <=? f / 64).
  - apply with_bitmap_wf; [done|]. apply setbit64_range; [lia|done].
  - intros g. rewrite (bitmap_update_used st f q); [|done..|].
    + rewrite setbit64_bits, Z.eqb_refl by lia. by zcase (g =? f).
    + intros i Hi Hne. rewrite setbit64_bits by lia. zcase (i =? f mod 64).
Qed.

Lemma pmm_bitmap_clear_spec st f :
  bitmap_wf st -> 0 <= f < 64 * pmm_bitmap_size_qwords st ->
  exists bm, pmm_bitmap_clear st f = Ok (with_bitmap st bm) /\ bitmap_wf (with_bitmap st bm) /\
    forall g, frame_used (with_bitmap st bm) g = negb (g =? f) && frame_used st g.
Proof.
  intros Hwf Hf. destruct (frame_lookup st f Hwf Hf) as (q & Hq & Hqr & Hlt).
  pose proof (frame_split f ltac:(lia)) as Hs.
  exists (<[Z.to_nat (f / 64) := Z.land q (not64 (shl64 1 (f mod 64)))]> (pmm_bitmap st)).
  split; [|split].
  - unfold pmm_bitmap_clear, arr_get, arr_set. rewrite <- (wf_len st Hwf).
    apply Z.ltb_lt in Hlt as ->. cbn. zcase (f / 64 <? 0). rewrite Hq. cbn.
    zcase (0 <=? f / 64).
  - apply with_bitmap_wf; [done|]. apply clearbit64_range; [lia|done].
  - intros g. rewrite (bitmap_update_used st f q); [|done..|].
    + rewrite clearbit64_bits, Z.eqb_refl by (done || lia). by zcase (g =? f).
    + intros i Hi Hne. rewrite clearbit64_bits by (done || lia). zcase (i =? f mod 64).
Qed.

(** ** The single-frame search *)

(** No frame of bitmap word [c] is both free and managed. *)
Definition qword_full (st : pmm_state) (c : Z) : Prop :=
  forall b, 0 <= b < 64 -> 64 * c + b <= pmm_highest_frame st ->
  frame_used st (64 * c + b) = true.

Lemma frame_used_word st c b q :
  0 <= c -> 0 <= b < 64 -> pmm_bitmap st !! Z.to_nat c = Some q ->
  frame_used st (64 * c + b) = Z.testbit q b.
Proof.
  intros Hc Hb Hq. unfold frame_used. zcase (64 * c + b <? 0).
  replace ((64 * c + b) / 64) with c by (Z.div_mod_to_equations; lia).
  replace ((64 * c + b) mod 64) with b by (Z.div_mod_to_equations; lia). by rewrite Hq.
Qed.

Lemma not64_pos q : in_u64 q -> q <> UINT64_MAX -> 0 < not64 q < 2 ^ 64.
Proof. unfold in_u64, not64, UINT64_MAX. lia. Qed.

Lemma qword_first_free q :
  in_u64 q -> q <> UINT64_MAX ->
  0 <= ctz (not64 q) < 64 /\ Z.testbit q (ctz (not64 q)) = false /\
  forall b, 0 <= b < ctz (not64 q) -> Z.testbit q b = true.
Proof.
  intros Hq Hne. pose proof (not64_pos q Hq Hne) as Hp.
  pose proof (ctz_nonneg (not64 q)) as H0. pose proof (ctz_lt (not64 q) 64 ltac:(lia) Hp) as H1.
  split; [lia|]. split.
  - pose proof (ctz_true (not64 q) ltac:(lia)) as Ht.
    rewrite not64_bits in Ht by done. by zbool.
  - intros b Hb. pose proof (ctz_below (not64 q) b ltac:(lia) Hb) as Ht.
    rewrite not64_bits in Ht by (done || lia). zcase (b <? 64). cbn in Ht. by zbool.
Qed.

Lemma uint64_max_bits b : 0 <= b < 64 -> Z.testbit UINT64_MAX b = true.
Proof. intros Hb. apply (Z.ones_spec_low 64). done. Qed.

Lemma find_single_loop_spec st start n i :
  bitmap_wf st -> 0 <= start <= 2 ^ 52 -> 0 <= i ->
  i + Z.of_nat n = pmm_bitmap_size_qwords st ->
  exists r, find_single_loop st start n i = Ok r /\
  ((r = -1 /\ forall j, i <= j < pmm_bitmap_size_qwords st ->
      qword_full st ((start + j) mod pmm_bitmap_size_qwords st)) \/
   (0 <= r < pmm_total_frames st /\ frame_used st r = false)).
Proof.
  intros Hwf Hs. pose proof Hwf as [Hlen Hwords Htot Hcov Hhi _ _].
  set (sz := pmm_bitmap_size_qwords st) in *. revert i.
  induction n as [|n IH]; intros i Hi Hn; cbn [find_single_loop].
  { exists (-1). split; [done|]. left. split; [done|]. lia. }
  rewrite u64_small by (unfold in_u64; lia). unfold cmod. fold sz. zcase (sz =? 0). cbn [mbind outcome_bind].
  set (c := (start + i) mod sz). assert (0 <= c < sz) as Hc by (apply Z.mod_pos_bound; lia).
  destruct (frame_lookup st (64 * c) Hwf ltac:(fold sz; lia)) as (q & Hq & Hqr & _).
  rewrite (Z.mul_comm 64 c), Z.div_mul in Hq by lia.
  unfold arr_get. zcase (c <? 0). rewrite Hq. cbn [mbind outcome_bind].
  destruct (IH (i + 1)) as (r & Hr & Hcase); [lia..|].
  assert (qword_full st c -> exists r, find_single_loop st start n (i + 1) = Ok r /\
    ((r = -1 /\ forall j, i <= j < sz -> qword_full st ((start + j) mod sz)) \/
    (0 <= r < pmm_total_frames st /\ frame_used st r = false))) as Hnext.
  { intros Hfull. exists r. split; [done|]. destruct Hcase as [[-> Hj]|]; [left|by right].
    split; [done|]. intros j Hji. destruct (Z.eq_dec j i) as [->|]; [done|apply Hj; lia]. }
  destruct (Z.eqb_spec q UINT64_MAX) as [->|Hne]; cbn [negb].
  - apply Hnext. intros b Hb _. rewrite (frame_used_word st c b UINT64_MAX) by (done || lia).
    by apply uint64_max_bits.
  - destruct (qword_first_free q Hqr Hne) as (Hb & Hfree & Hbelow).
    set (b := ctz (not64 q)) in *.
    rewrite (u64_small (c * 64)) by (unfold in_u64; lia).
    rewrite (u64_small (c * 64 + b)) by (unfold in_u64; lia).
    zcase (c * 64 + b <=? pmm_highest_frame st).
    + exists (c * 64 + b). rewrite s64_small by lia. split; [done|]. right.
      split; [lia|]. rewrite Z.mul_comm. by rewrite (frame_used_word st c b q) by (done || lia).
    + apply Hnext. intros b' Hb' Hle. rewrite (frame_used_word st c b' q) by (done || lia).
      apply Hbelow. lia.
Qed.

Lemma pmm_find_one st :
  bitmap_wf st ->
  exists r, pmm_find_first_free_contiguous st 1 = Ok r /\
  ((r = -1 /\ forall f, 0 <= f < pmm_total_frames st -> frame_used st f = true) \/
   (0 <= r < pmm_total_frames st /\ frame_used st r = false)).
Proof.
  intros Hwf. pose proof Hwf as [Hlen Hwords Htot Hcov Hhi Hhint _].
  set (start := pmm_last_allocated_index st / 64).
  assert (0 <= start <= 2 ^ 52) by (subst start; Z.div_mod_to_equations; lia).
  destruct (find_single_loop_spec st start (Z.to_nat (pmm_bitmap_size_qwords st)) 0)
    as (r & Hr & Hcase); [done|done|lia|lia|].
  exists r. split; [exact Hr|]. destruct Hcase as [[-> Hfull]|]; [left|by right].
  split; [done|]. intros f Hf. pose proof (frame_split f ltac:(lia)) as Hs.
  set (sz := pmm_bitmap_size_qwords st) in *.
  pose proof (Z.mod_pos_bound (f / 64 - start) sz ltac:(lia)) as Hj.
  specialize (Hfull _ Hj). rewrite Zplus_mod_idemp_r in Hfull.
  replace (start + (f / 64 - start)) with (f / 64) in Hfull by lia.
  rewrite Z.mod_small in Hfull by lia.
  specialize (Hfull (f mod 64)). replace (64 * (f / 64) + f mod 64) with f in Hfull by lia.
  apply Hfull; lia.
Qed.

(** ** Allocation and release of one frame *)

(** What a successful allocation of frame [f] does. *)
Record alloc_post (s : phys) (f : Z) (s' : phys) : Prop := {
  ap_range : 0 <= f < pmm_total_frames (pmm s);
  ap_was_free : frame_used (pmm s) f = false;
  ap_used : forall g, frame_used (pmm s') g = (g =? f) || frame_used (pmm s) g;
  ap_ram : ram s' = zero_range (ram s) (f * PAGE_SIZE) PAGE_SIZE;
  ap_wf : pmm_wf (pmm s');
  ap_count : pmm_used_frames (pmm s') = pmm_used_frames (pmm s) + 1;
  ap_total : pmm_total_frames (pmm s') = pmm_total_frames (pmm s);
  ap_hhdm : hhdm_phys_offset (pmm s') = hhdm_phys_offset (pmm s)
}.

(** What a release of frame [f] does. *)
Record free_post (s : phys) (f : Z) (s' : phys) : Prop := {
  fp_was_used : frame_used (pmm s) f = true;
  fp_used : forall g, frame_used (pmm s') g = negb (g =? f) && frame_used (pmm s) g;
  fp_ram : ram s' = ram s;
  fp_wf : pmm_wf (pmm s');
  fp_count : pmm_used_frames (pmm s') = pmm_used_frames (pmm s) - 1;
  fp_total : pmm_total_frames (pmm s') = pmm_total_frames (pmm s);
  fp_hhdm : hhdm_phys_offset (pmm s') = hhdm_phys_offset (pmm s)
}.

(** Only the lock, the counter and the hint may change beside the bitmap. *)
Lemma bitmap_wf_lock st b : bitmap_wf st -> bitmap_wf (with_pmm_lock st b).
Proof. intros []. by constructor. Qed.

Lemma bitmap_wf_used st n : bitmap_wf st -> bitmap_wf (with_used st n).
Proof. intros []. by constructor. Qed.

Lemma bitmap_wf_hint st f :
  bitmap_wf st -> 0 <= f < pmm_total_frames st -> bitmap_wf (with_hint st f).
Proof. intros [] ?. by constructor. Qed.

#[export] Hint Resolve bitmap_wf_lock bitmap_wf_used bitmap_wf_hint : kernel.

Lemma used_count_range st : 0 < pmm_total_frames st -> 0 <= used_count st <= pmm_total_frames st.
Proof. intros H. unfold used_count. pose proof (count_upto_range (frame_used st) (Z.to_nat (pmm_total_frames st))). lia. Qed.

Lemma hhdm_roundtrip st h p :
  hhdm_phys_offset st = h -> in_u64 p -> hhdm_target st (u64 (p + h)) = p.
Proof.
  intros <- Hp. unfold hhdm_target, u64, wrap. rewrite Zminus_mod_idemp_l.
  replace (p + hhdm_phys_offset st - hhdm_phys_offset st) with p by lia.
  apply Z.mod_small. exact Hp.
Qed.

Lemma used_count_set st st' f :
  0 <= f < pmm_total_frames st -> pmm_total_frames st' = pmm_total_frames st ->
  frame_used st f = false -> (forall g, frame_used st' g = (g =? f) || frame_used st g) ->
  used_count st' = used_count st + 1.
Proof.
  intros Hf Ht Hfree Hg. unfold used_count. rewrite Ht.
  apply count_upto_flip with f; [lia|done| |].
  - by rewrite Hg, Z.eqb_refl.
  - intros i Hi. rewrite Hg. zcase (i =? f).
Qed.

Lemma used_count_clear st st' f :
  0 <= f < pmm_total_frames st -> pmm_total_frames st' = pmm_total_frames st ->
  frame_used st f = true -> (forall g, frame_used st' g = negb (g =? f) && frame_used st g) ->
  used_count st' = used_count st - 1.
Proof.
  intros Hf Ht Husd Hg.
  enough (used_count st = used_count st' + 1) by lia.
  apply used_count_set with f; [by rewrite Ht|done| |].
  - by rewrite Hg, Z.eqb_refl.
  - intros g. rewrite Hg. by zcase (g =? f); subst.
Qed.

Lemma alloc_found s r :
  pmm_wf (pmm s) -> 0 <= r < pmm_total_frames (pmm s) -> frame_used (pmm s) r = false ->
  pmm_find_first_free_contiguous (with_pmm_lock (pmm s) true) 1 = Ok r ->
  exists s', pmm_alloc_frame s = Ok (r * PAGE_SIZE, s') /\ alloc_post s r s'.
Proof.
  intros [Hwf Hused Hlock] Hr Hfree Hfind.
  pose proof Hwf as [Hlen Hwords Htot Hcov Hhi Hhint Hh].
  unfold pmm_alloc_frame. rewrite Hlock. cbn [spin_acquire mbind outcome_bind].
  rewrite Hfind. cbn [mbind outcome_bind]. zcase (r =? -1).
  rewrite (u64_small r) by (unfold in_u64; lia).
  rewrite pmm_bitmap_test_spec by (auto with kernel; cbn; lia).
  change (frame_used (with_pmm_lock (pmm s) true) r) with (frame_used (pmm s) r).
  rewrite Hfree. cbn [mbind outcome_bind negb ASSERT].
  destruct (pmm_bitmap_set_spec (with_pmm_lock (pmm s) true) r) as (bm & Hset & Hwf' & Hg);
    [auto with kernel|cbn; lia|].
  rewrite Hset. cbn [mbind outcome_bind].
  unfold phys_to_virt. cbn [with_hint with_used with_bitmap with_pmm_lock hhdm_phys_offset].
  zcase (hhdm_phys_offset (pmm s) =? 0). cbn [ASSERT negb mbind outcome_bind].
  assert (in_u64 (r * PAGE_SIZE)) as Hra by (unfold in_u64, PAGE_SIZE; lia).
  rewrite (u64_small (r * PAGE_SIZE)), hhdm_roundtrip by done.
  assert (used_count (with_bitmap (with_pmm_lock (pmm s) true) bm) = used_count (pmm s) + 1) as Hc.
  { apply used_count_set with r; done. }
  pose proof (used_count_range (pmm s) ltac:(lia)).
  assert (u64 (pmm_used_frames (pmm s) + 1) = pmm_used_frames (pmm s) + 1) as Hu.
  { apply u64_small. unfold in_u64. lia. }
  eexists. split; [reflexivity|]. constructor; cbn; try done.
  constructor; cbn; [auto 6 with kernel| |done]. rewrite Hu, Hused. symmetry. exact Hc.
Qed.

Lemma pmm_alloc_cases s :
  pmm_wf (pmm s) ->
  (exists f s', pmm_alloc_frame s = Ok (f * PAGE_SIZE, s') /\ alloc_post s f s') \/
  (pmm_alloc_frame s = Panic "PMM: Out of physical memory!" /\
   forall f, 0 <= f < pmm_total_frames (pmm s) -> frame_used (pmm s) f = true).
Proof.
  intros Hwf. pose proof Hwf as [Hbm _ Hlock].
  destruct (pmm_find_one (with_pmm_lock (pmm s) true)) as (r & Hfind & [[-> Hfull]|[Hr Hfree]]).
  { auto with kernel. }
  - right. split; [|exact Hfull]. unfold pmm_alloc_frame. rewrite Hlock.
    cbn [spin_acquire mbind outcome_bind]. by rewrite Hfind.
  - left. destruct (alloc_found s r Hwf Hr Hfree Hfind) as (s' & ? & ?). eauto.
Qed.

Lemma free_used s f :
  pmm_wf (pmm s) -> 0 <= f < pmm_total_frames (pmm s) -> frame_used (pmm s) f = true ->
  exists s', pmm_free_frame s (f * PAGE_SIZE) = Ok s' /\ free_post s f s'.
Proof.
  intros [Hwf Hused Hlock] Hf Hu.
  pose proof Hwf as [Hlen Hwords Htot Hcov Hhi Hhint Hh].
  unfold pmm_free_frame. rewrite Z.mod_mul, Z.div_mul by done. cbn [ASSERT mbind outcome_bind Z.eqb].
  zcase (f <=? pmm_highest_frame (pmm s)). cbn [ASSERT mbind outcome_bind].
  rewrite Hlock. cbn [spin_acquire mbind outcome_bind].
  rewrite pmm_bitmap_test_spec by (auto with kernel; cbn; lia).
  change (frame_used (with_pmm_lock (pmm s) true) f) with (frame_used (pmm s) f).
  rewrite Hu. cbn [mbind outcome_bind negb].
  destruct (pmm_bitmap_clear_spec (with_pmm_lock (pmm s) true) f) as (bm & Hcl & Hwf' & Hg);
    [auto with kernel|cbn; lia|].
  rewrite Hcl. cbn [mbind outcome_bind].
  assert (used_count (with_bitmap (with_pmm_lock (pmm s) true) bm) = used_count (pmm s) - 1) as Hc.
  { apply used_count_clear with f; done. }
  pose proof (used_count_range (with_bitmap (with_pmm_lock (pmm s) true) bm) ltac:(cbn; lia)) as Hrg.
  assert (u64 (pmm_used_frames (pmm s) - 1) = pmm_used_frames (pmm s) - 1) as Hu'.
  { apply u64_small. unfold in_u64. cbn in Hrg. lia. }
  eexists. split; [reflexivity|]. constructor; cbn; try done.
  constructor; cbn; [auto 6 with kernel| |done]. rewrite Hu', Hused. symmetry. exact Hc.
Qed.

(** ** Interface for the clients of the allocator

    What the virtual memory manager and the kernel heap rely on: on a
    well-formed PMM an allocation either behaves as [alloc_post] says or
    panics with every managed frame in use, and the release of a frame in use
    behaves as [free_post] says. *)
Class FrameAllocator (alloc : phys -> outcome (Z * phys)) (free : phys -> Z -> outcome phys)
    : Prop := {
  fa_alloc : forall s, pmm_wf (pmm s) ->
    (exists f s', alloc s = Ok (f * PAGE_SIZE, s') /\ alloc_post s f s') \/
    (exists why, alloc s = Panic why /\
       forall f, 0 <= f < pmm_total_frames (pmm s) -> frame_used (pmm s) f = true);
  fa_free : forall s f, pmm_wf (pmm s) -> 0 <= f < pmm_total_frames (pmm s) ->
    frame_used (pmm s) f = true ->
    exists s', free s (f * PAGE_SIZE) = Ok s' /\ free_post s f s'
}.

#[export] Instance pmm_frame_allocator : FrameAllocator pmm_alloc_frame pmm_free_frame.
Proof.
  constructor; [|apply free_used]. intros s Hwf.
  destruct (pmm_alloc_cases s Hwf) as [?|[? ?]]; eauto.
Qed.

(** ** The contiguous search *)

Lemma find_run_loop_sound st count start n o c r :
  bitmap_wf st -> 0 < count < 2 ^ 64 -> 0 <= start < pmm_total_frames st ->
  0 <= c <= o -> o + Z.of_nat n <= pmm_total_frames st ->
  (forall j, o - c <= j < o -> frame_used st ((start + j) mod pmm_total_frames st) = false) ->
  find_run_loop st count start n o c = Ok r -> 0 <= r ->
  r + count <= pmm_total_frames st /\ forall f, r <= f < r + count -> frame_used st f = false.
Proof.
  intros Hwf Hcount Hstart. pose proof Hwf as [Hlen Hwords Htot Hcov Hhi _ _].
  set (N := pmm_total_frames st) in *. revert o c.
  induction n as [|n IH]; intros o c Hc Hn Hrun; cbn [find_run_loop].
  { intros [= <-]. lia. }
  rewrite (u64_small (start + o)), (u64_small (pmm_highest_frame st + 1)) by (unfold in_u64; lia).
  replace (pmm_highest_frame st + 1) with N by lia.
  unfold cmod. zcase (N =? 0). cbn [mbind outcome_bind].
  pose proof (Z.mod_pos_bound (start + o) N ltac:(lia)) as Hsi.
  set (si := (start + o) mod N) in *.
  rewrite pmm_bitmap_test_spec by (done || lia). cbn [mbind outcome_bind].
  destruct (frame_used st si) eqn:Eu; cbn [negb].
  { apply IH; [lia..|]. intros j Hj. lia. }
  rewrite (u64_small (c + 1)) by (unfold in_u64; lia).
  assert (forall j, o + 1 - (c + 1) <= j < o + 1 -> frame_used st ((start + j) mod N) = false) as Hrun'.
  { intros j Hj. destruct (Z.eq_dec j o) as [->|]; [done|]. apply Hrun. lia. }
  zcase (c + 1 =? count); [|apply IH; [lia..|done]].
  intros [= <-] Hr. assert (0 <= si - count + 1) as Hnn.
  { destruct (Z.ltb_spec (si - count + 1) 0); [|done]. exfalso. revert Hr.
    unfold s64, signed, u64, wrap. rewrite Zmod_mod.
    rewrite <- (Z_mod_plus_full (si - count + 1) 1), (Z.mod_small (si - count + 1 + 1 * 2 ^ 64)) by lia.
    change (64 - 1) with 63. zcase (si - count + 1 + 1 * 2 ^ 64 <? 2 ^ 63). }
  rewrite u64_small, s64_small by (unfold in_u64; lia). split; [lia|].
  intros f Hf. specialize (Hrun' (o - (si - f)) ltac:(lia)). rewrite <- Hrun'. f_equal.
  replace (start + (o - (si - f))) with (start + o + (f - si)) by lia.
  rewrite <- Zplus_mod_idemp_l. fold si. rewrite Z.mod_small; lia.
Qed.

(** Clients of the frame allocator: [live] is the list of frames handed out
    and not yet returned. *)
Inductive pmm_step : phys * list Z -> phys * list Z -> Prop :=
| pmm_step_alloc s live p s' :
    pmm_alloc_frame s = Ok (p, s') -> pmm_step (s, live) (s', p :: live)
| pmm_step_free s l1 p l2 s' :
    pmm_free_frame s p = Ok s' -> pmm_step (s, l1 ++ p :: l2) (s', l1 ++ l2).

(** Frames that [s0] had reserved stay reserved, live frames are distinct,
    page aligned, marked used, and account for the growth of the counter. *)
Record live_inv (s0 : phys) (s : phys) (live : list Z) : Prop := {
  li_wf : pmm_wf (pmm s);
  li_total : pmm_total_frames (pmm s) = pmm_total_frames (pmm s0);
  li_nodup : NoDup live;
  li_live : Forall (fun p => exists f, p = f * PAGE_SIZE /\ 0 <= f < pmm_total_frames (pmm s0) /\
                      frame_used (pmm s0) f = false) live;
  li_used : forall f, 0 <= f < pmm_total_frames (pmm s0) ->
    frame_used (pmm s) f = true <-> frame_used (pmm s0) f = true \/ f * PAGE_SIZE ∈ live;
  li_count : pmm_used_frames (pmm s) = pmm_used_frames (pmm s0) + Z.of_nat (length live)
}.

Lemma live_inv_init s0 : pmm_wf (pmm s0) -> live_inv s0 s0 [].
Proof.
  intros H. constructor; try done; [constructor| |cbn; lia].
  intros f _. set_solver.
Qed.

Lemma live_inv_alloc s0 s live f s' :
  live_inv s0 s live -> alloc_post s f s' -> live_inv s0 s' (f * PAGE_SIZE :: live).
Proof.
  intros [Hwf Ht Hnd Hl Hu Hc] [Hr Hfree Hg Hram Hwf' Hcnt Ht' _].
  rewrite Ht in Hr.
  assert (f * PAGE_SIZE ∉ live) as Hni.
  { intros Hin. specialize (Hu f Hr) as [_ Hu]. rewrite Hu in Hfree by auto. done. }
  assert (frame_used (pmm s0) f = false) as Hf0.
  { destruct (frame_used (pmm s0) f) eqn:E; [|done].
    specialize (Hu f Hr) as [_ Hu]. rewrite Hu in Hfree by auto. done. }
  constructor; [done|lia|by constructor| | |rewrite length_cons; lia].
  - constructor; eauto.
  - intros g Hgr. rewrite Hg. destruct (Z.eqb_spec g f) as [->|Hne]; cbn [orb].
    + set_solver.
    + rewrite Hu by done. rewrite elem_of_cons.
      assert (g * PAGE_SIZE <> f * PAGE_SIZE) by (unfold PAGE_SIZE; lia). tauto.
Qed.

Lemma live_inv_free s0 s l1 p l2 s' :
  live_inv s0 s (l1 ++ p :: l2) -> pmm_free_frame s p = Ok s' -> live_inv s0 s' (l1 ++ l2).
Proof.
  intros [Hwf Ht Hnd Hl Hu Hc] Hfree.
  assert (p ∈ l1 ++ p :: l2) as Hp by set_solver.
  pose proof (proj1 (Forall_forall _ _) Hl p Hp) as (f & -> & Hf & Hf0).
  assert (frame_used (pmm s) f = true) as Hus by (apply Hu; auto).
  destruct (free_used s f Hwf ltac:(lia) Hus) as (s1 & Hs1 & [_ Hg _ Hwf' Hcnt Ht' _]).
  rewrite Hs1 in Hfree. injection Hfree as <-.
  rewrite <- Permutation_middle in Hnd. apply NoDup_cons in Hnd as [Hni Hnd].
  constructor; [done|lia|done| | |].
  - rewrite Forall_forall in *. intros x Hx. apply Hl. set_solver.
  - intros g Hgr. rewrite Hg. destruct (Z.eqb_spec g f) as [->|Hne]; cbn [negb andb].
    + split; [done|]. intros [?|?]; [congruence|done].
    + rewrite Hu by done. rewrite !elem_of_app, elem_of_cons.
      assert (g * PAGE_SIZE <> f * PAGE_SIZE) by (unfold PAGE_SIZE; lia). tauto.
  - rewrite Hcnt, Hc, !length_app, length_cons. lia.
Qed.

Lemma live_inv_reachable s0 c :
  pmm_wf (pmm s0) -> rtc pmm_step (s0, []) c -> live_inv s0 c.1 c.2.
Proof.
  intros Hwf Hr. change c.2 with (snd c).
  assert (live_inv s0 (s0, @nil Z).1 (s0, @nil Z).2) as Hi by (by apply live_inv_init).
  revert Hi. induction Hr as [|c1 c2 c3 Hstep _ IH]; [done|]. intros Hi. apply IH. clear IH.
  inversion Hstep as [s live p s' Ha|s l1 p l2 s' Hf]; subst; cbn in *.
  - destruct (pmm_alloc_cases s (li_wf _ _ _ Hi)) as [(f & s1 & Ha' & Hp)|[Ha' _]];
      rewrite Ha in Ha'; [|done]. injection Ha' as -> ->. by apply live_inv_alloc with s.
  - by apply live_inv_free with s p.
Qed.

(** ** Properties *)

(** C1: On a well-formed PMM, [pmm_alloc_frame] either returns the address of
    a frame that was free, marks exactly that frame used, zeroes exactly its
    4096 bytes, adds one to the used counter and releases the lock, or it
    panics with "out of physical memory", and it panics only when every
    managed frame is in use. *)
Theorem pmm_alloc_frame_correct (s : phys) :
  pmm_wf (pmm s) ->
  (exists f s', pmm_alloc_frame s = Ok (f * PAGE_SIZE, s') /\ alloc_post s f s' /\
     pmm_used_frames (pmm s) < pmm_total_frames (pmm s)) \/
  (pmm_alloc_frame s = Panic "PMM: Out of physical memory!" /\
     pmm_used_frames (pmm s) = pmm_total_frames (pmm s)).
Proof.
  intros Hwf. pose proof (wf_total _ (wf_bitmap _ Hwf)).
  destruct (pmm_alloc_cases s Hwf) as [(f & s' & Ha & Hp)|[Ha Hall]].
  - left. exists f, s'. split; [done|]. split; [done|].
    pose proof (ap_count _ _ _ Hp). pose proof (ap_total _ _ _ Hp).
    rewrite (wf_used _ (ap_wf _ _ _ Hp)) in *.
    pose proof (used_count_range (pmm s') ltac:(lia)). lia.
  - right. split; [done|]. rewrite (wf_used _ Hwf). unfold used_count.
    rewrite (proj2 (count_upto_full _ _)); [lia|]. intros i Hi. apply Hall. lia.
Qed.

(** A PMM with 128 frames, of which 3, 70 and 127 are free. *)
Definition demo_pmm : pmm_state :=
  mk_pmm [UINT64_MAX - 2 ^ 3; UINT64_MAX - 2 ^ 6 - 2 ^ 63] 2 128 125 127 false 10
    0xFFFF800000000000.

Lemma demo_pmm_wf : pmm_wf demo_pmm.
Proof.
  constructor; [constructor|vm_compute; reflexivity|reflexivity]; cbn; try lia.
  repeat constructor; vm_compute; congruence.
Qed.

Lemma pmm_alloc_frame_correct_witness :
  (exists f s', pmm_alloc_frame (mk_phys demo_pmm (fun _ => 7)) = Ok (f * PAGE_SIZE, s') /\
     alloc_post (mk_phys demo_pmm (fun _ => 7)) f s' /\ 125 < 128) \/
  (pmm_alloc_frame (mk_phys demo_pmm (fun _ => 7)) = Panic "PMM: Out of physical memory!" /\
     125 = 128).
Proof.
  exact (pmm_alloc_frame_correct (mk_phys demo_pmm (fun _ => 7)) demo_pmm_wf).
Defined.

(** C20: [pmm_free_frame] on every branch: a misaligned address, an address past
    the highest frame and a frame that is already free each panic; otherwise
    exactly that frame becomes free, the counter drops by one, memory is
    untouched and the lock is released. *)
Theorem pmm_free_frame_correct (s : phys) (p : Z) :
  pmm_wf (pmm s) -> in_u64 p ->
  (p mod PAGE_SIZE <> 0 ->
     pmm_free_frame s p = Panic "(phys_addr % PAGE_SIZE) == 0") /\
  (p mod PAGE_SIZE = 0 -> pmm_total_frames (pmm s) <= p / PAGE_SIZE ->
     pmm_free_frame s p = Panic "frame_index <= pmm_highest_frame") /\
  (p mod PAGE_SIZE = 0 -> p / PAGE_SIZE < pmm_total_frames (pmm s) ->
     if frame_used (pmm s) (p / PAGE_SIZE)
     then exists s', pmm_free_frame s p = Ok s' /\ free_post s (p / PAGE_SIZE) s'
     else pmm_free_frame s p = Panic "PMM: Attempted to free already free frame!").
Proof.
  intros Hwf Hp. pose proof Hwf as [Hbm _ Hlock].
  pose proof (wf_highest _ Hbm). pose proof (wf_cover _ Hbm).
  assert (0 <= p / PAGE_SIZE) as Hd by (apply Z.div_pos; unfold in_u64, PAGE_SIZE in *; lia).
  split; [|split]; intros Hal; [|intros Hge|intros Hlt].
  - unfold pmm_free_frame. by apply Z.eqb_neq in Hal as ->.
  - unfold pmm_free_frame. apply Z.eqb_eq in Hal as ->. cbn [ASSERT mbind outcome_bind].
    zcase (p / PAGE_SIZE <=? pmm_highest_frame (pmm s)).
  - destruct (frame_used (pmm s) (p / PAGE_SIZE)) eqn:E.
    + assert (p = p / PAGE_SIZE * PAGE_SIZE) as Hpe
        by (rewrite (Z.div_mod p PAGE_SIZE) at 1 by done; lia).
      destruct (free_used s (p / PAGE_SIZE)) as (s' & Hs' & ?); [done|lia|done|].
      rewrite <- Hpe in Hs'. eauto.
    + unfold pmm_free_frame. apply Z.eqb_eq in Hal as ->. cbn [ASSERT mbind outcome_bind].
      zcase (p / PAGE_SIZE <=? pmm_highest_frame (pmm s)). cbn [ASSERT mbind outcome_bind].
      rewrite Hlock. cbn [spin_acquire mbind outcome_bind].
      rewrite pmm_bitmap_test_spec by (auto with kernel; cbn; lia).
      change (frame_used (with_pmm_lock (pmm s) true)) with (frame_used (pmm s)). by rewrite E.
Qed.

Lemma pmm_free_frame_correct_witness :
  exists s', pmm_free_frame (mk_phys demo_pmm (fun _ => 7)) (5 * 4096) = Ok s' /\
    free_post (mk_phys demo_pmm (fun _ => 7)) 5 s'.
Proof.
  pose proof (pmm_free_frame_correct (mk_phys demo_pmm (fun _ => 7)) (5 * 4096) demo_pmm_wf
    ltac:(unfold in_u64; lia)) as (_ & _ & H).
  exact (H eq_refl eq_refl).
Defined.

(** C2: Over any interleaving of allocations and releases, the frames that are
    currently handed out are pairwise distinct, page aligned and were not
    reserved at the start; a frame is marked used exactly when it was reserved
    or is handed out; the used counter is exact; the lock is free; and a
    release of any outstanding frame succeeds. *)
Theorem pmm_no_double_allocation (s0 s : phys) (live : list Z) :
  pmm_wf (pmm s0) -> rtc pmm_step (s0, []) (s, live) ->
  live_inv s0 s live /\ forall p, p ∈ live -> exists s', pmm_free_frame s p = Ok s'.
Proof.
  intros Hwf Hr. pose proof (live_inv_reachable s0 (s, live) Hwf Hr) as Hi. cbn in Hi.
  split; [done|]. intros p Hp.
  pose proof (proj1 (Forall_forall _ _) (li_live _ _ _ Hi) p Hp) as (f & -> & Hf & _).
  pose proof (li_total _ _ _ Hi).
  destruct (free_used s f (li_wf _ _ _ Hi)) as (s' & Hs' & _); [lia| |eauto].
  apply (li_used _ _ _ Hi); auto.
Qed.

(** The demo state after one and after two allocations. *)
Definition demo_phys : phys := mk_phys demo_pmm (fun _ => 7).
Definition demo_phys1 : phys :=
  mk_phys (mk_pmm [UINT64_MAX; UINT64_MAX - 2 ^ 6 - 2 ^ 63] 2 128 126 127 false 3
    0xFFFF800000000000) (zero_range (fun _ => 7) (3 * 4096) 4096).
Definition demo_phys2 : phys :=
  mk_phys (mk_pmm [UINT64_MAX; UINT64_MAX - 2 ^ 63] 2 128 127 127 false 70
    0xFFFF800000000000) (zero_range (zero_range (fun _ => 7) (3 * 4096) 4096) (70 * 4096) 4096).

Lemma demo_alloc1 : pmm_alloc_frame demo_phys = Ok (3 * 4096, demo_phys1).
Proof. reflexivity. Qed.

Lemma demo_alloc2 : pmm_alloc_frame demo_phys1 = Ok (70 * 4096, demo_phys2).
Proof. reflexivity. Qed.

Lemma demo_two_allocs : rtc pmm_step (demo_phys, []) (demo_phys2, [70 * 4096; 3 * 4096]).
Proof.
  eapply rtc_l; [apply pmm_step_alloc, demo_alloc1|].
  eapply rtc_l; [apply pmm_step_alloc, demo_alloc2|]. apply rtc_refl.
Qed.

Lemma pmm_no_double_allocation_witness :
  live_inv demo_phys demo_phys2 [70 * 4096; 3 * 4096].
Proof.
  exact (proj1 (pmm_no_double_allocation demo_phys demo_phys2 _ demo_pmm_wf demo_two_allocs)).
Defined.

(** A non-negative result of the contiguous search (two or more frames) is
    the start of a block of [count] managed frames that are all free. *)
Theorem pmm_find_contiguous_sound (st : pmm_state) (count r : Z) :
  bitmap_wf st -> 1 < count < 2 ^ 64 ->
  pmm_find_first_free_contiguous st count = Ok r -> 0 <= r ->
  r + count <= pmm_total_frames st /\ forall f, r <= f < r + count -> frame_used st f = false.
Proof.
  intros Hwf Hc. pose proof Hwf as [_ _ Htot _ Hhi Hhint _].
  unfold pmm_find_first_free_contiguous. zcase (count =? 0). zcase (count =? 1).
  rewrite (u64_small (pmm_last_allocated_index st + 1)) by (unfold in_u64; lia).
  apply find_run_loop_sound; try done; try lia.
  zcase (pmm_highest_frame st <? pmm_last_allocated_index st + 1).
Qed.

Lemma pmm_find_contiguous_sound_witness :
  pmm_find_first_free_contiguous
    (mk_pmm [UINT64_MAX - 7 * 2 ^ 20] 1 64 61 63 false 2 0xFFFF800000000000) 3 = Ok 20 /\
  20 + 3 <= 64 /\
  forall f, 20 <= f < 20 + 3 ->
  frame_used (mk_pmm [UINT64_MAX - 7 * 2 ^ 20] 1 64 61 63 false 2 0xFFFF800000000000) f = false.
Proof.
  split; [reflexivity|].
  apply (pmm_find_contiguous_sound
    (mk_pmm [UINT64_MAX - 7 * 2 ^ 20] 1 64 61 63 false 2 0xFFFF800000000000)); try reflexivity; try lia.
  constructor; cbn; try lia. repeat constructor; vm_compute; congruence.
Defined.

(** The contiguous search does not reset its run at the wrap-around: with
    frames 62, 63, 0 and the block 10..12 free and the hint at 61, a request
    for three frames ends in -2, which is neither a frame nor the "not found"
    value -1, although the free block 10..12 exists. *)
Theorem pmm_find_contiguous_wraps :
  let st := mk_pmm [UINT64_MAX - 3 * 2 ^ 62 - 1 - 7 * 2 ^ 10] 1 64 58 63 false 61
              0xFFFF800000000000 in
  pmm_find_first_free_contiguous st 3 = Ok (-2) /\
  forall f, 10 <= f < 13 -> frame_used st f = false.
Proof.
  split; [reflexivity|]. intros f Hf.
  assert (f = 10 \/ f = 11 \/ f = 12) as [->|[->| ->]] by lia; reflexivity.
Qed.
