(* ===== verification/Vmm.v ===== *)
(** Virtual memory manager of [src/kernel/memory.c]: four-level page tables in
    physical memory, the walk with on-demand tables, mapping, unmapping with
    release of empty tables, and TLB maintenance. *)
From Stdlib Require Import ZArith Lia.
From stdpp Require Import strings numbers gmap base.
From stdpp Require Import list.
From S2P Require Import Prelude Pmm.
Open Scope Z_scope.

(** ** Page-table entries *)
Definition PTE_PRESENT : Z := 2 ^ 0.
Definition PTE_WRITE : Z := 2 ^ 1.
Definition PTE_USER : Z := 2 ^ 2.
Definition PTE_PWT : Z := 2 ^ 3.
Definition PTE_PCD : Z := 2 ^ 4.
Definition PTE_PAT : Z := 2 ^ 7.
Definition PTE_GLOBAL : Z := 2 ^ 8.
Definition PTE_NX : Z := 2 ^ 63.
Definition PTE_ADDR_MASK : Z := 0x000FFFFFFFFFF000.
Definition PTE_FLAGS_MASK : Z := not64 PTE_ADDR_MASK.

(** [*entry & PTE_PRESENT] as a condition. *)
Definition present (e : Z) : bool := negb (Z.land e PTE_PRESENT =? 0).

(** [*entry & PTE_ADDR_MASK]. *)
Definition pte_addr (e : Z) : Z := Z.land e PTE_ADDR_MASK.

Record address_space := mk_space { pml4_phys : Z; space_lock : bool }.

(** Machine state seen by the VMM: physical memory and the translations the
    CPU has cached, by virtual page number. *)
Record vm := mk_vm { vm_phys : phys; vm_tlb : Z -> option Z; vm_cr3 : Z }.

Definition with_phys (s : vm) (p : phys) : vm := mk_vm p (vm_tlb s) (vm_cr3 s).

(** Page number of a virtual address: bits 12 to 47, those the MMU uses. *)
Definition vpn (va : Z) : Z := (va / 4096) mod 2 ^ 36.

(** [invlpg]: drops the cached translation of one page. *)
Definition invlpg (s : vm) (va : Z) : vm :=
  mk_vm (vm_phys s) (fun n => if n =? vpn va then None else vm_tlb s n) (vm_cr3 s).

(** [mov cr3]: drops every cached translation that is not global. *)
Definition load_cr3 (s : vm) (cr3_val : Z) : vm :=
  mk_vm (vm_phys s)
    (fun n => match vm_tlb s n with
              | Some e => if Z.land e PTE_GLOBAL =? 0 then None else Some e
              | None => None
              end) cr3_val.

(** Loads and stores through the direct map. They go straight to physical memory: the
    direct map that the boot loader made is taken to stay in force, as the code takes it
    to, whatever is mapped elsewhere. *)
Definition load (s : phys) (v : Z) : Z := ram s (hhdm_target (pmm s) v).
Definition store (s : phys) (v x : Z) : phys :=
  mk_phys (pmm s) (upd (ram s) (hhdm_target (pmm s) v) x).

Definition NULL : Z := 0.

(** ** Operations *)
Definition vmm_get_next_level (s : phys) (entry : Z) (allocate_if_needed : bool)
    : outcome (Z * phys) :=
  if negb (present (load s entry)) then
    if negb allocate_if_needed then Ok (NULL, s)
    else
      '(frame, s) ← pmm_alloc_frame s ;
      if frame =? 0 then Ok (NULL, s)
      else
        let s := store s entry (Z.lor (Z.lor frame PTE_PRESENT) PTE_WRITE) in
        v ← phys_to_virt (pmm s) frame ;
        Ok (v, s)
  else
    v ← phys_to_virt (pmm s) (pte_addr (load s entry)) ;
    Ok (v, s).

(** [&table[index]] for a table of 8-byte entries. *)
Definition entry_ptr (table index : Z) : Z := u64 (table + 8 * index).

Definition pml4_index (va : Z) : Z := Z.land (Z.shiftr va 39) 0x1FF.
Definition pdpt_index (va : Z) : Z := Z.land (Z.shiftr va 30) 0x1FF.
Definition pd_index (va : Z) : Z := Z.land (Z.shiftr va 21) 0x1FF.
Definition pt_index (va : Z) : Z := Z.land (Z.shiftr va 12) 0x1FF.

Definition vmm_map_page (s : vm) (space : address_space) (virt_addr phys_addr flags : Z)
    : outcome (bool * address_space * vm) :=
  ASSERT (phys_addr mod PAGE_SIZE =? 0) "(phys_addr % PAGE_SIZE) == 0" ;;
  ASSERT (virt_addr mod PAGE_SIZE =? 0) "(virt_addr % PAGE_SIZE) == 0" ;;
  l ← spin_acquire (space_lock space) ;
  let locked := mk_space (pml4_phys space) l in
  let unlocked := mk_space (pml4_phys space) false in
  let p := vm_phys s in
  pml4 ← phys_to_virt (pmm p) (pml4_phys locked) ;
  '(pdpt, p) ← vmm_get_next_level p (entry_ptr pml4 (pml4_index virt_addr)) true ;
  if pdpt =? NULL then Ok (false, unlocked, with_phys s p) else
  '(pd, p) ← vmm_get_next_level p (entry_ptr pdpt (pdpt_index virt_addr)) true ;
  if pd =? NULL then Ok (false, unlocked, with_phys s p) else
  '(pt, p) ← vmm_get_next_level p (entry_ptr pd (pd_index virt_addr)) true ;
  if pt =? NULL then Ok (false, unlocked, with_phys s p) else
  let pte := entry_ptr pt (pt_index virt_addr) in
  let p := store p pte
    (Z.lor (Z.lor (Z.land phys_addr PTE_ADDR_MASK) (Z.land flags PTE_FLAGS_MASK)) PTE_PRESENT) in
  Ok (true, unlocked, invlpg (with_phys s p) virt_addr).

(** Loop over the entries [i .. i + n - 1] of a table. *)
Fixpoint table_empty_from (s : phys) (table_virt : Z) (n : nat) (i : Z) : bool :=
  match n with
  | O => true
  | S n' =>
      if present (load s (entry_ptr table_virt i)) then false
      else table_empty_from s table_virt n' (i + 1)
  end.

Definition vmm_is_table_empty (s : phys) (table_virt : Z) : bool :=
  table_empty_from s table_virt 512 0.

Definition vmm_unmap_page (s : vm) (space : address_space) (virt_addr : Z)
    : outcome (Z * address_space * vm) :=
  ASSERT (virt_addr mod PAGE_SIZE =? 0) "(virt_addr % PAGE_SIZE) == 0" ;;
  l ← spin_acquire (space_lock space) ;
  let locked := mk_space (pml4_phys space) l in
  let unlocked := mk_space (pml4_phys space) false in
  let p := vm_phys s in
  pml4 ← phys_to_virt (pmm p) (pml4_phys locked) ;
  let pml4e := entry_ptr pml4 (pml4_index virt_addr) in
  if negb (present (load p pml4e)) then Ok (0, unlocked, s) else
  pdpt ← phys_to_virt (pmm p) (pte_addr (load p pml4e)) ;
  let pdpte := entry_ptr pdpt (pdpt_index virt_addr) in
  if negb (present (load p pdpte)) then Ok (0, unlocked, s) else
  pd ← phys_to_virt (pmm p) (pte_addr (load p pdpte)) ;
  let pde := entry_ptr pd (pd_index virt_addr) in
  if negb (present (load p pde)) then Ok (0, unlocked, s) else
  pt ← phys_to_virt (pmm p) (pte_addr (load p pde)) ;
  let pte := entry_ptr pt (pt_index virt_addr) in
  if negb (present (load p pte)) then Ok (0, unlocked, s) else
  let phys_frame := pte_addr (load p pte) in
  let p := store p pte 0 in
  let s := invlpg (with_phys s p) virt_addr in
  if negb (vmm_is_table_empty p pt) then Ok (phys_frame, unlocked, s) else
  let pt_phys := pte_addr (load p pde) in
  p ← pmm_free_frame (store p pde 0) pt_phys ;
  if negb (vmm_is_table_empty p pd) then Ok (phys_frame, unlocked, with_phys s p) else
  let pd_phys := pte_addr (load p pdpte) in
  p ← pmm_free_frame (store p pdpte 0) pd_phys ;
  if negb (vmm_is_table_empty p pdpt) then Ok (phys_frame, unlocked, with_phys s p) else
  let pdpt_phys := pte_addr (load p pml4e) in
  p ← pmm_free_frame (store p pml4e 0) pdpt_phys ;
  Ok (phys_frame, unlocked, with_phys s p).

Definition vmm_switch_address_space (s : vm) (space : address_space) : vm :=
  load_cr3 s (pml4_phys space).

(** ** Page-table trees

    [walk m n t va]: the leaf entry that the walk of [va] finds from table [t]
    of level [n] (4 is the PML4, 1 a page table). *)
Definition level_index (l : nat) (va : Z) : Z :=
  match l with
  | 4%nat => pml4_index va
  | 3%nat => pdpt_index va
  | 2%nat => pd_index va
  | _ => pt_index va
  end.

Fixpoint walk (m : Z -> Z) (n : nat) (t va : Z) : option Z :=
  match n with
  | O => None
  | S n' =>
      let e := m (t + 8 * level_index n va) in
      if present e then
        match n' with
        | O => Some e
        | _ => walk m n' (pte_addr e) va
        end
      else None
  end.

Definition translate (m : Z -> Z) (root va : Z) : option Z := walk m 4 root va.

(** The page table (level 1) that the walk of [va] reaches. *)
Fixpoint leaf_table (m : Z -> Z) (n : nat) (t va : Z) : option Z :=
  match n with
  | O => None
  | S O => Some t
  | S n' =>
      let e := m (t + 8 * level_index n va) in
      if present e then leaf_table m n' (pte_addr e) va else None
  end.

(** [lvl t] is the level of the table at physical address [t], 0 for memory
    that holds no table. Tables are page-aligned, interior entries point one
    level down and clear the page-size bit, and no table has two parents. *)
Record pt_tree (m : Z -> Z) (root : Z) (lvl : Z -> nat) : Prop := {
  tr_root : lvl root = 4%nat;
  tr_max : forall t, (lvl t <= 4)%nat;
  tr_page : forall t, lvl t <> 0%nat -> 0 <= t < 2 ^ 52 /\ (4096 | t);
  tr_word : forall t i, lvl t <> 0%nat -> 0 <= i < 512 -> in_u64 (m (t + 8 * i));
  tr_child : forall t i k, lvl t = S (S k) -> 0 <= i < 512 -> present (m (t + 8 * i)) = true ->
    lvl (pte_addr (m (t + 8 * i))) = S k /\ Z.land (m (t + 8 * i)) PTE_PAT = 0;
  tr_inj : forall t i t' i' k, lvl t = S (S k) -> lvl t' = S (S k) ->
    0 <= i < 512 -> 0 <= i' < 512 ->
    present (m (t + 8 * i)) = true -> present (m (t' + 8 * i')) = true ->
    pte_addr (m (t + 8 * i)) = pte_addr (m (t' + 8 * i')) -> t = t' /\ i = i'
}.

(** Tables live in managed frames that are marked used, and the direct map of
    managed memory does not wrap around. *)
Record vm_inv (s : phys) (root : Z) (lvl : Z -> nat) : Prop := {
  vi_pmm : pmm_wf (pmm s);
  vi_hhdm : hhdm_phys_offset (pmm s) + pmm_total_frames (pmm s) * PAGE_SIZE <= 2 ^ 64;
  vi_tree : pt_tree (ram s) root lvl;
  vi_owned : forall t, lvl t <> 0%nat ->
    frame_used (pmm s) (t / PAGE_SIZE) = true /\ t / PAGE_SIZE < pmm_total_frames (pmm s)
}.

(** Cached translations agree with the page tables. *)
Definition tlb_ok (s : vm) (root : Z) : Prop :=
  forall va e, vm_tlb s (vpn va) = Some e -> translate (ram (vm_phys s)) root va = Some e.

(** ** Arithmetic of entries and indices *)

Lemma level_index_range l va : 0 <= level_index l va < 512.
Proof.
  assert (forall n, 0 <= Z.land (Z.shiftr va n) 0x1FF < 512) as H.
  { intros n. change 0x1FF with (Z.ones 9). rewrite Z.land_ones by lia.
    apply Z.mod_pos_bound. lia. }
  destruct l as [|[|[|[|[|l]]]]]; apply H.
Qed.

Lemma level_index_div l va :
  (1 <= l <= 4)%nat -> level_index l va = (va / 2 ^ (12 + 9 * (Z.of_nat l - 1))) mod 512.
Proof.
  intros Hl.
  assert (forall n, 0 <= n -> Z.land (Z.shiftr va n) 0x1FF = (va / 2 ^ n) mod 512) as H.
  { intros n Hn. change 0x1FF with (Z.ones 9).
    by rewrite Z.land_ones, Z.shiftr_div_pow2 by lia. }
  assert (l = 1 \/ l = 2 \/ l = 3 \/ l = 4)%nat as [->|[->|[->| ->]]] by lia; apply H; lia.
Qed.

(** Two addresses with the same four indices are on the same page. *)
Lemma vpn_indices va va' :
  (forall l, (1 <= l <= 4)%nat -> level_index l va = level_index l va') -> vpn va = vpn va'.
Proof.
  intros H. unfold vpn.
  assert (forall x, (x / 4096) mod 2 ^ 36 =
    (x / 2 ^ 12) mod 512 + 512 * ((x / 2 ^ 21) mod 512 + 512 * ((x / 2 ^ 30) mod 512
      + 512 * ((x / 2 ^ 39) mod 512)))) as Hx.
  { intros x. Z.div_mod_to_equations. lia. }
  rewrite !Hx.
  assert (forall l, (1 <= l <= 4)%nat ->
    (va / 2 ^ (12 + 9 * (Z.of_nat l - 1))) mod 512 =
    (va' / 2 ^ (12 + 9 * (Z.of_nat l - 1))) mod 512) as H'.
  { intros l Hl. rewrite <- !level_index_div by done. auto. }
  rewrite (H' 1%nat ltac:(lia) : (va / 2 ^ 12) mod 512 = (va' / 2 ^ 12) mod 512).
  rewrite (H' 2%nat ltac:(lia) : (va / 2 ^ 21) mod 512 = (va' / 2 ^ 21) mod 512).
  rewrite (H' 3%nat ltac:(lia) : (va / 2 ^ 30) mod 512 = (va' / 2 ^ 30) mod 512).
  by rewrite (H' 4%nat ltac:(lia) : (va / 2 ^ 39) mod 512 = (va' / 2 ^ 39) mod 512).
Qed.

Lemma indices_vpn va va' l :
  vpn va = vpn va' -> (1 <= l <= 4)%nat -> level_index l va = level_index l va'.
Proof.
  intros H Hl. rewrite !level_index_div by done. unfold vpn in H.
  assert (forall x, (x / 2 ^ (12 + 9 * (Z.of_nat l - 1))) mod 512 =
    (((x / 4096) mod 2 ^ 36) / 2 ^ (9 * (Z.of_nat l - 1))) mod 512) as Hx.
  { intros x.
    assert (l = 1 \/ l = 2 \/ l = 3 \/ l = 4)%nat as [->|[->|[->| ->]]] by lia;
    simpl; Z.div_mod_to_equations; lia. }
  by rewrite !Hx, H.
Qed.

Lemma addr_mask_bits i : 0 <= i -> Z.testbit PTE_ADDR_MASK i = (12 <=? i) && (i <? 52).
Proof.
  intros Hi. change PTE_ADDR_MASK with (Z.shiftl (Z.ones 40) 12).
  rewrite Z.shiftl_spec by lia. destruct (Z.leb_spec 12 i).
  - rewrite Z.testbit_ones_nonneg by lia. cbn [andb].
    destruct (Z.ltb_spec (i - 12) 40), (Z.ltb_spec i 52); (done || lia).
  - rewrite Z.testbit_neg_r by lia. done.
Qed.

Lemma page_low_bits p i : (4096 | p) -> 0 <= i < 12 -> Z.testbit p i = false.
Proof.
  intros [k ->] Hi. change 4096 with (2 ^ 12). rewrite Z.mul_pow2_bits_low; [done|lia].
Qed.

Lemma present_bit e : present e = Z.testbit e 0.
Proof.
  unfold present, PTE_PRESENT. change (2 ^ 0) with (shl64 1 0).
  by rewrite testbit64_land, negb_involutive by lia.
Qed.

Lemma pte_addr_page p : 0 <= p < 2 ^ 52 -> (4096 | p) -> pte_addr p = p.
Proof.
  intros Hr Hp. unfold pte_addr. apply Z.bits_inj'. intros i Hi.
  rewrite Z.land_spec, addr_mask_bits by lia.
  destruct (Z.leb_spec 12 i), (Z.ltb_spec i 52); cbn [andb]; rewrite ?andb_true_r, ?andb_false_r;
    try done; symmetry; (apply page_low_bits; [done|lia]) || (apply (testbit_high p 52); lia).
Qed.

Lemma pte_addr_range e : 0 <= pte_addr e < 2 ^ 52 /\ (4096 | pte_addr e).
Proof.
  unfold pte_addr. assert (0 <= Z.land e PTE_ADDR_MASK) as H0.
  { apply Z.land_nonneg. right. done. }
  split; [split; [done|]|].
  - apply bits_range; [lia|done|]. intros i Hi. rewrite Z.land_spec, addr_mask_bits by lia.
    zcase (i <? 52).
  - apply Z.mod_divide; [done|]. change 4096 with (2 ^ 12). rewrite <- Z.land_ones by lia.
    apply Z.bits_inj'. intros i Hi. rewrite !Z.land_spec, addr_mask_bits, Z.bits_0 by lia.
    rewrite Z.testbit_ones_nonneg by lia.
    destruct (Z.leb_spec 12 i), (Z.ltb_spec i 12); rewrite ?andb_false_r; try done; lia.
Qed.

(** The entry that [vmm_get_next_level] installs for a fresh table. *)
Definition table_entry (frame : Z) : Z := Z.lor (Z.lor frame PTE_PRESENT) PTE_WRITE.

Lemma table_entry_bits f i :
  0 <= i -> Z.testbit (table_entry f) i = Z.testbit f i || (i =? 0) || (i =? 1).
Proof.
  intros Hi. unfold table_entry, PTE_PRESENT, PTE_WRITE.
  rewrite !Z.lor_spec, !Z.pow2_bits_eqb by lia. by rewrite (Z.eqb_sym 0 i), (Z.eqb_sym 1 i).
Qed.

Lemma table_entry_spec f :
  0 <= f < 2 ^ 52 -> (4096 | f) ->
  present (table_entry f) = true /\ pte_addr (table_entry f) = f /\
  Z.land (table_entry f) PTE_PAT = 0 /\ in_u64 (table_entry f).
Proof.
  intros Hr Hp. split; [|split; [|split]].
  - rewrite present_bit, table_entry_bits by lia. by rewrite orb_true_r.
  - transitivity (pte_addr f); [|by apply pte_addr_page].
    unfold pte_addr. apply Z.bits_inj'. intros i Hi.
    rewrite !Z.land_spec, table_entry_bits, addr_mask_bits by lia.
    destruct (Z.testbit f i); lia.
  - change PTE_PAT with (shl64 1 7). apply Z.eqb_eq.
    rewrite testbit64_land, table_entry_bits by lia.
    rewrite (page_low_bits f) by (done || lia). done.
  - assert (0 <= table_entry f) as H0.
    { unfold table_entry. rewrite !Z.lor_nonneg. repeat split; done || lia. }
    split; [done|]. apply bits_range; [lia|done|]. intros i Hi.
    rewrite table_entry_bits, (testbit_high f 52) by lia. lia.
Qed.

(** The leaf entry that [vmm_map_page] writes. *)
Definition leaf_entry (phys_addr flags : Z) : Z :=
  Z.lor (Z.lor (Z.land phys_addr PTE_ADDR_MASK) (Z.land flags PTE_FLAGS_MASK)) PTE_PRESENT.

Lemma flags_mask_bits i : 0 <= i -> Z.testbit PTE_FLAGS_MASK i = (i <? 64) && negb ((12 <=? i) && (i <? 52)).
Proof.
  intros Hi. unfold PTE_FLAGS_MASK. rewrite not64_bits, addr_mask_bits by (done || lia). done.
Qed.

Lemma leaf_entry_bits pa fl i :
  0 <= i -> Z.testbit (leaf_entry pa fl) i =
  (Z.testbit pa i && ((12 <=? i) && (i <? 52))) ||
  (Z.testbit fl i && ((i <? 64) && negb ((12 <=? i) && (i <? 52)))) || (i =? 0).
Proof.
  intros Hi. unfold leaf_entry, PTE_PRESENT. rewrite !Z.lor_spec, !Z.land_spec.
  rewrite addr_mask_bits, flags_mask_bits, Z.pow2_bits_eqb by lia. by rewrite (Z.eqb_sym 0 i).
Qed.

Lemma leaf_entry_spec pa fl :
  0 <= pa -> 0 <= fl ->
  present (leaf_entry pa fl) = true /\ pte_addr (leaf_entry pa fl) = pte_addr pa /\
  in_u64 (leaf_entry pa fl).
Proof.
  intros Hpa Hfl. split; [|split].
  - rewrite present_bit, leaf_entry_bits by lia. by rewrite orb_true_r.
  - unfold pte_addr. apply Z.bits_inj'. intros i Hi.
    rewrite !Z.land_spec, leaf_entry_bits, addr_mask_bits by lia.
    destruct (Z.testbit pa i), (Z.testbit fl i); lia.
  - assert (0 <= leaf_entry pa fl) as H0.
    { unfold leaf_entry. rewrite !Z.lor_nonneg, !Z.land_nonneg. repeat split; auto; done. }
    split; [done|]. apply bits_range; [lia|done|]. intros i Hi.
    rewrite leaf_entry_bits by lia. destruct (Z.testbit pa i), (Z.testbit fl i); lia.
Qed.

(** Entries of distinct tables, or at distinct indices, do not overlap. *)
Lemma entry_inj t i t' i' :
  (4096 | t) -> (4096 | t') -> 0 <= i < 512 -> 0 <= i' < 512 ->
  t + 8 * i = t' + 8 * i' -> t = t' /\ i = i'.
Proof. intros [a ->] [b ->] Hi Hi' H. lia. Qed.

Lemma entry_outside_page t i f :
  (4096 | t) -> (4096 | f) -> 0 <= i < 512 -> t <> f -> t + 8 * i < f \/ f + 4096 <= t + 8 * i.
Proof. intros [a ->] [b ->] Hi Hne. lia. Qed.

(** ** Updates of a page-table tree *)

Section Tree.
Context (m : Z -> Z) (root : Z) (lvl : Z -> nat) (HT : pt_tree m root lvl).

Lemma upd_entry_other p i v t j :
  lvl p <> 0%nat -> lvl t <> 0%nat -> 0 <= i < 512 -> 0 <= j < 512 ->
  t <> p \/ j <> i -> upd m (p + 8 * i) v (t + 8 * j) = m (t + 8 * j).
Proof.
  intros Hp Ht Hi Hj Hne. apply upd_ne. intros Heq.
  destruct (tr_page _ _ _ HT p Hp) as [_ Hap]. destruct (tr_page _ _ _ HT t Ht) as [_ Hat].
  destruct (entry_inj t j p i Hat Hap Hj Hi Heq). naive_solver.
Qed.

(** Writing any word to a leaf entry keeps the tree. *)
Lemma tree_set_leaf p i v :
  lvl p = 1%nat -> 0 <= i < 512 -> in_u64 v -> pt_tree (upd m (p + 8 * i) v) root lvl.
Proof.
  intros Hp Hi Hv.
  assert (forall t j k, lvl t = S (S k) -> 0 <= j < 512 ->
    upd m (p + 8 * i) v (t + 8 * j) = m (t + 8 * j)) as Hint.
  { intros t j k Ht Hj. apply upd_entry_other; try done; try lia.
    left. intros ->. lia. }
  constructor.
  - apply (tr_root _ _ _ HT).
  - apply (tr_max _ _ _ HT).
  - apply (tr_page _ _ _ HT).
  - intros t j Ht Hj. unfold upd. destruct (_ =? _); [done|]. by apply (tr_word _ _ _ HT).
  - intros t j k Ht Hj. rewrite (Hint t j k) by done. by apply (tr_child _ _ _ HT).
  - intros t j t' j' k Ht Ht' Hj Hj'. rewrite (Hint t j k), (Hint t' j' k) by done.
    by apply (tr_inj _ _ _ HT) with k.
Qed.

(** Linking a zeroed fresh page as a new table keeps the tree. *)
Definition add_lvl (f : Z) (k : nat) (x : Z) : nat := if x =? f then k else lvl x.

Lemma fresh_entry f p i t j :
  (4096 | f) -> lvl f = 0%nat -> lvl p <> 0%nat -> 0 <= i < 512 -> lvl t <> 0%nat -> 0 <= j < 512 ->
  upd (zero_range m f 4096) (p + 8 * i) (table_entry f) (t + 8 * j) =
  if (t =? p) && (j =? i) then table_entry f else m (t + 8 * j).
Proof.
  intros Hf Hlf Hp Hi Ht Hj. destruct (tr_page _ _ _ HT p Hp) as [_ Hap].
  destruct (tr_page _ _ _ HT t Ht) as [_ Hat]. unfold upd.
  destruct (Z.eqb_spec (t + 8 * j) (p + 8 * i)) as [Heq|Hne].
  - destruct (entry_inj t j p i Hat Hap Hj Hi Heq) as [-> ->]. by rewrite !Z.eqb_refl.
  - assert ((t =? p) && (j =? i) = false) as ->.
    { lia. }
    apply zero_range_out, entry_outside_page; try done. congruence.
Qed.

Lemma fresh_table_entry f p i j :
  (4096 | f) -> lvl f = 0%nat -> lvl p <> 0%nat -> 0 <= i < 512 -> 0 <= j < 512 ->
  upd (zero_range m f 4096) (p + 8 * i) (table_entry f) (f + 8 * j) = 0.
Proof.
  intros Hf Hlf Hp Hi Hj. destruct (tr_page _ _ _ HT p Hp) as [_ Hap].
  rewrite upd_ne.
  - apply zero_range_in. lia.
  - intros Heq. destruct (entry_inj f j p i Hf Hap Hj Hi Heq) as [-> _]. done.
Qed.

(** What linking a fresh table [f] below entry [i] of [p] does to the entries: the new
    table is empty, the entry points to it, the others stay. *)
Record linked (m' : Z -> Z) (f p i v : Z) : Prop := {
  lk_entry : present v = true /\ pte_addr v = f /\ Z.land v PTE_PAT = 0 /\ in_u64 v;
  lk_old : forall t j, lvl t <> 0%nat -> 0 <= j < 512 ->
    m' (t + 8 * j) = if (t =? p) && (j =? i) then v else m (t + 8 * j);
  lk_new : forall j, 0 <= j < 512 -> m' (f + 8 * j) = 0
}.

Lemma tree_link m' v f p i k :
  0 <= f < 2 ^ 52 -> (4096 | f) -> lvl f = 0%nat -> lvl p = S (S k) -> 0 <= i < 512 ->
  present (m (p + 8 * i)) = false -> linked m' f p i v ->
  pt_tree m' root (add_lvl f (S k)).
Proof.
  intros Hfr Hf Hlf Hp Hi Hnp [(Hpr & Had & Hps & Hw) He Hz].
  assert (lvl p <> 0%nat) as Hp0 by lia.
  assert (forall t, t <> f -> add_lvl f (S k) t = lvl t) as Hne.
  { intros t Ht. unfold add_lvl. zcase (t =? f). }
  assert (add_lvl f (S k) f = S k) as Hff by (unfold add_lvl; by rewrite Z.eqb_refl).
  assert (forall t j k', add_lvl f (S k) t = S (S k') -> 0 <= j < 512 -> present (m' (t + 8 * j)) = true ->
    t <> f /\ lvl t = S (S k') /\
    ((t = p /\ j = i /\ m' (t + 8 * j) = v /\ k' = k) \/
     (m' (t + 8 * j) = m (t + 8 * j) /\ present (m (t + 8 * j)) = true))) as Hcase.
  { intros t j k' Ht Hj Hprs. destruct (Z.eq_dec t f) as [->|Htf].
    { rewrite Hz in Hprs by done. done. }
    rewrite Hne in Ht by done. rewrite He in * by (done || lia). do 2 (split; [done|]).
    destruct (Z.eqb_spec t p) as [->|]; [destruct (Z.eqb_spec j i) as [->|]|]; cbn [andb] in *; auto.
    left. repeat split; lia. }
  assert (forall t j k', lvl t = S (S k') -> 0 <= j < 512 -> present (m (t + 8 * j)) = true ->
    pte_addr (m (t + 8 * j)) <> f) as Hnf.
  { intros t j k' Ht Hj Hprs Heq. destruct (tr_child _ _ _ HT t j k' Ht Hj Hprs) as [Hc _]. congruence. }
  constructor.
  - rewrite Hne; [apply (tr_root _ _ _ HT)|]. intros ->. rewrite (tr_root _ _ _ HT) in Hlf. done.
  - intros t. unfold add_lvl. pose proof (tr_max _ _ _ HT p). pose proof (tr_max _ _ _ HT t).
    destruct (t =? f); lia.
  - intros t Ht. destruct (Z.eq_dec t f) as [->|Htf]; [done|]. rewrite Hne in Ht by done.
    by apply (tr_page _ _ _ HT).
  - intros t j Ht Hj. destruct (Z.eq_dec t f) as [->|Htf]; [by rewrite Hz by done|].
    rewrite Hne in Ht by done. rewrite He by done. destruct (_ && _); [done|].
    by apply (tr_word _ _ _ HT).
  - intros t j k' Ht Hj Hprs.
    destruct (Hcase t j k' Ht Hj Hprs) as (Htf & Hlt & [(-> & -> & -> & ->)|[-> Hold]]).
    + by rewrite Had.
    + destruct (tr_child _ _ _ HT t j k' Hlt Hj Hold) as [Hc ?]. split; [|done].
      by rewrite Hne by (by apply Hnf with k').
  - intros t j t' j' k' Ht Ht' Hj Hj' Hprs Hprs'.
    destruct (Hcase t j k' Ht Hj Hprs) as (_ & Hlt & [(-> & -> & -> & ->)|[-> Hold]]);
    destruct (Hcase t' j' _ Ht' Hj' Hprs') as (_ & Hlt' & [(-> & -> & -> & _)|[-> Hold']]); auto.
    + rewrite Had. intros Heq. exfalso. by eapply Hnf; [exact Hlt'|exact Hj'|..].
    + rewrite Had. intros Heq. exfalso. by eapply Hnf; [exact Hlt|exact Hj|..].
    + by apply (tr_inj _ _ _ HT) with k'.
Qed.

Lemma fresh_linked f p i :
  0 <= f < 2 ^ 52 -> (4096 | f) -> lvl f = 0%nat -> lvl p <> 0%nat -> 0 <= i < 512 ->
  linked (upd (zero_range m f 4096) (p + 8 * i) (table_entry f)) f p i (table_entry f).
Proof.
  intros Hfr Hf Hlf Hp Hi. constructor; [by apply table_entry_spec| |].
  - intros t j. by apply fresh_entry.
  - intros j. by apply fresh_table_entry.
Qed.

Lemma tree_add_table f p i k :
  0 <= f < 2 ^ 52 -> (4096 | f) -> lvl f = 0%nat -> lvl p = S (S k) -> 0 <= i < 512 ->
  present (m (p + 8 * i)) = false ->
  pt_tree (upd (zero_range m f 4096) (p + 8 * i) (table_entry f)) root (add_lvl f (S k)).
Proof. intros Hfr Hf Hlf Hp Hi Hnp. eapply tree_link; try done. apply fresh_linked; try done. lia. Qed.

(** Unlinking a table without present entries keeps the tree. *)
Lemma tree_del_table c p i k :
  lvl p = S (S k) -> 0 <= i < 512 -> present (m (p + 8 * i)) = true ->
  pte_addr (m (p + 8 * i)) = c ->
  (forall j, 0 <= j < 512 -> present (m (c + 8 * j)) = false) ->
  pt_tree (upd m (p + 8 * i) 0) root (add_lvl c 0).
Proof.
  intros Hp Hi Hprs Hc Hempty. assert (lvl p <> 0%nat) as Hp0 by lia.
  destruct (tr_child _ _ _ HT p i k Hp Hi Hprs) as [Hlc _]. rewrite Hc in Hlc.
  assert (forall t, add_lvl c 0 t <> 0%nat -> t <> c /\ lvl t <> 0%nat) as Hne.
  { intros t. unfold add_lvl. destruct (Z.eqb_spec t c); auto. }
  assert (forall t j k', add_lvl c 0 t = S (S k') -> 0 <= j < 512 ->
    present (upd m (p + 8 * i) 0 (t + 8 * j)) = true ->
    t <> c /\ lvl t = S (S k') /\ upd m (p + 8 * i) 0 (t + 8 * j) = m (t + 8 * j) /\
    present (m (t + 8 * j)) = true /\ pte_addr (m (t + 8 * j)) <> c) as Hcase.
  { intros t j k' Ht Hj Hpr. destruct (Hne t ltac:(lia)) as [Htc Ht0].
    assert (lvl t = S (S k')) as Hlt by (unfold add_lvl in Ht; destruct (t =? c); [done|exact Ht]).
    destruct (Z.eq_dec (t + 8 * j) (p + 8 * i)) as [Heq|Hd].
    { unfold upd in Hpr. rewrite Heq, Z.eqb_refl in Hpr. done. }
    rewrite upd_ne in Hpr |- * by done. repeat split; try done. intros Heqc.
    assert (k' = k) as -> by (destruct (tr_child _ _ _ HT t j k' Hlt Hj Hpr); congruence).
    destruct (tr_inj _ _ _ HT t j p i k) as [-> ->]; try done. congruence. }
  constructor.
  - unfold add_lvl. destruct (Z.eqb_spec root c) as [<-|]; [|apply (tr_root _ _ _ HT)].
    pose proof (tr_root _ _ _ HT). pose proof (tr_max _ _ _ HT p). lia.
  - intros t. unfold add_lvl. pose proof (tr_max _ _ _ HT t). destruct (t =? c); lia.
  - intros t Ht. apply (tr_page _ _ _ HT). by apply Hne.
  - intros t j Ht Hj. unfold upd. destruct (_ =? _); [done|]. apply (tr_word _ _ _ HT); [by apply Hne|done].
  - intros t j k' Ht Hj Hpr. destruct (Hcase t j k' Ht Hj Hpr) as (_ & Hlt & -> & Hold & Hcn).
    destruct (tr_child _ _ _ HT t j k' Hlt Hj Hold). split; [|done].
    unfold add_lvl. by apply Z.eqb_neq in Hcn as ->.
  - intros t j t' j' k' Ht Ht' Hj Hj' Hpr Hpr'.
    destruct (Hcase t j k' Ht Hj Hpr) as (_ & Hlt & -> & Hold & _).
    destruct (Hcase t' j' k' Ht' Hj' Hpr') as (_ & Hlt' & -> & Hold' & _).
    by apply (tr_inj _ _ _ HT) with k'.
Qed.

(** ** Translations under those updates *)

Lemma walk_empty m' k t va :
  (forall j, 0 <= j < 512 -> present (m' (t + 8 * j)) = false) -> walk m' k t va = None.
Proof.
  intros H. destruct k as [|k]; [done|]. cbn [walk].
  by rewrite (H _ (level_index_range (S k) va)).
Qed.

Lemma walk_link m' v f p i k n t va :
  lvl p = S (S k) -> 0 <= i < 512 -> present (m (p + 8 * i)) = false -> linked m' f p i v -> lvl t = n ->
  walk m' n t va = walk m n t va.
Proof.
  intros Hp Hi Hnp [(Hpr & Had & _ & _) He Hz]. revert t.
  induction n as [|n IH]; intros t Ht; [done|]. cbn [walk].
  pose proof (level_index_range (S n) va) as Hj. rewrite He by (done || lia).
  destruct (Z.eqb_spec t p) as [->|]; [destruct (Z.eqb_spec (level_index (S n) va) i) as [->|]|];
    cbn [andb].
  - rewrite Hpr, Hnp, Had. destruct n; [lia|]. apply walk_empty. intros j Hjj. by rewrite Hz.
  - destruct (present (m (p + 8 * level_index (S n) va))) eqn:E; [|done].
    destruct n as [|n]; [done|]. apply IH. by apply (tr_child _ _ _ HT p _ n).
  - destruct (present (m (t + 8 * level_index (S n) va))) eqn:E; [|done].
    destruct n as [|n]; [done|]. apply IH. by apply (tr_child _ _ _ HT t _ n).
Qed.

Lemma walk_add_table f p i k n t va :
  0 <= f < 2 ^ 52 -> (4096 | f) -> lvl f = 0%nat -> lvl p = S (S k) -> 0 <= i < 512 ->
  present (m (p + 8 * i)) = false -> lvl t = n ->
  walk (upd (zero_range m f 4096) (p + 8 * i) (table_entry f)) n t va = walk m n t va.
Proof. intros Hfr Hf Hlf Hp Hi Hnp Ht. eapply walk_link; try done. apply fresh_linked; try done. lia. Qed.

Lemma walk_del_table c p i k n t va :
  lvl p = S (S k) -> 0 <= i < 512 -> present (m (p + 8 * i)) = true ->
  pte_addr (m (p + 8 * i)) = c ->
  (forall j, 0 <= j < 512 -> present (m (c + 8 * j)) = false) -> lvl t = n ->
  walk (upd m (p + 8 * i) 0) n t va = walk m n t va.
Proof.
  intros Hp Hi Hpr Hc Hempty. revert t.
  induction n as [|n IH]; intros t Ht; [done|]. cbn [walk].
  pose proof (level_index_range (S n) va) as Hj.
  assert (present (m (t + 8 * level_index (S n) va)) = true -> n <> O ->
    lvl (pte_addr (m (t + 8 * level_index (S n) va))) = n) as Hchild.
  { intros Hpr' Hn. destruct n as [|n]; [done|]. by apply (tr_child _ _ _ HT t _ n). }
  destruct (Z.eq_dec (t + 8 * level_index (S n) va) (p + 8 * i)) as [Heq|Hd].
  - rewrite Heq, upd_eq, Hpr. change (present 0) with false. cbn iota. destruct n as [|n].
    + exfalso. destruct (tr_page _ _ _ HT p ltac:(lia)) as [_ Hap].
      destruct (tr_page _ _ _ HT t ltac:(lia)) as [_ Hat].
      destruct (entry_inj _ _ _ _ Hat Hap Hj Hi Heq) as [-> _]. lia.
    + rewrite Hc. symmetry. by apply walk_empty.
  - rewrite upd_ne by done.
    destruct (present (m (t + 8 * level_index (S n) va))) eqn:E; [|done].
    destruct n as [|n]; [done|]. by apply IH, Hchild.
Qed.

(** A page table has one chain of ancestors: walks that reach it agree on
    every index above it. *)
Lemma leaf_table_ancestors n t t' va va' p :
  lvl t = n -> lvl t' = n -> leaf_table m n t va = Some p -> leaf_table m n t' va' = Some p ->
  t = t' /\ forall l, (2 <= l <= n)%nat -> level_index l va = level_index l va'.
Proof.
  revert t t'. induction n as [|n IH]; intros t t' Ht Ht' Hl Hl'; [done|].
  destruct n as [|n].
  { cbn in *. split; [congruence|]. lia. }
  cbn [leaf_table] in Hl, Hl'.
  destruct (present (m (t + 8 * level_index (S (S n)) va))) eqn:E; [|done].
  destruct (present (m (t' + 8 * level_index (S (S n)) va'))) eqn:E'; [|done].
  pose proof (level_index_range (S (S n)) va) as Hj. pose proof (level_index_range (S (S n)) va') as Hj'.
  destruct (tr_child _ _ _ HT t _ n Ht Hj E) as [Hc _].
  destruct (tr_child _ _ _ HT t' _ n Ht' Hj' E') as [Hc' _].
  destruct (IH _ _ Hc Hc' Hl Hl') as [Heq Hidx].
  destruct (tr_inj _ _ _ HT t _ t' _ n Ht Ht' Hj Hj' E E' Heq) as [-> Hi].
  split; [done|]. intros l Hle. destruct (decide (l = S (S n))) as [->|]; [done|]. apply Hidx. lia.
Qed.

(** A write to leaf entry [i] of page table [p] changes exactly the walks
    that end there. *)
Lemma walk_set_leaf p i v n t va :
  lvl p = 1%nat -> 0 <= i < 512 -> lvl t = n -> present v = true \/ v = 0 ->
  walk (upd m (p + 8 * i) v) n t va =
  match leaf_table m n t va with
  | Some q => if (q =? p) && (pt_index va =? i) then if present v then Some v else None
              else walk m n t va
  | None => walk m n t va
  end.
Proof.
  intros Hp Hi Ht Hv. revert t Ht. induction n as [|n IH]; intros t Ht; [done|].
  pose proof (level_index_range (S n) va) as Hj. cbn [walk leaf_table].
  destruct n as [|n].
  - change (level_index 1 va) with (pt_index va) in *.
    destruct (Z.eqb_spec t p) as [->|Hne]; [destruct (Z.eqb_spec (pt_index va) i) as [->|Hne]|];
      cbn [andb].
    + rewrite upd_eq. destruct Hv as [-> | ->]; done.
    + rewrite upd_entry_other by (done || lia || auto). done.
    + rewrite upd_entry_other by (done || lia || auto). done.
  - rewrite upd_entry_other; [|lia|lia|done|done|left; intros ->; lia].
    destruct (present (m (t + 8 * level_index (S (S n)) va))) eqn:E; [|done]. apply IH.
    by apply (tr_child _ _ _ HT t _ n).
Qed.
End Tree.

(** ** The table walk of the code *)

(** A word of a frame that is in use and holds no table. *)
Definition data_word (s : phys) (lvl : Z -> nat) (x : Z) : Prop :=
  frame_used (pmm s) (x / PAGE_SIZE) = true /\ lvl (x / PAGE_SIZE * PAGE_SIZE) = 0%nat.

(** Words of other frames than that of [t] lie outside it. *)
Lemma other_page f x : x / PAGE_SIZE <> f -> x < f * PAGE_SIZE \/ f * PAGE_SIZE + 4096 <= x.
Proof.
  unfold PAGE_SIZE. intros H. pose proof (Z.div_mod x 0x1000 ltac:(lia)). pose proof (Z.mod_pos_bound x 0x1000 ltac:(lia)). lia.
Qed.

Lemma entry_page t i : (4096 | t) -> 0 <= i < 512 -> (t + 8 * i) / PAGE_SIZE * PAGE_SIZE = t.
Proof.
  intros [q ->] Hi. unfold PAGE_SIZE. change 0x1000 with 4096. rewrite Z.div_add_l by done.
  rewrite (Z.div_small (8 * i)) by lia. lia.
Qed.

(** What creating page tables out of [n] fresh frames may change: tables are
    only added, from frames that were free, present interior entries stay, and
    no translation changes. *)
Record pt_grow (root n : Z) (s : phys) (lvl : Z -> nat) (s' : phys) (lvl' : Z -> nat) : Prop := {
  pg_inv : vm_inv s' root lvl';
  pg_ext : forall t, lvl t <> 0%nat -> lvl' t = lvl t;
  pg_keep : forall t i k, lvl t = S (S k) -> 0 <= i < 512 ->
    present (ram s (t + 8 * i)) = true -> ram s' (t + 8 * i) = ram s (t + 8 * i);
  pg_walk : forall va, translate (ram s') root va = translate (ram s) root va;
  pg_used : forall f, frame_used (pmm s) f = true -> frame_used (pmm s') f = true;
  pg_fresh : forall t, lvl' t <> 0%nat -> lvl t = 0%nat -> frame_used (pmm s) (t / PAGE_SIZE) = false;
  pg_data : forall x, data_word s lvl x -> ram s' x = ram s x;
  pg_count : pmm_used_frames (pmm s') = pmm_used_frames (pmm s) + n;
  pg_total : pmm_total_frames (pmm s') = pmm_total_frames (pmm s);
  pg_hhdm : hhdm_phys_offset (pmm s') = hhdm_phys_offset (pmm s)
}.

Lemma pt_grow_refl root s lvl : vm_inv s root lvl -> pt_grow root 0 s lvl s lvl.
Proof. intros H. constructor; auto with lia. Qed.

Lemma pt_grow_trans root n1 n2 s lvl s1 lvl1 s2 lvl2 :
  pt_grow root n1 s lvl s1 lvl1 -> pt_grow root n2 s1 lvl1 s2 lvl2 ->
  pt_grow root (n1 + n2) s lvl s2 lvl2.
Proof.
  intros [I1 E1 K1 W1 U1 F1 D1 C1 T1 H1] [I2 E2 K2 W2 U2 F2 D2 C2 T2 H2].
  constructor; [done| | | |auto| | |lia|lia|lia].
  - intros t Ht. rewrite E2, E1; [done|done|]. by rewrite E1.
  - intros t i k Ht Hi Hp. rewrite (K2 t i k), (K1 t i k); try done.
    + by rewrite E1 by lia.
    + by rewrite (K1 t i k).
  - intros va. by rewrite W2, W1.
  - intros t Ht H0. destruct (decide (lvl1 t = 0%nat)) as [Hz|Hn]; [|by apply F1].
    specialize (F2 t Ht Hz). destruct (frame_used (pmm s) (t / PAGE_SIZE)) eqn:E; [|done].
    apply U1 in E. congruence.
  - intros x Hx. rewrite D2, D1; [done|done|]. destruct Hx as [Hu Hl]. split; [auto|].
    destruct (decide (lvl1 (x / PAGE_SIZE * PAGE_SIZE) = 0%nat)) as [|Hn]; [done|].
    specialize (F1 _ Hn Hl). rewrite Z.div_mul in F1 by done. congruence.
Qed.

Section Pointers.
Context (s : phys) (root : Z) (lvl : Z -> nat) (HI : vm_inv s root lvl).
Local Abbreviation h := (hhdm_phys_offset (pmm s)).

Lemma table_bounds t : lvl t <> 0%nat -> 0 <= t /\ (4096 | t) /\ 0 < h /\ t + 4096 + h <= 2 ^ 64.
Proof.
  intros Ht. destruct (tr_page _ _ _ (vi_tree _ _ _ HI) t Ht) as [Hr Ha].
  destruct (vi_owned _ _ _ HI t Ht) as [_ Hlt].
  pose proof (vi_hhdm _ _ _ HI). pose proof (wf_hhdm _ (wf_bitmap _ (vi_pmm _ _ _ HI))).
  destruct Ha as [a ->]. unfold PAGE_SIZE in *. rewrite Z.div_mul in Hlt by lia.
  split; [lia|]. split; [by exists a|]. lia.
Qed.

Lemma table_ptr t : lvl t <> 0%nat -> phys_to_virt (pmm s) t = Ok (t + h) /\ (t + h =? NULL) = false.
Proof.
  intros Ht. destruct (table_bounds t Ht) as (? & _ & ? & ?). unfold phys_to_virt.
  zcase (h =? 0). cbn. rewrite u64_small by (unfold in_u64; lia). split; [done|].
  unfold NULL. lia.
Qed.

Lemma entry_target t i :
  lvl t <> 0%nat -> 0 <= i < 512 -> hhdm_target (pmm s) (entry_ptr (t + h) i) = t + 8 * i.
Proof.
  intros Ht Hi. destruct (table_bounds t Ht) as (? & _ & ? & ?).
  unfold hhdm_target, entry_ptr. rewrite (u64_small (t + h + 8 * i)) by (unfold in_u64; lia).
  rewrite u64_small by (unfold in_u64; lia). lia.
Qed.

Lemma fresh_frame f s' :
  alloc_post s f s' ->
  0 <= f * PAGE_SIZE < 2 ^ 52 /\ (4096 | f * PAGE_SIZE) /\ lvl (f * PAGE_SIZE) = 0%nat.
Proof.
  intros [Hr Hfree _ _ _ _ _ _]. pose proof (wf_total _ (wf_bitmap _ (vi_pmm _ _ _ HI))).
  unfold PAGE_SIZE in *. split; [lia|]. split; [by exists f|].
  destruct (lvl (f * 0x1000)) eqn:E; [done|].
  destruct (vi_owned _ _ _ HI (f * 0x1000)) as [Hu _]; [lia|].
  unfold PAGE_SIZE in Hu. rewrite Z.div_mul in Hu by done. congruence.
Qed.
End Pointers.

Section Walk.
Context {FA : FrameAllocator pmm_alloc_frame pmm_free_frame}.
Context (s : phys) (root : Z) (lvl : Z -> nat) (HI : vm_inv s root lvl).
Local Abbreviation h := (hhdm_phys_offset (pmm s)).

(** An allocation of a frame that is not linked into the tables. *)
Lemma alloc_grow f s' :
  alloc_post s f s' -> pt_grow root 1 s lvl s' lvl.
Proof.
  intros Hp. destruct (fresh_frame s root lvl HI f s' Hp) as (Hfr & Hfa & Hfl).
  pose proof Hp as [Hr Hfree Hused Hram Hwf Hcnt Htot Hhh].
  assert (forall t i, lvl t <> 0%nat -> 0 <= i < 512 -> ram s' (t + 8 * i) = ram s (t + 8 * i)) as Hent.
  { intros t i Ht Hi. rewrite Hram. apply zero_range_out, entry_outside_page; try done.
    - by apply (tr_page _ _ _ (vi_tree _ _ _ HI)).
    - congruence. }
  pose proof (vi_tree _ _ _ HI) as HT.
  assert (pt_tree (ram s') root lvl) as HT'.
  { constructor; try apply HT.
    - intros t i Ht Hi. rewrite Hent by done. by apply (tr_word _ _ _ HT).
    - intros t i k Ht Hi. rewrite Hent by (done || lia). by apply (tr_child _ _ _ HT).
    - intros t i t' i' k Ht Ht' Hi Hi'. rewrite !Hent by (done || lia).
      by apply (tr_inj _ _ _ HT) with k. }
  constructor; try done.
  - constructor; [done| |done|].
    + rewrite Hhh, Htot. apply (vi_hhdm _ _ _ HI).
    + intros t Ht. rewrite Hused, Htot. destruct (vi_owned _ _ _ HI t Ht) as [-> ?].
      by rewrite orb_true_r.
  - intros t i k Ht Hi _. apply Hent; [lia|done].
  - intros va. unfold translate. pose proof (tr_root _ _ _ HT) as Hrt. revert Hrt.
    generalize 4%nat, root. intros n. induction n as [|n IH]; intros t Ht; [done|]. cbn [walk].
    pose proof (level_index_range (S n) va). rewrite Hent by (done || lia).
    destruct (present (ram s (t + 8 * level_index (S n) va))) eqn:E; [|done].
    destruct n as [|n]; [done|]. apply IH. by apply (tr_child _ _ _ HT t _ n).
  - intros g Hg. by rewrite Hused, Hg, orb_true_r.
  - intros x [Hu _]. rewrite Hram. apply zero_range_out, other_page. congruence.
Qed.

(** An allocation that is linked as a new table below entry [i] of [t]. *)
Lemma link_grow f s' t i k :
  alloc_post s f s' -> lvl t = S (S k) -> 0 <= i < 512 -> present (ram s (t + 8 * i)) = false ->
  pt_grow root 1 s lvl (mk_phys (pmm s') (upd (ram s') (t + 8 * i) (table_entry (f * PAGE_SIZE))))
    (add_lvl lvl (f * PAGE_SIZE) (S k)).
Proof.
  intros Hp Ht Hi Hnp. destruct (fresh_frame s root lvl HI f s' Hp) as (Hfr & Hfa & Hfl).
  pose proof (alloc_grow f s' Hp) as [Hinv _ _ _ Hused _ Hdata _ _ _].
  pose proof Hp as [Hr Hfree Hus Hram Hwf Hcnt Htot Hhh].
  pose proof (vi_tree _ _ _ HI) as HT.
  assert (ram s' = zero_range (ram s) (f * PAGE_SIZE) 4096) as Hr' by (by rewrite Hram).
  constructor; cbn [pmm ram]; try done.
  - constructor; cbn [pmm ram]; [done|apply Hinv| |].
    + rewrite Hr'. by apply tree_add_table.
    + intros x Hx. unfold add_lvl in Hx. destruct (Z.eqb_spec x (f * PAGE_SIZE)) as [Hxe|Hne].
      * rewrite Hxe.
        rewrite Z.div_mul, Hus, Z.eqb_refl, Htot by done. lia.
      * by apply (vi_owned _ _ _ Hinv).
  - intros x Hx. unfold add_lvl. destruct (Z.eqb_spec x (f * PAGE_SIZE)) as [->|]; congruence.
  - intros x j k' Hx Hj Hpr. rewrite Hr', (fresh_entry (ram s) root lvl HT) by (done || lia).
    destruct (Z.eqb_spec x t) as [->|]; [destruct (Z.eqb_spec j i) as [->|]|]; cbn [andb]; congruence.
  - intros va. rewrite Hr'. apply (walk_add_table (ram s) root lvl HT) with k; try done.
    apply (tr_root _ _ _ HT).
  - intros x. unfold add_lvl. destruct (Z.eqb_spec x (f * PAGE_SIZE)) as [->|]; [|done].
    intros _ _. by rewrite Z.div_mul by done.
  - intros x Hx. rewrite upd_ne; [by apply Hdata|]. intros ->. destruct Hx as [_ Hl].
    rewrite (entry_page t i) in Hl by (done || by apply (tr_page _ _ _ HT); lia). congruence.
Qed.

(** [vmm_get_next_level] with allocation: the next table, or [NULL] when the
    allocator hands out frame 0, or the allocator's panic. *)
Lemma get_next_level_spec t i k :
  lvl t = S (S k) -> 0 <= i < 512 ->
  (exists c s' lvl' n, vmm_get_next_level s (entry_ptr (t + h) i) true = Ok (c + h, s') /\
     pt_grow root n s lvl s' lvl' /\ 0 <= n <= 1 /\ lvl' c = S k /\
     present (ram s' (t + 8 * i)) = true /\ pte_addr (ram s' (t + 8 * i)) = c) \/
  (exists s', vmm_get_next_level s (entry_ptr (t + h) i) true = Ok (NULL, s') /\
     alloc_post s 0 s') \/
  (exists why, vmm_get_next_level s (entry_ptr (t + h) i) true = Panic why /\
     forall f, 0 <= f < pmm_total_frames (pmm s) -> frame_used (pmm s) f = true).
Proof.
  intros Ht Hi. unfold vmm_get_next_level, load. rewrite (entry_target s root lvl HI) by (done || lia).
  destruct (present (ram s (t + 8 * i))) eqn:E; cbn [negb].
  { left. destruct (tr_child _ _ _ (vi_tree _ _ _ HI) t i k Ht Hi E) as [Hc _].
    destruct (table_ptr s root lvl HI (pte_addr (ram s (t + 8 * i)))) as [-> _]; [lia|].
    do 4 eexists. split; [reflexivity|]. split; [by apply pt_grow_refl|]. done. }
  destruct (fa_alloc s (vi_pmm _ _ _ HI)) as [(f & s' & Ha & Hp)|(why & Ha & Hall)];
    rewrite Ha; cbn [mbind outcome_bind]; [|right; right; eauto].
  zcase (f * PAGE_SIZE =? 0).
  { right; left. exists s'. split; [done|]. assert (f = 0) as -> by (unfold PAGE_SIZE in *; lia). done. }
  left. destruct (fresh_frame s root lvl HI f s' Hp) as (Hfr & Hfa & Hfl).
  pose proof (link_grow f s' t i k Hp Ht Hi E) as Hg.
  set (s2 := mk_phys _ _) in Hg. set (lvl2 := add_lvl _ _ _) in Hg.
  assert (lvl2 (f * PAGE_SIZE) = S k) as Hl2 by (unfold lvl2, add_lvl; by rewrite Z.eqb_refl).
  assert (hhdm_target (pmm s') (entry_ptr (t + h) i) = t + 8 * i) as Htgt.
  { rewrite <- (entry_target s root lvl HI t i) by (done || lia). unfold hhdm_target. by rewrite (ap_hhdm _ _ _ Hp). }
  exists (f * PAGE_SIZE), s2, lvl2, 1.
  assert (phys_to_virt (pmm s') (f * PAGE_SIZE) = Ok (f * PAGE_SIZE + h)) as Hv.
  { destruct (table_bounds s2 root lvl2 (pg_inv _ _ _ _ _ _ Hg) (f * PAGE_SIZE)) as (? & _ & ? & Hb); [lia|].
    cbn [s2 pmm] in *. rewrite (ap_hhdm _ _ _ Hp) in *. unfold phys_to_virt.
    rewrite (ap_hhdm _ _ _ Hp). zcase (h =? 0). cbn. rewrite u64_small by (unfold in_u64; lia). done. }
  unfold store. cbn [pmm]. rewrite Htgt, Hv. cbn [mbind outcome_bind].
  split; [done|]. split; [done|]. split; [done|]. split; [done|]. cbn [s2 ram]. rewrite upd_eq.
  destruct (table_entry_spec (f * PAGE_SIZE) Hfr Hfa) as (? & ? & _). done.
Qed.
End Walk.

(** ** Mapping one page *)

(** The effect of a successful [vmm_map_page]. *)
Record map_post (s : vm) (root : Z) (lvl : Z -> nat) (va pa fl : Z) (s' : vm) (lvl' : Z -> nat) : Prop := {
  mp_inv : vm_inv (vm_phys s') root lvl';
  mp_tlb : tlb_ok s' root;
  mp_walk : forall va', translate (ram (vm_phys s')) root va' =
    if vpn va' =? vpn va then Some (leaf_entry pa fl)
    else translate (ram (vm_phys s)) root va';
  mp_used : forall f, frame_used (pmm (vm_phys s)) f = true -> frame_used (pmm (vm_phys s')) f = true;
  mp_fresh : forall t, lvl' t <> 0%nat -> lvl t = 0%nat -> frame_used (pmm (vm_phys s)) (t / PAGE_SIZE) = false;
  mp_data : forall x, data_word (vm_phys s) lvl x -> ram (vm_phys s') x = ram (vm_phys s) x;
  mp_count : pmm_used_frames (pmm (vm_phys s)) <= pmm_used_frames (pmm (vm_phys s'))
             <= pmm_used_frames (pmm (vm_phys s)) + 3;
  mp_total : pmm_total_frames (pmm (vm_phys s')) = pmm_total_frames (pmm (vm_phys s));
  mp_hhdm : hhdm_phys_offset (pmm (vm_phys s')) = hhdm_phys_offset (pmm (vm_phys s))
}.

(** A write to the leaf entry of [va] changes the translation of the page of
    [va] only. *)
(** A memory that agrees on the entries of the tables has the same tree and walks. *)
Lemma tree_same m m' root lvl :
  pt_tree m root lvl -> (forall t i, lvl t <> 0%nat -> 0 <= i < 512 -> m' (t + 8 * i) = m (t + 8 * i)) ->
  pt_tree m' root lvl.
Proof.
  intros HT Hs. constructor; try apply HT.
  - intros t i Ht Hi. rewrite Hs by done. by apply (tr_word _ _ _ HT).
  - intros t i k Ht Hi. rewrite Hs by (done || lia). by apply (tr_child _ _ _ HT).
  - intros t i t' i' k Ht Ht' Hi Hi'. rewrite !Hs by (done || lia). by apply (tr_inj _ _ _ HT) with k.
Qed.

Lemma translate_same m m' root lvl va :
  pt_tree m root lvl -> (forall t i, lvl t <> 0%nat -> 0 <= i < 512 -> m' (t + 8 * i) = m (t + 8 * i)) ->
  translate m' root va = translate m root va.
Proof.
  intros HT Hs. unfold translate.
  assert (forall n t, lvl t = n -> walk m' n t va = walk m n t va) as H; [|apply H, HT].
  induction n as [|n IH]; intros t Ht; [done|]. cbn [walk]. pose proof (level_index_range (S n) va) as Hi.
  rewrite (Hs t) by (done || lia). destruct (present (m (t + 8 * level_index (S n) va))) eqn:E; [|done].
  destruct n as [|n]; [done|]. apply IH. by apply (tr_child _ _ _ HT t _ n).
Qed.

Lemma translate_vpn m root va va' : vpn va = vpn va' -> translate m root va = translate m root va'.
Proof.
  intros H. unfold translate. cbn [walk]. by rewrite !(indices_vpn va va' _ H) by lia.
Qed.

Lemma translate_leaf_write m root lvl c1 va v va' :
  pt_tree m root lvl -> lvl c1 = 1%nat -> leaf_table m 4 root va = Some c1 ->
  present v = true \/ v = 0 ->
  translate (upd m (c1 + 8 * pt_index va) v) root va' =
  if vpn va' =? vpn va then (if present v then Some v else None) else translate m root va'.
Proof.
  intros HT Hc1 Hleaf Hv. pose proof (tr_root _ _ _ HT) as Hroot.
  pose proof (level_index_range 1 va) as Hi. change (level_index 1 va) with (pt_index va) in Hi.
  unfold translate. rewrite (walk_set_leaf m root lvl HT) by auto.
  destruct (Z.eqb_spec (vpn va') (vpn va)) as [Heq|Hne].
  - assert (leaf_table m 4 root va' = Some c1) as ->.
    { rewrite <- Hleaf. cbn [leaf_table]. rewrite !(indices_vpn va' va _ Heq) by lia. done. }
    change (pt_index va') with (level_index 1 va').
    rewrite (indices_vpn va' va 1 Heq), !Z.eqb_refl by lia. done.
  - destruct (leaf_table m 4 root va') as [q|] eqn:Eq; [|done].
    destruct (Z.eqb_spec q c1) as [->|]; [|done].
    destruct (Z.eqb_spec (pt_index va') (pt_index va)) as [Hpt|]; [|done]. exfalso. apply Hne.
    destruct (leaf_table_ancestors m root lvl HT 4 root root va' va c1) as [_ Hidx]; try done.
    apply vpn_indices. intros l Hl. destruct (decide (l = 1%nat)) as [->|]; [done|].
    apply Hidx. lia.
Qed.

(** Writing the leaf entry once the page table [c1] of [va] is reached. *)
Lemma map_leaf s root lvl n p lvl3 c1 va pa fl :
  vm_inv (vm_phys s) root lvl -> tlb_ok s root -> 0 <= pa -> 0 <= fl -> 0 <= n <= 3 ->
  pt_grow root n (vm_phys s) lvl p lvl3 -> lvl3 c1 = 1%nat ->
  leaf_table (ram p) 4 root va = Some c1 ->
  map_post s root lvl va pa fl
    (invlpg (with_phys s (store p (entry_ptr (c1 + hhdm_phys_offset (pmm p)) (pt_index va))
       (leaf_entry pa fl))) va) lvl3.
Proof.
  intros HI Htlb Hpa Hfl Hn Hg Hc1 Hleaf. pose proof (pg_inv _ _ _ _ _ _ Hg) as HI3.
  pose proof (level_index_range 1 va) as Hi. change (level_index 1 va) with (pt_index va) in Hi.
  destruct (leaf_entry_spec pa fl Hpa Hfl) as (Hpr & _ & Hw).
  pose proof (vi_tree _ _ _ HI3) as HT. pose proof (tr_root _ _ _ HT) as Hroot.
  unfold store. rewrite (entry_target p root lvl3 HI3) by (done || lia).
  assert (forall va', translate (upd (ram p) (c1 + 8 * pt_index va) (leaf_entry pa fl)) root va' =
    if vpn va' =? vpn va then Some (leaf_entry pa fl)
    else translate (ram (vm_phys s)) root va') as Hwalk.
  { intros va'. rewrite <- (pg_walk _ _ _ _ _ _ Hg va').
    rewrite (translate_leaf_write _ _ lvl3) by auto. by rewrite Hpr. }
  constructor; cbn [vm_phys vm_tlb invlpg with_phys pmm ram].
  - constructor; cbn [pmm ram]; try apply HI3. by apply tree_set_leaf.
  - intros va' e. cbn [vm_phys vm_tlb invlpg with_phys pmm ram]. rewrite Hwalk.
    destruct (vpn va' =? vpn va); [done|]. apply Htlb.
  - exact Hwalk.
  - apply (pg_used _ _ _ _ _ _ Hg).
  - apply (pg_fresh _ _ _ _ _ _ Hg).
  - intros x Hx. rewrite upd_ne; [by apply (pg_data _ _ _ _ _ _ Hg)|]. intros ->. destruct Hx as [Hu Hl].
    rewrite (entry_page c1) in Hl by (try apply (tr_page _ _ _ HT); lia).
    pose proof (pg_fresh _ _ _ _ _ _ Hg c1 ltac:(lia) Hl) as Hf.
    rewrite <- (entry_page c1 (pt_index va)), Z.div_mul in Hf by (done || (try apply (tr_page _ _ _ HT)); lia). congruence.
  - pose proof (pg_count _ _ _ _ _ _ Hg). lia.
  - apply (pg_total _ _ _ _ _ _ Hg).
  - apply (pg_hhdm _ _ _ _ _ _ Hg).
Qed.

Lemma full_count (p : phys) :
  pmm_wf (pmm p) -> (forall f, 0 <= f < pmm_total_frames (pmm p) -> frame_used (pmm p) f = true) ->
  pmm_used_frames (pmm p) = pmm_total_frames (pmm p).
Proof.
  intros Hwf Hall. pose proof (wf_total _ (wf_bitmap _ Hwf)).
  rewrite (wf_used _ Hwf). unfold used_count.
  rewrite (proj2 (count_upto_full _ _)); [lia|]. intros i Hi. apply Hall. lia.
Qed.

Section Map.
Context {FA : FrameAllocator pmm_alloc_frame pmm_free_frame}.
Context (s0 : phys) (root : Z) (lvl0 : Z -> nat).
Local Abbreviation h := (hhdm_phys_offset (pmm s0)).

(** One step of the descent, relative to the state [s0] at the call: it goes
    on, or stops because frame 0 was free, or panics for want of frames. *)
Lemma descend_step n p lvl t i k :
  pt_grow root n s0 lvl0 p lvl -> lvl t = S (S k) -> 0 <= i < 512 ->
  (exists c p' lvl' n', vmm_get_next_level p (entry_ptr (t + h) i) true = Ok (c + h, p') /\
     (c + h =? NULL) = false /\ n <= n' <= n + 1 /\
     pt_grow root n' s0 lvl0 p' lvl' /\ pt_grow root (n' - n) p lvl p' lvl' /\ lvl' c = S k /\
     present (ram p' (t + 8 * i)) = true /\ pte_addr (ram p' (t + 8 * i)) = c) \/
  (exists p', vmm_get_next_level p (entry_ptr (t + h) i) true = Ok (NULL, p') /\
     frame_used (pmm s0) 0 = false /\ pt_grow root (n + 1) s0 lvl0 p' lvl) \/
  (exists why, vmm_get_next_level p (entry_ptr (t + h) i) true = Panic why /\
     pmm_total_frames (pmm s0) = pmm_used_frames (pmm s0) + n).
Proof.
  intros G Ht Hi. pose proof (pg_inv _ _ _ _ _ _ G) as I. pose proof (pg_hhdm _ _ _ _ _ _ G) as Hh.
  pose proof (get_next_level_spec p root lvl I t i k Ht Hi) as H. rewrite Hh in H.
  destruct H as [(c & p' & lvl' & n' & Hc & G' & Hn & Hl & Hp & Ha)|[(p' & Hc & Hal)|(why & Hc & Hall)]].
  - left. exists c, p', lvl', (n + n'). rewrite Hc. split; [done|].
    pose proof (pg_inv _ _ _ _ _ _ G') as I'. pose proof (pg_hhdm _ _ _ _ _ _ G') as Hh'.
    destruct (table_ptr _ _ _ I' c) as [_ Hnn]; [lia|]. rewrite Hh', Hh in Hnn.
    split; [done|]. split; [lia|]. split; [by apply pt_grow_trans with p lvl|].
    by replace (n + n' - n) with n' by lia.
  - right; left. exists p'. split; [done|]. split.
    + destruct (frame_used (pmm s0) 0) eqn:E; [|done].
      apply (pg_used _ _ _ _ _ _ G) in E. rewrite (ap_was_free _ _ _ Hal) in E. done.
    + apply pt_grow_trans with p lvl; [done|]. by apply alloc_grow with 0.
  - right; right. exists why. split; [done|].
    pose proof (full_count p (vi_pmm _ _ _ I) Hall).
    pose proof (pg_count _ _ _ _ _ _ G). pose proof (pg_total _ _ _ _ _ _ G). lia.
Qed.
End Map.

(** Peels off the stage of [vmm_map_page] that descends one level. *)
Ltac descend G Ht Hi c p lvl n Hn G' Gs Hl Hp Ha :=
  let H0 := fresh "Hn0" in
  destruct (descend_step _ _ _ _ _ _ _ _ _ G Ht Hi)
    as [(c & p & lvl & n & -> & Hn & H0 & G' & Gs & Hl & Hp & Ha)|[(? & -> & ? & ?)|(? & -> & ?)]];
  cbn [mbind outcome_bind];
  [ rewrite Hn; clear Hn; rename H0 into Hn | right; left; do 3 eexists; (split; [reflexivity|]); (split; [done|split; [reflexivity|eassumption]])
    | right; right; eexists; (split; [reflexivity|lia]) ].

(** Entries that are present survive a later growth step. *)
Lemma pt_grow_entry root n s lvl s' lvl' t i k c :
  pt_grow root n s lvl s' lvl' -> lvl t = S (S k) -> 0 <= i < 512 ->
  present (ram s (t + 8 * i)) = true -> pte_addr (ram s (t + 8 * i)) = c ->
  present (ram s' (t + 8 * i)) = true /\ pte_addr (ram s' (t + 8 * i)) = c.
Proof. intros G Ht Hi Hp Hc. by rewrite (pg_keep _ _ _ _ _ _ G t i k Ht Hi Hp). Qed.

Lemma map_page_cases {FA : FrameAllocator pmm_alloc_frame pmm_free_frame} s root lvl va pa fl :
  vm_inv (vm_phys s) root lvl -> tlb_ok s root ->
  va mod PAGE_SIZE = 0 -> pa mod PAGE_SIZE = 0 -> 0 <= pa -> 0 <= fl ->
  (exists s' lvl', vmm_map_page s (mk_space root false) va pa fl = Ok (true, mk_space root false, s') /\
     map_post s root lvl va pa fl s' lvl') \/
  (exists s' lvl' n, vmm_map_page s (mk_space root false) va pa fl = Ok (false, mk_space root false, s') /\
     frame_used (pmm (vm_phys s)) 0 = false /\ vm_tlb s' = vm_tlb s /\
     pt_grow root n (vm_phys s) lvl (vm_phys s') lvl') \/
  (exists why, vmm_map_page s (mk_space root false) va pa fl = Panic why /\
     pmm_total_frames (pmm (vm_phys s)) <= pmm_used_frames (pmm (vm_phys s)) + 2).
Proof.
  intros HI Htlb Hva Hpa Hpa0 Hfl. unfold vmm_map_page.
  rewrite Hva, Hpa. cbn [ASSERT Z.eqb mbind outcome_bind space_lock spin_acquire pml4_phys].
  pose proof (tr_root _ _ _ (vi_tree _ _ _ HI)) as Hroot.
  destruct (table_ptr _ _ _ HI root) as [-> Hnn]; [lia|]. cbn [mbind outcome_bind].
  pose proof (pt_grow_refl root _ lvl HI) as G0.
  pose proof (level_index_range 4 va : 0 <= pml4_index va < 512) as I4.
  pose proof (level_index_range 3 va : 0 <= pdpt_index va < 512) as I3.
  pose proof (level_index_range 2 va : 0 <= pd_index va < 512) as I2.
  descend G0 Hroot I4 c3 p1 lvl1 n1 Hn1 G1 S1 L3 P3 A3.
  descend G1 L3 I3 c2 p2 lvl2 n2 Hn2 G2 S2 L2 P2 A2.
  descend G2 L2 I2 c1 p3 lvl3 n3 Hn3 G3 S3 L1 P1 A1.
  left. do 2 eexists. split; [reflexivity|].
  rewrite <- (pg_hhdm _ _ _ _ _ _ G3). apply map_leaf with n3; try done; [lia|].
  assert (lvl1 root = 4%nat) as R1 by (rewrite (pg_ext _ _ _ _ _ _ G1) by lia; done).
  destruct (pt_grow_entry _ _ _ _ _ _ _ _ _ _ S2 R1 I4 P3 A3) as [P3' A3'].
  destruct (pt_grow_entry _ _ _ _ _ _ root _ 2 _ S3 ltac:(by rewrite (pg_ext _ _ _ _ _ _ G2) by lia)
    I4 P3' A3') as [P3'' A3''].
  destruct (pt_grow_entry _ _ _ _ _ _ c3 _ 1 _ S3 ltac:(by rewrite (pg_ext _ _ _ _ _ _ S2) by lia)
    I3 P2 A2) as [P2' A2'].
  cbn [leaf_table level_index]. by rewrite P3'', A3'', P2', A2', P1, A1.
Qed.

(** ** Unmapping one page *)

(** Tables that [lvl'] no longer has. *)
Definition freed (lvl lvl' : Z -> nat) (t : Z) : bool :=
  negb (lvl t =? 0)%nat && (lvl' t =? 0)%nat.

(** What releasing empty tables may change: no translation, and exactly the
    frames of the released tables become free. *)
Record pt_shrink (root : Z) (s : phys) (lvl : Z -> nat) (s' : phys) (lvl' : Z -> nat) : Prop := {
  sh_inv : vm_inv s' root lvl';
  sh_ext : forall t, lvl' t = lvl t \/ lvl' t = 0%nat;
  sh_walk : forall va, translate (ram s') root va = translate (ram s) root va;
  sh_used : forall f, frame_used (pmm s') f =
    frame_used (pmm s) f && negb (freed lvl lvl' (f * PAGE_SIZE));
  sh_total : pmm_total_frames (pmm s') = pmm_total_frames (pmm s);
  sh_hhdm : hhdm_phys_offset (pmm s') = hhdm_phys_offset (pmm s)
}.

Lemma pt_shrink_refl root s lvl : vm_inv s root lvl -> pt_shrink root s lvl s lvl.
Proof.
  intros H. constructor; auto. intros f. unfold freed.
  destruct (Nat.eqb_spec (lvl (f * PAGE_SIZE)) 0); by rewrite andb_true_r.
Qed.

Lemma pt_shrink_trans root s lvl s1 lvl1 s2 lvl2 :
  pt_shrink root s lvl s1 lvl1 -> pt_shrink root s1 lvl1 s2 lvl2 -> pt_shrink root s lvl s2 lvl2.
Proof.
  intros [I1 E1 W1 U1 T1 H1] [I2 E2 W2 U2 T2 H2]. constructor; [done| | | |lia|lia].
  - intros t. destruct (E1 t), (E2 t); (left; congruence) || (right; congruence).
  - intros va. by rewrite W2.
  - intros f. rewrite U2, U1. unfold freed.
    specialize (E1 (f * PAGE_SIZE)). specialize (E2 (f * PAGE_SIZE)).
    destruct (frame_used (pmm s) f), (Nat.eqb_spec (lvl (f * PAGE_SIZE)) 0),
      (Nat.eqb_spec (lvl1 (f * PAGE_SIZE)) 0), (Nat.eqb_spec (lvl2 (f * PAGE_SIZE)) 0); cbn; lia.
Qed.

(** No table below the root is empty (apart from [x]). *)
Definition table_used (m : Z -> Z) (t : Z) : Prop :=
  exists j, 0 <= j < 512 /\ present (m (t + 8 * j)) = true.
Definition no_empty_but (m : Z -> Z) (lvl : Z -> nat) (x : Z) : Prop :=
  forall t, (1 <= lvl t <= 3)%nat -> t <> x -> table_used m t.
Definition no_empty (m : Z -> Z) (lvl : Z -> nat) : Prop :=
  forall t, (1 <= lvl t <= 3)%nat -> table_used m t.

Section Unmap.
Context {FA : FrameAllocator pmm_alloc_frame pmm_free_frame}.
Context (s : phys) (root : Z) (lvl : Z -> nat) (HI : vm_inv s root lvl).
Local Abbreviation h := (hhdm_phys_offset (pmm s)).

Lemma load_entry t i : lvl t <> 0%nat -> 0 <= i < 512 -> load s (entry_ptr (t + h) i) = ram s (t + 8 * i).
Proof. intros Ht Hi. unfold load. by rewrite (entry_target s root lvl HI). Qed.

Lemma table_empty_from_spec t n i :
  lvl t <> 0%nat -> 0 <= i -> i + Z.of_nat n <= 512 ->
  table_empty_from s (t + h) n i = true <->
  forall j, i <= j < i + Z.of_nat n -> present (ram s (t + 8 * j)) = false.
Proof.
  intros Ht. revert i. induction n as [|n IH]; intros i Hi Hn.
  { split; [intros _ j ?; lia|done]. }
  cbn [table_empty_from]. rewrite load_entry by (done || lia).
  destruct (present (ram s (t + 8 * i))) eqn:E.
  - split; [done|]. intros Hall. rewrite Hall in E by lia. done.
  - rewrite IH by lia. split; intros Hall j Hj; [|apply Hall; lia].
    destruct (Z.eq_dec j i) as [->|]; [done|]. apply Hall. lia.
Qed.

Lemma is_table_empty_spec t :
  lvl t <> 0%nat ->
  vmm_is_table_empty s (t + h) = true <->
  forall j, 0 <= j < 512 -> present (ram s (t + 8 * j)) = false.
Proof. intros Ht. unfold vmm_is_table_empty. by rewrite table_empty_from_spec by (done || lia). Qed.

(** Unlinking and releasing the empty table [c] below entry [i] of [t]. *)
Lemma shrink_step t i k c :
  lvl t = S (S k) -> 0 <= i < 512 -> present (ram s (t + 8 * i)) = true ->
  pte_addr (ram s (t + 8 * i)) = c ->
  (forall j, 0 <= j < 512 -> present (ram s (c + 8 * j)) = false) ->
  exists s', pmm_free_frame (store s (entry_ptr (t + h) i) 0) c = Ok s' /\
    ram s' = upd (ram s) (t + 8 * i) 0 /\ pt_shrink root s lvl s' (add_lvl lvl c 0).
Proof.
  intros Ht Hi Hp Hc Hempty. pose proof (vi_tree _ _ _ HI) as HT.
  destruct (tr_child _ _ _ HT t i k Ht Hi Hp) as [Hlc _]. rewrite Hc in Hlc.
  destruct (vi_owned _ _ _ HI c ltac:(lia)) as [Hcu Hclt].
  destruct (tr_page _ _ _ HT c ltac:(lia)) as [Hcr [fc Hfc]].
  unfold store. rewrite (entry_target s root lvl HI) by (done || lia).
  set (s1 := mk_phys (pmm s) (upd (ram s) (t + 8 * i) 0)).
  assert (c = fc * PAGE_SIZE) as Hcf by (unfold PAGE_SIZE; lia).
  assert (c / PAGE_SIZE = fc) as Hdiv by (rewrite Hcf; by apply Z.div_mul).
  rewrite Hdiv in Hcu, Hclt.
  destruct (fa_free s1 fc (vi_pmm _ _ _ HI : pmm_wf (pmm s1)) ltac:(cbn; unfold PAGE_SIZE in *; lia) Hcu)
    as (s' & Hf & Hpost).
  exists s'. rewrite Hcf. split; [done|]. destruct Hpost as [_ Hu Hr Hwf Hcnt Htot Hhh].
  split; [done|]. rewrite <- Hcf. cbn [s1 pmm ram] in *. constructor; try done.
  - constructor; [done| | |].
    + rewrite Htot, Hhh. apply (vi_hhdm _ _ _ HI).
    + rewrite Hr. by apply tree_del_table with k.
    + intros x. unfold add_lvl. destruct (Z.eqb_spec x c) as [|Hxc]; [done|]. intros Hx.
      destruct (vi_owned _ _ _ HI x Hx) as [Hxu Hxl]. rewrite Hu, Hxu, Htot, andb_true_r.
      split; [|done]. destruct (tr_page _ _ _ HT x Hx) as [_ [fx ->]].
      unfold PAGE_SIZE in *. rewrite Z.div_mul by done. zcase (fx =? fc).
  - intros x. unfold add_lvl. destruct (x =? c); auto.
  - intros va. rewrite Hr. apply (walk_del_table (ram s) root lvl HT) with c k; try done.
    apply (tr_root _ _ _ HT).
  - intros f. rewrite Hu, andb_comm. f_equal. f_equal. unfold freed, add_lvl.
    destruct (Z.eqb_spec f fc) as [->|Hne].
    + rewrite <- Hcf, Z.eqb_refl, Hlc. done.
    + zcase (f * PAGE_SIZE =? c); [unfold PAGE_SIZE in *; lia|].
      destruct (Nat.eqb_spec (lvl (f * PAGE_SIZE)) 0); done.
Qed.

Lemma table_not_empty t :
  lvl t <> 0%nat -> vmm_is_table_empty s (t + h) = false -> table_used (ram s) t.
Proof.
  intros Ht He. destruct (decide (Exists (fun j => present (ram s (t + 8 * Z.of_nat j)) = true) (seq 0 512)))
    as [Hex|Hnex].
  - apply Exists_exists in Hex as (j & Hj & Hp). apply elem_of_seq in Hj.
    exists (Z.of_nat j). split; [lia|done].
  - exfalso. assert (vmm_is_table_empty s (t + h) = true); [|congruence].
    apply is_table_empty_spec; [done|]. intros j Hj.
    destruct (present (ram s (t + 8 * j))) eqn:E; [|done]. exfalso. apply Hnex, Exists_exists.
    exists (Z.to_nat j). rewrite Z2Nat.id by lia. split; [apply elem_of_seq; lia|done].
Qed.

Lemma no_empty_all t :
  lvl t <> 0%nat -> vmm_is_table_empty s (t + h) = false ->
  no_empty_but (ram s) lvl t -> no_empty (ram s) lvl.
Proof.
  intros Ht He Hne x Hx. destruct (Z.eq_dec x t) as [->|]; [by apply table_not_empty|by apply Hne].
Qed.

(** Releasing the empty table [c] can leave only its parent empty. *)
Lemma no_empty_step t i k c :
  lvl t = S (S k) -> 0 <= i < 512 ->
  no_empty_but (ram s) lvl c -> no_empty_but (upd (ram s) (t + 8 * i) 0) (add_lvl lvl c 0) t.
Proof.
  intros Ht Hi Hne x Hx Hxt. unfold add_lvl in Hx. destruct (Z.eqb_spec x c) as [|Hxc]; [lia|].
  destruct (Hne x Hx Hxc) as (j & Hj & Hp). exists j. split; [done|].
  rewrite (upd_entry_other (ram s) root lvl (vi_tree _ _ _ HI)) by (done || lia || auto). done.
Qed.
End Unmap.

(** The effect of [vmm_unmap_page]. *)
Record unmap_post (s : vm) (root va : Z) (lvl : Z -> nat) (s' : vm) (lvl' : Z -> nat) : Prop := {
  um_inv : vm_inv (vm_phys s') root lvl';
  um_tlb : tlb_ok s' root;
  um_walk : forall va', translate (ram (vm_phys s')) root va' =
    if vpn va' =? vpn va then None else translate (ram (vm_phys s)) root va';
  um_tables : forall t, lvl' t = lvl t \/ lvl' t = 0%nat;
  um_used : forall f, frame_used (pmm (vm_phys s')) f =
    frame_used (pmm (vm_phys s)) f && negb (freed lvl lvl' (f * PAGE_SIZE));
  um_no_empty : no_empty (ram (vm_phys s)) lvl -> no_empty (ram (vm_phys s')) lvl';
  um_total : pmm_total_frames (pmm (vm_phys s')) = pmm_total_frames (pmm (vm_phys s));
  um_hhdm : hhdm_phys_offset (pmm (vm_phys s')) = hhdm_phys_offset (pmm (vm_phys s))
}.

(** Clearing the leaf entry of [va] in page table [c1]. *)
Lemma unmap_leaf s root lvl c1 va :
  vm_inv (vm_phys s) root lvl -> lvl c1 = 1%nat -> leaf_table (ram (vm_phys s)) 4 root va = Some c1 ->
  let p0 := mk_phys (pmm (vm_phys s)) (upd (ram (vm_phys s)) (c1 + 8 * pt_index va) 0) in
  vm_inv p0 root lvl /\
  (forall va', translate (ram p0) root va' =
    if vpn va' =? vpn va then None else translate (ram (vm_phys s)) root va') /\
  (no_empty (ram (vm_phys s)) lvl -> no_empty_but (ram p0) lvl c1) /\
  (forall t i k, lvl t = S (S k) -> 0 <= i < 512 -> ram p0 (t + 8 * i) = ram (vm_phys s) (t + 8 * i)).
Proof.
  intros HI Hc1 Hleaf p0. pose proof (vi_tree _ _ _ HI) as HT.
  pose proof (level_index_range 1 va) as Hi. change (level_index 1 va) with (pt_index va) in Hi.
  split; [|split; [|split]].
  - constructor; try apply HI. apply tree_set_leaf; try done.
  - intros va'. by apply (translate_leaf_write _ _ lvl); auto.
  - intros Hne x Hx Hxc. destruct (Hne x Hx) as (j & Hj & Hp). exists j. split; [done|]. cbn [p0 ram].
    rewrite (upd_entry_other (ram (vm_phys s)) root lvl HT) by (done || lia || auto). done.
  - intros t i k Ht Hi'. cbn [p0 ram]. apply (upd_entry_other (ram (vm_phys s)) root lvl HT); try done; try lia.
    left. intros ->. lia.
Qed.

Lemma unmap_finish s root va lvl p0 p' lvl' :
  tlb_ok s root ->
  (forall va', translate (ram p0) root va' =
    if vpn va' =? vpn va then None else translate (ram (vm_phys s)) root va') ->
  pmm p0 = pmm (vm_phys s) -> pt_shrink root p0 lvl p' lvl' ->
  (no_empty (ram (vm_phys s)) lvl -> no_empty (ram p') lvl') ->
  unmap_post s root va lvl (with_phys (invlpg (with_phys s p0) va) p') lvl'.
Proof.
  intros Htlb Hw Hp0 [I E W U T H] Hne. rewrite Hp0 in *.
  assert (forall va', translate (ram p') root va' =
    if vpn va' =? vpn va then None else translate (ram (vm_phys s)) root va') as Hw'.
  { intros va'. by rewrite W. }
  constructor; cbn [vm_phys with_phys invlpg]; try done.
  intros va' e. cbn [vm_tlb vm_phys with_phys invlpg]. rewrite Hw'.
  destruct (vpn va' =? vpn va); [done|]. apply Htlb.
Qed.

Lemma add_lvl_ne lvl c k x : x <> c -> add_lvl lvl c k x = lvl x.
Proof. intros H. unfold add_lvl. by apply Z.eqb_neq in H as ->. Qed.

(** The part of [vmm_unmap_page] that releases the tables left empty. *)
Lemma unmap_release {FA : FrameAllocator pmm_alloc_frame pmm_free_frame}
    (s : vm) (sp : address_space) (fr : Z) p root lvl c3 c2 c1 i4 i3 i2 :
  let h := hhdm_phys_offset (pmm p) in
  vm_inv p root lvl ->
  0 <= i4 < 512 -> present (ram p (root + 8 * i4)) = true -> pte_addr (ram p (root + 8 * i4)) = c3 ->
  0 <= i3 < 512 -> present (ram p (c3 + 8 * i3)) = true -> pte_addr (ram p (c3 + 8 * i3)) = c2 ->
  0 <= i2 < 512 -> present (ram p (c2 + 8 * i2)) = true -> pte_addr (ram p (c2 + 8 * i2)) = c1 ->
  exists p' lvl',
    (if negb (vmm_is_table_empty p (c1 + h)) then Ok (fr, sp, with_phys s p) else
     let pt_phys := pte_addr (load p (entry_ptr (c2 + h) i2)) in
     p ← pmm_free_frame (store p (entry_ptr (c2 + h) i2) 0) pt_phys ;
     if negb (vmm_is_table_empty p (c2 + h)) then Ok (fr, sp, with_phys s p) else
     let pd_phys := pte_addr (load p (entry_ptr (c3 + h) i3)) in
     p ← pmm_free_frame (store p (entry_ptr (c3 + h) i3) 0) pd_phys ;
     if negb (vmm_is_table_empty p (c3 + h)) then Ok (fr, sp, with_phys s p) else
     let pdpt_phys := pte_addr (load p (entry_ptr (root + h) i4)) in
     p ← pmm_free_frame (store p (entry_ptr (root + h) i4) 0) pdpt_phys ;
     Ok (fr, sp, with_phys s p)) = Ok (fr, sp, with_phys s p') /\
    pt_shrink root p lvl p' lvl' /\
    (no_empty_but (ram p) lvl c1 -> no_empty (ram p') lvl').
Proof.
  intros h I R4 P4 A4 R3 P3 A3 R2 P2 A2. pose proof (vi_tree _ _ _ I) as HT.
  pose proof (tr_root _ _ _ HT) as L4.
  assert (lvl c3 = 3%nat) as L3 by (rewrite <- A4; by apply (tr_child _ _ _ HT root i4 2)).
  assert (lvl c2 = 2%nat) as L2 by (rewrite <- A3; by apply (tr_child _ _ _ HT c3 i3 1)).
  assert (lvl c1 = 1%nat) as L1 by (rewrite <- A2; by apply (tr_child _ _ _ HT c2 i2 0)).
  destruct (vmm_is_table_empty p (c1 + h)) eqn:E1; cbn [negb].
  2: { exists p, lvl. split; [done|]. split; [by apply pt_shrink_refl|].
       intros Hne. apply (no_empty_all p root lvl I c1); try done. lia. }
  unfold h in *. rewrite (load_entry p root lvl I) by (done || lia). rewrite A2.
  destruct (shrink_step p root lvl I c2 i2 0 c1) as (p1 & -> & M1 & S1); try done.
  { apply (is_table_empty_spec p root lvl I); [lia|done]. }
  cbn [mbind outcome_bind]. pose proof (sh_inv _ _ _ _ _ S1) as I1.
  pose proof (sh_hhdm _ _ _ _ _ S1) as H1. rewrite <- H1 in *.
  set (lvl1 := add_lvl lvl c1 0) in *.
  assert (lvl1 c2 = 2%nat /\ lvl1 c3 = 3%nat /\ lvl1 root = 4%nat) as (L2' & L3' & L4').
  { unfold lvl1. rewrite !add_lvl_ne by congruence. done. }
  assert (forall x j k, lvl1 x = S (S k) -> 0 <= j < 512 -> x <> c2 -> ram p1 (x + 8 * j) = ram p (x + 8 * j)) as K1.
  { intros x j k Hx Hj Hxc. rewrite M1. apply (upd_entry_other (ram p) root lvl HT); try done; try lia; auto.
    unfold lvl1, add_lvl in Hx. destruct (x =? c1); lia. }
  assert (c3 <> c2 /\ root <> c2 /\ root <> c3) as (N32 & N42 & N43) by (repeat split; congruence).
  destruct (vmm_is_table_empty p1 (c2 + _)) eqn:E2; cbn [negb].
  2: { exists p1, lvl1. split; [done|]. split; [done|]. intros Hne.
       apply (no_empty_all p1 root lvl1 I1 c2); try done; [lia|]. rewrite M1.
       by apply (no_empty_step p root lvl I) with 0%nat. }
  rewrite (load_entry p1 root lvl1 I1), (K1 c3 i3 1%nat) by (done || lia). rewrite A3.
  destruct (shrink_step p1 root lvl1 I1 c3 i3 1 c2) as (p2 & -> & M2 & S2);
    rewrite ?(K1 c3 i3 1%nat) by done; try done.
  { apply (is_table_empty_spec p1 root lvl1 I1); [lia|done]. }
  cbn [mbind outcome_bind]. pose proof (sh_inv _ _ _ _ _ S2) as I2.
  pose proof (sh_hhdm _ _ _ _ _ S2) as H2. rewrite <- H2 in *.
  set (lvl2 := add_lvl lvl1 c2 0) in *.
  assert (lvl2 c3 = 3%nat /\ lvl2 root = 4%nat) as (L3'' & L4'').
  { unfold lvl2. rewrite !add_lvl_ne by congruence. done. }
  assert (ram p2 (root + 8 * i4) = ram p (root + 8 * i4)) as K2.
  { rewrite M2, <- (K1 root i4 2%nat) by done.
    apply (upd_entry_other (ram p1) root lvl1 (vi_tree _ _ _ I1)); try done; try lia; auto. }
  pose proof (pt_shrink_trans _ _ _ _ _ _ _ S1 S2) as S12.
  assert (no_empty_but (ram p) lvl c1 -> no_empty_but (ram p2) lvl2 c3) as HN2.
  { intros Hne. rewrite M2. apply (no_empty_step p1 root lvl1 I1) with 1%nat; try done. rewrite M1.
    by apply (no_empty_step p root lvl I) with 0%nat. }
  destruct (vmm_is_table_empty p2 (c3 + _)) eqn:E3; cbn [negb].
  2: { exists p2, lvl2. split; [done|]. split; [done|]. intros Hne.
       apply (no_empty_all p2 root lvl2 I2 c3); auto. lia. }
  rewrite (load_entry p2 root lvl2 I2), K2 by (done || lia). rewrite A4.
  destruct (shrink_step p2 root lvl2 I2 root i4 2 c3) as (p3 & -> & M3 & S3); rewrite ?K2; try done.
  { apply (is_table_empty_spec p2 root lvl2 I2); [lia|done]. }
  cbn [mbind outcome_bind]. exists p3, (add_lvl lvl2 c3 0). split; [done|].
  split; [by apply pt_shrink_trans with p2 lvl2|]. intros Hne x Hx.
  rewrite M3. apply (no_empty_step p2 root lvl2 I2 root i4 2 c3); auto.
  intros ->. rewrite (tr_root _ _ _ (vi_tree _ _ _ (sh_inv _ _ _ _ _ S3))) in Hx. lia.
Qed.

Lemma unmap_page_cases {FA : FrameAllocator pmm_alloc_frame pmm_free_frame} s root lvl va :
  vm_inv (vm_phys s) root lvl -> tlb_ok s root -> va mod PAGE_SIZE = 0 ->
  exists s' lvl',
    vmm_unmap_page s (mk_space root false) va =
      Ok (match translate (ram (vm_phys s)) root va with Some e => pte_addr e | None => 0 end,
          mk_space root false, s') /\
    unmap_post s root va lvl s' lvl'.
Proof.
  intros HI Htlb Hva. unfold vmm_unmap_page.
  rewrite Hva. cbn [ASSERT Z.eqb mbind outcome_bind space_lock spin_acquire pml4_phys].
  pose proof (vi_tree _ _ _ HI) as HT. pose proof (tr_root _ _ _ HT) as L4.
  assert (translate (ram (vm_phys s)) root va = None -> unmap_post s root va lvl s lvl) as Hnone.
  { intros Hno. constructor; try done; try auto.
    - intros va'. destruct (Z.eqb_spec (vpn va') (vpn va)) as [Heq|]; [|done].
      by rewrite (translate_vpn _ _ va' va Heq).
    - apply (sh_used _ _ _ _ _ (pt_shrink_refl root _ lvl HI)). }
  pose proof (level_index_range 4 va : 0 <= pml4_index va < 512) as I4.
  pose proof (level_index_range 3 va : 0 <= pdpt_index va < 512) as I3.
  pose proof (level_index_range 2 va : 0 <= pd_index va < 512) as I2.
  pose proof (level_index_range 1 va : 0 <= pt_index va < 512) as I1.
  unfold translate in *. cbn [walk level_index] in *.
  destruct (table_ptr _ _ _ HI root) as [-> _]; [lia|]. cbn [mbind outcome_bind].
  rewrite (load_entry _ _ _ HI) by (done || lia).
  destruct (present (ram (vm_phys s) (root + 8 * pml4_index va))) eqn:P4; cbn [negb]; [|by eauto].
  destruct (tr_child _ _ _ HT root _ 2 L4 I4 P4) as [L3 _].
  destruct (table_ptr _ _ _ HI _ (ltac:(lia) : lvl (pte_addr (ram (vm_phys s) (root + 8 * pml4_index va))) <> 0%nat))
    as [-> _]. cbn [mbind outcome_bind].
  set (c3 := pte_addr _) in *. rewrite (load_entry _ _ _ HI) by (done || lia).
  destruct (present (ram (vm_phys s) (c3 + 8 * pdpt_index va))) eqn:P3; cbn [negb]; [|by eauto].
  destruct (tr_child _ _ _ HT c3 _ 1 L3 I3 P3) as [L2 _].
  destruct (table_ptr _ _ _ HI _ (ltac:(lia) : lvl (pte_addr (ram (vm_phys s) (c3 + 8 * pdpt_index va))) <> 0%nat))
    as [-> _]. cbn [mbind outcome_bind].
  set (c2 := pte_addr (ram (vm_phys s) (c3 + _))) in *. rewrite (load_entry _ _ _ HI) by (done || lia).
  destruct (present (ram (vm_phys s) (c2 + 8 * pd_index va))) eqn:P2; cbn [negb]; [|by eauto].
  destruct (tr_child _ _ _ HT c2 _ 0 L2 I2 P2) as [L1 _].
  destruct (table_ptr _ _ _ HI _ (ltac:(lia) : lvl (pte_addr (ram (vm_phys s) (c2 + 8 * pd_index va))) <> 0%nat))
    as [-> _]. cbn [mbind outcome_bind].
  set (c1 := pte_addr (ram (vm_phys s) (c2 + _))) in *. rewrite (load_entry _ _ _ HI) by (done || lia).
  destruct (present (ram (vm_phys s) (c1 + 8 * pt_index va))) eqn:P1; cbn [negb]; [|by eauto].
  assert (store (vm_phys s) (entry_ptr (c1 + hhdm_phys_offset (pmm (vm_phys s))) (pt_index va)) 0 =
    mk_phys (pmm (vm_phys s)) (upd (ram (vm_phys s)) (c1 + 8 * pt_index va) 0)) as ->.
  { unfold store. by rewrite (entry_target _ _ _ HI) by (done || lia). }
  destruct (unmap_leaf s root lvl c1 va HI L1) as (I0 & W0 & N0 & K0).
  { cbn [leaf_table level_index]. rewrite P4. fold c3. rewrite P3. fold c2. by rewrite P2. }
  set (p0 := mk_phys _ (upd _ _ _)) in *.
  destruct (unmap_release (invlpg (with_phys s p0) va) (mk_space root false)
    (pte_addr (ram (vm_phys s) (c1 + 8 * pt_index va))) p0 root lvl c3 c2 c1
    (pml4_index va) (pdpt_index va) (pd_index va)) as (p' & lvl' & Hrun & Hsh & Hne);
    rewrite ?(K0 root _ 2%nat), ?(K0 c3 _ 1%nat), ?(K0 c2 _ 0%nat) by done; try done.
  exists (with_phys (invlpg (with_phys s p0) va) p'), lvl'. split; [exact Hrun|].
  apply unmap_finish; auto.
Qed.

(** ** Properties *)

(** C5: With frame 0 reserved and three frames free, [vmm_map_page] succeeds: the
    page of [va] translates to the given frame and flags, every other
    translation, the page-table invariant and the coherence of the TLB are
    kept, at most three frames are taken, all for new tables, no data in use
    changes, and the lock is released. *)
Theorem vmm_map_page_correct (s : vm) (root : Z) (lvl : Z -> nat) (va pa fl : Z) :
  vm_inv (vm_phys s) root lvl -> tlb_ok s root ->
  va mod PAGE_SIZE = 0 -> pa mod PAGE_SIZE = 0 -> 0 <= pa -> 0 <= fl ->
  frame_used (pmm (vm_phys s)) 0 = true ->
  pmm_used_frames (pmm (vm_phys s)) + 3 <= pmm_total_frames (pmm (vm_phys s)) ->
  exists s' lvl', vmm_map_page s (mk_space root false) va pa fl = Ok (true, mk_space root false, s') /\
    map_post s root lvl va pa fl s' lvl'.
Proof.
  intros HI Htlb Hva Hpa Hpa0 Hfl H0 Hfree.
  destruct (map_page_cases s root lvl va pa fl) as [?|[(? & ? & ? & _ & Hf & _)|(? & _ & Hp)]];
    try done; [congruence|lia].
Qed.

(** A kernel space with an empty root table in frame 1 of a machine with 64
    frames, frames 0 and 1 in use. *)
Definition demo_space_pmm (bits used : Z) : pmm_state :=
  mk_pmm [bits] 1 64 used 63 false 1 0xFFFF800000000000.
Definition demo_vm : vm :=
  mk_vm (mk_phys (demo_space_pmm 3 2) (fun _ => 0)) (fun _ => None) 0x1000.
Definition demo_lvl (t : Z) : nat := if t =? 0x1000 then 4%nat else 0%nat.

Lemma demo_vm_inv : vm_inv (vm_phys demo_vm) 0x1000 demo_lvl.
Proof.
  assert (forall t, demo_lvl t <> 0%nat -> t = 0x1000 /\ demo_lvl t = 4%nat) as Hl.
  { intros t. unfold demo_lvl. by destruct (Z.eqb_spec t 0x1000). }
  constructor.
  - constructor; [constructor|vm_compute; reflexivity|reflexivity]; cbn; try lia.
    repeat constructor; vm_compute; congruence.
  - cbn. unfold PAGE_SIZE. lia.
  - constructor; try done.
    + intros t. unfold demo_lvl. destruct (t =? 0x1000); lia.
    + intros t Ht. destruct (Hl t Ht) as [-> _]. split; [lia|]. by exists 1.
  - intros t Ht. destruct (Hl t Ht) as [-> _]. done.
Qed.

Lemma demo_tlb_ok : tlb_ok demo_vm 0x1000.
Proof. done. Qed.

Lemma vmm_map_page_correct_witness :
  exists s' lvl', vmm_map_page demo_vm (mk_space 0x1000 false) 0x400000 0x7000 PTE_WRITE
      = Ok (true, mk_space 0x1000 false, s') /\
    map_post demo_vm 0x1000 demo_lvl 0x400000 0x7000 PTE_WRITE s' lvl'.
Proof.
  apply (vmm_map_page_correct demo_vm 0x1000 demo_lvl 0x400000 0x7000 PTE_WRITE
    demo_vm_inv demo_tlb_ok); first [reflexivity | split; vm_compute; congruence | vm_compute; congruence].
Defined.

(** C6: [vmm_unmap_page] never panics in a well-formed space: it returns the
    frame the page was mapped to (0 when it was not mapped), removes exactly
    that translation from the tables and the TLB, releases exactly the frames of
    the tables it unlinks, and leaves no table below the root empty if none was
    before. *)
Theorem vmm_unmap_page_correct (s : vm) (root : Z) (lvl : Z -> nat) (va : Z) :
  vm_inv (vm_phys s) root lvl -> tlb_ok s root -> va mod PAGE_SIZE = 0 ->
  exists s' lvl',
    vmm_unmap_page s (mk_space root false) va =
      Ok (match translate (ram (vm_phys s)) root va with Some e => pte_addr e | None => 0 end,
          mk_space root false, s') /\
    unmap_post s root va lvl s' lvl'.
Proof. apply unmap_page_cases. Qed.

Lemma vmm_unmap_page_correct_witness :
  exists s1 s' lvl' , vmm_map_page demo_vm (mk_space 0x1000 false) 0x400000 0x7000 PTE_WRITE
      = Ok (true, mk_space 0x1000 false, s1) /\
    vmm_unmap_page s1 (mk_space 0x1000 false) 0x400000 = Ok (0x7000, mk_space 0x1000 false, s') /\
    vm_inv (vm_phys s') 0x1000 lvl' /\ translate (ram (vm_phys s')) 0x1000 0x400000 = None.
Proof.
  destruct (map_page_cases demo_vm 0x1000 demo_lvl 0x400000 0x7000 PTE_WRITE demo_vm_inv demo_tlb_ok
    eq_refl eq_refl ltac:(lia) ltac:(unfold PTE_WRITE; lia))
    as [(s1 & lvl1 & R & M)|[(? & ? & ? & _ & Hf & _)|(? & _ & Hp)]].
  - destruct (vmm_unmap_page_correct s1 0x1000 lvl1 0x400000 (mp_inv _ _ _ _ _ _ _ _ M) (mp_tlb _ _ _ _ _ _ _ _ M) eq_refl)
      as (s' & lvl' & E & U).
    rewrite (mp_walk _ _ _ _ _ _ _ _ M), Z.eqb_refl in E.
    exists s1, s', lvl'. split; [exact R|]. split; [exact E|]. split; [exact (um_inv _ _ _ _ _ _ U)|].
    rewrite (um_walk _ _ _ _ _ _ U), Z.eqb_refl. reflexivity.
  - vm_compute in Hf. discriminate Hf.
  - vm_compute in Hp. congruence.
Defined.

(** Mapping an unmapped page and unmapping it again returns the mapped frame
    and restores every translation of the space. *)
Theorem vmm_map_unmap_roundtrip (s : vm) (root : Z) (lvl : Z -> nat) (va pa fl : Z) :
  vm_inv (vm_phys s) root lvl -> tlb_ok s root ->
  va mod PAGE_SIZE = 0 -> pa mod PAGE_SIZE = 0 -> 0 <= pa < 2 ^ 52 -> 0 <= fl ->
  frame_used (pmm (vm_phys s)) 0 = true ->
  pmm_used_frames (pmm (vm_phys s)) + 3 <= pmm_total_frames (pmm (vm_phys s)) ->
  translate (ram (vm_phys s)) root va = None ->
  exists s1 s2 lvl2,
    vmm_map_page s (mk_space root false) va pa fl = Ok (true, mk_space root false, s1) /\
    vmm_unmap_page s1 (mk_space root false) va = Ok (pa, mk_space root false, s2) /\
    vm_inv (vm_phys s2) root lvl2 /\ tlb_ok s2 root /\
    forall va', translate (ram (vm_phys s2)) root va' = translate (ram (vm_phys s)) root va'.
Proof.
  intros HI Htlb Hva Hpa Hpa0 Hfl H0 Hfree Hno.
  destruct (map_page_cases s root lvl va pa fl) as [(s1 & l1 & R1 & M)|[(? & ? & ? & _ & Hf & _)|(? & _ & Hp)]];
    try done; [lia| |congruence|lia].
  destruct (unmap_page_cases s1 root l1 va (mp_inv _ _ _ _ _ _ _ _ M) (mp_tlb _ _ _ _ _ _ _ _ M) Hva)
    as (s2 & l2 & R2 & U).
  rewrite (mp_walk _ _ _ _ _ _ _ _ M), Z.eqb_refl in R2.
  destruct (leaf_entry_spec pa fl) as (_ & Ha & _); [lia|done|].
  rewrite Ha, pte_addr_page in R2 by (done || by apply Z.mod_divide).
  exists s1, s2, l2. split; [done|]. split; [done|]. split; [apply U|]. split; [apply U|].
  intros va'. rewrite (um_walk _ _ _ _ _ _ U), (mp_walk _ _ _ _ _ _ _ _ M).
  destruct (Z.eqb_spec (vpn va') (vpn va)) as [Heq|]; [|done].
  by rewrite (translate_vpn _ _ va' va Heq).
Qed.

Lemma vmm_map_unmap_roundtrip_witness :
  exists s1 s2 lvl2,
    vmm_map_page demo_vm (mk_space 0x1000 false) 0x400000 0x7000 PTE_WRITE
      = Ok (true, mk_space 0x1000 false, s1) /\
    vmm_unmap_page s1 (mk_space 0x1000 false) 0x400000 = Ok (0x7000, mk_space 0x1000 false, s2) /\
    vm_inv (vm_phys s2) 0x1000 lvl2 /\ tlb_ok s2 0x1000 /\
    forall va', translate (ram (vm_phys s2)) 0x1000 va' = translate (fun _ => 0) 0x1000 va'.
Proof.
  apply (vmm_map_unmap_roundtrip demo_vm 0x1000 demo_lvl 0x400000 0x7000 PTE_WRITE
    demo_vm_inv demo_tlb_ok); first [reflexivity | split; vm_compute; congruence | vm_compute; congruence].
Defined.

(** The physical address 0 doubles as the failure value: on a machine with 63
    free frames, [vmm_map_page] reports failure when the allocator hands out
    frame 0, and that frame stays allocated. *)
Theorem vmm_map_page_frame_zero :
  exists s',
    vmm_map_page (mk_vm (mk_phys (demo_space_pmm 2 1) (fun _ => 0)) (fun _ => None) 0x1000)
      (mk_space 0x1000 false) 0x400000 0x7000 PTE_WRITE = Ok (false, mk_space 0x1000 false, s') /\
    pmm_used_frames (pmm (vm_phys s')) = 2 /\ frame_used (pmm (vm_phys s')) 0 = true.
Proof.
  eexists. split; [vm_compute; reflexivity|]. vm_compute. auto.
Qed.
