(* ===== verification/KHeap.v ===== *)
(** Kernel heap of [src/kernel/memory.c]: the sorted free list of headers in
    kernel virtual memory, its growth by mapped pages, [kmalloc] and [kfree]. *)
From Stdlib Require Import ZArith Lia.
From stdpp Require Import strings numbers gmap base.
From stdpp Require Import list.
From S2P Require Import Prelude Pmm Vmm.
Open Scope Z_scope.

Definition KERNEL_VMA_OFFSET : Z := 0xFFFF800000000000.
Definition KERNEL_HEAP_START : Z := KERNEL_VMA_OFFSET + 0x40000000.
Definition KERNEL_HEAP_MAX_SIZE : Z := PAGE_SIZE * 1024 * 16.
Definition KHEAP_MIN_ALIGNMENT : Z := 16.
Definition KHEAP_MAGIC : Z := 0xDEADBEEFCAFEBABE.

(** [sizeof(kheap_block_header_t)], padding included. *)
Definition KHEAP_HEADER_SIZE : Z := 32.

Record kheap_block_header := mk_hdr { size : Z; next_free : Z; magic : Z }.

(** The heap globals, the kernel address space and the machine; the headers are words of
    its memory. *)
Record kheap := mk_kheap {
  kh_vm : vm;
  kernel_address_space : address_space;
  kheap_free_list : Z;
  kheap_current_break : Z;
  kheap_max_break : Z;
  kheap_lock : bool
}.

Definition with_vm (h : kheap) (s : vm) (sp : address_space) : kheap :=
  mk_kheap s sp (kheap_free_list h) (kheap_current_break h) (kheap_max_break h) (kheap_lock h).
Definition with_free_list (h : kheap) (l : Z) : kheap :=
  mk_kheap (kh_vm h) (kernel_address_space h) l (kheap_current_break h) (kheap_max_break h) (kheap_lock h).
Definition with_break (h : kheap) (b : Z) : kheap :=
  mk_kheap (kh_vm h) (kernel_address_space h) (kheap_free_list h) b (kheap_max_break h) (kheap_lock h).
Definition with_heap_lock (h : kheap) (l : bool) : kheap :=
  mk_kheap (kh_vm h) (kernel_address_space h) (kheap_free_list h) (kheap_current_break h) (kheap_max_break h) l.

Definition ram_of (h : kheap) : Z -> Z := ram (vm_phys (kh_vm h)).
Definition with_ram (h : kheap) (m : Z -> Z) : kheap :=
  with_vm h (with_phys (kh_vm h) (mk_phys (pmm (vm_phys (kh_vm h))) m)) (kernel_address_space h).

(** ** Accesses to kernel virtual memory

    A word is found through the page tables of the kernel address space; an access to
    an unmapped page faults. *)
Definition kroot (h : kheap) : Z := pml4_phys (kernel_address_space h).

Definition word_addr (h : kheap) (a : Z) : option Z :=
  match translate (ram_of h) (kroot h) a with
  | Some e => Some (pte_addr e + a mod PAGE_SIZE)
  | None => None
  end.

Definition mapped (h : kheap) (a : Z) : bool :=
  match word_addr h a with
  | Some _ => true
  | None => false
  end.

Definition word_get (h : kheap) (a : Z) : outcome Z :=
  match word_addr h a with
  | Some p => Ok (ram_of h p)
  | None => Undef "page fault"
  end.

Definition word_put (h : kheap) (a x : Z) : outcome kheap :=
  match word_addr h a with
  | Some p => Ok (with_ram h (upd (ram_of h) p x))
  | None => Undef "page fault"
  end.

(** The three fields of a header; the padding behind them is never accessed. *)
Definition hdr_get (h : kheap) (a : Z) : outcome kheap_block_header :=
  n ← word_get h a ;
  nx ← word_get h (a + 8) ;
  mg ← word_get h (a + 16) ;
  Ok (mk_hdr n nx mg).

Definition hdr_put (h : kheap) (a : Z) (b : kheap_block_header) : outcome kheap :=
  h ← word_put h a (size b) ;
  h ← word_put h (a + 8) (next_free b) ;
  word_put h (a + 16) (magic b).

(** [block->size = n] on memory whose other fields are about to be set. *)
Definition hdr_put_size (h : kheap) (a n : Z) : outcome kheap := word_put h a n.

(** ** Free list *)

(** The loop that finds the last free block below [block]. *)
Fixpoint find_insert_pos (fuel : nat) (h : kheap) (block current : Z) : outcome Z :=
  match fuel with
  | O => Hang
  | S fuel' =>
      c ← hdr_get h current ;
      if negb (next_free c =? 0) && (next_free c <? block)
      then find_insert_pos fuel' h block (next_free c)
      else Ok current
  end.

(** Bound on the length of a walk over distinct headers: as many as fit the heap. *)
Definition list_fuel (h : kheap) : nat :=
  S (Z.to_nat ((kheap_current_break h - KERNEL_HEAP_START) / KHEAP_HEADER_SIZE)).

Definition kheap_add_to_free_list (h : kheap) (block : Z) : outcome kheap :=
  b ← hdr_get h block ;
  h ← hdr_put h block (mk_hdr (size b) 0 KHEAP_MAGIC) ;
  ASSERT (block mod KHEAP_MIN_ALIGNMENT =? 0) "((uintptr_t)block % KHEAP_MIN_ALIGNMENT) == 0" ;;
  if (kheap_free_list h =? 0) || (block <? kheap_free_list h) then
    h ← hdr_put h block (mk_hdr (size b) (kheap_free_list h) KHEAP_MAGIC) ;
    Ok (with_free_list h block)
  else
    current ← find_insert_pos (list_fuel h) h block (kheap_free_list h) ;
    c ← hdr_get h current ;
    h ← hdr_put h block (mk_hdr (size b) (next_free c) KHEAP_MAGIC) ;
    hdr_put h current (mk_hdr (size c) block (magic c)).

(** ** Growth *)

(** One page of [kheap_expand]'s loop per step. *)
Fixpoint kheap_expand_loop (fuel : nat) (h : kheap) (addr new_break : Z) : outcome (bool * kheap) :=
  match fuel with
  | O => Hang
  | S fuel' =>
      if addr <? new_break then
        '(phys_frame, p) ← pmm_alloc_frame (vm_phys (kh_vm h)) ;
        let h := with_vm h (with_phys (kh_vm h) p) (kernel_address_space h) in
        if phys_frame =? 0 then Ok (false, with_break h addr)
        else
          '(ok, sp, s) ← vmm_map_page (kh_vm h) (kernel_address_space h) addr phys_frame
                           (Z.lor PTE_WRITE PTE_NX) ;
          let h := with_vm h s sp in
          if negb ok then
            p ← pmm_free_frame (vm_phys (kh_vm h)) phys_frame ;
            let h := with_vm h (with_phys (kh_vm h) p) (kernel_address_space h) in
            Ok (false, with_break h addr)
          else kheap_expand_loop fuel' h (u64 (addr + PAGE_SIZE)) new_break
      else Ok (true, with_break h new_break)
  end.

Definition kheap_expand (h : kheap) (bytes_needed : Z) : outcome (bool * kheap) :=
  let old_break := kheap_current_break h in
  let expansion_size := align_up bytes_needed PAGE_SIZE in
  let new_break := u64 (old_break + expansion_size) in
  if kheap_max_break h <? new_break then Ok (false, h)
  else kheap_expand_loop (S (Z.to_nat ((new_break - old_break) / PAGE_SIZE))) h old_break new_break.

(** ** Coalescing *)
Fixpoint coalesce_loop (fuel : nat) (h : kheap) (current : Z) : outcome kheap :=
  match fuel with
  | O => Hang
  | S fuel' =>
      if current =? 0 then Ok h
      else
        c ← hdr_get h current ;
        if next_free c =? 0 then Ok h
        else
          ASSERT (magic c =? KHEAP_MAGIC) "current->magic == KHEAP_MAGIC" ;;
          n ← hdr_get h (next_free c) ;
          ASSERT (magic n =? KHEAP_MAGIC) "current->next_free->magic == KHEAP_MAGIC" ;;
          if u64 (current + KHEAP_HEADER_SIZE + size c) =? next_free c then
            h ← hdr_put h current
                  (mk_hdr (u64 (size c + (KHEAP_HEADER_SIZE + size n))) (next_free n) (magic c)) ;
            coalesce_loop fuel' h current
          else coalesce_loop fuel' h (next_free c)
  end.

Definition kheap_coalesce_free_list (h : kheap) : outcome kheap :=
  coalesce_loop (S (list_fuel h)) h (kheap_free_list h).

(** ** kmalloc and kfree *)

(** First-fit search: the fitting block and its predecessor (0 if none). *)
Fixpoint first_fit (fuel : nat) (h : kheap) (need prev current : Z) : outcome (option (Z * Z)) :=
  match fuel with
  | O => Hang
  | S fuel' =>
      if current =? 0 then Ok None
      else
        c ← hdr_get h current ;
        ASSERT (magic c =? KHEAP_MAGIC) "current->magic == KHEAP_MAGIC" ;;
        if need <=? size c then Ok (Some (prev, current))
        else first_fit fuel' h need current (next_free c)
  end.

(** Removal of the block found, the split and the marking. *)
Definition take_block (h : kheap) (prev current aligned_data_size : Z) : outcome (Z * kheap) :=
  c ← hdr_get h current ;
  h ← (if negb (prev =? 0) then
         p ← hdr_get h prev ;
         hdr_put h prev (mk_hdr (size p) (next_free c) (magic p))
       else Ok (with_free_list h (next_free c))) ;
  let remaining_size := u64 (size c - aligned_data_size) in
  h ← (if KHEAP_HEADER_SIZE + KHEAP_MIN_ALIGNMENT <=? remaining_size then
         let split_free := u64 (current + KHEAP_HEADER_SIZE + aligned_data_size) in
         h ← hdr_put_size h split_free (u64 (remaining_size - KHEAP_HEADER_SIZE)) ;
         h ← hdr_put h current (mk_hdr aligned_data_size (next_free c) (magic c)) ;
         kheap_add_to_free_list h split_free
       else Ok h) ;
  c ← hdr_get h current ;
  h ← hdr_put h current (mk_hdr (size c) (next_free c) (not64 KHEAP_MAGIC)) ;
  let h := with_heap_lock h false in
  let data_ptr := u64 (current + KHEAP_HEADER_SIZE) in
  ASSERT (data_ptr mod KHEAP_MIN_ALIGNMENT =? 0) "((uintptr_t)data_ptr % KHEAP_MIN_ALIGNMENT) == 0" ;;
  Ok (data_ptr, h).

(** [depth] bounds the recursive retry after an expansion. *)
Fixpoint kmalloc_rec (depth : nat) (h : kheap) (sz : Z) : outcome (Z * kheap) :=
  match depth with
  | O => Hang
  | S depth' =>
      if sz =? 0 then Ok (NULL, h)
      else
        let aligned_data_size := align_up sz KHEAP_MIN_ALIGNMENT in
        let total_block_size_needed := u64 (KHEAP_HEADER_SIZE + aligned_data_size) in
        l ← spin_acquire (kheap_lock h) ;
        let h := with_heap_lock h l in
        found ← first_fit (list_fuel h) h aligned_data_size 0 (kheap_free_list h) ;
        match found with
        | Some (prev, current) => take_block h prev current aligned_data_size
        | None =>
            let expansion_start := kheap_current_break h in
            '(ok, h) ← kheap_expand h total_block_size_needed ;
            if negb ok then Ok (NULL, with_heap_lock h false)
            else
              let new_region_size := u64 (kheap_current_break h - expansion_start) in
              ASSERT (total_block_size_needed <=? new_region_size)
                "new_region_size >= total_block_size_needed" ;;
              h ← hdr_put_size h expansion_start (u64 (new_region_size - KHEAP_HEADER_SIZE)) ;
              h ← kheap_add_to_free_list h expansion_start ;
              h ← kheap_coalesce_free_list h ;
              kmalloc_rec depth' (with_heap_lock h false) sz
        end
  end.

(** Two levels suffice: see [kmalloc_correct]. *)
Definition kmalloc (h : kheap) (sz : Z) : outcome (Z * kheap) := kmalloc_rec 2 h sz.

Definition kfree (h : kheap) (ptr : Z) : outcome kheap :=
  if ptr =? NULL then Ok h
  else
    let block := u64 (ptr - KHEAP_HEADER_SIZE) in
    l ← spin_acquire (kheap_lock h) ;
    let h := with_heap_lock h l in
    b ← hdr_get h block ;
    ASSERT (magic b =? not64 KHEAP_MAGIC) "block->magic == ~KHEAP_MAGIC" ;;
    h ← kheap_add_to_free_list h block ;
    h ← kheap_coalesce_free_list h ;
    Ok (with_heap_lock h false).

(** ** Abstract view

    A free block is a pair of its header address and data size. [seg g p l q]: with
    the header [g a] at address [a], the linked list from pointer [p] to pointer [q]
    consists of the blocks [l]. *)
Fixpoint seg (g : Z -> kheap_block_header) (p : Z) (l : list (Z * Z)) (q : Z) : Prop :=
  match l with
  | [] => p = q
  | (a, n) :: l' =>
      p = a /\ exists nx, g a = mk_hdr n nx KHEAP_MAGIC /\ seg g nx l' q
  end.

(** A well-formed block between two addresses. *)
Definition block_in (lo hi a n : Z) : Prop :=
  lo <= a /\ (16 | a) /\ (16 | n) /\ 0 <= n /\ a + KHEAP_HEADER_SIZE + n <= hi.

(** Blocks in address order, without overlap, between [lo] and [hi]. *)
Fixpoint fsorted (lo hi : Z) (l : list (Z * Z)) : Prop :=
  match l with
  | [] => lo <= hi
  | (a, n) :: l' => block_in lo hi a n /\ fsorted (a + KHEAP_HEADER_SIZE + n) hi l'
  end.

Definition apart (a n b k : Z) : Prop :=
  a + KHEAP_HEADER_SIZE + n <= b \/ b + KHEAP_HEADER_SIZE + k <= a.

(** Where the word at [a] is in physical memory, and the header there. *)
Definition ph (h : kheap) (a : Z) : Z := match word_addr h a with Some p => p | None => 0 end.
Definition hdr_at (f m : Z -> Z) (a : Z) : kheap_block_header :=
  mk_hdr (m (f a)) (m (f (a + 8))) (m (f (a + 16))).
Definition hdr (h : kheap) (a : Z) : kheap_block_header := hdr_at (ph h) (ram_of h) a.

(** The pages of the heap below [top]: each is mapped to a frame in use that holds no
    page table, and no two to the same frame. *)
Record heap_frames (h : kheap) (lvl : Z -> nat) (top : Z) : Prop := {
  hf_mapped : forall a, KERNEL_HEAP_START <= a < top ->
    exists e, translate (ram_of h) (kroot h) a = Some e /\ data_word (vm_phys (kh_vm h)) lvl (pte_addr e);
  hf_inj : forall a b e e', KERNEL_HEAP_START <= a < top -> KERNEL_HEAP_START <= b < top ->
    translate (ram_of h) (kroot h) a = Some e -> translate (ram_of h) (kroot h) b = Some e' ->
    pte_addr e = pte_addr e' -> vpn a = vpn b
}.

(** The memory side of the heap: a well-formed kernel space in which the heap
    region up to the break is mapped to frames of its own. *)
Record heap_mem (h : kheap) : Prop := {
  hm_vm : exists lvl, vm_inv (vm_phys (kh_vm h)) (kroot h) lvl /\ heap_frames h lvl (kheap_current_break h);
  hm_tlb : tlb_ok (kh_vm h) (kroot h);
  hm_frame0 : frame_used (pmm (vm_phys (kh_vm h))) 0 = true;
  hm_unlocked : space_lock (kernel_address_space h) = false;
  hm_max : kheap_max_break h = KERNEL_HEAP_START + KERNEL_HEAP_MAX_SIZE;
  hm_break : KERNEL_HEAP_START <= kheap_current_break h <= kheap_max_break h;
  hm_page : (4096 | kheap_current_break h)
}.

(** The block structure: the free list [fl] and the live blocks [al]. *)
Record heap_blocks (h : kheap) (fl : list (Z * Z)) (al : gmap Z Z) : Prop := {
  hb_list : seg (hdr h) (kheap_free_list h) fl 0;
  hb_sorted : fsorted KERNEL_HEAP_START (kheap_current_break h) fl;
  hb_alloc : forall a n, al !! a = Some n ->
    block_in KERNEL_HEAP_START (kheap_current_break h) a n /\
    exists nx, hdr h a = mk_hdr n nx (not64 KHEAP_MAGIC);
  hb_free_alloc : forall a n b k, al !! a = Some n -> (b, k) ∈ fl -> apart a n b k;
  hb_alloc_alloc : forall a n b k, al !! a = Some n -> al !! b = Some k -> a <> b -> apart a n b k
}.

Record heap_inv (h : kheap) (fl : list (Z * Z)) (al : gmap Z Z) : Prop := {
  hi_mem : heap_mem h;
  hi_blocks : heap_blocks h fl al;
  hi_lock : kheap_lock h = false
}.

(** ** Lists of blocks *)

Lemma seg_app m p l1 l2 q : seg m p (l1 ++ l2) q <-> exists r, seg m p l1 r /\ seg m r l2 q.
Proof.
  revert p. induction l1 as [|[a n] l1 IH]; intros p; cbn [app seg]; [naive_solver|].
  setoid_rewrite IH. naive_solver.
Qed.

Lemma seg_frame m m' p l q :
  (forall a n, (a, n) ∈ l -> m' a = m a) -> seg m p l q -> seg m' p l q.
Proof.
  revert p. induction l as [|[a n] l IH]; intros p Hf; cbn [seg]; [done|].
  intros [-> (nx & Hm & Hl)]. split; [done|]. exists nx. split.
  - rewrite (Hf a n); [done|]. apply list_elem_of_here.
  - apply IH; [|done]. intros b k Hb. apply (Hf b k). by apply list_elem_of_further.
Qed.

Lemma fsorted_app lo hi l1 a n l2 :
  fsorted lo hi (l1 ++ (a, n) :: l2) <->
  fsorted lo a l1 /\ block_in lo hi a n /\ fsorted (a + KHEAP_HEADER_SIZE + n) hi l2.
Proof.
  unfold block_in, KHEAP_HEADER_SIZE. revert lo.
  induction l1 as [|[b k] l1 IH]; intros lo; cbn [app fsorted].
  - unfold block_in, KHEAP_HEADER_SIZE. intuition lia.
  - rewrite IH. unfold block_in, KHEAP_HEADER_SIZE. intuition lia.
Qed.

Lemma fsorted_le lo hi l : fsorted lo hi l -> lo <= hi.
Proof.
  revert lo. induction l as [|[a n] l IH]; intros lo; cbn [fsorted]; [done|].
  unfold block_in, KHEAP_HEADER_SIZE. intros [? H]. apply IH in H. unfold KHEAP_HEADER_SIZE in H. lia.
Qed.

Lemma fsorted_mono lo lo' hi hi' l : lo' <= lo -> hi <= hi' -> fsorted lo hi l -> fsorted lo' hi' l.
Proof.
  revert lo lo'. induction l as [|[a n] l IH]; intros lo lo' H1 H2; cbn [fsorted]; [lia|].
  unfold block_in. intros [(? & ? & ? & ? & ?) Hs]. split; [repeat split; try done; lia|].
  by eapply IH; [| |exact Hs]; lia.
Qed.

Lemma fsorted_elem lo hi l a n : fsorted lo hi l -> (a, n) ∈ l -> block_in lo hi a n.
Proof.
  intros Hs Hin. apply list_elem_of_split in Hin as (l1 & l2 & ->). by apply fsorted_app in Hs as (_ & ? & _).
Qed.

(** Two blocks of a sorted list are apart or equal. *)
Lemma fsorted_apart lo hi l a n b k :
  fsorted lo hi l -> (a, n) ∈ l -> (b, k) ∈ l -> (a, n) = (b, k) \/ apart a n b k.
Proof.
  intros Hs Ha Hb. apply list_elem_of_split in Ha as (l1 & l2 & ->).
  apply fsorted_app in Hs as (H1 & Hab & H2).
  apply elem_of_app in Hb as [Hb|Hb]; [|apply elem_of_cons in Hb as [Hb|Hb]]; [|by left|].
  - right; right. apply (fsorted_elem _ _ _ _ _ H1) in Hb. unfold block_in in Hb. lia.
  - right; left. apply (fsorted_elem _ _ _ _ _ H2) in Hb. unfold block_in in Hb. lia.
Qed.

(** A block apart from every block of the list has a place in it. *)
Lemma fsorted_place lo hi l a n :
  fsorted lo hi l -> block_in lo hi a n -> (forall b k, (b, k) ∈ l -> apart a n b k) ->
  exists l1 l2, l = l1 ++ l2 /\ fsorted lo a l1 /\ fsorted (a + KHEAP_HEADER_SIZE + n) hi l2.
Proof.
  revert lo. induction l as [|[b k] l IH]; intros lo Hs Hb Hap.
  { exists [], []. unfold block_in in Hb. cbn. split; [done|]. lia. }
  cbn [fsorted] in Hs. destruct Hs as [Hbk Hs].
  destruct (Hap b k (list_elem_of_here _ _)) as [Hlt|Hge].
  - exists [], ((b, k) :: l). split; [done|]. unfold block_in in *. cbn [fsorted]. unfold block_in.
    split; [lia|]. split; [|done]. intuition.
  - destruct (IH (b + KHEAP_HEADER_SIZE + k)) as (l1 & l2 & -> & H1 & H2); try done.
    { unfold block_in in *. intuition lia. }
    { intros b' k' Hin. apply Hap. by apply list_elem_of_further. }
    exists ((b, k) :: l1), l2. split; [done|]. split; [|done]. cbn [fsorted]. split; [|done].
    unfold block_in in *. intuition lia.
Qed.

(** A walk over the free list never needs more steps than headers fit the heap. *)
Lemma fsorted_length lo hi l : fsorted lo hi l -> KHEAP_HEADER_SIZE * Z.of_nat (length l) <= hi - lo.
Proof.
  revert lo. induction l as [|[a n] l IH]; intros lo; cbn [fsorted length].
  - lia.
  - unfold block_in, KHEAP_HEADER_SIZE in *. intros [? H]. apply IH in H. lia.
Qed.

Lemma list_fuel_enough h hi l :
  fsorted KERNEL_HEAP_START hi l -> hi <= kheap_current_break h -> (length l < list_fuel h)%nat.
Proof.
  intros H Hh. apply fsorted_length in H. unfold list_fuel, KHEAP_HEADER_SIZE in *.
  pose proof (Z.div_le_lower_bound (kheap_current_break h - KERNEL_HEAP_START) 32 (Z.of_nat (length l)) ltac:(lia) ltac:(lia)).
  lia.
Qed.

(** Merging of adjacent free blocks, from block [(a, n)] on. *)
Fixpoint coal (a n : Z) (l : list (Z * Z)) : list (Z * Z) :=
  match l with
  | [] => [(a, n)]
  | (b, k) :: l' =>
      if a + KHEAP_HEADER_SIZE + n =? b then coal a (n + (KHEAP_HEADER_SIZE + k)) l'
      else (a, n) :: coal b k l'
  end.

Definition coal_list (l : list (Z * Z)) : list (Z * Z) :=
  match l with
  | [] => []
  | (a, n) :: l' => coal a n l'
  end.

Lemma coal_sorted l a n lo hi : fsorted lo hi ((a, n) :: l) -> fsorted lo hi (coal a n l).
Proof.
  revert a n lo. induction l as [|[b k] l IH]; intros a n lo; [done|]. cbn [coal].
  intros [Ha [Hb Ho]]. zcase (a + KHEAP_HEADER_SIZE + n =? b).
  - apply IH. split.
    + unfold block_in, KHEAP_HEADER_SIZE in *. destruct Ha as (? & ? & ? & ? & ?), Hb as (? & ? & ? & ? & ?).
      repeat split; try done; try lia. repeat apply Z.divide_add_r; try done. by exists 2.
    + replace (a + KHEAP_HEADER_SIZE + (n + (KHEAP_HEADER_SIZE + k))) with (b + KHEAP_HEADER_SIZE + k) by lia.
      done.
  - split; [done|]. apply IH. by split.
Qed.

(** A block apart from every free block is apart from the merged ones. *)
Lemma coal_apart l a n x y :
  0 <= y -> (forall b k, (b, k) ∈ (a, n) :: l -> 0 <= k /\ apart x y b k) ->
  forall b k, (b, k) ∈ coal a n l -> apart x y b k.
Proof.
  intros Hy. revert a n. induction l as [|[c j] l IH]; intros a n Hap b k; cbn [coal].
  { intros Hin. by apply Hap. }
  destruct (Hap a n) as [Hn Ha]; [set_solver|]. destruct (Hap c j) as [Hj Hc]; [set_solver|].
  zcase (a + KHEAP_HEADER_SIZE + n =? c).
  - apply IH. intros b' k' Hin. apply elem_of_cons in Hin as [[= -> ->]|Hin]; [|apply Hap; set_solver].
    unfold apart, KHEAP_HEADER_SIZE in *. lia.
  - intros Hin. apply elem_of_cons in Hin as [[= -> ->]|Hin]; [done|].
    apply (IH c j); [|done]. intros b' k' Hin'. apply Hap. set_solver.
Qed.

(** Free space only grows when blocks merge. *)
Lemma coal_fits l a n need :
  Forall (fun b => 0 <= b.2) ((a, n) :: l) ->
  Exists (fun b => need <= b.2) ((a, n) :: l) -> Exists (fun b => need <= b.2) (coal a n l).
Proof.
  revert a n. induction l as [|[b k] l IH]; intros a n Hnn He; [done|]. cbn [coal].
  inversion Hnn as [|? ? Hn Hnn']. inversion Hnn' as [|? ? Hk Hnn'']. cbn in Hn, Hk. subst.
  zcase (a + KHEAP_HEADER_SIZE + n =? b).
  - apply IH; [constructor; [cbn; unfold KHEAP_HEADER_SIZE; lia|done]|].
    inversion He as [? ? H|? ? He']; subst; [left; cbn in *; unfold KHEAP_HEADER_SIZE; lia|].
    inversion He' as [? ? H|? ? He'']; subst; [left; cbn in *; unfold KHEAP_HEADER_SIZE; lia|by right].
  - inversion He as [? ? H|? ? He']; subst; [by left|]. right. by apply IH.
Qed.

(** Address of the last block of a list, [prev] for the empty list. *)
Fixpoint last_addr (prev : Z) (l : list (Z * Z)) : Z :=
  match l with
  | [] => prev
  | (a, _) :: l' => last_addr a l'
  end.

Lemma last_addr_snoc prev l a n : last_addr prev (l ++ [(a, n)]) = a.
Proof. revert prev. induction l as [|[b k] l IH]; intros prev; cbn; auto. Qed.

(** ** Header accesses inside the heap *)

(** A heap that differs from [h] in its memory and list head only. *)
Definition upd_heap (h : kheap) (m : Z -> Z) (l : Z) : kheap := with_free_list (with_ram h m) l.

Definition in_heap (h : kheap) (a : Z) : Prop :=
  KERNEL_HEAP_START <= a /\ a + KHEAP_HEADER_SIZE <= kheap_current_break h.

Lemma block_in_heap h lo a n :
  KERNEL_HEAP_START <= lo -> block_in lo (kheap_current_break h) a n -> in_heap h a.
Proof. unfold block_in, in_heap. lia. Qed.

(** The address is outside the header at [b]. *)
Definition outside (b x : Z) : Prop := x < b \/ b + KHEAP_HEADER_SIZE <= x.

Lemma page_offset a : a = a / 4096 * 4096 + a mod 4096.
Proof. pose proof (Z.div_mod a 4096 ltac:(lia)). lia. Qed.

(** In the heap a page number determines the page. *)
Lemma heap_vpn_inj a b :
  KERNEL_HEAP_START <= a < KERNEL_HEAP_START + KERNEL_HEAP_MAX_SIZE ->
  KERNEL_HEAP_START <= b < KERNEL_HEAP_START + KERNEL_HEAP_MAX_SIZE -> vpn a = vpn b -> a / 4096 = b / 4096.
Proof.
  unfold KERNEL_HEAP_MAX_SIZE, PAGE_SIZE, vpn. change (KERNEL_HEAP_START) with 0xFFFF800040000000. intros Ha Hb E.
  pose proof (page_offset a). pose proof (page_offset b).
  pose proof (Z.mod_pos_bound a 4096 ltac:(lia)). pose proof (Z.mod_pos_bound b 4096 ltac:(lia)).
  pose proof (Z.div_mod (a / 4096) (2 ^ 36) ltac:(lia)). pose proof (Z.div_mod (b / 4096) (2 ^ 36) ltac:(lia)).
  rewrite E in *. lia.
Qed.

Section Ops.
Context (h : kheap) (lvl : Z -> nat).
Context (HT : pt_tree (ram_of h) (kroot h) lvl) (HF : heap_frames h lvl (kheap_current_break h)).
Context (Hmax : kheap_current_break h <= KERNEL_HEAP_START + KERNEL_HEAP_MAX_SIZE).

Definition in_region (a : Z) : Prop := KERNEL_HEAP_START <= a < kheap_current_break h.

Lemma region_addr a : in_region a ->
  exists e, word_addr h a = Some (ph h a) /\ ph h a = pte_addr e + a mod 4096 /\
    translate (ram_of h) (kroot h) a = Some e /\ data_word (vm_phys (kh_vm h)) lvl (pte_addr e).
Proof.
  intros Ha. destruct (hf_mapped _ _ _ HF a Ha) as (e & He & Hd). exists e. unfold ph, word_addr. by rewrite He.
Qed.

(** Different words of the heap are different words of memory. *)
Lemma ph_inj a b : in_region a -> in_region b -> ph h a = ph h b -> a = b.
Proof.
  intros Ha Hb E. destruct (region_addr a Ha) as (e & _ & Ea & Ta & _), (region_addr b Hb) as (e' & _ & Eb & Tb & _).
  rewrite Ea, Eb in E. destruct (pte_addr_range e) as [_ [q Hq]], (pte_addr_range e') as [_ [q' Hq']].
  pose proof (Z.mod_pos_bound a 4096 ltac:(lia)). pose proof (Z.mod_pos_bound b 4096 ltac:(lia)).
  assert (q = q') as -> by lia.
  assert (a / 4096 = b / 4096).
  { apply heap_vpn_inj; [unfold in_region in *; lia..|]. apply (hf_inj _ _ _ HF a b e e'); try done. congruence. }
  rewrite (page_offset a), (page_offset b). lia.
Qed.

(** No word of the heap is an entry of a page table. *)
Lemma ph_table a t i : in_region a -> lvl t <> 0%nat -> 0 <= i < 512 -> ph h a <> t + 8 * i.
Proof.
  intros Ha Ht Hi E. destruct (region_addr a Ha) as (e & _ & Ea & _ & _ & Hd).
  destruct (tr_page _ _ _ HT t Ht) as [_ Hpt]. rewrite Ea in E.
  destruct (pte_addr_range e) as [_ [q Hq]], Hpt as [u ->]. rewrite Hq in *.
  unfold PAGE_SIZE in Hd. change 0x1000 with 4096 in Hd. rewrite Z.div_mul in Hd by done.
  pose proof (Z.mod_pos_bound a 4096 ltac:(lia)). assert (q = u) as -> by lia. congruence.
Qed.

(** A memory that differs from that of [h] in words of the heap only. *)
Definition keeps (m : Z -> Z) : Prop := forall x, (forall a, in_region a -> x <> ph h a) -> m x = ram_of h x.

Lemma keeps_id : keeps (ram_of h).
Proof. done. Qed.

Lemma keeps_upd m a x : keeps m -> in_region a -> keeps (upd m (ph h a) x).
Proof. intros Hk Ha y Hy. rewrite upd_ne by (by apply Hy). by apply Hk. Qed.

Lemma keeps_table m t i : keeps m -> lvl t <> 0%nat -> 0 <= i < 512 -> m (t + 8 * i) = ram_of h (t + 8 * i).
Proof. intros Hk Ht Hi. apply Hk. intros a Ha E. by eapply ph_table. Qed.

Lemma keeps_tree m : keeps m -> pt_tree m (kroot h) lvl.
Proof. intros Hk. apply (tree_same (ram_of h)); [done|]. intros t i. by apply keeps_table. Qed.

Lemma keeps_translate m va : keeps m -> translate m (kroot h) va = translate (ram_of h) (kroot h) va.
Proof. intros Hk. apply (translate_same _ _ _ lvl); [done|]. intros t i. by apply keeps_table. Qed.

Lemma keeps_word_addr m l a : keeps m -> word_addr (upd_heap h m l) a = word_addr h a.
Proof.
  intros Hk. unfold word_addr. change (ram_of (upd_heap h m l)) with m. change (kroot (upd_heap h m l)) with (kroot h).
  by rewrite keeps_translate.
Qed.

Lemma keeps_ph m l a : keeps m -> ph (upd_heap h m l) a = ph h a.
Proof. intros Hk. unfold ph. by rewrite keeps_word_addr. Qed.

(** ** Words and headers *)

Lemma put_word m l a x : keeps m -> in_region a ->
  word_put (upd_heap h m l) a x = Ok (upd_heap h (upd m (ph h a) x) l).
Proof.
  intros Hk Ha. unfold word_put. rewrite keeps_word_addr by done.
  by destruct (region_addr a Ha) as (e & -> & _).
Qed.

Lemma get_word m l a : keeps m -> in_region a -> word_get (upd_heap h m l) a = Ok (m (ph h a)).
Proof.
  intros Hk Ha. unfold word_get. rewrite keeps_word_addr by done. by destruct (region_addr a Ha) as (e & -> & _).
Qed.

(** The memory with header [b] at [a]. *)
Definition put_hdr (m : Z -> Z) (a : Z) (b : kheap_block_header) : Z -> Z :=
  upd (upd (upd m (ph h a) (size b)) (ph h (a + 8)) (next_free b)) (ph h (a + 16)) (magic b).

Lemma hdr_region a : in_heap h a -> in_region a /\ in_region (a + 8) /\ in_region (a + 16).
Proof. unfold in_heap, in_region, KHEAP_HEADER_SIZE. lia. Qed.

Lemma keeps_put m a b : keeps m -> in_heap h a -> keeps (put_hdr m a b).
Proof. intros Hk Ha. destruct (hdr_region a Ha) as (? & ? & ?). by repeat apply keeps_upd. Qed.

Lemma get_ok m l a b : keeps m -> in_heap h a -> hdr_at (ph h) m a = b -> hdr_get (upd_heap h m l) a = Ok b.
Proof.
  intros Hk Ha <-. destruct (hdr_region a Ha) as (? & ? & ?). unfold hdr_get. by rewrite !get_word.
Qed.

Lemma put_ok m l a b : keeps m -> in_heap h a -> hdr_put (upd_heap h m l) a b = Ok (upd_heap h (put_hdr m a b) l).
Proof.
  intros Hk Ha. destruct (hdr_region a Ha) as (? & ? & ?). unfold hdr_put. rewrite put_word by done.
  cbn [mbind outcome_bind]. rewrite put_word by auto using keeps_upd. cbn [mbind outcome_bind].
  by rewrite put_word by auto using keeps_upd.
Qed.

Lemma put_hdr_word m a b x : in_heap h a -> in_region x -> outside a x -> put_hdr m a b (ph h x) = m (ph h x).
Proof.
  intros Ha Hx Ho. destruct (hdr_region a Ha) as (? & ? & ?). unfold outside, KHEAP_HEADER_SIZE in Ho.
  unfold put_hdr. rewrite !upd_ne; [done|..]; intros E; apply ph_inj in E; (done || lia).
Qed.

Lemma put_hdr_eq m a b : in_heap h a -> hdr_at (ph h) (put_hdr m a b) a = b.
Proof.
  intros Ha. destruct (hdr_region a Ha) as (H1 & H2 & H3). unfold hdr_at, put_hdr.
  rewrite upd_eq. rewrite (upd_ne _ (ph h (a + 16)) _ (ph h (a + 8))) by (intros E; apply ph_inj in E; (done || lia)).
  rewrite upd_eq. rewrite !upd_ne, upd_eq by (intros E; apply ph_inj in E; (done || lia)). by destruct b.
Qed.

(** Headers that do not overlap. *)
Lemma hdr_frame m m' x : in_heap h x ->
  (forall y, in_region y -> x <= y < x + KHEAP_HEADER_SIZE -> m' (ph h y) = m (ph h y)) ->
  hdr_at (ph h) m' x = hdr_at (ph h) m x.
Proof.
  intros Hx H. destruct (hdr_region x Hx) as (? & ? & ?). unfold hdr_at, KHEAP_HEADER_SIZE in *.
  by rewrite !H by (done || lia).
Qed.

Lemma put_hdr_ne m a b x : in_heap h a -> in_heap h x ->
  x + KHEAP_HEADER_SIZE <= a \/ a + KHEAP_HEADER_SIZE <= x -> hdr_at (ph h) (put_hdr m a b) x = hdr_at (ph h) m x.
Proof.
  intros Ha Hx Ho. apply hdr_frame; [done|]. intros y Hy Hr. apply put_hdr_word; try done.
  unfold outside. lia.
Qed.

Local Abbreviation g := (hdr_at (ph h)).

(** The insertion point is the last block below the new one. *)
Lemma find_insert_pos_spec m l l1 c n nx fuel p a lo :
  keeps m -> seg (g m) p (l1 ++ [(c, n)]) nx -> fsorted lo a (l1 ++ [(c, n)]) ->
  KERNEL_HEAP_START <= lo -> a <= kheap_current_break h ->
  nx = 0 \/ a <= nx -> (length l1 < fuel)%nat ->
  find_insert_pos fuel (upd_heap h m l) a p = Ok c.
Proof.
  intros Hk. revert p lo fuel. induction l1 as [|[b k] l1 IH]; intros p lo fuel Hs Ho Hlo Hbr Hnx Hf;
    (destruct fuel as [|fuel]; [cbn in Hf; lia|]); cbn [app seg] in Hs;
    destruct Hs as [-> (q & Hm & Hs)]; destruct Ho as [Hb Ho]; cbn [find_insert_pos].
  - cbn in Hs. subst q. rewrite (get_ok _ _ c _ Hk ltac:(unfold block_in, in_heap in *; lia) Hm).
    cbn [mbind outcome_bind next_free]. zcase (nx =? 0). cbn [negb andb]. zcase (nx <? a).
  - rewrite (get_ok _ _ b _ Hk ltac:(unfold block_in, in_heap in *; lia) Hm).
    cbn [mbind outcome_bind next_free].
    assert (lo <= q < a /\ q <> 0) as [Hq Hq0].
    { destruct (l1 ++ [(c, n)]) as [|[b' k'] l'] eqn:E; [by destruct l1|]. cbn in Hs, Ho.
      destruct Hs as [-> _]. unfold block_in, KHEAP_HEADER_SIZE in *.
      unfold KERNEL_HEAP_START, KERNEL_VMA_OFFSET in *. lia. }
    zcase (q =? 0). cbn [negb andb]. zcase (q <? a).
    eapply IH; [done|exact Ho|unfold block_in, KHEAP_HEADER_SIZE in *; lia|done|done|cbn in Hf; lia].
Qed.

(** A header written outside the range of a sorted list leaves the list alone. *)
Lemma seg_insert_ne m a b p l q lo hi :
  seg (g m) p l q -> fsorted lo hi l -> KERNEL_HEAP_START <= lo -> hi <= kheap_current_break h -> in_heap h a ->
  a + KHEAP_HEADER_SIZE <= lo \/ hi <= a -> seg (g (put_hdr m a b)) p l q.
Proof.
  intros Hs Ho Hlo Hhi Hia Ha. apply seg_frame with (g m); [|done]. intros x n Hx.
  apply (fsorted_elem _ _ _ _ _ Ho) in Hx. unfold block_in in Hx.
  apply put_hdr_ne; [done|unfold in_heap; lia|lia].
Qed.

Lemma seg_head_range f p l q lo hi :
  seg f p l q -> fsorted lo hi l -> p = q \/ lo <= p < hi.
Proof.
  destruct l as [|[a n] l]; cbn; [auto|]. unfold block_in, KHEAP_HEADER_SIZE. intros [-> _] [? _]. right. lia.
Qed.

(** What an operation on the headers of the blocks [l] changes. *)
Definition frame (l : list (Z * Z)) (m m' : Z -> Z) : Prop :=
  forall x, in_region x -> (forall b k, (b, k) ∈ l -> outside b x) -> m' (ph h x) = m (ph h x).

Lemma add_spec m l a n l1 l2 :
  keeps m -> in_heap h a -> (16 | a) -> size (g m a) = n -> seg (g m) l (l1 ++ l2) 0 ->
  fsorted KERNEL_HEAP_START a l1 -> fsorted (a + KHEAP_HEADER_SIZE) (kheap_current_break h) l2 ->
  exists m' l', kheap_add_to_free_list (upd_heap h m l) a = Ok (upd_heap h m' l') /\ keeps m' /\
    seg (g m') l' (l1 ++ (a, n) :: l2) 0 /\ frame ((a, n) :: l1 ++ l2) m m'.
Proof.
  intros Hk Ha Hal Hb Hs Ho1 Ho2. unfold kheap_add_to_free_list.
  assert (0 < a) as Ha0 by (unfold in_heap, KERNEL_HEAP_START, KERNEL_VMA_OFFSET in Ha; lia).
  rewrite (get_ok m l a _ Hk Ha eq_refl). cbn [mbind outcome_bind]. rewrite put_ok by done.
  cbn [mbind outcome_bind]. unfold KHEAP_MIN_ALIGNMENT. rewrite (proj2 (Z.mod_divide a 16 ltac:(done)) Hal).
  cbn [ASSERT Z.eqb mbind outcome_bind]. rewrite Hb. set (m1 := put_hdr m a _).
  assert (keeps m1) as Hk1 by (by apply keeps_put).
  change (kheap_free_list (upd_heap h m1 l)) with l.
  assert (forall x b c, in_region x -> outside a x -> put_hdr (put_hdr m a b) a c (ph h x) = m (ph h x)) as Hfr.
  { intros x b c Hx Hox. by rewrite !put_hdr_word. }
  assert (KERNEL_HEAP_START <= a + KHEAP_HEADER_SIZE) by (unfold in_heap, KHEAP_HEADER_SIZE in *; lia).
  apply seg_app in Hs as (r & Hs1 & Hs2).
  destruct l1 as [|[c k] l1 _] using rev_ind.
  - cbn in Hs1. subst r. assert ((l =? 0) || (a <? l) = true) as ->.
    { destruct (seg_head_range _ _ _ _ _ _ Hs2 Ho2) as [->|Hl]; [done|]. unfold KHEAP_HEADER_SIZE in Hl. lia. }
    rewrite put_ok by done. cbn [mbind outcome_bind]. eexists _, a. split; [reflexivity|].
    split; [by apply keeps_put|]. split.
    + cbn [app seg]. split; [done|]. eexists. split; [by apply put_hdr_eq|].
      eapply seg_insert_ne; [eapply seg_insert_ne; [exact Hs2|exact Ho2|..]|exact Ho2|..]; (done || lia).
    + intros x Hx Hout. apply Hfr; [done|]. apply (Hout a n). set_solver.
  - destruct (proj1 (fsorted_app _ _ _ _ _ _) Ho1) as (Ho1' & Hc & _).
    apply seg_app in Hs1 as (r' & Hs1 & Hs1'). cbn in Hs1'. destruct Hs1' as [-> (nx & Hmc & <-)].
    pose proof Hc as Hc'. unfold block_in, KHEAP_HEADER_SIZE in Hc'.
    assert (nx = 0 \/ a <= nx) as Hnx by (unfold KHEAP_HEADER_SIZE in *; destruct (seg_head_range _ _ _ _ _ _ Hs2 Ho2); lia).
    assert (KERNEL_HEAP_START <= l < a) as Hl.
    { destruct (seg_head_range _ _ _ _ _ _ Hs1 Ho1'); lia. }
    assert (0 < l) by (unfold KERNEL_HEAP_START, KERNEL_VMA_OFFSET in *; lia).
    zcase (l =? 0). zcase (a <? l). cbn [orb].
    assert (a <= kheap_current_break h) as Hab by (unfold in_heap, KHEAP_HEADER_SIZE in *; lia).
    assert (in_heap h c) as Hci by (unfold in_heap, KHEAP_HEADER_SIZE in *; lia).
    assert (c + KHEAP_HEADER_SIZE <= a) as Hca by (unfold KHEAP_HEADER_SIZE; lia).
    assert (seg (g m1) l (l1 ++ [(c, k)]) nx) as Hs1m.
    { eapply seg_insert_ne; [|exact Ho1|lia..|done|lia]. apply seg_app. exists c. split; [done|].
      cbn. split; [done|]. eauto. }
    assert (g m1 c = mk_hdr k nx KHEAP_MAGIC) as Hm1c by (unfold m1; rewrite put_hdr_ne by (done || lia); done).
    rewrite (find_insert_pos_spec m1 l l1 c k nx _ l a KERNEL_HEAP_START); try done.
    2: { pose proof (list_fuel_enough (upd_heap h m1 l) _ _ Ho1 Hab) as Hlen. rewrite length_app in Hlen. cbn in Hlen. lia. }
    cbn [mbind outcome_bind]. rewrite (get_ok m1 l c _ Hk1 Hci Hm1c). cbn [mbind outcome_bind next_free size magic].
    rewrite !put_ok by done. cbn [mbind outcome_bind]. rewrite put_ok by auto using keeps_put.
    do 2 eexists. split; [reflexivity|]. split; [auto using keeps_put|]. split.
    + rewrite <- app_assoc. apply seg_app. exists c. split.
      { do 3 (eapply seg_insert_ne; [|exact Ho1'|lia..|done|lia]). done. }
      cbn [app seg]. split; [done|]. eexists. split; [by apply put_hdr_eq|]. split; [done|].
      eexists. split; [rewrite put_hdr_ne by (done || lia); by apply put_hdr_eq|].
      do 3 (eapply seg_insert_ne; [|exact Ho2|(done || lia)..]). done.
    + intros x Hx Hout. rewrite put_hdr_word; [apply Hfr|done..|]; [done|apply (Hout a n)|apply (Hout c k)]; set_solver.
Qed.

Lemma coalesce_loop_spec m l p a n rest lo fuel :
  keeps m -> seg (g m) p ((a, n) :: rest) 0 -> fsorted lo (kheap_current_break h) ((a, n) :: rest) ->
  KERNEL_HEAP_START <= lo -> kheap_current_break h < 2 ^ 64 -> (length rest < fuel)%nat ->
  exists m', coalesce_loop fuel (upd_heap h m l) p = Ok (upd_heap h m' l) /\ keeps m' /\
    seg (g m') p (coal a n rest) 0 /\ frame ((a, n) :: rest) m m'.
Proof.
  revert m p a n lo fuel.
  induction rest as [|[b k] rest IH]; intros m p a n lo fuel Hk Hs Ho Hlo Hbr Hf;
    (destruct fuel as [|fuel]; [cbn in Hf; lia|]); cbn [coalesce_loop];
    pose proof Hs as [-> (nx & Hma & Hsr)]; pose proof Ho as [Ha Hor];
    assert (in_heap h a) as Hia by (unfold block_in, in_heap in *; lia);
    assert (0 < a) by (unfold in_heap, KERNEL_HEAP_START, KERNEL_VMA_OFFSET in *; lia);
    zcase (a =? 0); rewrite (get_ok m l a _ Hk Hia Hma); cbn [mbind outcome_bind next_free size magic].
  { cbn in Hsr. subst nx. cbn [Z.eqb]. by exists m. }
  pose proof Hsr as [-> (nx' & Hmb & Hsr')]. pose proof Hor as [Hb Hor'].
  assert (in_heap h b) as Hib by (unfold block_in, in_heap, KHEAP_HEADER_SIZE in *; lia).
  unfold block_in, KHEAP_HEADER_SIZE in Ha, Hb. zcase (b =? 0). rewrite Z.eqb_refl.
  cbn [ASSERT mbind outcome_bind].
  rewrite (get_ok m l b _ Hk Hib Hmb). cbn [mbind outcome_bind next_free size magic].
  rewrite Z.eqb_refl. cbn [ASSERT mbind outcome_bind coal].
  unfold KHEAP_HEADER_SIZE. rewrite (u64_small (a + 32 + n)) by (unfold in_u64, KERNEL_HEAP_START in *; lia).
  zcase (a + 32 + n =? b).
  - rewrite put_ok by done. cbn [mbind outcome_bind].
    rewrite u64_small by (unfold in_u64, KERNEL_HEAP_START, KERNEL_VMA_OFFSET in *; lia).
    destruct (IH (put_hdr m a (mk_hdr (n + (32 + k)) nx' KHEAP_MAGIC)) a a (n + (32 + k)) lo fuel)
      as (m' & Hrun & Hk' & Hseg & Hfr).
    + by apply keeps_put.
    + split; [done|]. eexists. split; [by apply put_hdr_eq|].
      eapply seg_insert_ne; [done|exact Hor'|unfold KHEAP_HEADER_SIZE; lia..|done|unfold KHEAP_HEADER_SIZE; lia].
    + split.
      * unfold block_in, KHEAP_HEADER_SIZE. destruct Ha as (? & ? & ? & ? & ?), Hb as (? & ? & ? & ? & ?).
        repeat split; try done; try lia. repeat apply Z.divide_add_r; try done. by exists 2.
      * unfold KHEAP_HEADER_SIZE in *.
        replace (a + 32 + (n + (32 + k))) with (b + 32 + k) by lia. done.
    + done.
    + done.
    + cbn in Hf; lia.
    + exists m'. split; [done|]. split; [done|]. split; [done|]. intros x Hx Hout.
      rewrite Hfr; [apply put_hdr_word; [done|done|apply (Hout a n); set_solver]|done|].
      intros c j Hc. apply elem_of_cons in Hc as [[= -> ->]|Hc]; [apply (Hout a n)|apply (Hout c j)]; set_solver.
  - destruct (IH m b b k (a + KHEAP_HEADER_SIZE + n) fuel) as (m' & Hrun & Hk' & Hseg & Hfr); try done.
    + unfold KHEAP_HEADER_SIZE; lia.
    + cbn in Hf; lia.
    + exists m'. split; [done|]. split; [done|]. split.
      * cbn [seg]. split; [done|]. exists b. split; [|done]. rewrite <- Hma. apply hdr_frame; [done|].
        intros y Hy Hr. apply Hfr; [done|]. intros c j Hc. apply (fsorted_elem _ _ _ _ _ Hor) in Hc.
        unfold block_in, outside, KHEAP_HEADER_SIZE in *. lia.
      * intros x Hx Hout. apply Hfr; [done|]. intros c j Hc. apply (Hout c j). set_solver.
Qed.

Lemma coalesce_spec m l fl :
  keeps m -> seg (g m) l fl 0 -> fsorted KERNEL_HEAP_START (kheap_current_break h) fl ->
  kheap_current_break h < 2 ^ 64 ->
  exists m', kheap_coalesce_free_list (upd_heap h m l) = Ok (upd_heap h m' l) /\ keeps m' /\
    seg (g m') l (coal_list fl) 0 /\ frame fl m m'.
Proof.
  intros Hk Hs Ho Hbr. unfold kheap_coalesce_free_list. change (kheap_free_list (upd_heap h m l)) with l.
  destruct fl as [|[a n] fl].
  - cbn in Hs. subst l. by exists m.
  - pose proof (list_fuel_enough (upd_heap h m l) _ _ Ho ltac:(cbn; lia)) as Hlen.
    apply coalesce_loop_spec with KERNEL_HEAP_START; try done. cbn in Hlen |- *. lia.
Qed.

Lemma first_fit_spec m l fl prev p need lo fuel :
  keeps m -> seg (g m) p fl 0 -> fsorted lo (kheap_current_break h) fl -> KERNEL_HEAP_START <= lo ->
  (length fl < fuel)%nat ->
  (exists l1 c n l2, fl = l1 ++ (c, n) :: l2 /\ need <= n /\ Forall (fun b => b.2 < need) l1 /\
     first_fit fuel (upd_heap h m l) need prev p = Ok (Some (last_addr prev l1, c))) \/
  (Forall (fun b => b.2 < need) fl /\ first_fit fuel (upd_heap h m l) need prev p = Ok None).
Proof.
  intros Hk. revert p prev lo fuel. induction fl as [|[a n] fl IH]; intros p prev lo fuel Hs Ho Hlo Hf;
    (destruct fuel as [|fuel]; [cbn in Hf; lia|]); cbn [first_fit].
  { cbn in Hs. subst p. right. split; [constructor|done]. }
  destruct Hs as [-> (nx & Hm & Hs)]. destruct Ho as [Ha Ho].
  assert (in_heap h a) as Hia by (unfold block_in, in_heap in *; lia).
  zcase (a =? 0); [unfold in_heap, KERNEL_HEAP_START, KERNEL_VMA_OFFSET in *; lia|].
  rewrite (get_ok m l a _ Hk Hia Hm). cbn [mbind outcome_bind magic size next_free]. rewrite Z.eqb_refl.
  cbn [ASSERT mbind outcome_bind]. zcase (need <=? n).
  { left. exists [], a, n, fl. done. }
  destruct (IH nx a (a + KHEAP_HEADER_SIZE + n) fuel) as [(l1 & c & k & l2 & -> & ? & ? & ->)|[? ->]]; try done.
  - unfold block_in, KHEAP_HEADER_SIZE in *. lia.
  - cbn in Hf. lia.
  - left. exists ((a, n) :: l1), c, k, l2. split; [done|]. split; [done|]. split; [constructor; [cbn; lia|done]|done].
  - right. split; [constructor; [cbn; lia|done]|done].
Qed.

(** Unlinking a block from the list. *)
Lemma unlink_spec m l l1 c n nx l2 :
  keeps m -> seg (g m) l (l1 ++ (c, n) :: l2) 0 -> g m c = mk_hdr n nx KHEAP_MAGIC ->
  fsorted KERNEL_HEAP_START (kheap_current_break h) (l1 ++ (c, n) :: l2) ->
  exists m' l', (if negb (last_addr 0 l1 =? 0) then
         p ← hdr_get (upd_heap h m l) (last_addr 0 l1) ;
         hdr_put (upd_heap h m l) (last_addr 0 l1) (mk_hdr (size p) nx (magic p))
       else Ok (with_free_list (upd_heap h m l) nx)) = Ok (upd_heap h m' l') /\ keeps m' /\
    seg (g m') l' (l1 ++ l2) 0 /\ frame l1 m m'.
Proof.
  intros Hk Hs Hc Ho. apply fsorted_app in Ho as (Ho1 & Hcb & Ho2).
  apply seg_app in Hs as (r & Hs1 & Hs2). destruct Hs2 as [-> (nx' & Hc' & Hs2)].
  assert (nx' = nx) as -> by congruence. unfold block_in, KHEAP_HEADER_SIZE in Hcb.
  destruct l1 as [|[p k] l1 _] using rev_ind.
  { exists m, nx. cbn. done. }
  rewrite last_addr_snoc. destruct (proj1 (fsorted_app _ _ _ _ _ _) Ho1) as (Ho1' & Hp & _).
  unfold block_in, KHEAP_HEADER_SIZE in Hp.
  apply seg_app in Hs1 as (r' & Hs1 & Hs1'). destruct Hs1' as [-> (c' & Hp' & Hc'')]. cbn in Hc''. subst c'.
  assert (in_heap h p) as Hip by (unfold in_heap, KHEAP_HEADER_SIZE; lia).
  zcase (p =? 0); [unfold KERNEL_HEAP_START, KERNEL_VMA_OFFSET in *; lia|]. cbn [negb].
  rewrite (get_ok m l p _ Hk Hip Hp'). cbn [mbind outcome_bind size magic]. rewrite put_ok by done.
  do 2 eexists. split; [reflexivity|]. split; [by apply keeps_put|]. split.
  - rewrite <- app_assoc. apply seg_app. exists p. split.
    + eapply seg_insert_ne; [done|exact Ho1'|lia..|done|lia].
    + cbn [app seg]. split; [done|]. eexists. split; [by apply put_hdr_eq|].
      eapply seg_insert_ne; [done|exact Ho2|unfold KHEAP_HEADER_SIZE; lia..|done|unfold KHEAP_HEADER_SIZE; lia].
  - intros x Hx Hout. apply put_hdr_word; [done|done|]. apply (Hout p k). set_solver.
Qed.

(** The split, on a block that is no longer on the list. *)
Lemma split_spec m l l1 c n nx l2 need :
  keeps m -> seg (g m) l (l1 ++ l2) 0 -> g m c = mk_hdr n nx KHEAP_MAGIC ->
  fsorted KERNEL_HEAP_START (kheap_current_break h) (l1 ++ (c, n) :: l2) ->
  0 <= need <= n -> (16 | need) -> kheap_current_break h < 2 ^ 64 ->
  exists m' l' fl' k,
    (if KHEAP_HEADER_SIZE + KHEAP_MIN_ALIGNMENT <=? u64 (n - need) then
       h ← hdr_put_size (upd_heap h m l) (u64 (c + KHEAP_HEADER_SIZE + need))
             (u64 (u64 (n - need) - KHEAP_HEADER_SIZE)) ;
       h ← hdr_put h c (mk_hdr need nx KHEAP_MAGIC) ;
       kheap_add_to_free_list h (u64 (c + KHEAP_HEADER_SIZE + need))
     else Ok (upd_heap h m l)) = Ok (upd_heap h m' l') /\ keeps m' /\
    seg (g m') l' fl' 0 /\ fsorted KERNEL_HEAP_START (kheap_current_break h) fl' /\
    (need <= k <= n /\ k < need + 48) /\ (16 | k) /\ g m' c = mk_hdr k nx KHEAP_MAGIC /\
    (forall b j, (b, j) ∈ fl' -> (b, j) ∈ l1 ++ l2 \/
       (c + KHEAP_HEADER_SIZE + k <= b /\ b + KHEAP_HEADER_SIZE + j <= c + KHEAP_HEADER_SIZE + n)) /\
    (forall x, in_region x -> (forall b j, (b, j) ∈ l1 ++ l2 -> outside b x) ->
       x < c \/ c + KHEAP_HEADER_SIZE + n <= x -> m' (ph h x) = m (ph h x)).
Proof.
  intros Hk Hs Hc Ho Hn Hal Hbr. apply fsorted_app in Ho as (Ho1 & Hcb & Ho2).
  pose proof (fsorted_le _ _ _ Ho2) as Hle.
  unfold block_in, KHEAP_HEADER_SIZE, KHEAP_MIN_ALIGNMENT in *.
  destruct Hcb as (Hlo & Hca & Hna & Hn0 & Hhi).
  assert (0 < KERNEL_HEAP_START) by done.
  rewrite (u64_small (n - need)) by (unfold in_u64; lia).
  zcase (32 + 16 <=? n - need).
  - rewrite (u64_small (c + 32 + need)), (u64_small (n - need - 32)) by (unfold in_u64; lia). cbv zeta.
    set (b := c + 32 + need). assert (in_heap h b) as Hib by (unfold in_heap, KHEAP_HEADER_SIZE, b; lia).
    assert (in_heap h c) as Hic by (unfold in_heap, KHEAP_HEADER_SIZE; lia).
    destruct (hdr_region b Hib) as (Hb0 & Hb8 & Hb16).
    unfold hdr_put_size. rewrite put_word by done. cbn [mbind outcome_bind].
    set (m1 := upd m (ph h b) (n - need - 32)). assert (keeps m1) as Hk1 by (by apply keeps_upd).
    rewrite put_ok by done. cbn [mbind outcome_bind]. set (m2 := put_hdr m1 c _).
    assert (keeps m2) as Hk2 by (by apply keeps_put).
    assert (forall x, in_region x -> outside b x -> m1 (ph h x) = m (ph h x)) as Hm1.
    { intros x Hx Hox. unfold m1. rewrite upd_ne; [done|]. intros Hpe. apply ph_inj in Hpe; try done.
      unfold outside, KHEAP_HEADER_SIZE in Hox. lia. }
    assert (forall p l q lo hi, seg (g m) p l q -> fsorted lo hi l -> KERNEL_HEAP_START <= lo ->
      hi <= kheap_current_break h -> hi <= c \/ b + 32 <= lo -> seg (g m2) p l q) as Hseg.
    { intros p l0 q lo hi Hs0 Ho0 Hlo0 Hhi0 Hout. unfold m2.
      eapply seg_insert_ne; [|exact Ho0|done|done|done|unfold KHEAP_HEADER_SIZE, b in *; lia].
      apply seg_frame with (g m); [|done]. intros x j Hx. apply (fsorted_elem _ _ _ _ _ Ho0) in Hx.
      unfold block_in, KHEAP_HEADER_SIZE in Hx.
      apply hdr_frame; [unfold in_heap, KHEAP_HEADER_SIZE; lia|]. intros y Hy Hr. apply Hm1; [done|].
      unfold outside, KHEAP_HEADER_SIZE, b in *. lia. }
    destruct (add_spec m2 l b (n - need - 32) l1 l2) as (m' & l' & -> & Hk' & Hs' & Hfr); try done.
    { unfold b. repeat apply Z.divide_add_r; try done. by exists 2. }
    { unfold m2. cbn [hdr_at size]. rewrite put_hdr_word by (done || unfold outside, KHEAP_HEADER_SIZE, b; lia).
      unfold m1. apply upd_eq. }
    { apply seg_app in Hs as (r & Hs1 & Hs2). apply seg_app. exists r. split.
      - eapply Hseg; [exact Hs1|exact Ho1|lia..|left; lia].
      - eapply Hseg; [exact Hs2|exact Ho2|lia..|right; unfold b; lia]. }
    { eapply fsorted_mono; [| |exact Ho1]; unfold b; lia. }
    { eapply fsorted_mono; [| |exact Ho2]; unfold KHEAP_HEADER_SIZE, b; lia. }
    exists m', l', (l1 ++ (b, n - need - 32) :: l2), need.
    split; [done|]. split; [done|]. split; [done|]. split; [|split; [lia|split; [done|split; [|split]]]].
    + apply fsorted_app. unfold block_in, KHEAP_HEADER_SIZE, b.
      split; [eapply fsorted_mono; [| |exact Ho1]; lia|]. split.
      * destruct Hca as [x ->], Hna as [y ->], Hal as [z ->].
        repeat split; try lia; [exists (x + 2 + z)|exists (y - z - 2)]; lia.
      * by replace (c + 32 + need + 32 + (n - need - 32)) with (c + 32 + n) by lia.
    + rewrite <- (put_hdr_eq m1 c (mk_hdr need nx KHEAP_MAGIC) Hic). fold m2. apply hdr_frame; [done|].
      intros y Hy Hry. apply Hfr; [done|]. intros x j Hx. apply elem_of_cons in Hx as [[= -> ->]|Hx];
        [unfold outside, KHEAP_HEADER_SIZE, b in *; lia|]. apply elem_of_app in Hx as [Hx|Hx];
        [apply (fsorted_elem _ _ _ _ _ Ho1) in Hx|apply (fsorted_elem _ _ _ _ _ Ho2) in Hx];
        unfold block_in, outside, KHEAP_HEADER_SIZE in *; lia.
    + unfold KHEAP_HEADER_SIZE, b. intros b' j Hin. apply elem_of_app in Hin as [Hin|Hin]; [left; set_solver|].
      apply elem_of_cons in Hin as [[= -> ->]|Hin]; [right; lia|left; set_solver].
    + intros x Hx Hout Hc'. unfold KHEAP_HEADER_SIZE in Hc'.
      rewrite Hfr; [unfold m2; rewrite put_hdr_word; [apply Hm1|..]|..]; try done;
        [unfold outside, KHEAP_HEADER_SIZE, b; lia..|].
      intros y j Hy. apply elem_of_cons in Hy as [[= -> ->]|Hy]; [unfold outside, KHEAP_HEADER_SIZE, b; lia|by apply (Hout y j)].
  - exists m, l, (l1 ++ l2), n. split; [done|]. split; [done|]. split; [done|].
    split; [|split; [lia|split; [done|split; [done|split; [auto|auto]]]]].
    clear Hs. revert Ho1. generalize KERNEL_HEAP_START. induction l1 as [|[a k] l1 IH]; intros lo Ho1.
    + cbn in *. eapply fsorted_mono; [| |exact Ho2]; lia.
    + cbn [app fsorted] in *. destruct Ho1 as [Ha Ho1]. split; [|by apply IH].
      unfold block_in, KHEAP_HEADER_SIZE in *. intuition lia.
Qed.

Lemma take_block_spec m l l1 c n l2 need :
  keeps m -> seg (g m) l (l1 ++ (c, n) :: l2) 0 ->
  fsorted KERNEL_HEAP_START (kheap_current_break h) (l1 ++ (c, n) :: l2) ->
  0 <= need <= n -> (16 | need) -> kheap_current_break h < 2 ^ 64 ->
  exists m' l' fl' k nx,
    take_block (upd_heap h m l) (last_addr 0 l1) c need =
      Ok (c + KHEAP_HEADER_SIZE, with_heap_lock (upd_heap h m' l') false) /\ keeps m' /\
    seg (g m') l' fl' 0 /\ fsorted KERNEL_HEAP_START (kheap_current_break h) fl' /\
    (need <= k <= n /\ k < need + 48) /\ (16 | k) /\ g m' c = mk_hdr k nx (not64 KHEAP_MAGIC) /\
    (forall b j, (b, j) ∈ fl' -> (b, j) ∈ l1 ++ l2 \/
       (c + KHEAP_HEADER_SIZE + k <= b /\ b + KHEAP_HEADER_SIZE + j <= c + KHEAP_HEADER_SIZE + n)) /\
    (forall x, in_region x -> (forall b j, (b, j) ∈ l1 ++ l2 -> outside b x) ->
       x < c \/ c + KHEAP_HEADER_SIZE + n <= x -> m' (ph h x) = m (ph h x)).
Proof.
  intros Hk Hs Ho Hn Hal Hbr. pose proof Ho as Ho'. apply fsorted_app in Ho' as (Ho1 & Hcb & Ho2).
  assert (exists nx, g m c = mk_hdr n nx KHEAP_MAGIC) as [nx Hc].
  { apply seg_app in Hs as (r & _ & Hs2). destruct Hs2 as [-> (nx & ? & _)]. eauto. }
  assert (in_heap h c) as Hci by (unfold block_in, in_heap in *; lia).
  unfold take_block. rewrite (get_ok m l c _ Hk Hci Hc). cbn [mbind outcome_bind size next_free magic].
  destruct (unlink_spec m l l1 c n nx l2 Hk Hs Hc Ho) as (m1 & lh1 & -> & Hk1 & Hs1 & Hf1).
  cbn [mbind outcome_bind].
  assert (forall b j x, (b, j) ∈ l1 ++ l2 -> c <= x < c + KHEAP_HEADER_SIZE -> outside b x) as Hcn.
  { intros b j x Hj Hx. apply elem_of_app in Hj as [Hj|Hj];
      [apply (fsorted_elem _ _ _ _ _ Ho1) in Hj|apply (fsorted_elem _ _ _ _ _ Ho2) in Hj];
      unfold block_in, outside, KHEAP_HEADER_SIZE in *; lia. }
  destruct (split_spec m1 lh1 l1 c n nx l2 need) as (m2 & lh2 & fl' & k & -> & Hk2 & Hs2 & Hso & Hkn & Hka & Hc2 & Hin & Hf2);
    try done.
  { rewrite <- Hc. apply hdr_frame; [done|]. intros y Hy Hry. apply Hf1; [done|]. intros b j Hj. apply (Hcn b j); [set_solver|done]. }
  cbn [mbind outcome_bind]. rewrite (get_ok m2 lh2 c _ Hk2 Hci Hc2).
  cbn [mbind outcome_bind size next_free]. rewrite put_ok by done. cbn [mbind outcome_bind].
  assert (0 < KERNEL_HEAP_START) by done.
  rewrite u64_small by (unfold in_u64, in_heap, KHEAP_HEADER_SIZE in *; lia).
  unfold KHEAP_MIN_ALIGNMENT.
  rewrite (proj2 (Z.mod_divide (c + KHEAP_HEADER_SIZE) 16 ltac:(done))) by (apply Z.divide_add_r; [apply Hcb|by exists 2]).
  cbn [ASSERT Z.eqb mbind outcome_bind].
  exists (put_hdr m2 c (mk_hdr k nx (not64 KHEAP_MAGIC))), lh2, fl', k, nx.
  split; [done|]. split; [by apply keeps_put|].
  split; [|split; [done|split; [done|split; [done|split; [by apply put_hdr_eq|split; [done|]]]]]].
  - apply seg_frame with (g m2); [|done]. intros a j Haj. pose proof (fsorted_elem _ _ _ _ _ Hso Haj) as Hab.
    apply put_hdr_ne; [done|unfold block_in, in_heap in *; lia|]. destruct Hcb as (_ & _ & _ & ? & _).
    destruct (Hin _ _ Haj) as [Hj|Hj]; [|right; lia]. apply elem_of_app in Hj as [Hj|Hj];
      [apply (fsorted_elem _ _ _ _ _ Ho1) in Hj|apply (fsorted_elem _ _ _ _ _ Ho2) in Hj];
      unfold block_in in Hj; lia.
  - intros x Hx Hout Hc'. destruct Hcb as (_ & _ & _ & ? & _).
    rewrite put_hdr_word by (done || unfold outside; lia). rewrite Hf2 by done. apply Hf1; [done|].
    intros b j Hj. apply (Hout b j). set_solver.
Qed.

(** The heap with the new memory is as well formed as [h]. *)
Lemma upd_heap_frames m l : keeps m -> heap_frames (upd_heap h m l) lvl (kheap_current_break h).
Proof.
  intros Hk. constructor; change (ram_of (upd_heap h m l)) with m; change (kroot (upd_heap h m l)) with (kroot h).
  - intros a Ha. rewrite keeps_translate by done. apply (hf_mapped _ _ _ HF a Ha).
  - intros a b e e'. rewrite (keeps_translate m a), (keeps_translate m b) by done. apply (hf_inj _ _ _ HF).
Qed.
End Ops.

(** ** Growth of the heap *)

(** The machine state while the heap grows: pages below [addr] are mapped. *)
Record env_ok (h : kheap) (addr : Z) : Prop := {
  eo_vm : exists lvl, vm_inv (vm_phys (kh_vm h)) (kroot h) lvl /\ heap_frames h lvl addr;
  eo_tlb : tlb_ok (kh_vm h) (kroot h);
  eo_frame0 : frame_used (pmm (vm_phys (kh_vm h))) 0 = true;
  eo_unlocked : space_lock (kernel_address_space h) = false
}.

Definition used_frames (h : kheap) : Z := pmm_used_frames (pmm (vm_phys (kh_vm h))).
Definition total_frames (h : kheap) : Z := pmm_total_frames (pmm (vm_phys (kh_vm h))).

(** The word at a virtual address. *)
Definition vword (h : kheap) (a : Z) : option Z :=
  match word_addr h a with Some p => Some (ram_of h p) | None => None end.

(** The heap below [top] is where it was and holds what it held. *)
Definition same_below (top : Z) (h h' : kheap) : Prop :=
  forall a, KERNEL_HEAP_START <= a < top -> word_addr h' a = word_addr h a /\ vword h' a = vword h a.

Lemma same_below_trans top h h1 h2 : same_below top h h1 -> same_below top h1 h2 -> same_below top h h2.
Proof. intros H1 H2 a Ha. destruct (H1 a Ha) as [<- <-]. by apply H2. Qed.

Lemma data_word_step s lvl s' lvl' x :
  data_word s lvl x -> (forall f, frame_used (pmm s) f = true -> frame_used (pmm s') f = true) ->
  (forall t, lvl' t <> 0%nat -> lvl t = 0%nat -> frame_used (pmm s) (t / PAGE_SIZE) = false) -> data_word s' lvl' x.
Proof.
  intros [Hu Hl] Hm Hf. split; [auto|]. destruct (decide (lvl' (x / PAGE_SIZE * PAGE_SIZE) = 0%nat)) as [|Hn]; [done|].
  specialize (Hf _ Hn Hl). rewrite Z.div_mul in Hf by done. congruence.
Qed.

Lemma frame_word s lvl e a : data_word s lvl (pte_addr e) -> data_word s lvl (pte_addr e + a mod PAGE_SIZE).
Proof.
  unfold data_word, PAGE_SIZE. change 0x1000 with 4096. destruct (pte_addr_range e) as [_ [q ->]].
  pose proof (Z.mod_pos_bound a 4096 ltac:(lia)). rewrite Z.div_mul by done.
  assert ((q * 4096 + a mod 4096) / 4096 = q) as -> by (rewrite Z.div_add_l by done; rewrite Z.div_small by done; lia).
  done.
Qed.

(** What allocating a frame and mapping it behind the heap does to the heap. *)
Lemma heap_page_added h lvl addr f p s lvl' fl :
  vm_inv (vm_phys (kh_vm h)) (kroot h) lvl -> heap_frames h lvl addr ->
  alloc_post (vm_phys (kh_vm h)) f p -> (4096 | addr) -> KERNEL_HEAP_START <= addr ->
  addr + 4096 <= KERNEL_HEAP_START + KERNEL_HEAP_MAX_SIZE -> 0 <= fl ->
  map_post (with_phys (kh_vm h) p) (kroot h) lvl addr (f * PAGE_SIZE) fl s lvl' ->
  heap_frames (with_vm h s (kernel_address_space h)) lvl' (addr + 4096) /\
  same_below addr h (with_vm h s (kernel_address_space h)).
Proof.
  intros Hvm HF Hp [q Haq] Hst Hmx Hfl M. pose proof (alloc_grow _ _ _ Hvm _ _ Hp) as G.
  destruct (fresh_frame _ _ _ Hvm _ _ Hp) as (Hfr & Hfa & Hf0).
  set (h' := with_vm h s _). change (ram_of h') with (ram (vm_phys s)). change (kroot h') with (kroot h).
  assert (pte_addr (leaf_entry (f * PAGE_SIZE) fl) = f * PAGE_SIZE) as Hleaf.
  { destruct (leaf_entry_spec (f * PAGE_SIZE) fl) as (_ & -> & _); [lia|done|]. by apply pte_addr_page. }
  assert (forall a, KERNEL_HEAP_START <= a < addr -> translate (ram (vm_phys s)) (kroot h) a = translate (ram_of h) (kroot h) a) as Hold.
  { intros a Ha. rewrite (mp_walk _ _ _ _ _ _ _ _ M). cbn [with_phys vm_phys]. rewrite (pg_walk _ _ _ _ _ _ G).
    destruct (Z.eqb_spec (vpn a) (vpn addr)) as [Ev|]; [|done]. apply heap_vpn_inj in Ev; [|lia..].
    rewrite Haq, Z.div_mul in Ev by done. pose proof (page_offset a). pose proof (Z.mod_pos_bound a 4096 ltac:(lia)). lia. }
  assert (forall a, addr <= a < addr + 4096 -> translate (ram (vm_phys s)) (kroot h) a = Some (leaf_entry (f * PAGE_SIZE) fl)) as Hnew.
  { intros a Ha. rewrite (mp_walk _ _ _ _ _ _ _ _ M). replace (vpn a) with (vpn addr); [by rewrite Z.eqb_refl|].
    unfold vpn. f_equal. rewrite Haq, Z.div_mul by done. apply Z.div_unique with (a - q * 4096); lia. }
  assert (forall x, data_word (vm_phys (kh_vm h)) lvl x -> data_word (vm_phys s) lvl' x /\ ram (vm_phys s) x = ram_of h x) as Hdata.
  { intros x Hx. assert (data_word p lvl x) as Hxp by (eapply data_word_step; [exact Hx|apply (pg_used _ _ _ _ _ _ G)|apply (pg_fresh _ _ _ _ _ _ G)]).
    split; [eapply data_word_step; [exact Hxp|apply (mp_used _ _ _ _ _ _ _ _ M)|apply (mp_fresh _ _ _ _ _ _ _ _ M)]|].
    rewrite (mp_data _ _ _ _ _ _ _ _ M) by exact Hxp. by apply (pg_data _ _ _ _ _ _ G). }
  split; [constructor|].
  - intros a Ha. change (ram_of h') with (ram (vm_phys s)). change (kroot h') with (kroot h).
    destruct (Z.ltb_spec a addr).
    + rewrite Hold by lia. destruct (hf_mapped _ _ _ HF a ltac:(lia)) as (e & He & Hd). exists e. split; [done|]. by apply Hdata.
    + rewrite Hnew by lia. eexists. split; [done|]. rewrite Hleaf.
      eapply (data_word_step p lvl); [|apply (mp_used _ _ _ _ _ _ _ _ M)|apply (mp_fresh _ _ _ _ _ _ _ _ M)].
      unfold data_word. rewrite Z.div_mul by done. split; [|done]. by rewrite (ap_used _ _ _ Hp), Z.eqb_refl.
  - assert (forall a e, KERNEL_HEAP_START <= a < addr -> translate (ram_of h) (kroot h) a = Some e -> pte_addr e <> f * PAGE_SIZE) as Hne.
    { intros a e Ha He Ef. destruct (hf_mapped _ _ _ HF a Ha) as (e' & He' & Hd & _). rewrite He in He'. injection He' as <-.
      rewrite Ef, Z.div_mul, (ap_was_free _ _ _ Hp) in Hd by done. done. }
    intros a b e e' Ha Hb. change (ram_of h') with (ram (vm_phys s)). change (kroot h') with (kroot h).
    destruct (Z.ltb_spec a addr), (Z.ltb_spec b addr); rewrite ?(Hold a), ?(Hold b), ?(Hnew a), ?(Hnew b) by lia.
    + apply (hf_inj _ _ _ HF); lia.
    + intros He [= <-] Ee. rewrite Hleaf in Ee. by destruct (Hne a e ltac:(lia) He).
    + intros [= <-] He Ee. rewrite Hleaf in Ee. by destruct (Hne b e' ltac:(lia) He).
    + intros _ _ _. unfold vpn. f_equal. pose proof (page_offset a). pose proof (page_offset b).
      pose proof (Z.mod_pos_bound a 4096 ltac:(lia)). pose proof (Z.mod_pos_bound b 4096 ltac:(lia)). lia.
  - intros a Ha. unfold vword, word_addr. change (ram_of h') with (ram (vm_phys s)). change (kroot h') with (kroot h).
    rewrite Hold by done. destruct (hf_mapped _ _ _ HF a Ha) as (e & -> & Hd). split; [done|]. f_equal.
    by apply Hdata, frame_word.
Qed.

(** Allocating a frame and mapping it at [addr]: success, or out of frames. *)
Lemma map_heap_page {FA : FrameAllocator pmm_alloc_frame pmm_free_frame} h addr :
  env_ok h addr -> (4096 | addr) -> KERNEL_HEAP_START <= addr ->
  addr + 4096 <= KERNEL_HEAP_START + KERNEL_HEAP_MAX_SIZE ->
  (exists f p s, pmm_alloc_frame (vm_phys (kh_vm h)) = Ok (f * PAGE_SIZE, p) /\ 0 < f /\
     vmm_map_page (with_phys (kh_vm h) p) (kernel_address_space h) addr (f * PAGE_SIZE)
       (Z.lor PTE_WRITE PTE_NX) = Ok (true, kernel_address_space h, s) /\
     env_ok (with_vm h s (kernel_address_space h)) (addr + 4096) /\
     same_below addr h (with_vm h s (kernel_address_space h)) /\
     pmm_used_frames (pmm (vm_phys s)) <= used_frames h + 4 /\
     pmm_total_frames (pmm (vm_phys s)) = total_frames h) \/
  (exists why, total_frames h < used_frames h + 4 /\
     (pmm_alloc_frame (vm_phys (kh_vm h)) = Panic why \/
      exists f p, pmm_alloc_frame (vm_phys (kh_vm h)) = Ok (f * PAGE_SIZE, p) /\ 0 < f /\
        vmm_map_page (with_phys (kh_vm h) p) (kernel_address_space h) addr (f * PAGE_SIZE)
          (Z.lor PTE_WRITE PTE_NX) = Panic why)).
Proof.
  intros [(lvl & Hvm & HF) Htlb H0 Hul] Hal Hst Hmx. unfold used_frames, total_frames.
  destruct (fa_alloc (vm_phys (kh_vm h)) (vi_pmm _ _ _ Hvm)) as [(f & p & Ha & Hp)|(why & Ha & Hall)].
  2: { right. exists why. split; [|by left]. pose proof (full_count _ (vi_pmm _ _ _ Hvm) Hall). lia. }
  pose proof (alloc_grow _ _ _ Hvm _ _ Hp) as G. pose proof (ap_range _ _ _ Hp).
  assert (0 < f) as Hf0.
  { destruct (Z.eq_dec f 0) as [->|]; [|lia]. rewrite (ap_was_free _ _ _ Hp) in H0. done. }
  assert (tlb_ok (with_phys (kh_vm h) p) (kroot h)) as Htlb'.
  { intros va e He. cbn [with_phys vm_phys]. rewrite (pg_walk _ _ _ _ _ _ G). by apply Htlb. }
  pose proof (pg_count _ _ _ _ _ _ G) as Gc. pose proof (pg_total _ _ _ _ _ _ G) as Gt.
  assert (kernel_address_space h = mk_space (kroot h) false) as Hsp.
  { unfold kroot. destruct (kernel_address_space h). cbn in *. by subst. }
  assert (0 <= Z.lor PTE_WRITE PTE_NX) as Hfl by done.
  destruct (map_page_cases (with_phys (kh_vm h) p) (kroot h) lvl addr (f * PAGE_SIZE) (Z.lor PTE_WRITE PTE_NX))
    as [(s & lvl' & Hrun & M)|[(? & ? & ? & _ & Hf & _)|(why & Hrun & Hfew)]]; try done.
  { apply (pg_inv _ _ _ _ _ _ G). } { by apply Z.mod_divide. } { by apply Z.mod_mul. }
  { unfold PAGE_SIZE; lia. }
  - left. exists f, p, s. rewrite <- Hsp in Hrun. split; [done|]. split; [done|]. split; [done|].
    destruct (heap_page_added h lvl addr f p s lvl' _ Hvm HF Hp Hal Hst Hmx Hfl M) as [HF' Hsame]. split; [|split; [|split]].
    + constructor; cbn [with_vm kh_vm kroot kernel_address_space pml4_phys space_lock].
      * exists lvl'. split; [apply M|done].
      * apply M.
      * apply (mp_used _ _ _ _ _ _ _ _ M), (pg_used _ _ _ _ _ _ G), H0.
      * done.
    + done.
    + pose proof (mp_count _ _ _ _ _ _ _ _ M). cbn in *. lia.
    + rewrite (mp_total _ _ _ _ _ _ _ _ M). done.
  - exfalso. apply (pg_used _ _ _ _ _ _ G) in H0. cbn [with_phys vm_phys] in Hf. congruence.
  - right. exists why. cbn in Hfew. split; [lia|]. right. rewrite <- Hsp in Hrun. eauto 6.
Qed.

Lemma expand_loop_spec {FA : FrameAllocator pmm_alloc_frame pmm_free_frame} k : forall h addr,
  env_ok h addr -> (4096 | addr) -> KERNEL_HEAP_START <= addr ->
  addr + 4096 * Z.of_nat k <= KERNEL_HEAP_START + KERNEL_HEAP_MAX_SIZE ->
  (exists s, kheap_expand_loop (S k) h addr (addr + 4096 * Z.of_nat k) =
       Ok (true, with_break (with_vm h s (kernel_address_space h)) (addr + 4096 * Z.of_nat k)) /\
     env_ok (with_vm h s (kernel_address_space h)) (addr + 4096 * Z.of_nat k) /\
     same_below addr h (with_vm h s (kernel_address_space h))) \/
  (exists why, kheap_expand_loop (S k) h addr (addr + 4096 * Z.of_nat k) = Panic why /\
     total_frames h < used_frames h + 4 * Z.of_nat k).
Proof.
  induction k as [|k IH]; intros h addr HE Hal Hst Hhi.
  { cbn [kheap_expand_loop]. zcase (addr <? addr + 4096 * Z.of_nat 0).
    left. exists (kh_vm h). replace (addr + 4096 * Z.of_nat 0) with addr by lia. by destruct h. }
  cbn [kheap_expand_loop]. zcase (addr <? addr + 4096 * Z.of_nat (S k)).
  destruct (map_heap_page h addr HE Hal Hst)
    as [(f & p & s & Ha & Hf & Hrun & HE' & Hsame & Hu & Ht)|(why & Hfew & [Ha|(f & p & Ha & Hf & Hrun)])]; [lia|..];
    rewrite Ha; cbn [mbind outcome_bind];
    [|right; exists why; (split; [done|]); lia|];
    (zcase (f * PAGE_SIZE =? 0); [unfold PAGE_SIZE in *; lia|]);
    cbn [with_vm kh_vm kernel_address_space]; rewrite Hrun; cbn [mbind outcome_bind negb];
    [|right; exists why; (split; [done|]); lia].
  unfold PAGE_SIZE. change 0x1000 with 4096. rewrite u64_small.
  2: { unfold in_u64, KERNEL_HEAP_START, KERNEL_VMA_OFFSET, KERNEL_HEAP_MAX_SIZE, PAGE_SIZE in *. lia. }
  replace (addr + 4096 * Z.of_nat (S k)) with (addr + 4096 + 4096 * Z.of_nat k) by lia.
  destruct (IH _ _ HE') as [(s' & Hr & HE'' & Hsame')|(why & Hr & Hfew)]; [|lia|lia| |].
  - apply Z.divide_add_r; [done|by exists 1].
  - left. exists s'. split; [exact Hr|]. split; [exact HE''|].
    eapply same_below_trans; [exact Hsame|]. intros a Ha'. apply Hsame'. lia.
  - right. exists why. split; [exact Hr|]. unfold total_frames, used_frames in *. cbn in *. lia.
Qed.

(** ** Whole operations *)

Lemma upd_heap_id h : upd_heap h (ram_of h) (kheap_free_list h) = h.
Proof. by destruct h as [[[] ? ?] ? ? ? ? ?]. Qed.

Lemma heap_mem_bound h : heap_mem h -> KERNEL_HEAP_START <= kheap_current_break h < 2 ^ 63 + 2 ^ 63.
Proof.
  intros HM. pose proof (hm_break _ HM). rewrite (hm_max _ HM) in *.
  unfold KERNEL_HEAP_START, KERNEL_VMA_OFFSET, KERNEL_HEAP_MAX_SIZE, PAGE_SIZE in *. lia.
Qed.

(** Merging covers the range of every block it came from. *)
Definition covers (fl : list (Z * Z)) (a n : Z) : Prop :=
  exists b k, (b, k) ∈ fl /\ b <= a /\ a + n <= b + k.

Lemma coal_covers l a n x y :
  Forall (fun b => 0 <= b.2) ((a, n) :: l) -> (x, y) ∈ (a, n) :: l -> covers (coal a n l) x y.
Proof.
  revert a n x y. induction l as [|[b k] l IH]; intros a n x y Hnn Hin.
  { apply list_elem_of_singleton in Hin as [= -> ->]. exists a, n. cbn. set_solver by lia. }
  cbn [coal]. inversion Hnn as [|? ? Hn Hnn']. inversion Hnn' as [|? ? Hk Hnn'']. cbn in Hn, Hk. subst.
  zcase (a + KHEAP_HEADER_SIZE + n =? b).
  - unfold KHEAP_HEADER_SIZE in *.
    assert (Forall (fun b => 0 <= b.2) ((a, n + (32 + k)) :: l)) as Hnn2 by (constructor; [cbn; lia|done]).
    apply elem_of_cons in Hin as [[= -> ->]|Hin]; [|apply elem_of_cons in Hin as [[= -> ->]|Hin]].
    + destruct (IH a (n + (32 + k)) a (n + (32 + k)) Hnn2) as (b' & k' & ? & ? & ?); [set_solver|].
      exists b', k'. split; [done|]. lia.
    + destruct (IH a (n + (32 + k)) a (n + (32 + k)) Hnn2) as (b' & k' & ? & ? & ?); [set_solver|].
      exists b', k'. split; [done|]. lia.
    + apply IH; [done|set_solver].
  - apply elem_of_cons in Hin as [[= -> ->]|Hin].
    + exists a, n. split; [set_solver|lia].
    + destruct (IH b k x y Hnn' Hin) as (b' & k' & ? & ? & ?). exists b', k'. split; [set_solver|done].
Qed.

(** No block of the list starts where the one before it ends. *)
Fixpoint no_adjacent (l : list (Z * Z)) : Prop :=
  match l with
  | (a, n) :: ((b, _) :: _) as l' => a + KHEAP_HEADER_SIZE + n <> b /\ no_adjacent l'
  | _ => True
  end.

Lemma coal_head l a n : exists k l', coal a n l = (a, k) :: l'.
Proof.
  revert a n. induction l as [|[b k] l IH]; intros a n; cbn [coal]; [by eauto|].
  zcase (a + KHEAP_HEADER_SIZE + n =? b); eauto.
Qed.

Lemma coal_merged l a n : no_adjacent (coal a n l).
Proof.
  revert a n. induction l as [|[b k] l IH]; intros a n; cbn [coal]; [done|].
  zcase (a + KHEAP_HEADER_SIZE + n =? b); [apply IH|].
  specialize (IH b k). destruct (coal_head l b k) as (k' & l' & Hc). rewrite Hc in *. by split.
Qed.

Lemma elem_of_mid {A} (x y : A) l1 l2 : x ∈ l1 ++ y :: l2 <-> x = y \/ x ∈ l1 ++ l2.
Proof. rewrite !elem_of_app, elem_of_cons. tauto. Qed.

(** The data of the live blocks is untouched. *)
Definition kept (h h' : kheap) (al : gmap Z Z) : Prop :=
  forall a n x, al !! a = Some n -> a + KHEAP_HEADER_SIZE <= x < a + KHEAP_HEADER_SIZE + n -> vword h' x = vword h x.

Section Heap.
Context (h : kheap) (lvl : Z -> nat).
Context (Hvm : vm_inv (vm_phys (kh_vm h)) (kroot h) lvl) (HF : heap_frames h lvl (kheap_current_break h)).
Context (HM : heap_mem h).

Local Abbreviation HT := (vi_tree _ _ _ Hvm).

Lemma heap_top : kheap_current_break h <= KERNEL_HEAP_START + KERNEL_HEAP_MAX_SIZE.
Proof. pose proof (hm_break _ HM). pose proof (hm_max _ HM). lia. Qed.

Lemma heap_mem_upd m l b : keeps h m -> heap_mem (with_heap_lock (upd_heap h m l) b).
Proof.
  intros Hk. constructor; try apply HM.
  - exists lvl. split; [|by destruct (upd_heap_frames h lvl HT HF m l Hk); constructor].
    constructor; cbn; try apply Hvm. by apply (keeps_tree h lvl HT HF).
  - intros va e He. change (translate m (kroot h) va = Some e). rewrite (keeps_translate h lvl HT HF) by done. by apply (hm_tlb _ HM).
Qed.

Lemma hdr_upd m l a : keeps h m -> hdr (upd_heap h m l) a = hdr_at (ph h) m a.
Proof.
  intros Hk. unfold hdr, hdr_at. by rewrite !(keeps_ph h lvl HT HF) by done.
Qed.

Lemma seg_upd m l p fl q : keeps h m -> seg (hdr_at (ph h) m) p fl q -> seg (hdr (upd_heap h m l)) p fl q.
Proof. intros Hk. apply seg_frame. intros a n _. by apply hdr_upd. Qed.

Lemma vword_upd m l x : keeps h m -> m (ph h x) = ram_of h (ph h x) -> vword (upd_heap h m l) x = vword h x.
Proof.
  intros Hk Hx. unfold vword. rewrite (keeps_word_addr h lvl HT HF) by done. unfold ph in Hx.
  destruct (word_addr h x); [|done]. f_equal. exact Hx.
Qed.

(** A block keeps its header when its words are kept. *)
Lemma block_hdr_upd m l a n : keeps h m -> block_in KERNEL_HEAP_START (kheap_current_break h) a n ->
  (forall x, a <= x < a + KHEAP_HEADER_SIZE -> m (ph h x) = ram_of h (ph h x)) -> hdr (upd_heap h m l) a = hdr h a.
Proof.
  intros Hk Hb Hx. rewrite hdr_upd by done. apply (hdr_frame h); [by eapply block_in_heap|]. intros y _. apply Hx.
Qed.

(** Taking a fitting block off the free list. *)
Lemma blocks_take l1 c n l2 al need :
  heap_blocks h (l1 ++ (c, n) :: l2) al -> 0 <= need <= n -> (16 | need) ->
  exists h' fl' k, take_block h (last_addr 0 l1) c need = Ok (c + KHEAP_HEADER_SIZE, h') /\
    heap_inv h' fl' (<[c := k]> al) /\ al !! c = None /\ need <= k < need + 48 /\ KERNEL_HEAP_START <= c /\ (16 | c) /\ kept h h' al.
Proof.
  intros HB Hn Hal. pose proof (heap_mem_bound h HM) as Hbd. destruct HB as [Hs Ho Ha Hfa Haa].
  destruct (take_block_spec h lvl HT HF heap_top (ram_of h) (kheap_free_list h) l1 c n l2 need)
    as (m' & l' & fl' & k & nx & Hrun & Hk' & Hs' & Ho' & Hkn & Hka & Hc & Hin & Hfr); try done; [lia|].
  rewrite upd_heap_id in Hrun.
  pose proof (fsorted_elem _ _ _ c n Ho ltac:(apply elem_of_mid; auto)) as Hcb.
  assert (forall a y, al !! a = Some y -> apart a y c n) as Hac by (intros; apply Hfa; [done|apply elem_of_mid; auto]).
  assert (al !! c = None) as Hcn.
  { destruct (al !! c) as [y|] eqn:E; [|done]. specialize (Hac c y E). destruct (Ha c y E) as [Hb _].
    unfold apart, block_in, KHEAP_HEADER_SIZE in *. lia. }
  assert (forall a y x, al !! a = Some y -> a <= x < a + KHEAP_HEADER_SIZE + y -> m' (ph h x) = ram_of h (ph h x)) as Hkeep.
  { intros a y x Hay Hx. destruct (Ha a y Hay) as [Hab _]. apply Hfr.
    - unfold in_region, block_in, KHEAP_HEADER_SIZE in *. lia.
    - intros b j Hj. pose proof (Hfa a y b j Hay ltac:(apply elem_of_mid; auto)) as Hap.
      pose proof (fsorted_elem _ _ _ b j Ho ltac:(apply elem_of_mid; auto)).
      unfold apart, outside, block_in, KHEAP_HEADER_SIZE in *. lia.
    - specialize (Hac a y Hay). unfold apart, block_in, KHEAP_HEADER_SIZE in *. lia. }
  exists (with_heap_lock (upd_heap h m' l') false), fl', k. split; [done|].
  split; [|split; [done|split; [lia|split; [apply Hcb|split; [apply Hcb|]]]]].
  2: { intros a y x Hay Hx. apply (vword_upd m' l'); [done|]. apply (Hkeep a y x Hay). unfold KHEAP_HEADER_SIZE in *. lia. }
  constructor; [by apply heap_mem_upd| |done]. constructor; try done.
  - by apply (seg_upd m' l').
  - intros a y Hay. apply lookup_insert_Some in Hay as [[<- <-]|[Hne Hay]].
    + split; [unfold block_in, KHEAP_HEADER_SIZE in *; cbn; intuition lia|]. exists nx. rewrite <- Hc.
      exact (hdr_upd m' l' c Hk').
    + destruct (Ha a y Hay) as [Hb Hx]. split; [exact Hb|].
      change (hdr (with_heap_lock (upd_heap h m' l') false) a) with (hdr (upd_heap h m' l') a).
      rewrite (block_hdr_upd m' l' a y Hk' Hb); [done|]. intros x Hxr. apply (Hkeep a y x Hay).
      destruct Hb as (_ & _ & _ & ? & _). lia.
  - intros a y b j Hay Hbj. apply lookup_insert_Some in Hay as [[<- <-]|[Hne Hay]].
    + destruct (Hin b j Hbj) as [Hold|Hnew]; [|left; lia].
      destruct (fsorted_apart _ _ _ c n b j Ho) as [[= <- <-]|Hap]; try (apply elem_of_mid; by auto).
      * exfalso. apply fsorted_app in Ho as (Ho1 & _ & Ho2). apply elem_of_app in Hold as [Hold|Hold].
        -- apply (fsorted_elem _ _ _ _ _ Ho1) in Hold. unfold block_in, KHEAP_HEADER_SIZE in *. lia.
        -- apply (fsorted_elem _ _ _ _ _ Ho2) in Hold. unfold block_in, KHEAP_HEADER_SIZE in *. lia.
      * unfold apart in *. lia.
    + destruct (Hin b j Hbj) as [Hold|Hnew]; [apply Hfa; [done|apply elem_of_mid; auto]|].
      specialize (Hac a y Hay). pose proof (fsorted_elem _ _ _ b j Ho' Hbj). unfold apart, block_in, KHEAP_HEADER_SIZE in *. lia.
  - intros a y b j Hay Hbj Hab. apply lookup_insert_Some in Hay as [[<- <-]|[Hne Hay]];
      apply lookup_insert_Some in Hbj as [[<- <-]|[Hne' Hbj]]; try done.
    + specialize (Hac b j Hbj). unfold apart in *. lia.
    + specialize (Hac a y Hay). unfold apart in *. lia.
    + by apply Haa.
Qed.

(** Putting a block on the free list and merging. *)
Lemma blocks_release fl al a n :
  heap_blocks h fl al -> size (hdr h a) = n ->
  block_in KERNEL_HEAP_START (kheap_current_break h) a n ->
  (forall x k, (x, k) ∈ fl -> apart a n x k) ->
  (forall x k, al !! x = Some k -> apart x k a n) ->
  exists m l l1 l2, kheap_add_to_free_list h a ≫= kheap_coalesce_free_list = Ok (upd_heap h m l) /\ keeps h m /\
    fl = l1 ++ l2 /\ heap_blocks (upd_heap h m l) (coal_list (l1 ++ (a, n) :: l2)) al /\
    covers (coal_list (l1 ++ (a, n) :: l2)) a n /\ no_adjacent (coal_list (l1 ++ (a, n) :: l2)) /\
    kept h (upd_heap h m l) al.
Proof.
  intros [Hs Ho Ha Hfa Haa] Hab Hbl Hapf Hapa. pose proof (heap_mem_bound h HM) as Hbd.
  destruct (fsorted_place _ _ _ _ _ Ho Hbl Hapf) as (l1 & l2 & -> & Ho1 & Ho2).
  destruct (add_spec h lvl HT HF heap_top (ram_of h) (kheap_free_list h) a n l1 l2)
    as (m1 & lh1 & Hadd & Hk1 & Hs1 & Hf1); try done.
  { unfold block_in, in_heap, KHEAP_HEADER_SIZE in *. lia. } { apply Hbl. }
  { eapply fsorted_mono; [| |exact Ho2]; unfold block_in in *; lia. }
  rewrite upd_heap_id in Hadd. rewrite Hadd. cbn [mbind outcome_bind].
  assert (fsorted KERNEL_HEAP_START (kheap_current_break h) (l1 ++ (a, n) :: l2)) as Ho' by (by apply fsorted_app).
  destruct (coalesce_spec h lvl HT HF heap_top m1 lh1 _ Hk1 Hs1 Ho') as (m2 & Hco & Hk2 & Hs2 & Hf2); [lia|].
  assert (forall x k y j, al !! x = Some k -> (y, j) ∈ l1 ++ (a, n) :: l2 -> apart x k y j) as Hap.
  { intros x k y j Hx Hy. apply elem_of_mid in Hy as [[= -> ->]|Hy']; auto. }
  assert (forall c y x, al !! c = Some y -> c <= x < c + KHEAP_HEADER_SIZE + y -> m2 (ph h x) = ram_of h (ph h x)) as Hkeep.
  { intros c y x Hc Hx. destruct (Ha c y Hc) as [Hcb _].
    assert (forall b j, (b, j) ∈ l1 ++ (a, n) :: l2 -> outside b x) as Hout.
    { intros b j Hj. specialize (Hap c y b j Hc Hj). apply (fsorted_elem _ _ _ _ _ Ho') in Hj.
      unfold apart, outside, block_in, KHEAP_HEADER_SIZE in *. lia. }
    assert (in_region h x) as Hxr by (unfold in_region, block_in, KHEAP_HEADER_SIZE in *; lia).
    rewrite Hf2 by done. apply Hf1; [done|]. intros b j Hj. apply (Hout b j). apply elem_of_mid.
    by apply elem_of_cons in Hj. }
  exists m2, lh1, l1, l2. split; [done|]. split; [done|]. split; [done|].
  assert (Forall (fun c => 0 <= c.2) (l1 ++ (a, n) :: l2)) as Hnn.
  { apply Forall_forall. intros [x k] Hx. apply (fsorted_elem _ _ _ _ _ Ho') in Hx. apply Hx. }
  assert ((a, n) ∈ l1 ++ (a, n) :: l2) as Hin by (apply elem_of_mid; auto).
  destruct (l1 ++ (a, n) :: l2) as [|[c k] rest] eqn:El; [by destruct l1|].
  split; [|split; [by apply coal_covers|split; [apply coal_merged|]]].
  2: { intros x y z Hx Hz. apply vword_upd; [done|]. apply (Hkeep x y z Hx). unfold KHEAP_HEADER_SIZE in *. lia. }
  constructor; try done.
  - by apply seg_upd.
  - by apply coal_sorted.
  - intros x y Hx. destruct (Ha x y Hx) as [Hxb Hxh]. split; [done|].
    rewrite (block_hdr_upd m2 lh1 x y Hk2 Hxb); [done|]. intros z Hz. apply (Hkeep x y z Hx).
    destruct Hxb as (_ & _ & _ & ? & _). lia.
  - intros x y b j Hx Hy. eapply coal_apart; [|intros y' j' Hy'|exact Hy].
    + by apply (Ha x y).
    + split; [|by apply Hap]. by apply (fsorted_elem _ _ _ _ _ Ho') in Hy' as (_ & _ & _ & ? & _).
Qed.

(** Writing a word of the heap. *)
Lemma word_put_spec x v : in_region h x ->
  exists m, word_put h x v = Ok (upd_heap h m (kheap_free_list h)) /\ keeps h m /\ m (ph h x) = v /\
    (forall y, in_region h y -> y <> x -> m (ph h y) = ram_of h (ph h y)).
Proof.
  intros Hx. exists (upd (ram_of h) (ph h x) v). split; [|split; [|split]].
  - pose proof (put_word h lvl HT HF (ram_of h) (kheap_free_list h) x v (keeps_id h) Hx) as Hp. by rewrite upd_heap_id in Hp.
  - by apply keeps_upd.
  - apply upd_eq.
  - intros y Hy Hne. apply upd_ne. intros Hpe. by apply (ph_inj h lvl HF heap_top) in Hpe.
Qed.

(** Writing a word of a live block's data. *)
Lemma blocks_write fl al a n x v :
  heap_blocks h fl al -> al !! a = Some n -> a + KHEAP_HEADER_SIZE <= x < a + KHEAP_HEADER_SIZE + n ->
  exists m, word_put h x v = Ok (upd_heap h m (kheap_free_list h)) /\ keeps h m /\
    heap_blocks (upd_heap h m (kheap_free_list h)) fl al /\
    vword (upd_heap h m (kheap_free_list h)) x = Some v /\
    (forall y, in_region h y -> y <> x -> vword (upd_heap h m (kheap_free_list h)) y = vword h y).
Proof.
  intros [Hs Ho Ha Hfa Haa] Hal Hx. destruct (Ha a n Hal) as [Hb _].
  assert (in_region h x) as Hxr by (unfold in_region, block_in, KHEAP_HEADER_SIZE in *; lia).
  destruct (word_put_spec x v Hxr) as (m & Hput & Hk & Hmx & Hoth).
  assert (forall b j, block_in KERNEL_HEAP_START (kheap_current_break h) b j -> apart a n b j \/ b = a ->
    hdr (upd_heap h m (kheap_free_list h)) b = hdr h b) as Hh.
  { intros b j Hbj Hap. rewrite (block_hdr_upd m _ b j Hk Hbj); [done|]. intros y Hy.
    apply Hoth; unfold in_region, apart, block_in, KHEAP_HEADER_SIZE in *; lia. }
  exists m. split; [done|split; [done|split; [|split]]].
  - constructor; try done.
    + apply seg_frame with (hdr h); [|done]. intros b j Hbj. apply (Hh b j).
      * by apply (fsorted_elem _ _ _ _ _ Ho).
      * left. by apply (Hfa a n).
    + intros b j Hbj. destruct (Ha b j Hbj) as [Hbb Hbh]. split; [done|]. rewrite (Hh b j Hbb); [done|].
      destruct (decide (b = a)) as [->|Hne]; [by right|left; by apply (Haa a n)].
  - unfold vword. rewrite (keeps_word_addr h lvl HT HF) by done. destruct (region_addr h lvl HF x Hxr) as (e & -> & _).
    f_equal. exact Hmx.
  - intros y Hy Hne. apply vword_upd; [done|]. by apply Hoth.
Qed.
End Heap.

Lemma kept_trans h h1 h2 al : kept h h1 al -> kept h1 h2 al -> kept h h2 al.
Proof. intros H1 H2 a n x Ha Hx. by rewrite (H2 a n x), (H1 a n x). Qed.

Lemma kept_sub h h' al al' : al' ⊆ al -> kept h h' al -> kept h h' al'.
Proof. intros Hs H a n x Ha. apply H. by eapply lookup_weaken. Qed.

(** ** Growing the heap *)

Lemma expand_spec h tot :
  heap_mem h -> 0 < tot <= 2 ^ 46 + 2 ^ 13 ->
  let e := align_up tot PAGE_SIZE in
  (kheap_max_break h < kheap_current_break h + e /\ kheap_expand h tot = Ok (false, h)) \/
  (exists s, kheap_expand h tot =
       Ok (true, with_break (with_vm h s (kernel_address_space h)) (kheap_current_break h + e)) /\
     heap_mem (with_break (with_vm h s (kernel_address_space h)) (kheap_current_break h + e)) /\
     same_below (kheap_current_break h) h (with_vm h s (kernel_address_space h)) /\
     kheap_current_break h + e <= kheap_max_break h) \/
  (exists why, kheap_expand h tot = Panic why /\
     total_frames h < used_frames h + 4 * (e / PAGE_SIZE)).
Proof.
  intros HM Ht e. pose proof (hm_break _ HM) as Hbr. pose proof (hm_max _ HM) as Hmx.
  destruct (align_up_bounds tot 12) as [Heb Hed]; [lia|lia|lia|].
  change (align_up tot (2 ^ 12)) with e in *. change (2 ^ 12) with 4096 in *.
  unfold kheap_expand. fold e. destruct Hed as [k Hk].
  unfold KERNEL_HEAP_START, KERNEL_VMA_OFFSET, KERNEL_HEAP_MAX_SIZE, PAGE_SIZE in *.
  rewrite u64_small by (unfold in_u64; lia). zcase (kheap_max_break h <? kheap_current_break h + e); [by left|].
  replace (kheap_current_break h + e - kheap_current_break h) with e by lia.
  assert (Z.to_nat (e / 0x1000) = Z.to_nat k) as Hdiv by (rewrite Hk; change 0x1000 with 4096; by rewrite Z.div_mul).
  rewrite Hdiv. replace (e / 0x1000) with k by (rewrite Hk; change 0x1000 with 4096; by rewrite Z.div_mul).
  assert (env_ok h (kheap_current_break h)) as HE by (destruct HM; by constructor).
  replace (kheap_current_break h + e) with (kheap_current_break h + 4096 * Z.of_nat (Z.to_nat k)) by lia.
  destruct (expand_loop_spec (Z.to_nat k) h (kheap_current_break h) HE (hm_page _ HM))
    as [(s & Hrun & HE' & Hsame)|(why & Hrun & Hfew)].
  - unfold KERNEL_HEAP_START, KERNEL_VMA_OFFSET. lia.
  - unfold KERNEL_HEAP_START, KERNEL_VMA_OFFSET, KERNEL_HEAP_MAX_SIZE, PAGE_SIZE. lia.
  - right; left. exists s. split; [done|]. split; [|split; [done|lia]]. destruct HE' as [(lvl & Hvm & HF) ? ? ?].
    constructor; try done; cbn in *.
    + exists lvl. split; [done|]. by destruct HF; constructor.
    + unfold KERNEL_HEAP_START, KERNEL_VMA_OFFSET. lia.
    + apply Z.divide_add_r; [apply (hm_page _ HM)|apply Z.divide_factor_l].
  - right; right. exists why. split; [done|]. lia.
Qed.

(** Headers of the old heap in a heap that agrees below the old break. *)
Lemma hdr_same h h' a : heap_mem h -> same_below (kheap_current_break h) h h' -> in_heap h a -> hdr h' a = hdr h a.
Proof.
  intros HM Hs Ha. destruct (hm_vm _ HM) as (lvl & _ & HF). unfold in_heap, KHEAP_HEADER_SIZE in Ha.
  assert (forall x, KERNEL_HEAP_START <= x < kheap_current_break h -> ram_of h' (ph h' x) = ram_of h (ph h x)) as Hx.
  { intros x Hx. destruct (Hs x Hx) as [Hw Hv]. unfold ph. unfold vword in Hv. rewrite Hw in *.
    destruct (region_addr h lvl HF x Hx) as (e & E & _). rewrite E in *. by injection Hv. }
  unfold hdr, hdr_at. by rewrite !Hx by lia.
Qed.

Lemma blocks_grow h h' fl al :
  heap_mem h -> heap_blocks h fl al -> same_below (kheap_current_break h) h h' ->
  kheap_current_break h <= kheap_current_break h' -> kheap_free_list h' = kheap_free_list h -> heap_blocks h' fl al.
Proof.
  intros HM [Hs Ho Ha Hfa Haa] Hsame Hnb Hl. constructor; rewrite ?Hl; try done.
  - apply seg_frame with (hdr h); [|done]. intros a n Hin. apply (fsorted_elem _ _ _ _ _ Ho) in Hin.
    apply hdr_same; [done..|]. by eapply block_in_heap.
  - eapply fsorted_mono; [| |exact Ho]; lia.
  - intros a n Han. destruct (Ha a n Han) as [Hb Hx]. rewrite (hdr_same h h' a) by (try done; by eapply block_in_heap).
    split; [|done]. unfold block_in, KHEAP_HEADER_SIZE in *. intuition lia.
Qed.

Lemma kept_grow h h' fl al :
  heap_blocks h fl al -> same_below (kheap_current_break h) h h' -> kept h h' al.
Proof.
  intros [_ _ Ha _ _] Hs a n x Han Hx. apply Hs. destruct (Ha a n Han) as [Hb _].
  unfold block_in, KHEAP_HEADER_SIZE in *. lia.
Qed.

(** The new region becomes a free block. *)
Lemma add_region h h2 fl al e :
  heap_mem h -> heap_mem h2 -> heap_blocks h fl al -> same_below (kheap_current_break h) h h2 ->
  kheap_current_break h2 = kheap_current_break h + e -> kheap_free_list h2 = kheap_free_list h ->
  (4096 | e) -> 0 < e ->
  exists h3 h4 fl', hdr_put_size h2 (kheap_current_break h) (e - 32) = Ok h3 /\
    kheap_add_to_free_list h3 (kheap_current_break h) ≫= kheap_coalesce_free_list = Ok h4 /\
    heap_inv (with_heap_lock h4 false) fl' al /\ covers fl' (kheap_current_break h) (e - 32) /\ kept h h4 al.
Proof.
  intros HM HM2 HB Hsame Hbr Hl [y Hy] He. destruct (hm_vm _ HM2) as (lvl & Hvm & HF).
  pose proof (hm_break _ HM) as Hlo. pose proof (hm_page _ HM) as [x Hx].
  set (b := kheap_current_break h) in *.
  destruct (word_put_spec h2 lvl Hvm HF HM2 b (e - 32)) as (m & Hput & Hk & Hmb & Hoth); [unfold in_region; lia|].
  set (h3 := upd_heap h2 m (kheap_free_list h2)) in *.
  assert (heap_mem h3) as HM3 by (pose proof (heap_mem_upd h2 lvl Hvm HF HM2 m (kheap_free_list h2) (kheap_lock h2) Hk) as Q; by destruct h2).
  assert (same_below b h h3) as Hs3.
  { eapply same_below_trans; [exact Hsame|]. intros a Ha. split; [by apply (keeps_word_addr h2 lvl (vi_tree _ _ _ Hvm) HF)|].
    apply (vword_upd h2 lvl Hvm HF); [done|]. apply Hoth; unfold in_region; lia. }
  assert (heap_blocks h3 fl al) as HB3 by (apply (blocks_grow h); try done; cbn; lia).
  destruct (hm_vm _ HM3) as (lvl3 & Hvm3 & HF3). change (kheap_current_break h3) with (kheap_current_break h2) in HF3.
  destruct (blocks_release h3 lvl3 Hvm3 HF3 HM3 fl al b (e - 32) HB3) as (m4 & l4 & l1 & l2 & Hrun & Hk4 & -> & HB4 & Hcov & _ & Hkept).
  { unfold h3. rewrite (hdr_upd h2 lvl Hvm HF) by done. exact Hmb. }
  { unfold block_in, KHEAP_HEADER_SIZE. change (kheap_current_break h3) with (kheap_current_break h2).
    repeat split; try lia; [exists (x * 256)|exists (y * 256 - 2)]; lia. }
  { intros a k Ha. right. apply (fsorted_elem _ _ _ _ _ (hb_sorted _ _ _ HB)) in Ha. unfold block_in in Ha. lia. }
  { intros a k Ha. left. destruct (hb_alloc _ _ _ HB a k Ha) as [Hb _]. unfold block_in in Hb. lia. }
  exists h3, (upd_heap h3 m4 l4), (coal_list (l1 ++ (b, e - 32) :: l2)). split; [done|]. split; [done|]. split; [|split; [done|]].
  - constructor; [by apply (heap_mem_upd h3 lvl3)| |done]. by destruct HB4; constructor.
  - eapply kept_trans; [by eapply kept_grow|done].
Qed.

Definition fits (need : Z) (fl : list (Z * Z)) : Prop := Exists (fun b => need <= b.2) fl.

(** The first block of the list that fits. *)
Definition first_fitting (need : Z) (fl : list (Z * Z)) (c : Z) : Prop :=
  exists l1 n l2, fl = l1 ++ (c, n) :: l2 /\ need <= n /\ Forall (fun b => b.2 < need) l1.

(** What a successful [kmalloc] returns. *)
Definition fresh_block (h : kheap) (al : gmap Z Z) (sz c k : Z) (h' : kheap) (fl' : list (Z * Z)) : Prop :=
  heap_inv h' fl' (<[c := k]> al) /\ al !! c = None /\
  align_up sz KHEAP_MIN_ALIGNMENT <= k < align_up sz KHEAP_MIN_ALIGNMENT + 48 /\
  KERNEL_HEAP_START <= c /\ (16 | c) /\ kept h h' al.

Lemma heap_locked h fl al b : heap_inv h fl al -> heap_mem (with_heap_lock h b) /\ heap_blocks (with_heap_lock h b) fl al.
Proof.
  intros [HM HB _]. split; [|by destruct HB; constructor]. destruct (hm_vm _ HM) as (lvl & Hvm & HF).
  rewrite <- (upd_heap_id h) at 1. by apply (heap_mem_upd h lvl Hvm HF HM).
Qed.

(** The search of [kmalloc]. *)
Lemma search_spec h fl al need :
  heap_inv h fl al -> let h1 := with_heap_lock h true in
  (exists l1 c n l2, fl = l1 ++ (c, n) :: l2 /\ need <= n /\ Forall (fun b => b.2 < need) l1 /\
     first_fit (list_fuel h1) h1 need 0 (kheap_free_list h1) = Ok (Some (last_addr 0 l1, c))) \/
  (~ fits need fl /\ first_fit (list_fuel h1) h1 need 0 (kheap_free_list h1) = Ok None).
Proof.
  intros HI h1. destruct (heap_locked h fl al true HI) as [HM1 HB1]. fold h1 in HM1, HB1.
  destruct (hm_vm _ HM1) as (lvl & Hvm & HF). destruct HB1 as [Hs Ho _ _ _].
  destruct (first_fit_spec h1 lvl (vi_tree _ _ _ Hvm) HF (ram_of h1) (kheap_free_list h1) fl 0 (kheap_free_list h1) need
    KERNEL_HEAP_START (list_fuel h1)) as [(l1 & c & n & l2 & ? & ? & ? & Hff)|[Hall Hff]]; try done.
  - by eapply list_fuel_enough.
  - rewrite upd_heap_id in Hff. left. by exists l1, c, n, l2.
  - rewrite upd_heap_id in Hff. right. split; [|done]. intros Hfit. apply Exists_exists in Hfit as (b & Hb1 & Hb2).
    rewrite Forall_forall in Hall. specialize (Hall b Hb1). lia.
Qed.

(** [kmalloc] when some free block fits. *)
Lemma kmalloc_fit d h fl al sz :
  heap_inv h fl al -> 0 < sz <= 2 ^ 46 -> fits (align_up sz KHEAP_MIN_ALIGNMENT) fl ->
  exists c k h' fl', kmalloc_rec (S d) h sz = Ok (c + KHEAP_HEADER_SIZE, h') /\ fresh_block h al sz c k h' fl' /\
    first_fitting (align_up sz KHEAP_MIN_ALIGNMENT) fl c.
Proof.
  intros HI Hsz Hfit. pose proof HI as [HM HB HL]. cbn [kmalloc_rec]. zcase (sz =? 0). rewrite HL. cbn [spin_acquire mbind outcome_bind].
  destruct (align_up_bounds sz 4) as [Hb Hd]; [lia|lia|lia|]. change (2 ^ 4) with KHEAP_MIN_ALIGNMENT in *.
  unfold fresh_block. set (need := align_up sz KHEAP_MIN_ALIGNMENT) in *. cbv zeta.
  destruct (search_spec h fl al need HI) as [(l1 & c & n & l2 & -> & Hn & Hl1 & ->)|[? _]]; [|done].
  cbn [mbind outcome_bind]. destruct (heap_locked h _ al true HI) as [HM1 HB1]. set (h1 := with_heap_lock h true) in *.
  destruct (hm_vm _ HM1) as (lvl & Hvm & HF).
  destruct (blocks_take h1 lvl Hvm HF HM1 l1 c n l2 al need HB1) as (h' & fl' & k & Hr & Hrest); [lia|done|].
  exists c, k, h', fl'. split; [done|]. split; [exact Hrest|]. by exists l1, n, l2.
Qed.

(** [kmalloc] when no free block fits: the heap grows and the retry fits. *)
Lemma kmalloc_nofit d h fl al sz :
  heap_inv h fl al -> 0 < sz <= 2 ^ 46 -> ~ fits (align_up sz KHEAP_MIN_ALIGNMENT) fl ->
  let e := align_up (KHEAP_HEADER_SIZE + align_up sz KHEAP_MIN_ALIGNMENT) PAGE_SIZE in
  (kheap_max_break h < kheap_current_break h + e /\ kmalloc_rec (S d) h sz = Ok (NULL, h)) \/
  (exists h1 fl1, kmalloc_rec (S d) h sz = kmalloc_rec d h1 sz /\ heap_inv h1 fl1 al /\ kept h h1 al /\
     fits (align_up sz KHEAP_MIN_ALIGNMENT) fl1 /\ kheap_current_break h + e <= kheap_max_break h) \/
  (exists why, kmalloc_rec (S d) h sz = Panic why /\ kheap_current_break h + e <= kheap_max_break h /\
     total_frames h < used_frames h + 4 * (e / PAGE_SIZE)).
Proof.
  intros HI Hsz Hfit e. pose proof HI as [HM HB HL]. cbn [kmalloc_rec]. zcase (sz =? 0). rewrite HL. cbn [spin_acquire mbind outcome_bind].
  destruct (align_up_bounds sz 4) as [Hb Hd]; [lia|lia|lia|]. change (2 ^ 4) with KHEAP_MIN_ALIGNMENT in *.
  unfold KHEAP_HEADER_SIZE in e |- *. set (need := align_up sz KHEAP_MIN_ALIGNMENT) in *. cbv zeta.
  unfold KHEAP_MIN_ALIGNMENT in Hb. rewrite (u64_small (32 + need)) by (unfold in_u64; lia).
  destruct (search_spec h fl al need HI) as [(l1 & c & n & l2 & -> & Hn & _)|[_ ->]].
  { exfalso. apply Hfit. apply Exists_exists. exists (c, n). split; [apply elem_of_mid; auto|done]. }
  cbn [mbind outcome_bind]. destruct (heap_locked h _ al true HI) as [HM1 HB1]. set (h1 := with_heap_lock h true) in *.
  change (kheap_current_break h1) with (kheap_current_break h).
  destruct (align_up_bounds (32 + need) 12) as [Heb Hed]; [lia|lia|lia|].
  change (align_up (32 + need) (2 ^ 12)) with e in *. change (2 ^ 12) with 4096 in *.
  pose proof (heap_mem_bound _ HM) as Hbd. assert (0 < KERNEL_HEAP_START) by done.
  destruct (expand_spec h1 (32 + need) HM1) as [[Hlim ->]|[(s & -> & HM2 & Hsame & Hlim)|(why & Hp & Hfew)]]; [lia| | |];
    [cbn [mbind outcome_bind negb]..|].
  { left. split; [exact Hlim|]. by destruct h; cbn in *; subst. }
  2: { right; right. exists why. rewrite Hp. split; [done|]. split; [|exact Hfew].
       destruct (Z.le_gt_cases (kheap_current_break h + e) (kheap_max_break h)) as [|Hgt]; [done|exfalso].
       unfold kheap_expand in Hp. change (kheap_current_break h1) with (kheap_current_break h) in Hp.
       change (kheap_max_break h1) with (kheap_max_break h) in Hp. change (align_up (32 + need) PAGE_SIZE) with e in Hp.
       pose proof (hm_max _ HM). pose proof (hm_break _ HM).
       rewrite u64_small in Hp by (unfold in_u64, KERNEL_HEAP_START, KERNEL_VMA_OFFSET, KERNEL_HEAP_MAX_SIZE, PAGE_SIZE in *; lia).
       by zcase (kheap_max_break h <? kheap_current_break h + e). }
  right; left. fold e in HM2, Hlim |- *. change (kheap_current_break h1) with (kheap_current_break h) in *.
  set (h2 := with_break _ _) in *. change (kheap_current_break h2) with (kheap_current_break h + e).
  assert (kheap_current_break h + e < 2 ^ 64) by (exact (proj2 (heap_mem_bound _ HM2))).
  destruct (add_region h1 h2 fl al e HM1 HM2 HB1 Hsame) as (h3 & h4 & fl' & Hput & Hadd & HI4 & Hcov & Hkept); try done; [lia|].
  clearbody e need. replace (kheap_current_break h + e - kheap_current_break h) with e by lia.
  rewrite (u64_small e), (u64_small (e - 32)) by (unfold in_u64; lia). zcase (32 + need <=? e). cbn [ASSERT mbind outcome_bind].
  change (kheap_current_break h1) with (kheap_current_break h) in *. rewrite Hput. cbn [mbind outcome_bind].
  destruct (kheap_add_to_free_list h3 (kheap_current_break h)) as [h5| | |]; try done.
  cbn [mbind outcome_bind] in *. rewrite Hadd. cbn [mbind outcome_bind].
  exists (with_heap_lock h4 false), fl'. split; [done|]. split; [done|]. split; [exact Hkept|]. split; [|done].
  destruct Hcov as (x & k & Hx & Hle & Hge). apply Exists_exists. exists (x, k). split; [done|]. cbn. lia.
Qed.

Lemma fresh_block_kept h h1 al sz c k h' fl' :
  kept h h1 al -> fresh_block h1 al sz c k h' fl' -> fresh_block h al sz c k h' fl'.
Proof. intros Hk (? & ? & ? & ? & ? & Hk'). do 5 (split; [done|]). by eapply kept_trans. Qed.

Lemma kmalloc_cases h fl al sz :
  heap_inv h fl al -> 0 < sz <= 2 ^ 46 ->
  let need := align_up sz KHEAP_MIN_ALIGNMENT in
  let e := align_up (KHEAP_HEADER_SIZE + need) PAGE_SIZE in
  (exists c k h' fl', kmalloc h sz = Ok (c + KHEAP_HEADER_SIZE, h') /\ fresh_block h al sz c k h' fl' /\
     (fits need fl /\ first_fitting need fl c \/ ~ fits need fl /\ kheap_current_break h + e <= kheap_max_break h)) \/
  (kmalloc h sz = Ok (NULL, h) /\ ~ fits need fl /\ kheap_max_break h < kheap_current_break h + e) \/
  (exists why, kmalloc h sz = Panic why /\ ~ fits need fl /\ kheap_current_break h + e <= kheap_max_break h /\
     total_frames h < used_frames h + 4 * (e / PAGE_SIZE)).
Proof.
  intros HI Hsz need e. unfold kmalloc.
  destruct (decide (fits need fl)) as [Hf|Hf].
  { left. destruct (kmalloc_fit 1 h fl al sz HI Hsz Hf) as (c & k & h' & fl' & Hr & Hb & Hff). eauto 10. }
  destruct (kmalloc_nofit 1 h fl al sz HI Hsz Hf) as [[? ->]|[(h1 & fl1 & -> & HI1 & Hk & Hf1 & ?)|(why & -> & ? & ?)]].
  - right; left. done.
  - left. destruct (kmalloc_fit 0 h1 fl1 al sz HI1 Hsz Hf1) as (c & k & h' & fl' & Hr & Hb & _).
    exists c, k, h', fl'. split; [done|]. split; [by eapply fresh_block_kept|by right].
  - right; right. eauto 6.
Qed.

(** Every free block starts inside the heap and carries the free magic. *)
Lemma free_hdr g p l q a n : seg g p l q -> (a, n) ∈ l -> exists nx, g a = mk_hdr n nx KHEAP_MAGIC.
Proof.
  intros Hs Hin. apply list_elem_of_split in Hin as (l1 & l2 & ->). apply seg_app in Hs as (r & _ & Hs).
  destruct Hs as [_ (nx & ? & _)]. eauto.
Qed.

Lemma hdr_get_ok h a : heap_mem h -> in_heap h a -> hdr_get h a = Ok (hdr h a).
Proof.
  intros HM Ha. destruct (hm_vm _ HM) as (lvl & Hvm & HF). rewrite <- (upd_heap_id h) at 1.
  by apply (get_ok h lvl (vi_tree _ _ _ Hvm) HF).
Qed.

(** [kfree] up to the test of the header. *)
Lemma kfree_header h fl al a n :
  heap_inv h fl al -> block_in KERNEL_HEAP_START (kheap_current_break h) a n ->
  kfree h (a + KHEAP_HEADER_SIZE) =
    (ASSERT (magic (hdr h a) =? not64 KHEAP_MAGIC) "block->magic == ~KHEAP_MAGIC" ;;
     h1 ← kheap_add_to_free_list (with_heap_lock h true) a ;
     h1 ← kheap_coalesce_free_list h1 ;
     Ok (with_heap_lock h1 false)).
Proof.
  intros HI Hb. pose proof HI as [HM HB HL]. pose proof (heap_mem_bound _ HM) as Hbd.
  destruct (heap_locked h fl al true HI) as [HM1 _]. assert (0 < KERNEL_HEAP_START) by done.
  pose proof Hb as (? & ? & ? & ? & ?). unfold kfree, NULL, KHEAP_HEADER_SIZE in *.
  zcase (a + 32 =? 0). rewrite HL. cbn [spin_acquire mbind outcome_bind].
  replace (a + 32 - 32) with a by lia. rewrite u64_small by (unfold in_u64; lia). cbv zeta.
  rewrite hdr_get_ok by (try done; unfold in_heap, KHEAP_HEADER_SIZE; cbn; lia). done.
Qed.

Lemma kfree_live h fl al a n :
  heap_inv h fl al -> al !! a = Some n ->
  exists h' l1 l2, kfree h (a + KHEAP_HEADER_SIZE) = Ok h' /\ fl = l1 ++ l2 /\
    heap_inv h' (coal_list (l1 ++ (a, n) :: l2)) (delete a al) /\
    covers (coal_list (l1 ++ (a, n) :: l2)) a n /\ no_adjacent (coal_list (l1 ++ (a, n) :: l2)) /\
    kept h h' (delete a al).
Proof.
  intros HI Ha. pose proof HI as [HM [Hs Ho Hal Hfa Haa] HL]. destruct (Hal a n Ha) as [Hb (nx & Hx)].
  rewrite (kfree_header h fl al a n HI Hb). rewrite Hx. cbn [magic]. rewrite Z.eqb_refl. cbn [ASSERT mbind outcome_bind].
  destruct (heap_locked h fl al true HI) as [HM1 HB1]. set (h1 := with_heap_lock h true) in *.
  destruct (hm_vm _ HM1) as (lvl & Hvm & HF).
  assert (heap_blocks h1 fl (delete a al)) as HB1'.
  { destruct HB1 as [? ? Hal1 Hfa1 Haa1]. constructor; try done.
    - intros b k Hbk. apply lookup_delete_Some in Hbk as [_ Hbk]. by apply Hal1.
    - intros b k c j Hbk. apply lookup_delete_Some in Hbk as [_ Hbk]. by apply Hfa1.
    - intros b k c j Hbk Hcj. apply lookup_delete_Some in Hbk as [_ Hbk].
      apply lookup_delete_Some in Hcj as [_ Hcj]. by apply Haa1. }
  destruct (blocks_release h1 lvl Hvm HF HM1 fl (delete a al) a n HB1')
    as (m & l & l1 & l2 & Hrun & Hk & -> & HB2 & Hcov & Hna & Hkept); try done.
  - change (hdr h1 a) with (hdr h a). by rewrite Hx.
  - intros x k Hin. by apply Hfa.
  - intros x k Hin. apply lookup_delete_Some in Hin as [Hne Hin]. apply Haa; [done..|congruence].
  - destruct (kheap_add_to_free_list h1 a) as [h2| | |]; try done.
    cbn [mbind outcome_bind] in *. rewrite Hrun. cbn [mbind outcome_bind].
    exists (with_heap_lock (upd_heap h1 m l) false), l1, l2. split; [done|]. split; [done|]. split; [|done].
    constructor; [by apply (heap_mem_upd h1 lvl)| |done]. by destruct HB2; constructor.
Qed.

Lemma kfree_free h fl al a n :
  heap_inv h fl al -> (a, n) ∈ fl -> kfree h (a + KHEAP_HEADER_SIZE) = Panic "block->magic == ~KHEAP_MAGIC".
Proof.
  intros HI Ha. pose proof HI as [HM [Hs Ho _ _ _] HL]. destruct (free_hdr _ _ _ _ _ _ Hs Ha) as (nx & Hx).
  rewrite (kfree_header h fl al a n HI) by (by apply (fsorted_elem _ _ _ _ _ Ho)). by rewrite Hx.
Qed.

(** ** Histories

    Runs of allocations, releases and writes of the owners to aligned words of their blocks;
    [live] holds the pointers handed out, with the sizes asked for. *)
Inductive heap_op :=
| op_malloc (sz : Z)
| op_free (p : Z)
| op_write (x v : Z).

Inductive kheap_step : heap_op -> kheap * list (Z * Z) -> kheap * list (Z * Z) -> Prop :=
| kstep_malloc h live sz p h' :
    0 < sz <= 2 ^ 46 -> kmalloc h sz = Ok (p, h') -> p <> NULL ->
    kheap_step (op_malloc sz) (h, live) (h', (p, sz) :: live)
| kstep_fail h live sz h' :
    0 <= sz <= 2 ^ 46 -> kmalloc h sz = Ok (NULL, h') -> kheap_step (op_malloc sz) (h, live) (h', live)
| kstep_free h l1 p sz l2 h' :
    kfree h p = Ok h' -> kheap_step (op_free p) (h, l1 ++ (p, sz) :: l2) (h', l1 ++ l2)
| kstep_write h live p sz x v h' :
    (p, sz) ∈ live -> (8 | x) -> p <= x -> x + 8 <= p + sz -> word_put h x v = Ok h' -> kheap_step (op_write x v) (h, live) (h', live).

Definition any_op (c c' : kheap * list (Z * Z)) : Prop := exists o, kheap_step o c c'.

Record live_ok (h : kheap) (fl : list (Z * Z)) (al : gmap Z Z) (live : list (Z * Z)) : Prop := {
  lo_inv : heap_inv h fl al;
  lo_nodup : NoDup live.*1;
  lo_live : forall p sz, (p, sz) ∈ live ->
    0 < sz /\ exists k, al !! (p - KHEAP_HEADER_SIZE) = Some k /\ sz <= k
}.

(** The words of the live blocks the client keeps. *)
Definition words_kept (live : list (Z * Z)) (h h' : kheap) : Prop :=
  forall p sz x, (p, sz) ∈ live -> p <= x < p + sz -> vword h' x = vword h x.

Lemma live_words h h' fl al live al' live' :
  live_ok h fl al live -> kept h h' al' -> (forall p sz, (p, sz) ∈ live' -> (p, sz) ∈ live) ->
  (forall p sz, (p, sz) ∈ live' -> al' !! (p - KHEAP_HEADER_SIZE) = al !! (p - KHEAP_HEADER_SIZE)) -> words_kept live' h h'.
Proof.
  intros [_ _ Hl] Hk Hsub Hal p sz x Hp Hx. destruct (Hl p sz (Hsub _ _ Hp)) as (_ & k & Hk' & Hle).
  apply (Hk (p - KHEAP_HEADER_SIZE) k); [by rewrite (Hal p sz)|lia].
Qed.

Lemma kmalloc_zero h : kmalloc h 0 = Ok (NULL, h).
Proof. done. Qed.

Lemma live_malloc h fl al live sz p h' :
  live_ok h fl al live -> 0 <= sz <= 2 ^ 46 -> kmalloc h sz = Ok (p, h') ->
  (p = NULL /\ h' = h) \/
  (p <> NULL /\ words_kept live h h' /\ exists fl' al', live_ok h' fl' al' ((p, sz) :: live)).
Proof.
  intros HO Hsz Hrun. pose proof HO as [HI Hnd Hl].
  destruct (decide (sz = 0)) as [->|Hz]; [rewrite kmalloc_zero in Hrun; injection Hrun as <- <-; by left|].
  destruct (kmalloc_cases h fl al sz HI ltac:(lia))
    as [(c & k & h1 & fl1 & Hr & (HI1 & Hno & Hk & Hc & _ & Hkept) & _)|[(Hr & _)|(? & Hr & _)]];
    rewrite Hr in Hrun; [|injection Hrun as <- <-; by left|done].
  injection Hrun as <- <-. right. split; [|split].
  { unfold NULL, KHEAP_HEADER_SIZE, KERNEL_HEAP_START, KERNEL_VMA_OFFSET in *. lia. }
  { by eapply live_words. }
  exists fl1, (<[c := k]> al).
  assert (forall q n, (q, n) ∈ live -> q - KHEAP_HEADER_SIZE <> c) as Hne.
  { intros q n Hq Heq. destruct (Hl q n Hq) as (_ & j & Hj & _). congruence. }
  destruct (align_up_bounds sz 4) as [Hb _]; [lia|lia|lia|]. change (2 ^ 4) with KHEAP_MIN_ALIGNMENT in *.
  constructor; [done| |].
  - cbn. constructor; [|done]. intros Hin. apply list_elem_of_fmap in Hin as ([q n] & Hq & Hin). cbn in Hq.
    subst q. apply (Hne _ _ Hin). lia.
  - intros q n Hq. apply elem_of_cons in Hq as [[= -> ->]|Hq].
    + split; [lia|]. exists k. replace (c + KHEAP_HEADER_SIZE - KHEAP_HEADER_SIZE) with c by lia.
      rewrite lookup_insert_eq. split; [done|lia].
    + destruct (Hl q n Hq) as (? & j & ? & ?). split; [done|]. exists j.
      rewrite lookup_insert_ne; [done|]. intros Heq. by apply (Hne q n Hq).
Qed.

Lemma live_free h fl al l1 p sz l2 h' :
  live_ok h fl al (l1 ++ (p, sz) :: l2) -> kfree h p = Ok h' ->
  words_kept (l1 ++ l2) h h' /\ exists fl' al', live_ok h' fl' al' (l1 ++ l2).
Proof.
  intros HO Hrun. pose proof HO as [HI Hnd Hl]. destruct (Hl p sz) as (_ & k & Hk & _); [apply elem_of_mid; auto|].
  destruct (kfree_live _ _ _ _ _ HI Hk) as (h1 & m1 & m2 & Hr & _ & HI1 & _ & _ & Hkept).
  replace (p - KHEAP_HEADER_SIZE + KHEAP_HEADER_SIZE) with p in Hr by lia. rewrite Hr in Hrun.
  injection Hrun as <-.
  rewrite fmap_app, fmap_cons in Hnd. cbn in Hnd. rewrite NoDup_app, NoDup_cons in Hnd.
  destruct Hnd as (Hn1 & Hn12 & Hp & Hn2).
  assert (forall q n, (q, n) ∈ l1 ++ l2 -> p - KHEAP_HEADER_SIZE <> q - KHEAP_HEADER_SIZE) as Hne.
  { intros q n Hq Heq. assert (q = p) as -> by lia. apply elem_of_app in Hq as [Hq|Hq].
    + apply (Hn12 p); [|set_solver]. by apply (list_elem_of_fmap_2 fst _ (p, n)).
    + apply Hp. by apply (list_elem_of_fmap_2 fst _ (p, n)). }
  split.
  { eapply live_words; [exact HO|exact Hkept| |].
    - intros q n Hq. apply elem_of_mid. auto.
    - intros q n Hq. by rewrite lookup_delete_ne by (by eapply Hne). }
  eexists _, (delete (p - KHEAP_HEADER_SIZE) al). constructor; [done| |].
  - rewrite fmap_app, NoDup_app. split; [done|]. split; [|done]. intros x Hx Hx2. apply (Hn12 x Hx). set_solver.
  - intros q n Hq. destruct (Hl q n) as (? & j & Hj & ?); [apply elem_of_mid; auto|]. split; [done|].
    exists j. by rewrite lookup_delete_ne by (by eapply Hne).
Qed.

Lemma live_write h fl al live p sz x v h' :
  live_ok h fl al live -> (p, sz) ∈ live -> p <= x < p + sz -> word_put h x v = Ok h' ->
  live_ok h' fl al live /\ vword h' x = Some v /\
  (forall q n y, (q, n) ∈ live -> q <= y < q + n -> y <> x -> vword h' y = vword h y).
Proof.
  intros [HI Hnd Hl] Hp Hx Hrun. pose proof HI as [HM HB HL]. destruct (hm_vm _ HM) as (lvl & Hvm & HF).
  destruct (Hl p sz Hp) as (_ & k & Hk & Hle).
  destruct (blocks_write h lvl Hvm HF HM fl al _ k x v HB Hk ltac:(lia)) as (m & Hput & Hkm & HB' & Hv & Hoth).
  rewrite Hput in Hrun. injection Hrun as <-. split; [|split; [done|]].
  - constructor; [|done..]. constructor; [|done|done].
    pose proof (heap_mem_upd h lvl Hvm HF HM m (kheap_free_list h) (kheap_lock h) Hkm) as Q. by destruct h.
  - intros q n y Hq Hy Hne. apply Hoth; [|done]. destruct (Hl q n Hq) as (_ & j & Hj & Hle').
    destruct (hb_alloc _ _ _ HB _ _ Hj) as [Hb _]. unfold in_region, block_in, KHEAP_HEADER_SIZE in *. lia.
Qed.

(** The word at [x] after one operation of the clients, from the word before. *)
Definition word_after (o : heap_op) (x : Z) (w : option Z) : option Z :=
  match o with
  | op_write y v => if x =? y then Some v else w
  | _ => w
  end.

Lemma live_step o h live h' live' fl al :
  kheap_step o (h, live) (h', live') -> live_ok h fl al live ->
  (exists fl' al', live_ok h' fl' al' live') /\
  (forall p sz x, (p, sz) ∈ live -> (p, sz) ∈ live' -> p <= x < p + sz -> vword h' x = word_after o x (vword h x)).
Proof.
  intros Hst Hok. inversion Hst as [? ? sz p ? Hsz Hrun Hp|? ? sz ? Hsz Hrun|? l1 p sz l2 ? Hrun|? ? p sz x v ? Hin Hal Hx1 Hx2 Hrun]; subst; clear Hst.
  - destruct (live_malloc _ _ _ _ sz _ _ Hok ltac:(lia) Hrun) as [[? _]|(_ & Hw & He)]; [done|].
    split; [done|]. intros q n x Hq _ Hx. by apply (Hw q n).
  - destruct (live_malloc _ _ _ _ _ _ _ Hok Hsz Hrun) as [[_ ->]|(? & _)]; [|done]. by eauto.
  - destruct (live_free _ _ _ _ _ _ _ _ Hok Hrun) as [Hw He]. split; [done|]. intros q n x _ Hq Hx. by apply (Hw q n).
  - destruct (live_write _ _ _ _ p sz x _ _ Hok Hin ltac:(lia) Hrun) as (Hok' & Hv & Hoth). split; [by eauto|].
    intros q n y Hq _ Hy. cbn. destruct (Z.eqb_spec y x) as [->|]; [done|by apply (Hoth q n)].
Qed.

Lemma live_reachable h0 fl0 c :
  heap_inv h0 fl0 ∅ -> rtc any_op (h0, []) c -> exists fl al, live_ok c.1 fl al c.2.
Proof.
  intros HI. assert (exists fl al, live_ok (h0, @nil (Z * Z)).1 fl al (h0, @nil (Z * Z)).2) as H0.
  { exists fl0, ∅. constructor; [done|constructor|]. intros p sz Hin. by apply elem_of_nil in Hin. }
  intros Hr. revert H0. generalize (h0, @nil (Z * Z)) c Hr. clear.
  induction 1 as [|[h live] [h' live'] z [o Hst] _ IH]; [done|]. intros (fl & al & Hok). apply IH.
  by apply (live_step _ _ _ _ _ _ _ Hst Hok).
Qed.

(** The words of the live blocks are words of memory, one each. *)
Lemma live_addr h fl al live p n x :
  live_ok h fl al live -> (p, n) ∈ live -> p <= x < p + n -> in_region h x /\ exists q, word_addr h x = Some q.
Proof.
  intros [[HM HB _] _ Hl] Hp Hx. destruct (Hl p n Hp) as (_ & k & Hk & Hle), (hm_vm _ HM) as (lvl & _ & HF).
  destruct (hb_alloc _ _ _ HB _ _ Hk) as [Hb _].
  assert (in_region h x) as Hr by (unfold in_region, block_in, KHEAP_HEADER_SIZE in *; lia).
  split; [done|]. destruct (region_addr h lvl HF x Hr) as (e & ? & _). eauto.
Qed.

Lemma live_addr_inj h fl al live x y :
  live_ok h fl al live -> in_region h x -> in_region h y -> word_addr h x = word_addr h y -> x = y.
Proof.
  intros [[HM _ _] _ _] Hx Hy Hxy. destruct (hm_vm _ HM) as (lvl & Hvm & HF).
  apply (ph_inj h lvl HF (heap_top h HM)); try done. unfold ph. by rewrite Hxy.
Qed.

(** ** Properties *)

(** C3: [kmalloc] of up to 2^46 bytes, on every branch. A size of 0 gives [NULL]. Otherwise
    it returns a 16-aligned pointer behind the header of a new block that holds the size
    asked for, with less than 48 bytes to spare, in a heap that satisfies the invariant:
    the block is apart from every live and free block, its pages are mapped to frames of
    their own, and the data of every live block is untouched. When some free block fits,
    the new block is the first one that does; otherwise the heap has grown. It returns
    [NULL] with the heap unchanged, when no free block fits and the growth would pass the
    heap limit; and it panics, when no free block fits and physical memory runs out while
    the heap grows. The retry after a growth never recurs. *)
Theorem kmalloc_correct (h : kheap) (fl : list (Z * Z)) (al : gmap Z Z) (sz : Z) :
  heap_inv h fl al -> 0 <= sz <= 2 ^ 46 ->
  let need := align_up sz KHEAP_MIN_ALIGNMENT in
  let e := align_up (KHEAP_HEADER_SIZE + need) PAGE_SIZE in
  (sz = 0 /\ kmalloc h sz = Ok (NULL, h)) \/
  (0 < sz /\ exists c k h' fl', kmalloc h sz = Ok (c + KHEAP_HEADER_SIZE, h') /\
     heap_inv h' fl' (<[c := k]> al) /\ al !! c = None /\ need <= k < need + 48 /\
     KERNEL_HEAP_START <= c /\ (16 | c) /\ kept h h' al /\
     (fits need fl /\ first_fitting need fl c \/ ~ fits need fl /\ kheap_current_break h + e <= kheap_max_break h)) \/
  (0 < sz /\ kmalloc h sz = Ok (NULL, h) /\ ~ fits need fl /\ kheap_max_break h < kheap_current_break h + e) \/
  (0 < sz /\ exists why, kmalloc h sz = Panic why /\ ~ fits need fl /\ kheap_current_break h + e <= kheap_max_break h /\
     total_frames h < used_frames h + 4 * (e / PAGE_SIZE)).
Proof.
  intros HI Hsz need e. destruct (decide (sz = 0)) as [->|Hz]; [by left|]. right.
  assert (0 < sz <= 2 ^ 46) as Hsz' by lia.
  destruct (kmalloc_cases h fl al sz HI Hsz') as [(c & k & h' & fl' & Hr & (? & ? & ? & ? & ? & ?) & Hf)|[Hr|Hr]].
  - left. split; [lia|]. exists c, k, h', fl'. done.
  - right; left. split; [lia|done].
  - right; right. split; [lia|done].
Qed.

(** An empty heap on the demo machine. *)
Definition demo_heap : kheap :=
  mk_kheap demo_vm (mk_space 0x1000 false) 0 KERNEL_HEAP_START
    (KERNEL_HEAP_START + KERNEL_HEAP_MAX_SIZE) false.

Lemma demo_heap_inv : heap_inv demo_heap [] ∅.
Proof.
  constructor; [constructor|constructor|done]; try done.
  - exists demo_lvl. split; [exact demo_vm_inv|]. constructor; intros a; cbn; lia.
  - by exists 0xFFFF800040000.
Qed.

Lemma demo_alloc :
  exists c k h fl, heap_inv h fl {[ c := k ]} /\ kmalloc demo_heap 100 = Ok (c + KHEAP_HEADER_SIZE, h).
Proof.
  destruct (kmalloc_cases demo_heap [] ∅ 100 demo_heap_inv ltac:(lia))
    as [(c & k & h & fl & Hr & (HI & _) & _)|[(_ & _ & Hlim)|(why & _ & _ & _ & Hfew)]].
  - exists c, k, h, fl. rewrite insert_empty in HI. exact (conj HI Hr).
  - exfalso. vm_compute in Hlim. done.
  - exfalso. vm_compute in Hfew. done.
Qed.

Lemma kmalloc_correct_witness :
  exists c k h' fl', kmalloc demo_heap 100 = Ok (c + KHEAP_HEADER_SIZE, h') /\
    heap_inv h' fl' (<[c := k]> ∅) /\ 112 <= k < 160 /\ KERNEL_HEAP_START <= c /\ (16 | c).
Proof.
  destruct (kmalloc_correct demo_heap [] ∅ 100 demo_heap_inv ltac:(lia))
    as [[? _]|[(_ & c & k & h' & fl' & Hr & HI & _ & Hk & Hc & Hd & _)|[(_ & _ & _ & Hlim)|(_ & why & _ & _ & _ & Hfew)]]].
  - exfalso. lia.
  - exists c, k, h', fl'. split; [exact Hr|]. split; [exact HI|]. split; [exact Hk|]. split; [exact Hc|exact Hd].
  - exfalso. vm_compute in Hlim. done.
  - exfalso. vm_compute in Hfew. done.
Defined.

(** C7: [kfree] on every branch. Freeing a live block succeeds and removes exactly that
    block from the live ones; the free list is then the old one with the block at its
    place in address order, every run of adjacent blocks merged into one, headers
    included, so that no two free blocks touch; the data of the other live blocks is
    untouched. Freeing a block that is on the free list panics; freeing [NULL] does
    nothing. *)
Theorem kfree_correct (h : kheap) (fl : list (Z * Z)) (al : gmap Z Z) :
  heap_inv h fl al ->
  (forall a n, al !! a = Some n -> exists h' l1 l2,
     kfree h (a + KHEAP_HEADER_SIZE) = Ok h' /\ fl = l1 ++ l2 /\
     heap_inv h' (coal_list (l1 ++ (a, n) :: l2)) (delete a al) /\
     covers (coal_list (l1 ++ (a, n) :: l2)) a n /\ no_adjacent (coal_list (l1 ++ (a, n) :: l2)) /\
     kept h h' (delete a al)) /\
  (forall a n, (a, n) ∈ fl ->
     kfree h (a + KHEAP_HEADER_SIZE) = Panic "block->magic == ~KHEAP_MAGIC") /\
  kfree h NULL = Ok h.
Proof.
  intros HI. split; [intros a n Ha; by apply kfree_live|].
  split; [intros a n Ha; by apply kfree_free with fl al n|done].
Qed.

Lemma kfree_correct_witness :
  exists c k h h' fl', kmalloc demo_heap 100 = Ok (c + KHEAP_HEADER_SIZE, h) /\
    kfree h (c + KHEAP_HEADER_SIZE) = Ok h' /\
    heap_inv h' fl' (delete c {[ c := k ]}) /\ covers fl' c k /\ no_adjacent fl'.
Proof.
  destruct demo_alloc as (c & k & h & fl & HI & Hr).
  destruct (proj1 (kfree_correct h fl {[ c := k ]} HI) c k (lookup_singleton_eq c k))
    as (h' & l1 & l2 & Hf & _ & HI' & Hc & Hn & _).
  exists c, k, h, h', (coal_list (l1 ++ (c, k) :: l2)). exact (conj Hr (conj Hf (conj HI' (conj Hc Hn)))).
Defined.

(** C4: Over any history of allocations of up to 2^46 bytes, releases, and writes of the
    owners to words of their blocks, from an empty heap: the live allocations lie inside
    the heap, are 16-aligned and do not overlap; different words of them are different
    words of physical memory; both locks are free; and one further step changes a word
    of a block that stays live only if it is a write to that word. *)
Theorem kheap_no_overlap (h0 h : kheap) (fl0 : list (Z * Z)) (live : list (Z * Z)) :
  heap_inv h0 fl0 ∅ -> rtc any_op (h0, []) (h, live) ->
  (forall i p n, live !! i = Some (p, n) ->
     KERNEL_HEAP_START < p /\ p + n <= kheap_current_break h /\ (16 | p) /\
     forall x, p <= x < p + n -> mapped h x = true) /\
  (forall i j p n q k, live !! i = Some (p, n) -> live !! j = Some (q, k) -> i <> j ->
     p + n <= q \/ q + k <= p) /\
  (forall p n q k x y, (p, n) ∈ live -> (q, k) ∈ live -> p <= x < p + n -> q <= y < q + k ->
     x <> y -> word_addr h x <> word_addr h y) /\
  kheap_lock h = false /\ space_lock (kernel_address_space h) = false /\
  (forall o h' live' p n x, kheap_step o (h, live) (h', live') -> (p, n) ∈ live -> (p, n) ∈ live' ->
     p <= x < p + n -> vword h' x = word_after o x (vword h x)).
Proof.
  intros HI Hr. destruct (live_reachable h0 fl0 (h, live) HI Hr) as (fl & al & Hok).
  pose proof Hok as [[HM HB HL] Hnd Hl]. cbn [fst snd] in *.
  split; [|split; [|split; [|split; [done|split; [apply HM|]]]]].
  - intros i p n Hi. apply list_elem_of_lookup_2 in Hi. destruct (Hl p n Hi) as (Hn & k & Hk & Hle).
    destruct (hb_alloc _ _ _ HB _ _ Hk) as [Hb _]. unfold block_in, KHEAP_HEADER_SIZE in Hb.
    destruct Hb as (? & [x Hx] & ? & ? & ?). split; [lia|]. split; [lia|]. split; [exists (x + 2); lia|].
    intros y Hy. destruct (live_addr _ _ _ _ _ _ _ Hok Hi Hy) as (_ & q & Hq). unfold mapped. by rewrite Hq.
  - intros i j p n q k Hi Hj Hij. assert (p <> q) as Hpq.
    { intros ->. apply Hij. eapply NoDup_lookup; [exact Hnd|..]; rewrite list_lookup_fmap;
        [rewrite Hi|rewrite Hj]; done. }
    apply list_elem_of_lookup_2 in Hi. apply list_elem_of_lookup_2 in Hj.
    destruct (Hl p n Hi) as (Hn & x & Hx & Hle), (Hl q k Hj) as (Hk & y & Hy & Hle').
    pose proof (hb_alloc_alloc _ _ _ HB _ _ _ _ Hx Hy ltac:(lia)) as Hap.
    unfold apart, KHEAP_HEADER_SIZE in Hap. lia.
  - intros p n q k x y Hp Hq Hx Hy Hne Heq. apply Hne.
    apply (live_addr_inj h fl al live); [done| | |done].
    + exact (proj1 (live_addr _ _ _ _ _ _ _ Hok Hp Hx)).
    + exact (proj1 (live_addr _ _ _ _ _ _ _ Hok Hq Hy)).
  - intros o h' live' p n x Hst. by apply (live_step _ _ _ _ _ _ _ Hst Hok).
Qed.

Lemma kheap_no_overlap_witness :
  exists c h, kmalloc demo_heap 100 = Ok (c + KHEAP_HEADER_SIZE, h) /\
    KERNEL_HEAP_START < c + KHEAP_HEADER_SIZE /\
    word_addr h (c + KHEAP_HEADER_SIZE) <> word_addr h (c + KHEAP_HEADER_SIZE + 8).
Proof.
  destruct demo_alloc as (c & k & h & fl & HI & Hr). exists c, h. split; [exact Hr|].
  assert (c + KHEAP_HEADER_SIZE <> NULL) as Hp.
  { destruct (hb_alloc _ _ _ (hi_blocks _ _ _ HI) c k (lookup_singleton_eq c k)) as [[Hb _] _].
    unfold NULL, KHEAP_HEADER_SIZE, KERNEL_HEAP_START, KERNEL_VMA_OFFSET in *. lia. }
  pose proof (kheap_no_overlap demo_heap h [] [(c + KHEAP_HEADER_SIZE, 100)] demo_heap_inv
    (rtc_once _ _ (ex_intro _ (op_malloc 100)
       (kstep_malloc demo_heap [] 100 (c + KHEAP_HEADER_SIZE) h ltac:(lia) Hr Hp)))) as (H & _ & H3 & _).
  split; [exact (proj1 (H 0%nat (c + KHEAP_HEADER_SIZE) 100 eq_refl))|].
  apply (H3 (c + KHEAP_HEADER_SIZE) 100 (c + KHEAP_HEADER_SIZE) 100);
    [apply list_elem_of_here|apply list_elem_of_here|lia|lia|lia].
Defined.

(** Two runs on the empty heap. *)
Lemma demo_wrap :
  match kmalloc demo_heap (2 ^ 64 - 1) with
  | Ok (p, h) => Some (p, size (hdr h KERNEL_HEAP_START))
  | _ => None
  end = Some (KERNEL_HEAP_START + KHEAP_HEADER_SIZE, 0).
Proof. vm_compute. reflexivity. Qed.

Lemma demo_huge : kmalloc demo_heap (2 ^ 47) = Undef "page fault".
Proof.
  assert (match kmalloc demo_heap (2 ^ 47) with Undef w => Some w | _ => None end = Some "page fault"%string) as H
    by (vm_compute; reflexivity).
  destruct (kmalloc demo_heap (2 ^ 47)) as [| | |w]; try done. by injection H as ->.
Qed.

(** Sizes near the word limit escape the checks: a request of 2^64 - 1 bytes
    wraps to an aligned size of 0 and succeeds with a block of no data bytes, and
    a request of 2^47 bytes wraps the new break below the limit, so the header of
    the new region is written to an unmapped page. *)
Theorem kmalloc_size_wraps :
  (exists h', kmalloc demo_heap (2 ^ 64 - 1) = Ok (KERNEL_HEAP_START + KHEAP_HEADER_SIZE, h') /\
     size (hdr h' KERNEL_HEAP_START) = 0) /\
  kmalloc demo_heap (2 ^ 47) = Undef "page fault".
Proof.
  split; [|exact demo_huge]. pose proof demo_wrap as H.
  destruct (kmalloc demo_heap (2 ^ 64 - 1)) as [[p h]| | |]; [|done..].
  injection H as -> H. exists h. done.
Qed.
