(* ===== verification/MemInit.v ===== *)
(** [memory_init] of [src/kernel/memory.c]: sizing of the frame bitmap from the
    boot memory map, its placement, the initial marking of frames, the mapping of
    the direct map and the initial heap state. *)
From Stdlib Require Import ZArith Lia.
From stdpp Require Import strings numbers gmap base.
From stdpp Require Import list.
From S2P Require Import Prelude Pmm Vmm KHeap.
Open Scope Z_scope.

(** Region types of the boot protocol that the code names. *)
Inductive memmap_type :=
| USABLE | BOOTLOADER_RECLAIMABLE | ACPI_RECLAIMABLE | ACPI_NVS | KERNEL_AND_MODULES
| FRAMEBUFFER | RESERVED | OTHER_TYPE.

#[export] Instance memmap_type_eq_dec : EqDecision memmap_type.
Proof. solve_decision. Defined.

Record memmap_entry := mk_entry { me_base : Z; me_length : Z; me_type : memmap_type }.

Definition usable (e : memmap_entry) : bool := bool_decide (me_type e = USABLE).

(** What the boot loader answers; a missing response is [None]. *)
Record limine := mk_limine {
  memmap_response : option (list memmap_entry);
  hhdm_response : option Z;
  kernel_addr_response : option (Z * Z)
}.

(** [base + length] at 64 bits. *)
Definition me_top (e : memmap_entry) : Z := u64 (me_base e + me_length e).

(** Step 1: the highest address of any region and the usable total. *)
Definition highest_step (acc : Z * Z) (e : memmap_entry) : Z * Z :=
  let '(highest_addr, total_usable_mem) := acc in
  let '(highest_addr, total_usable_mem) :=
    if usable e then
      let top := me_top e in
      (if highest_addr <? top then top else highest_addr, u64 (total_usable_mem + me_length e))
    else (highest_addr, total_usable_mem) in
  let region_top := me_top e in
  (if highest_addr <? region_top then region_top else highest_addr, total_usable_mem).

Definition highest_loop (memmap : list memmap_entry) : Z * Z :=
  fold_left highest_step memmap (0, 0).

(** Step 2: a place for the bitmap, 0 if there is none. *)
Fixpoint place_bitmap (memmap : list memmap_entry) (size_bytes : Z) : Z :=
  match memmap with
  | [] => 0
  | e :: rest =>
      if usable e && (size_bytes <=? me_length e) then
        if (me_base e <? 0x100000) && (me_top e <=? 0x100000) then place_bitmap rest size_bytes
        else
          let potential_addr := if me_base e <? 0x100000 then 0x100000 else me_base e in
          let potential_addr := align_up potential_addr PAGE_SIZE in
          if u64 (potential_addr + size_bytes) <=? me_top e then potential_addr
          else place_bitmap rest size_bytes
      else place_bitmap rest size_bytes
  end.

(** Step 4, inner loop: [n] frames from [frame] on become free. *)
Fixpoint free_frames (n : nat) (st : pmm_state) (frame : Z) : outcome pmm_state :=
  match n with
  | O => Ok st
  | S n' =>
      used ← pmm_bitmap_test st frame ;
      st ← (if used : bool then
              st ← pmm_bitmap_clear st frame ;
              ASSERT (0 <? pmm_used_frames st) "pmm_used_frames > 0" ;;
              Ok (with_used st (u64 (pmm_used_frames st - 1)))
            else Ok st) ;
      free_frames n' st (frame + 1)
  end.

(** Step 4: the frames of every usable region. *)
Fixpoint free_regions (memmap : list memmap_entry) (st : pmm_state) : outcome pmm_state :=
  match memmap with
  | [] => Ok st
  | e :: rest =>
      st ← (if usable e then
              let start_frame := align_up (me_base e) PAGE_SIZE / PAGE_SIZE in
              let end_frame := align_down (me_top e) PAGE_SIZE / PAGE_SIZE in
              if start_frame <? end_frame
              then free_frames (Z.to_nat (end_frame - start_frame)) st start_frame
              else Ok st
            else Ok st) ;
      free_regions rest st
  end.

(** Step 5: [n] frames from [frame] on become used. *)
Fixpoint use_frames (n : nat) (st : pmm_state) (frame : Z) : outcome pmm_state :=
  match n with
  | O => Ok st
  | S n' =>
      used ← pmm_bitmap_test st frame ;
      st ← (if negb used then
              st ← pmm_bitmap_set st frame ;
              Ok (with_used st (u64 (pmm_used_frames st + 1)))
            else Ok st) ;
      use_frames n' st (frame + 1)
  end.

(** The PMM part of [memory_init]. *)
Definition init_pmm (st : pmm_state) (memmap : list memmap_entry) (offset : Z) : outcome pmm_state :=
  let '(highest_addr, _) := highest_loop memmap in
  let highest_addr := align_up highest_addr PAGE_SIZE in
  let total := highest_addr / PAGE_SIZE in
  let qwords := align_up total 64 / 64 in
  let size_bytes := u64 (qwords * 8) in
  let bitmap_phys_addr := place_bitmap memmap size_bytes in
  if bitmap_phys_addr =? 0 then Panic "PMM: Could not find suitable space for the bitmap!"
  else
    let st := mk_pmm (replicate (Z.to_nat qwords) UINT64_MAX) qwords total total
                (u64 (total - 1)) (pmm_lock st) (pmm_last_allocated_index st) offset in
    _ ← phys_to_virt st bitmap_phys_addr ;
    st ← free_regions memmap st ;
    let bitmap_start_frame := bitmap_phys_addr / PAGE_SIZE in
    let bitmap_end_frame := align_up (u64 (bitmap_phys_addr + size_bytes)) PAGE_SIZE / PAGE_SIZE in
    use_frames (Z.to_nat (bitmap_end_frame - bitmap_start_frame)) st bitmap_start_frame.

(** The flags for a region of the direct map; [None] leaves the region out. *)
Definition hhdm_flags (t : memmap_type) : option Z :=
  match t with
  | USABLE | BOOTLOADER_RECLAIMABLE | ACPI_RECLAIMABLE | ACPI_NVS => Some (Z.lor PTE_WRITE PTE_NX)
  | KERNEL_AND_MODULES => Some PTE_WRITE
  | FRAMEBUFFER => Some (Z.lor (Z.lor (Z.lor PTE_WRITE PTE_NX) PTE_PCD) PTE_PWT)
  | RESERVED | OTHER_TYPE => None
  end.

(** Maps the pages from [paddr] up to [top]. *)
Fixpoint map_hhdm_range (fuel : nat) (s : vm) (sp : address_space) (paddr top flags : Z)
    : outcome (address_space * vm) :=
  match fuel with
  | O => Hang
  | S fuel' =>
      if paddr <? top then
        vaddr ← phys_to_virt (pmm (vm_phys s)) paddr ;
        '(ok, sp, s) ← vmm_map_page s sp vaddr paddr flags ;
        if negb ok then Panic "VMM: Failed to map HHDM page!"
        else map_hhdm_range fuel' s sp (u64 (paddr + PAGE_SIZE)) top flags
      else Ok (sp, s)
  end.

Fixpoint map_hhdm (memmap : list memmap_entry) (s : vm) (sp : address_space)
    : outcome (address_space * vm) :=
  match memmap with
  | [] => Ok (sp, s)
  | e :: rest =>
      match hhdm_flags (me_type e) with
      | None => map_hhdm rest s sp
      | Some flags =>
          let base := align_down (me_base e) PAGE_SIZE in
          let top := me_top e in
          '(sp, s) ← map_hhdm_range (S (Z.to_nat ((top - base + (PAGE_SIZE - 1)) / PAGE_SIZE)))
                       s sp base top flags ;
          map_hhdm rest s sp
      end
  end.

(** [memory_init]; [cr3] is the value that [read_cr3] returns. *)
Definition memory_init (l : limine) (s : vm) : outcome kheap :=
  match memmap_response l with
  | None => Panic "Memory Init: Missing Limine memmap info!"
  | Some memmap =>
      match hhdm_response l with
      | None => Panic "Memory Init: Missing Limine HHDM info!"
      | Some offset =>
          match kernel_addr_response l with
          | None => Panic "Memory Init: Missing Limine kernel address info!"
          | Some _ =>
              st ← init_pmm (pmm (vm_phys s)) memmap offset ;
              let s := with_phys s (mk_phys st (ram (vm_phys s))) in
              '(sp, s) ← map_hhdm memmap s (mk_space (vm_cr3 s) false) ;
              Ok (mk_kheap s sp 0 KERNEL_HEAP_START (KERNEL_HEAP_START + KERNEL_HEAP_MAX_SIZE) false)
          end
      end
  end.

(** ** Specification *)

(** Frame [g] lies wholly inside the usable region [e]. *)
Definition in_region (g : Z) (e : memmap_entry) : bool :=
  usable e && (align_up (me_base e) PAGE_SIZE / PAGE_SIZE <=? g)
  && (g <? align_down (me_top e) PAGE_SIZE / PAGE_SIZE).

(** Regions as the boot loader reports them: below 2^51. *)
Definition region_wf (e : memmap_entry) : Prop :=
  0 <= me_base e /\ 0 <= me_length e /\ me_base e + me_length e <= 2 ^ 51.

(** Counter and bitmap agree. *)
Definition counted (st : pmm_state) : Prop := bitmap_wf st /\ pmm_used_frames st = used_count st.

Lemma me_top_wf e : region_wf e -> me_top e = me_base e + me_length e.
Proof. intros (? & ? & ?). unfold me_top. apply u64_small. unfold in_u64. lia. Qed.

Lemma used_count_pos st f :
  0 <= f < pmm_total_frames st -> frame_used st f = true -> 0 < used_count st.
Proof.
  intros Hf Hu. unfold used_count.
  pose proof (count_upto_flip (fun g => negb (g =? f) && frame_used st g) (frame_used st)
    (Z.to_nat (pmm_total_frames st)) f ltac:(lia)) as H.
  cbn beta in H. rewrite Z.eqb_refl in H. rewrite H; [|done|done|].
  - pose proof (count_upto_range (fun g => negb (g =? f) && frame_used st g) (Z.to_nat (pmm_total_frames st))). lia.
  - intros i Hi. apply Z.eqb_neq in Hi. by rewrite Hi.
Qed.

Lemma empty_range f g : (f <=? g) && (g <? f + Z.of_nat 0) = false.
Proof. destruct (Z.leb_spec f g), (Z.ltb_spec g (f + Z.of_nat 0)); (done || lia). Qed.

Lemma range_step f g n :
  (f <=? g) && (g <? f + Z.of_nat (S n)) = (g =? f) || ((f + 1 <=? g) && (g <? f + 1 + Z.of_nat n)).
Proof.
  destruct (Z.leb_spec f g), (Z.ltb_spec g (f + Z.of_nat (S n))), (Z.eqb_spec g f),
    (Z.leb_spec (f + 1) g), (Z.ltb_spec g (f + 1 + Z.of_nat n)); (done || lia).
Qed.

Lemma free_frames_spec n : forall st f,
  counted st -> 0 <= f -> f + Z.of_nat n <= pmm_total_frames st ->
  exists bm u, free_frames n st f = Ok (with_used (with_bitmap st bm) u) /\
    counted (with_used (with_bitmap st bm) u) /\
    forall g, frame_used (with_bitmap st bm) g =
      frame_used st g && negb ((f <=? g) && (g <? f + Z.of_nat n)).
Proof.
  induction n as [|n IH]; intros st f [Hwf Hc] Hf Hn.
  { exists (pmm_bitmap st), (pmm_used_frames st). split; [by destruct st|]. split; [by destruct st|].
    intros g. rewrite empty_range.
    rewrite andb_true_r. by destruct st. }
  cbn [free_frames]. pose proof (wf_cover _ Hwf).
  rewrite pmm_bitmap_test_spec by (done || lia). cbn [mbind outcome_bind].
  destruct (frame_used st f) eqn:E.
  - destruct (pmm_bitmap_clear_spec st f Hwf) as (bm & Hcl & Hwf' & Hg); [lia|].
    rewrite Hcl. cbn [mbind outcome_bind].
    pose proof (used_count_pos st f ltac:(lia) E) as Hpos.
    change (pmm_used_frames (with_bitmap st bm)) with (pmm_used_frames st). rewrite Hc.
    zcase (0 <? used_count st). cbn [ASSERT mbind outcome_bind].
    pose proof (used_count_range st (proj1 (wf_total _ Hwf))) as Hrg.
    pose proof (wf_total _ Hwf). rewrite u64_small by (unfold in_u64; lia).
    assert (used_count (with_bitmap st bm) = used_count st - 1) as Hcnt.
    { pose proof (used_count_set (with_bitmap st bm) st f ltac:(cbn; lia) eq_refl) as Hs.
      rewrite Hs; [lia|by rewrite Hg, Z.eqb_refl|]. intros g. rewrite Hg. zcase (g =? f). by subst. }
    destruct (IH (with_used (with_bitmap st bm) (used_count st - 1)) (f + 1)) as (bm' & u & Hr & Hc' & Hg').
    + split; [by apply bitmap_wf_used|]. cbn. by rewrite <- Hcnt.
    + lia.
    + cbn. lia.
    + exists bm', u. split; [exact Hr|]. split; [exact Hc'|]. intros g.
      change (frame_used (with_bitmap st bm') g) with (frame_used (with_bitmap (with_used (with_bitmap st bm) (used_count st - 1)) bm') g).
      rewrite Hg'. change (frame_used (with_used (with_bitmap st bm) ?u) g) with (frame_used (with_bitmap st bm) g). rewrite Hg.
      rewrite range_step. by destruct (frame_used st g), (g =? f).
  - cbn [mbind outcome_bind]. destruct (IH st (f + 1)) as (bm' & u & Hr & Hc' & Hg'); [done|lia|lia|].
    exists bm', u. split; [done|]. split; [done|]. intros g. rewrite Hg'.
    rewrite range_step. destruct (Z.eqb_spec g f) as [->|]; [by rewrite E|done].
Qed.

Lemma use_frames_spec n : forall st f,
  counted st -> 0 <= f -> f + Z.of_nat n <= pmm_total_frames st ->
  exists bm u, use_frames n st f = Ok (with_used (with_bitmap st bm) u) /\
    counted (with_used (with_bitmap st bm) u) /\
    forall g, frame_used (with_bitmap st bm) g =
      frame_used st g || ((f <=? g) && (g <? f + Z.of_nat n)).
Proof.
  induction n as [|n IH]; intros st f [Hwf Hc] Hf Hn.
  { exists (pmm_bitmap st), (pmm_used_frames st). split; [by destruct st|]. split; [by destruct st|].
    intros g. rewrite empty_range.
    rewrite orb_false_r. by destruct st. }
  cbn [use_frames]. pose proof (wf_cover _ Hwf).
  rewrite pmm_bitmap_test_spec by (done || lia). cbn [mbind outcome_bind].
  destruct (frame_used st f) eqn:E; cbn [negb].
  - cbn [mbind outcome_bind]. destruct (IH st (f + 1)) as (bm' & u & Hr & Hc' & Hg'); [done|lia|lia|].
    exists bm', u. split; [done|]. split; [done|]. intros g. rewrite Hg'.
    rewrite range_step. destruct (Z.eqb_spec g f) as [->|]; [by rewrite E|done].
  - destruct (pmm_bitmap_set_spec st f Hwf) as (bm & Hcl & Hwf' & Hg); [lia|].
    rewrite Hcl. cbn [mbind outcome_bind].
    change (pmm_used_frames (with_bitmap st bm)) with (pmm_used_frames st). rewrite Hc.
    assert (used_count (with_bitmap st bm) = used_count st + 1) as Hcnt.
    { apply used_count_set with f; try done. lia. }
    pose proof (used_count_range st (proj1 (wf_total _ Hwf))) as Hrg.
    pose proof (wf_total _ Hwf). rewrite u64_small by (unfold in_u64; lia).
    destruct (IH (with_used (with_bitmap st bm) (used_count st + 1)) (f + 1)) as (bm' & u & Hr & Hc' & Hg').
    + split; [by apply bitmap_wf_used|]. cbn. by rewrite <- Hcnt.
    + lia.
    + cbn. lia.
    + exists bm', u. split; [exact Hr|]. split; [exact Hc'|]. intros g.
      change (frame_used (with_bitmap st bm') g) with (frame_used (with_bitmap (with_used (with_bitmap st bm) (used_count st + 1)) bm') g).
      rewrite Hg'. change (frame_used (with_used (with_bitmap st bm) ?u) g) with (frame_used (with_bitmap st bm) g). rewrite Hg.
      rewrite range_step. by destruct (frame_used st g), (g =? f).
Qed.

(** Arithmetic of the region's frame numbers. *)
Lemma region_frames e :
  region_wf e ->
  0 <= align_up (me_base e) PAGE_SIZE / PAGE_SIZE /\
  align_down (me_top e) PAGE_SIZE / PAGE_SIZE * PAGE_SIZE <= me_top e.
Proof.
  intros Hw. pose proof (me_top_wf e Hw) as ->. destruct Hw as (? & ? & ?).
  change PAGE_SIZE with (2 ^ 12).
  destruct (align_up_bounds (me_base e) 12) as [? _]; [lia|lia|lia|].
  rewrite align_down_pow2 by (unfold in_u64; lia). rewrite Z.div_mul by lia.
  split; [apply Z.div_pos; lia|]. rewrite Z.mul_comm. apply Z.mul_div_le. lia.
Qed.

Lemma free_regions_spec mm : forall st,
  counted st -> Forall region_wf mm ->
  Forall (fun e => me_top e <= pmm_total_frames st * PAGE_SIZE) mm ->
  exists bm u, free_regions mm st = Ok (with_used (with_bitmap st bm) u) /\
    counted (with_used (with_bitmap st bm) u) /\
    forall g, frame_used (with_bitmap st bm) g = frame_used st g && negb (existsb (in_region g) mm).
Proof.
  induction mm as [|e mm IH]; intros st Hc Hwf Htop.
  { exists (pmm_bitmap st), (pmm_used_frames st). split; [by destruct st|]. split; [by destruct st|].
    intros g. rewrite andb_true_r. by destruct st. }
  inversion Hwf as [|? ? He Hwf']. inversion Htop as [|? ? Het Htop']. subst. cbn [free_regions existsb].
  set (a := align_up (me_base e) PAGE_SIZE / PAGE_SIZE).
  set (b := align_down (me_top e) PAGE_SIZE / PAGE_SIZE).
  assert (exists bm u, (if usable e then
      if a <? b then free_frames (Z.to_nat (b - a)) st a else Ok st else Ok st) =
      Ok (with_used (with_bitmap st bm) u) /\ counted (with_used (with_bitmap st bm) u) /\
    forall g, frame_used (with_bitmap st bm) g = frame_used st g && negb (in_region g e))
    as (bm & u & Hr & Hc1 & Hg).
  { assert ((forall g, in_region g e = false) -> exists bm u, Ok st = Ok (with_used (with_bitmap st bm) u) /\
      counted (with_used (with_bitmap st bm) u) /\
      forall g, frame_used (with_bitmap st bm) g = frame_used st g && negb (in_region g e)) as Hskip.
    { intros Hno. exists (pmm_bitmap st), (pmm_used_frames st). split; [by destruct st|]. split; [by destruct st|].
      intros g. rewrite Hno, andb_true_r. by destruct st. }
    unfold in_region in *. fold a b in Hskip |- *. destruct (usable e); [|by apply Hskip].
    destruct (Z.ltb_spec a b).
    - destruct (region_frames e He) as [Ha Hb]. fold a in Ha. fold b in Hb. unfold PAGE_SIZE in *.
      destruct (free_frames_spec (Z.to_nat (b - a)) st a Hc Ha) as (bm & u & ? & ? & Hg); [lia|].
      exists bm, u. split; [done|]. split; [done|]. intros g. rewrite Hg.
      by replace (a + Z.of_nat (Z.to_nat (b - a))) with b by lia.
    - apply Hskip. intros g. cbn [andb]. destruct (Z.leb_spec a g), (Z.ltb_spec g b); (done || lia). }
  rewrite Hr. cbn [mbind outcome_bind].
  destruct (IH (with_used (with_bitmap st bm) u) Hc1 Hwf' Htop') as (bm' & u' & Hr' & Hc' & Hg').
  exists bm', u'. split; [exact Hr'|]. split; [exact Hc'|]. intros g.
  change (frame_used (with_bitmap st bm') g) with (frame_used (with_bitmap (with_used (with_bitmap st bm) u) bm') g).
  rewrite Hg'. change (frame_used (with_used (with_bitmap st bm) ?u) g) with (frame_used (with_bitmap st bm) g).
  rewrite Hg, negb_orb. by rewrite andb_assoc.
Qed.

Lemma highest_loop_spec mm :
  Forall region_wf mm ->
  0 <= (highest_loop mm).1 <= 2 ^ 51 /\ Forall (fun e => me_top e <= (highest_loop mm).1) mm /\
  ((highest_loop mm).1 = 0 \/ Exists (fun e => me_top e = (highest_loop mm).1) mm).
Proof.
  assert (forall acc, Forall region_wf mm -> 0 <= acc.1 <= 2 ^ 51 ->
    let r := fold_left highest_step mm acc in
    acc.1 <= r.1 <= 2 ^ 51 /\ Forall (fun e => me_top e <= r.1) mm /\
    (r.1 = acc.1 \/ Exists (fun e => me_top e = r.1) mm)) as H.
  { induction mm as [|e mm IH]; intros acc Hwf Hacc; cbn [fold_left]; [split; [lia|split; [constructor|by left]]|].
    inversion Hwf as [|? ? He Hwf']; subst.
    assert (acc.1 <= (highest_step acc e).1 <= 2 ^ 51 /\ me_top e <= (highest_step acc e).1 /\
      ((highest_step acc e).1 = acc.1 \/ me_top e = (highest_step acc e).1)) as (H1 & H2 & H2').
    { pose proof (me_top_wf e He) as Ht. destruct He as (? & ? & ?). destruct acc as [h t].
      unfold highest_step. cbn [fst] in *. destruct (usable e); repeat case_match; cbn [fst]; zbool; lia. }
    destruct (IH (highest_step acc e) Hwf') as (H3 & H4 & H5); [lia|]. cbn in *. split; [lia|].
    split; [constructor; [lia|done]|]. destruct H5 as [H5|H5]; [|right; by right].
    rewrite H5. destruct H2' as [H2'|H2']; [by left|right; by left]. }
  intros Hwf. destruct (H (0, 0) Hwf) as (? & ? & ?); [cbn; lia|done].
Qed.

(** The bitmap of [sz] bytes may be put at [p] in region [e]: a page-aligned address,
    not below 1 MiB, with all bytes in the usable region. *)
Definition bitmap_fits (sz : Z) (e : memmap_entry) (p : Z) : Prop :=
  me_type e = USABLE /\ (4096 | p) /\ 0x100000 <= p /\ me_base e <= p /\ p + sz <= me_base e + me_length e.

(** [p] is the lowest such address of the first region that has one. *)
Definition bitmap_place (mm : list memmap_entry) (sz p : Z) : Prop :=
  exists l1 e l2, mm = l1 ++ e :: l2 /\ bitmap_fits sz e p /\ (forall p', bitmap_fits sz e p' -> p <= p') /\
    (forall e' p', e' ∈ l1 -> ~ bitmap_fits sz e' p').

(** The test of one region. *)
Lemma region_place e sz :
  region_wf e -> 0 <= sz <= 2 ^ 51 -> (sz = 0 -> me_top e < 0x100000) ->
  let p := align_up (if me_base e <? 0x100000 then 0x100000 else me_base e) PAGE_SIZE in
  usable e && (sz <=? me_length e) && negb ((me_base e <? 0x100000) && (me_top e <=? 0x100000)) &&
    (u64 (p + sz) <=? me_top e) = true /\ bitmap_fits sz e p /\ (forall p', bitmap_fits sz e p' -> p <= p') \/
  usable e && (sz <=? me_length e) && negb ((me_base e <? 0x100000) && (me_top e <=? 0x100000)) &&
    (u64 (p + sz) <=? me_top e) = false /\ (forall p', ~ bitmap_fits sz e p').
Proof.
  intros He Hsz H0. rewrite (me_top_wf e He) in *. destruct He as (? & ? & ?).
  set (p0 := if me_base e <? 0x100000 then 0x100000 else me_base e). cbv zeta.
  assert (0x100000 <= p0 /\ me_base e <= p0 <= 2 ^ 52 /\ (p0 = 0x100000 \/ p0 = me_base e)) as (Hp0 & Hp1 & Hp2).
  { unfold p0. zcase (me_base e <? 0x100000). }
  destruct (align_up_bounds p0 12) as [Hb Hd]; [lia|lia|lia|].
  change (align_up p0 (2 ^ 12)) with (align_up p0 PAGE_SIZE) in *. change (2 ^ 12) with 4096 in *.
  rewrite u64_small by (unfold in_u64; lia). set (p := align_up p0 PAGE_SIZE) in *.
  assert (forall p', bitmap_fits sz e p' -> p <= p') as Hmin.
  { intros p' (_ & [a Ha] & Hl & Hbs & _). destruct Hd as [b Hb']. assert (p0 <= p') by lia. lia. }
  unfold usable. destruct (decide (me_type e = USABLE)) as [Hu|Hu].
  2: { right. rewrite bool_decide_false by done. split; [done|]. by intros p' (? & _). }
  rewrite bool_decide_true by done. cbn [andb].
  destruct (Z.leb_spec (p + sz) (me_base e + me_length e)).
  - left. split; [|split; [|done]].
    + zcase (sz <=? me_length e).
    + repeat split; (done || lia).
  - right. rewrite andb_false_r. split; [done|]. intros p' Hf. specialize (Hmin p' Hf). destruct Hf as (_ & _ & _ & _ & ?). lia.
Qed.

Lemma place_bitmap_cons e mm sz :
  let p := align_up (if me_base e <? 0x100000 then 0x100000 else me_base e) PAGE_SIZE in
  place_bitmap (e :: mm) sz =
    if usable e && (sz <=? me_length e) && negb ((me_base e <? 0x100000) && (me_top e <=? 0x100000)) &&
       (u64 (p + sz) <=? me_top e) then p else place_bitmap mm sz.
Proof.
  cbn [place_bitmap]. destruct (usable e && (sz <=? me_length e)); [|done]. cbn [andb].
  by destruct ((me_base e <? 0x100000) && (me_top e <=? 0x100000)).
Qed.

(** The search meets its specification. *)
Lemma place_bitmap_spec mm sz :
  Forall region_wf mm -> 0 <= sz <= 2 ^ 51 -> (sz = 0 -> Forall (fun e => me_top e < 0x100000) mm) ->
  (place_bitmap mm sz = 0 /\ (forall e p, e ∈ mm -> ~ bitmap_fits sz e p)) \/
  (place_bitmap mm sz <> 0 /\ bitmap_place mm sz (place_bitmap mm sz)).
Proof.
  intros Hwf Hsz. induction Hwf as [|e mm He Hwf IH]; intros H0.
  { left. split; [done|]. intros e p Hin. by apply elem_of_nil in Hin. }
  rewrite place_bitmap_cons.
  destruct (region_place e sz He Hsz) as [(-> & Hf & Hmin)|(-> & Hno)].
  { intros Hz. specialize (H0 Hz). by inversion H0. }
  - right. split; [destruct Hf as (_ & _ & ? & _); lia|]. exists [], e, mm. split; [done|]. split; [done|]. split; [done|].
    intros e' p' Hin. by apply elem_of_nil in Hin.
  - destruct IH as [[H1 H2]|(H1 & l1 & e1 & l2 & -> & Hf & Hmin & Hfirst)].
    { intros Hz. specialize (H0 Hz). by inversion H0. }
    + left. split; [done|]. intros e' p' Hin. apply elem_of_cons in Hin as [->|Hin]; [apply Hno|by apply H2].
    + right. split; [done|]. exists (e :: l1), e1, l2. split; [done|]. split; [done|]. split; [done|].
      intros e' p' Hin. apply elem_of_cons in Hin as [->|Hin]; [apply Hno|by apply Hfirst].
Qed.

(** The all-ones bitmap of step 3. *)
Definition full_pmm (st : pmm_state) (qwords total offset : Z) : pmm_state :=
  mk_pmm (replicate (Z.to_nat qwords) UINT64_MAX) qwords total total (u64 (total - 1))
    (pmm_lock st) (pmm_last_allocated_index st) offset.

Lemma full_pmm_counted st q total off :
  0 < total <= 2 ^ 40 -> total <= 64 * q < total + 64 -> pmm_last_allocated_index st = 0 ->
  0 < off < 2 ^ 64 ->
  counted (full_pmm st q total off) /\ forall g, frame_used (full_pmm st q total off) g = true.
Proof.
  intros Ht Hq Hh Ho.
  assert (forall g, frame_used (full_pmm st q total off) g = true) as Hall.
  { intros g. unfold frame_used, full_pmm. cbn [pmm_bitmap]. destruct (Z.ltb_spec g 0); [done|].
    destruct (replicate (Z.to_nat q) UINT64_MAX !! Z.to_nat (g / 64)) as [w|] eqn:E; [|done].
    apply lookup_replicate in E as [-> _]. apply uint64_max_bits. apply Z.mod_pos_bound. lia. }
  split; [|done]. split.
  - constructor; cbn; try lia.
    + rewrite length_replicate. lia.
    + apply Forall_replicate. unfold in_u64, UINT64_MAX. lia.
    + apply u64_small. unfold in_u64. lia.
  - cbn. unfold used_count. cbn. rewrite (proj2 (count_upto_full _ _)); [lia|]. intros i Hi. apply Hall.
Qed.

Definition boot_total (mm : list memmap_entry) : Z := align_up (highest_loop mm).1 PAGE_SIZE / PAGE_SIZE.
Definition boot_bitmap_bytes (mm : list memmap_entry) : Z := u64 (align_up (boot_total mm) 64 / 64 * 8).
Definition boot_bitmap (mm : list memmap_entry) : Z := place_bitmap mm (boot_bitmap_bytes mm).

(** Frame [g] lies wholly inside a usable region. *)
Definition usable_frame (mm : list memmap_entry) (g : Z) : Prop :=
  exists e, e ∈ mm /\ me_type e = USABLE /\ me_base e <= 4096 * g /\ 4096 * g + 4096 <= me_base e + me_length e.

(** The least number of frames that covers every region. *)
Definition covers_memory (mm : list memmap_entry) (t : Z) : Prop :=
  0 <= t /\ (forall e, e ∈ mm -> me_base e + me_length e <= 4096 * t) /\
  (t = 0 \/ exists e, e ∈ mm /\ 4096 * (t - 1) < me_base e + me_length e).

Lemma page_div_bounds v :
  0 <= v <= 2 ^ 52 -> exists q, align_up v PAGE_SIZE = q * PAGE_SIZE /\ align_up v PAGE_SIZE / PAGE_SIZE = q /\
    v <= q * PAGE_SIZE < v + PAGE_SIZE.
Proof.
  intros Hv. destruct (align_up_bounds v 12) as [Hb [q Hq]]; [lia|lia|lia|].
  change (align_up v (2 ^ 12)) with (align_up v PAGE_SIZE) in *. change (2 ^ 12) with PAGE_SIZE in *.
  exists q. split; [done|]. rewrite Hq. split; [by apply Z.div_mul|lia].
Qed.

(** Sizes computed by step 1. *)
Lemma boot_sizes mm :
  Forall region_wf mm ->
  covers_memory mm (boot_total mm) /\ 0 <= boot_total mm <= 2 ^ 39 /\
  Forall (fun e => me_top e <= boot_total mm * PAGE_SIZE) mm /\
  exists q, align_up (boot_total mm) 64 / 64 = q /\ boot_total mm <= 64 * q < boot_total mm + 64 /\
    boot_bitmap_bytes mm = 8 * q.
Proof.
  intros Hwf. destruct (highest_loop_spec mm Hwf) as (Hh & Htop & Hmax).
  destruct (page_div_bounds (highest_loop mm).1) as (t & _ & Ht & Hb); [lia|].
  assert (boot_total mm = t) as Hbt by done. unfold boot_bitmap_bytes. rewrite Hbt. unfold PAGE_SIZE in *.
  assert (0 <= t <= 2 ^ 39) as Htr by lia.
  assert (forall e, e ∈ mm -> me_top e = me_base e + me_length e) as Htw.
  { intros e He. apply me_top_wf. rewrite Forall_forall in Hwf. by apply Hwf. }
  split; [|split; [done|split; [eapply Forall_impl; [exact Htop|]; cbn; intros; lia|]]].
  - split; [lia|]. split.
    + intros e He. rewrite <- Htw by done. rewrite Forall_forall in Htop. specialize (Htop e He). cbn in Htop. lia.
    + destruct Hmax as [Hz|Hx]; [left; lia|]. right. apply Exists_exists in Hx as (e & He & Hte). exists e.
      split; [done|]. rewrite <- Htw by done. lia.
  - destruct (align_up_bounds t 6) as [Hb6 [q Hq]]; [lia|lia|lia|]. change (2 ^ 6) with 64 in *.
    exists q. rewrite Hq, Z.div_mul by done.
    split; [done|]. split; [lia|]. rewrite u64_small by (unfold in_u64; lia). lia.
Qed.

(** The frames of the regions, in pages. *)
Lemma in_region_usable mm g :
  Forall region_wf mm -> existsb (in_region g) mm = true <-> usable_frame mm g.
Proof.
  intros Hwf. rewrite existsb_exists. setoid_rewrite <- list_elem_of_In. rewrite Forall_forall in Hwf.
  assert (forall e, e ∈ mm -> in_region g e = true <->
    me_type e = USABLE /\ me_base e <= 4096 * g /\ 4096 * g + 4096 <= me_base e + me_length e) as H.
  { intros e He. pose proof (Hwf e He) as Hw. unfold in_region, usable. rewrite (me_top_wf e Hw). destruct Hw as (? & ? & ?).
    rewrite !andb_true_iff, bool_decide_eq_true, Z.leb_le, Z.ltb_lt.
    destruct (page_div_bounds (me_base e)) as (a & _ & -> & Ha); [lia|].
    change PAGE_SIZE with (2 ^ 12) in *. rewrite align_down_pow2 by (unfold in_u64; lia). rewrite Z.div_mul by lia.
    change (2 ^ 12) with 4096 in *. split; intros; Z.div_mod_to_equations; intuition lia. }
  unfold usable_frame. split; intros (e & He & Hr); exists e; (split; [done|]); by apply H.
Qed.

(** The marking once the place is known. *)
Lemma marking_spec st mm off q :
  Forall region_wf mm -> pmm_last_allocated_index st = 0 -> 0 < off < 2 ^ 64 ->
  boot_total mm <= 2 ^ 39 -> Forall (fun e => me_top e <= boot_total mm * PAGE_SIZE) mm ->
  boot_total mm <= 64 * q < boot_total mm + 64 -> boot_bitmap_bytes mm = 8 * q ->
  forall p, bitmap_place mm (8 * q) p ->
  exists st', (st1 ← free_regions mm (full_pmm st q (boot_total mm) off) ;
     use_frames (Z.to_nat (align_up (u64 (p + 8 * q)) PAGE_SIZE / PAGE_SIZE - p / PAGE_SIZE)) st1 (p / PAGE_SIZE)) = Ok st' /\
    counted st' /\ pmm_lock st' = pmm_lock st /\ pmm_total_frames st' = boot_total mm /\ hhdm_phys_offset st' = off /\
    forall g, frame_used st' g = false <-> usable_frame mm g /\ (4096 * g + 4096 <= p \/ p + 8 * q <= 4096 * g).
Proof.
  intros Hwf Hh Hoff Ht Htop Hq Hby p (l1 & e & l2 & Hmm & (Hus & [bs Hbs] & Hp1 & Hpb & Hpe) & _).
  assert (e ∈ mm) as Hin by (rewrite Hmm; apply elem_of_app; right; apply list_elem_of_here).
  assert (me_base e + me_length e <= boot_total mm * 4096) as Het.
  { rewrite Forall_forall in Htop, Hwf. specialize (Htop e Hin). rewrite me_top_wf in Htop by (by apply Hwf). done. }
  destruct (full_pmm_counted st q (boot_total mm) off) as [Hc Hall]; try done; [lia|].
  set (st0 := full_pmm st q (boot_total mm) off) in *.
  destruct (free_regions_spec mm st0 Hc Hwf) as (bm1 & u1 & -> & Hc1 & Hg1); [done|]. cbn [mbind outcome_bind].
  destruct (page_div_bounds (p + 8 * q)) as (be & Hbe1 & Hbe & Hbb); [lia|].
  rewrite u64_small by (unfold in_u64; lia). rewrite Hbe. unfold PAGE_SIZE in *. change 0x1000 with 4096 in *.
  rewrite Hbs, Z.div_mul by done.
  destruct (use_frames_spec (Z.to_nat (be - bs)) (with_used (with_bitmap st0 bm1) u1) bs Hc1)
    as (bm2 & u2 & Hr2 & Hc2 & Hg2); [lia|cbn; lia|].
  eexists. split; [exact Hr2|]. split; [done|]. split; [done|]. split; [done|]. split; [done|].
  intros g. change (frame_used (with_used ?s u2) g) with (frame_used s g). rewrite Hg2.
  change (frame_used (with_used (with_bitmap st0 bm1) u1) g) with (frame_used (with_bitmap st0 bm1) g).
  rewrite Hg1, Hall, andb_true_l, <- in_region_usable by done. replace (bs + Z.of_nat (Z.to_nat (be - bs))) with be by lia.
  rewrite orb_false_iff, negb_false_iff, andb_false_iff, Z.leb_gt, Z.ltb_ge. apply and_iff_compat_l. lia.
Qed.

Lemma init_pmm_cases st mm off :
  Forall region_wf mm -> pmm_lock st = false -> pmm_last_allocated_index st = 0 -> 0 < off < 2 ^ 64 ->
  exists t q, covers_memory mm t /\ t <= 64 * q < t + 64 /\
  ((forall e p, e ∈ mm -> ~ bitmap_fits (8 * q) e p) /\
     init_pmm st mm off = Panic "PMM: Could not find suitable space for the bitmap!" \/
   exists p st', bitmap_place mm (8 * q) p /\ init_pmm st mm off = Ok st' /\ pmm_wf st' /\
     pmm_total_frames st' = t /\ hhdm_phys_offset st' = off /\
     forall g, frame_used st' g = false <-> usable_frame mm g /\ (4096 * g + 4096 <= p \/ p + 8 * q <= 4096 * g)).
Proof.
  intros Hwf Hlk Hh Hoff. destruct (boot_sizes mm Hwf) as (Hcm & Ht & Htop & q & Hq & Hcov & Hby).
  exists (boot_total mm), q. split; [done|]. split; [done|].
  unfold init_pmm. destruct (highest_loop mm) as [hi us] eqn:Ehl.
  assert (align_up hi PAGE_SIZE / PAGE_SIZE = boot_total mm) as Hbt by (unfold boot_total; by rewrite Ehl).
  rewrite !Hbt. fold (boot_bitmap_bytes mm). rewrite Hby, Hq.
  destruct (place_bitmap_spec mm (8 * q) Hwf) as [(-> & Hno)|(Hp & Hpl)]; [lia| |by left|].
  { intros Hz. eapply Forall_impl; [exact Htop|]. cbn. unfold PAGE_SIZE. lia. }
  right. destruct (Z.eqb_spec (place_bitmap mm (8 * q)) 0) as [|_]; [done|].
  fold (full_pmm st q (boot_total mm) off).
  assert (phys_to_virt (full_pmm st q (boot_total mm) off) (place_bitmap mm (8 * q)) =
    Ok (u64 (place_bitmap mm (8 * q) + off))) as -> by (unfold phys_to_virt; cbn; zcase (off =? 0)).
  cbn [mbind outcome_bind].
  destruct (marking_spec st mm off q Hwf Hh Hoff (proj2 Ht) Htop Hcov Hby _ Hpl) as (st' & Hr & [Hw Hu] & Hl & Htt & Hof & Hg).
  exists (place_bitmap mm (8 * q)), st'. split; [done|]. split; [exact Hr|]. split; [|done].
  constructor; [done|done|by rewrite Hl].
Qed.

(** ** The direct map *)

(** Pages [p] of [paddr .. paddr + 4096 n) appear at [p + off]. *)
Definition hhdm_page (paddr : Z) (n : nat) (off va : Z) : Prop :=
  exists i, 0 <= i < Z.of_nat n /\ vpn va = vpn (paddr + 4096 * i + off).

Lemma vpn_hhdm_inj a i j off :
  (4096 | a) -> (4096 | off) -> 0 <= i < 2 ^ 30 -> 0 <= j < 2 ^ 30 ->
  vpn (a + 4096 * i + off) = vpn (a + 4096 * j + off) -> i = j.
Proof.
  intros [x ->] [y ->] Hi Hj. unfold vpn.
  replace (x * 4096 + 4096 * i + y * 4096) with ((x + y + i) * 4096) by lia.
  replace (x * 4096 + 4096 * j + y * 4096) with ((x + y + j) * 4096) by lia.
  rewrite !Z.div_mul by done. intros H. Z.div_mod_to_equations. lia.
Qed.

Lemma map_hhdm_range_spec {FA : FrameAllocator pmm_alloc_frame pmm_free_frame} n :
  forall s root lvl paddr top flags,
  vm_inv (vm_phys s) root lvl -> tlb_ok s root -> frame_used (pmm (vm_phys s)) 0 = true ->
  (4096 | paddr) -> (4096 | hhdm_phys_offset (pmm (vm_phys s))) -> 0 <= flags -> 0 <= paddr ->
  Z.of_nat n < 2 ^ 30 -> paddr + 4096 * (Z.of_nat n - 1) < top <= paddr + 4096 * Z.of_nat n ->
  paddr + 4096 * Z.of_nat n + hhdm_phys_offset (pmm (vm_phys s)) < 2 ^ 64 ->
  pmm_used_frames (pmm (vm_phys s)) + 3 * Z.of_nat n <= pmm_total_frames (pmm (vm_phys s)) ->
  exists s' lvl', map_hhdm_range (S n) s (mk_space root false) paddr top flags =
      Ok (mk_space root false, s') /\
    vm_inv (vm_phys s') root lvl' /\ tlb_ok s' root /\
    (forall i, 0 <= i < Z.of_nat n ->
       translate (ram (vm_phys s')) root (paddr + 4096 * i + hhdm_phys_offset (pmm (vm_phys s))) =
       Some (leaf_entry (paddr + 4096 * i) flags)) /\
    (forall va, ~ hhdm_page paddr n (hhdm_phys_offset (pmm (vm_phys s))) va ->
       translate (ram (vm_phys s')) root va = translate (ram (vm_phys s)) root va).
Proof.
  induction n as [|n IH]; intros s root lvl paddr top flags HI Htlb H0 Hpa Hoff Hfl Hp0 Hn Htop Hmax Hfree.
  { cbn [map_hhdm_range]. zcase (paddr <? top). exists s, lvl. split; [done|]. split; [done|].
    split; [done|]. split; [lia|done]. }
  set (off := hhdm_phys_offset (pmm (vm_phys s))) in *.
  pose proof (wf_hhdm _ (wf_bitmap _ (vi_pmm _ _ _ HI))) as Hh. fold off in Hh.
  cbn [map_hhdm_range]. zcase (paddr <? top).
  assert (phys_to_virt (pmm (vm_phys s)) paddr = Ok (paddr + off)) as ->.
  { unfold phys_to_virt. fold off. zcase (off =? 0). cbn. rewrite u64_small by (unfold in_u64; lia). done. }
  cbn [mbind outcome_bind].
  destruct (map_page_cases s root lvl (paddr + off) paddr flags HI Htlb)
    as [(s1 & l1 & -> & M)|[(? & ? & ? & _ & Hf & _)|(? & _ & Hp)]]; try done.
  { apply Z.mod_divide; [done|]. by apply Z.divide_add_r. } { by apply Z.mod_divide. }
  2: { congruence. } 2: { lia. }
  cbn [mbind outcome_bind negb]. unfold PAGE_SIZE. rewrite u64_small by (unfold in_u64; lia).
  pose proof (mp_hhdm _ _ _ _ _ _ _ _ M) as Hh1. fold off in Hh1. pose proof (mp_count _ _ _ _ _ _ _ _ M).
  pose proof (mp_total _ _ _ _ _ _ _ _ M).
  destruct (IH s1 root l1 (paddr + 0x1000) top flags (mp_inv _ _ _ _ _ _ _ _ M) (mp_tlb _ _ _ _ _ _ _ _ M)
    (mp_used _ _ _ _ _ _ _ _ M 0 H0)) as (s' & l' & Hr & HI' & Ht' & Hin & Hout);
    rewrite ?Hh1; try done; try lia.
  { apply Z.divide_add_r; [done|by exists 1]. }
  rewrite Hh1 in Hin, Hout. exists s', l'. split; [done|]. split; [done|]. split; [done|]. split.
  - intros i Hi. destruct (Z.eq_dec i 0) as [->|].
    + rewrite Hout.
      * rewrite (mp_walk _ _ _ _ _ _ _ _ M). replace (paddr + 4096 * 0) with paddr by lia. by rewrite Z.eqb_refl.
      * intros (j & Hj & Heq). change 0x1000 with 4096 in Heq.
        replace (paddr + 4096 + 4096 * j + off) with (paddr + 4096 * (j + 1) + off) in Heq by lia.
        apply vpn_hhdm_inj in Heq; try done; lia.
    + specialize (Hin (i - 1) ltac:(lia)). change 0x1000 with 4096 in Hin.
      by replace (paddr + 4096 + 4096 * (i - 1)) with (paddr + 4096 * i) in Hin by lia.
  - intros va Hva. rewrite Hout.
    + rewrite (mp_walk _ _ _ _ _ _ _ _ M). destruct (Z.eqb_spec (vpn va) (vpn (paddr + off))) as [Heq|]; [|done].
      exfalso. apply Hva. exists 0. split; [lia|]. by replace (paddr + 4096 * 0 + off) with (paddr + off) by lia.
    + intros (j & Hj & Heq). apply Hva. exists (j + 1). split; [lia|]. change 0x1000 with 4096 in Heq.
      by replace (paddr + 4096 * (j + 1) + off) with (paddr + 4096 + 4096 * j + off) by lia.
Qed.

(** ** Properties *)

(** C8: The boot-time frame marking. For a memory map below 2^51, with [t] the least
    number of frames that covers every region and [q] the least number of 64-bit words
    with a bit per frame, the PMM part of [memory_init] panics exactly when no usable
    region has [8 q] bytes at a page-aligned address of at least 1 MiB. Otherwise the
    bitmap lies at the lowest such address of the first such region, the allocator
    state is well formed with an exact counter for [t] frames, and a frame is free
    exactly when it lies wholly inside a usable region and holds no byte of the
    bitmap. *)
Theorem init_pmm_correct (st : pmm_state) (mm : list memmap_entry) (off : Z) :
  Forall region_wf mm -> pmm_lock st = false -> pmm_last_allocated_index st = 0 -> 0 < off < 2 ^ 64 ->
  exists t q, covers_memory mm t /\ t <= 64 * q < t + 64 /\
  ((forall e p, e ∈ mm -> ~ bitmap_fits (8 * q) e p) /\
     init_pmm st mm off = Panic "PMM: Could not find suitable space for the bitmap!" \/
   exists p st', bitmap_place mm (8 * q) p /\ init_pmm st mm off = Ok st' /\ pmm_wf st' /\
     pmm_total_frames st' = t /\ hhdm_phys_offset st' = off /\
     forall g, frame_used st' g = false <-> usable_frame mm g /\ (4096 * g + 4096 <= p \/ p + 8 * q <= 4096 * g)).
Proof. apply init_pmm_cases. Qed.

(** A machine with 2 MiB: low memory, a hole and a usable region above 1 MiB. *)
Definition demo_region : memmap_entry := mk_entry 0x100800 0xFF000 USABLE.
Definition demo_map : list memmap_entry :=
  [mk_entry 0x1000 0x9E000 USABLE; mk_entry 0xF0000 0x10000 RESERVED; demo_region].
Definition boot_pmm : pmm_state := mk_pmm [] 0 0 0 0 false 0 0.

Lemma demo_map_wf : Forall region_wf demo_map.
Proof. repeat constructor; vm_compute; congruence. Qed.

Lemma demo_region_in : demo_region ∈ demo_map.
Proof. do 2 right. left. Qed.

Lemma init_pmm_correct_witness :
  exists st' p, init_pmm boot_pmm demo_map 0xFFFF800000000000 = Ok st' /\ pmm_wf st' /\
     pmm_total_frames st' = 0x200 /\ bitmap_place demo_map 64 p /\
     (forall g, frame_used st' g = false <-> usable_frame demo_map g /\ (4096 * g + 4096 <= p \/ p + 64 <= 4096 * g)).
Proof.
  destruct (init_pmm_correct boot_pmm demo_map 0xFFFF800000000000 demo_map_wf eq_refl eq_refl
    (conj eq_refl eq_refl)) as (t & q & (Ht0 & Ht & Hm) & Hq & H).
  pose proof (Ht demo_region demo_region_in) as Ht3. cbn in Ht3.
  assert (t = 0x200) as Ht'.
  { destruct Hm as [|(e & He & Hle)]; [lia|]. unfold demo_map in He. rewrite !elem_of_cons, elem_of_nil in He.
    destruct He as [->|[->|[->|[]]]]; cbn in Hle; lia. }
  assert (q = 8) as Hq8 by lia. subst t q.
  destruct H as [[H _]|(p & st' & Hp & Hr & Hw & Htt & _ & Hg)].
  - exfalso. apply (H demo_region 0x101000 demo_region_in).
    split; [done|]. split; [by exists 0x101|]. cbn. lia.
  - exists st', p. split; [exact Hr|]. split; [exact Hw|]. split; [exact Htt|]. split; [exact Hp|exact Hg].
Defined.

(** Mapping a range of physical memory into the direct map, with enough free
    frames for the tables: every page of the range translates to itself at the
    direct-map offset with the given flags, and no other translation changes. *)
Theorem map_hhdm_range_correct (n : nat) (s : vm) (root : Z) (lvl : Z -> nat) (paddr top flags : Z) :
  vm_inv (vm_phys s) root lvl -> tlb_ok s root -> frame_used (pmm (vm_phys s)) 0 = true ->
  (4096 | paddr) -> (4096 | hhdm_phys_offset (pmm (vm_phys s))) -> 0 <= flags -> 0 <= paddr ->
  Z.of_nat n < 2 ^ 30 -> paddr + 4096 * (Z.of_nat n - 1) < top <= paddr + 4096 * Z.of_nat n ->
  paddr + 4096 * Z.of_nat n + hhdm_phys_offset (pmm (vm_phys s)) < 2 ^ 64 ->
  pmm_used_frames (pmm (vm_phys s)) + 3 * Z.of_nat n <= pmm_total_frames (pmm (vm_phys s)) ->
  exists s' lvl', map_hhdm_range (S n) s (mk_space root false) paddr top flags =
      Ok (mk_space root false, s') /\
    vm_inv (vm_phys s') root lvl' /\ tlb_ok s' root /\
    (forall i, 0 <= i < Z.of_nat n ->
       translate (ram (vm_phys s')) root (paddr + 4096 * i + hhdm_phys_offset (pmm (vm_phys s))) =
       Some (leaf_entry (paddr + 4096 * i) flags)) /\
    (forall va, ~ hhdm_page paddr n (hhdm_phys_offset (pmm (vm_phys s))) va ->
       translate (ram (vm_phys s')) root va = translate (ram (vm_phys s)) root va).
Proof. apply map_hhdm_range_spec. Qed.

Lemma map_hhdm_range_correct_witness :
  exists s' lvl', map_hhdm_range 3 demo_vm (mk_space 0x1000 false) 0x2000 0x3800 PTE_WRITE =
      Ok (mk_space 0x1000 false, s') /\ vm_inv (vm_phys s') 0x1000 lvl' /\
    translate (ram (vm_phys s')) 0x1000 (0x2000 + 4096 * 1 + 0xFFFF800000000000) =
      Some (leaf_entry (0x2000 + 4096 * 1) PTE_WRITE).
Proof.
  destruct (map_hhdm_range_correct 2 demo_vm 0x1000 demo_lvl 0x2000 0x3800 PTE_WRITE demo_vm_inv demo_tlb_ok
    eq_refl ltac:(by exists 2) ltac:(by exists 0xFFFF800000000) ltac:(vm_compute; congruence)
    ltac:(vm_compute; congruence) ltac:(vm_compute; congruence) ltac:(split; vm_compute; congruence)
    ltac:(vm_compute; congruence) ltac:(vm_compute; congruence))
    as (s' & l' & Hr & HI & _ & Hin & _).
  exists s', l'. split; [exact Hr|]. split; [exact HI|]. exact (Hin 1 ltac:(lia)).
Defined.
