(* ===== verification/KPrintf.v ===== *)
(** Serial console of [src/kernel/memory.c]: hexadecimal output and the kernel's
    own [kprintf]. The characters written to the port are the result. *)
From Stdlib Require Import ZArith Lia Ascii String.
From stdpp Require Import strings numbers gmap base.
From stdpp Require Import list.
From S2P Require Import Prelude.
Open Scope Z_scope.

(** ** Hexadecimal *)

Definition hex_chars : string := "0123456789abcdef".

Definition hex_char (d : Z) : ascii :=
  match String.get (Z.to_nat d) hex_chars with
  | Some c => c
  | None => "?"%char
  end.

(** [kprint_hex_recursive]: [fuel] bounds the depth, 16 digits for 64 bits. *)
Fixpoint kprint_hex_recursive (fuel : nat) (n : Z) : list ascii :=
  match fuel with
  | O => []
  | S fuel' =>
      if n =? 0 then []
      else kprint_hex_recursive fuel' (n / 16) ++ [hex_char (n mod 16)]
  end.

Definition kprint_hex (n : Z) : list ascii :=
  if n =? 0 then ["0"%char] else kprint_hex_recursive 17 n.

(** ** kprintf *)

(** One variable argument: an integer register or a string pointer. *)
Inductive va :=
| VInt (n : Z)
| VStr (s : option string).

Definition va_int (args : list va) : outcome (Z * list va) :=
  match args with
  | VInt n :: rest => Ok (n, rest)
  | _ => Undef "va_arg"
  end.

Definition va_str (args : list va) : outcome (option string * list va) :=
  match args with
  | VStr s :: rest => Ok (s, rest)
  | _ => Undef "va_arg"
  end.

Definition serial_puts (s : string) : list ascii := String.list_ascii_of_string s.

(** The loop over the format; characters are read up to the terminator, and a
    read past it is undefined. *)
Fixpoint kprintf_loop (fmt : list ascii) (args : list va) : outcome (list ascii) :=
  match fmt with
  | [] => Ok []
  | c :: p =>
      if negb (bool_decide (c = "%"%char)) then
        out ← kprintf_loop p args ; Ok (c :: out)
      else
        match p with
        | [] => Undef "read past the format"
        | d :: p =>
            if bool_decide (d = "c"%char) then
              '(n, args) ← va_int args ;
              out ← kprintf_loop p args ; Ok (Ascii.ascii_of_N (Z.to_N (u8 n)) :: out)
            else if bool_decide (d = "s"%char) then
              '(s, args) ← va_str args ;
              out ← kprintf_loop p args ; Ok (serial_puts (default "(null)"%string s) ++ out)
            else if bool_decide (d = "l"%char) then
              match p with
              | [] => Undef "read past the format"
              | x :: p =>
                  if bool_decide (x = "x"%char) then
                    '(n, args) ← va_int args ;
                    out ← kprintf_loop p args ; Ok (serial_puts "0x" ++ kprint_hex (u64 n) ++ out)
                  else
                    out ← kprintf_loop p args ; Ok ("%"%char :: "l"%char :: x :: out)
              end
            else if bool_decide (d = "p"%char) then
              '(n, args) ← va_int args ;
              out ← kprintf_loop p args ; Ok (serial_puts "0x" ++ kprint_hex (u64 n) ++ out)
            else if bool_decide (d = "%"%char) then
              out ← kprintf_loop p args ; Ok ("%"%char :: out)
            else
              out ← kprintf_loop p args ; Ok ("%"%char :: d :: out)
        end
  end.

Definition kprintf (fmt : string) (args : list va) : outcome string :=
  out ← kprintf_loop (String.list_ascii_of_string fmt) args ;
  Ok (String.string_of_list_ascii out).

(** ** Specification of the hexadecimal output *)

(** Value of a digit and of a digit string. *)
Definition hex_val (c : ascii) : option Z :=
  let n := Z.of_N (Ascii.N_of_ascii c) in
  if (48 <=? n) && (n <=? 57) then Some (n - 48)
  else if (97 <=? n) && (n <=? 102) then Some (n - 87)
  else None.

Definition parse_hex_from (acc : option Z) (l : list ascii) : option Z :=
  fold_left (fun a c => a ← a; d ← hex_val c; Some (16 * a + d)) l acc.

Definition parse_hex (l : list ascii) : option Z :=
  match l with [] => None | _ => parse_hex_from (Some 0) l end.

Lemma hex_val_char d : 0 <= d < 16 -> hex_val (hex_char d) = Some d.
Proof.
  intros Hd.
  assert (forallb (fun i => bool_decide (hex_val (hex_char (Z.of_nat i)) = Some (Z.of_nat i))) (seq 0 16) = true)
    as H by (vm_compute; reflexivity).
  rewrite forallb_forall in H. specialize (H (Z.to_nat d)). rewrite Z2Nat.id in H by lia.
  assert (bool_decide (hex_val (hex_char d) = Some d) = true) as Hb by (apply H, in_seq; lia).
  by apply bool_decide_eq_true_1 in Hb.
Qed.

Lemma parse_hex_snoc acc l c : parse_hex_from acc (l ++ [c]) =
  (a ← parse_hex_from acc l; d ← hex_val c; Some (16 * a + d)).
Proof. unfold parse_hex_from. by rewrite fold_left_app. Qed.

Lemma hex_rec_spec fuel n :
  0 <= n < 16 ^ Z.of_nat fuel ->
  parse_hex_from (Some 0) (kprint_hex_recursive fuel n) = Some n /\
  (length (kprint_hex_recursive fuel n) <= fuel)%nat /\
  (n <> 0 -> exists c l, kprint_hex_recursive fuel n = c :: l /\ c <> "0"%char).
Proof.
  revert n. induction fuel as [|fuel IH]; intros n Hn.
  { cbn in Hn. assert (n = 0) as -> by lia. cbn. split; [done|]. split; [lia|done]. }
  cbn [kprint_hex_recursive]. destruct (Z.eqb_spec n 0) as [->|Hne].
  { split; [done|]. split; [cbn; lia|done]. }
  rewrite Nat2Z.inj_succ, Z.pow_succ_r in Hn by lia.
  assert (0 <= n / 16 < 16 ^ Z.of_nat fuel) as Hdiv by (Z.div_mod_to_equations; lia).
  assert (0 <= n mod 16 < 16) as Hmod by (apply Z.mod_pos_bound; lia).
  destruct (IH (n / 16) Hdiv) as (Hp & Hl & Hh). split; [|split].
  - rewrite parse_hex_snoc, Hp. cbn. rewrite hex_val_char by done. cbn. f_equal. Z.div_mod_to_equations. lia.
  - rewrite length_app. cbn. lia.
  - intros _. destruct (Z.eq_dec (n / 16) 0) as [Hz|Hnz].
    + rewrite Hz. exists (hex_char (n mod 16)), [].
      assert (kprint_hex_recursive fuel 0 = []) as -> by (by destruct fuel). split; [done|].
      intros Heq. pose proof (hex_val_char (n mod 16) Hmod) as Hv. rewrite Heq in Hv. cbn in Hv.
      injection Hv. Z.div_mod_to_equations. lia.
    + destruct (Hh Hnz) as (c & l & -> & Hc). exists c, (l ++ [hex_char (n mod 16)]). done.
Qed.

(** ** Properties *)

(** Hexadecimal output round trips: reading back the digits that
    [kprint_hex] writes for a 64-bit value gives the value; there are between 1
    and 17 digits, and a nonzero value has no leading zero. *)
Theorem kprint_hex_roundtrip (n : Z) :
  in_u64 n ->
  parse_hex (kprint_hex n) = Some n /\ (1 <= length (kprint_hex n) <= 17)%nat /\
  (n <> 0 -> exists c l, kprint_hex n = c :: l /\ c <> "0"%char).
Proof.
  intros Hn. unfold kprint_hex. destruct (Z.eqb_spec n 0) as [->|Hne].
  { split; [done|]. split; [cbn; lia|done]. }
  destruct (hex_rec_spec 17 n) as (Hp & Hl & Hh).
  { unfold in_u64 in Hn. change (16 ^ Z.of_nat 17) with (2 ^ 68). lia. }
  destruct (Hh Hne) as (c & l & Heq & Hc). rewrite Heq in *. split; [exact Hp|].
  split; [split; [cbn; lia|exact Hl]|]. eauto.
Qed.

Lemma kprint_hex_roundtrip_witness :
  parse_hex (kprint_hex 0xDEADBEEF) = Some 0xDEADBEEF /\ kprint_hex 0xDEADBEEF = String.list_ascii_of_string "deadbeef".
Proof.
  split; [|reflexivity].
  exact (proj1 (kprint_hex_roundtrip 0xDEADBEEF ltac:(unfold in_u64; lia))).
Defined.

(** Formats without a percent sign are written unchanged, whatever the
    arguments, and text before a directive does not disturb it. *)
Theorem kprintf_literal (pre fmt : string) (args : list va) (out : string) :
  Forall (fun c => c <> "%"%char) (String.list_ascii_of_string pre) ->
  kprintf fmt args = Ok out -> kprintf (pre ++ fmt) args = Ok (pre ++ out)%string.
Proof.
  intros Hpre. unfold kprintf. intros H. apply bind_Ok in H as (l & Hl & [= <-]).
  assert (forall s1 s2, String.list_ascii_of_string (s1 ++ s2) =
    String.list_ascii_of_string s1 ++ String.list_ascii_of_string s2) as Happ.
  { induction s1 as [|c s1 IH]; intros s2; [done|]. cbn [String.append String.list_ascii_of_string app]. by rewrite <- IH. }
  rewrite Happ. clear Happ. apply bind_Ok. exists (String.list_ascii_of_string pre ++ l). split.
  - induction Hpre as [|c p Hc _ IH]; [done|]. cbn [app kprintf_loop].
    rewrite bool_decide_eq_false_2 by done. cbn [negb]. by rewrite IH.
  - f_equal. clear. induction pre as [|c p IH]; [done|]. cbn. by rewrite IH.
Qed.

Lemma kprintf_literal_witness :
  kprintf ("VMM: at %lx" : string) [VInt 0x1000] = Ok "VMM: at 0x1000"%string.
Proof.
  exact (kprintf_literal "VMM: at " "%lx" [VInt 0x1000] "0x1000"
    ltac:(repeat constructor; discriminate) eq_refl).
Defined.

(** Directives other than those listed are copied to the output and consume no
    argument: the boot message with [%lu] prints the directive and gives the later
    [%lx] the value meant for it; [0x%lx] prints the prefix twice; the panic
    message's [%d] prints no line number; and a format that ends in a percent sign
    reads past its end. *)
Theorem kprintf_unsupported :
  kprintf "%lu frames at %lx" [VInt 5; VInt 0x9000] = Ok "%lu frames at 0x5"%string /\
  kprintf "phys 0x%lx" [VInt 0x9000] = Ok "phys 0x0x9000"%string /\
  kprintf "At: %s:%d" [VStr (Some "memory.c"%string); VInt 42] = Ok "At: memory.c:%d"%string /\
  kprintf "100%" [] = Undef "read past the format".
Proof. repeat split. Qed.
