(* ===== verification/BlockPmm.v ===== *)
(** Block allocator of [src/kernel/arch/x86_64/mm/pmm.c]: a bitmap of 4 KiB
    blocks searched first fit from a moving hint. *)
From Stdlib Require Import ZArith Lia.
From stdpp Require Import strings numbers gmap base.
From stdpp Require Import list.
From S2P Require Import Prelude Pmm.
Open Scope Z_scope.

Definition BLOCK_SIZE : Z := 4096.
Definition BLOCKS_PER_LONG : Z := 64.

Record bpmm := mk_bpmm {
  total_blocks : Z;
  used_blocks : Z;
  memory_size : Z;
  bitmap : list Z;
  bitmap_size : Z;
  last_free_block : Z;
  initialized : bool;
  block_lock : bool
}.

(** [static pmm_state_t state = {0}]. *)
Definition bpmm_zero : bpmm := mk_bpmm 0 0 0 [] 0 0 false false.

Definition BITMAP_INDEX (block : Z) : Z := block / BLOCKS_PER_LONG.
Definition BITMAP_OFFSET (block : Z) : Z := block mod BLOCKS_PER_LONG.

Definition with_blocks (s : bpmm) (bm : list Z) (used hint : Z) : bpmm :=
  mk_bpmm (total_blocks s) used (memory_size s) bm (bitmap_size s) hint (initialized s) (block_lock s).
Definition with_block_lock (s : bpmm) (l : bool) : bpmm :=
  mk_bpmm (total_blocks s) (used_blocks s) (memory_size s) (bitmap s) (bitmap_size s)
    (last_free_block s) (initialized s) l.

(** [memset(state.bitmap, 0xFF, ...)] overwrites the words at [bitmap_base]. *)
Definition pmm_init (s : bpmm) (mem_size : Z) : bpmm :=
  if initialized s then s
  else
    let total := mem_size / BLOCK_SIZE in
    let size := u64 (total + BLOCKS_PER_LONG - 1) / BLOCKS_PER_LONG in
    mk_bpmm total total mem_size (replicate (Z.to_nat size) UINT64_MAX) size 0 true (block_lock s).

(** Loop of [set_blocks] over the [n] blocks from [block] on. *)
Fixpoint set_blocks (bm : list Z) (block : Z) (n : nat) (used : bool) : outcome (list Z) :=
  match n with
  | O => Ok bm
  | S n' =>
      let idx := BITMAP_INDEX block in
      let off := BITMAP_OFFSET block in
      q ← arr_get bm idx ;
      bm ← arr_set bm idx (if used then Z.lor q (shl64 1 off) else Z.land q (not64 (shl64 1 off))) ;
      set_blocks bm (u64 (block + 1)) n' used
  end.

(** The search loop: the index of the last block of the run, or [None]. *)
Fixpoint find_blocks (n : nat) (s : bpmm) (count i consecutive : Z) : outcome (option Z) :=
  match n with
  | O => Ok None
  | S n' =>
      q ← arr_get (bitmap s) (BITMAP_INDEX i) ;
      if Z.land q (shl64 1 (BITMAP_OFFSET i)) =? 0 then
        let consecutive := u64 (consecutive + 1) in
        if consecutive =? count then Ok (Some i)
        else find_blocks n' s count (i + 1) consecutive
      else find_blocks n' s count (i + 1) 0
  end.

Definition pmm_alloc_blocks (s : bpmm) (count : Z) : outcome (Z * bpmm) :=
  if negb (initialized s) || (count =? 0) then Ok (0, s)
  else
    l ← spin_acquire (block_lock s) ;
    let s := with_block_lock s l in
    let start_block := last_free_block s in
    found ← find_blocks (Z.to_nat (total_blocks s - start_block)) s count start_block 0 ;
    match found with
    | Some i =>
        let first_block := u64 (i - count + 1) in
        bm ← set_blocks (bitmap s) first_block (Z.to_nat count) true ;
        let s := with_blocks s bm (u64 (used_blocks s + count)) (i + 1) in
        Ok (u64 (first_block * BLOCK_SIZE), with_block_lock s false)
    | None => Ok (0, with_block_lock s false)
    end.

Definition pmm_alloc_block (s : bpmm) : outcome (Z * bpmm) := pmm_alloc_blocks s 1.

Definition pmm_free_blocks (s : bpmm) (block count : Z) : outcome bpmm :=
  if (block =? 0) || negb (initialized s) || (count =? 0) then Ok s
  else
    let start := block / BLOCK_SIZE in
    if total_blocks s <? u64 (start + count) then Ok s
    else
      l ← spin_acquire (block_lock s) ;
      let s := with_block_lock s l in
      bm ← set_blocks (bitmap s) start (Z.to_nat count) false ;
      let hint := if start <? last_free_block s then start else last_free_block s in
      Ok (with_block_lock (with_blocks s bm (u64 (used_blocks s - count)) hint) false).

Definition pmm_free_block (s : bpmm) (block : Z) : outcome bpmm := pmm_free_blocks s block 1.

(** Attempts left in the retry loop of [pmm_alloc_block_aligned]. *)
Fixpoint aligned_attempts (n : nat) (s : bpmm) (alignment : Z) : outcome (Z * bpmm) :=
  match n with
  | O => Ok (0, s)
  | S n' =>
      '(ptr, s) ← pmm_alloc_blocks s (alignment / BLOCK_SIZE) ;
      r ← cmod ptr alignment ;
      if r =? 0 then Ok (ptr, s)
      else
        s ← pmm_free_blocks s ptr (alignment / BLOCK_SIZE) ;
        aligned_attempts n' s alignment
  end.

Definition pmm_alloc_block_aligned (s : bpmm) (alignment : Z) : outcome (Z * bpmm) :=
  ASSERT (alignment mod BLOCK_SIZE =? 0) "Alignment must be multiple of BLOCK_SIZE" ;;
  aligned_attempts 3 s alignment.

Definition pmm_mark_region (s : bpmm) (base size : Z) (used : bool) : outcome bpmm :=
  let align_base := align_down (u64 (base + BLOCK_SIZE - 1)) BLOCK_SIZE in
  let align_size := u64 (size - u64 (align_base - base)) in
  let blocks := align_size / BLOCK_SIZE in
  let start_block := align_base / BLOCK_SIZE in
  l ← spin_acquire (block_lock s) ;
  let s := with_block_lock s l in
  bm ← set_blocks (bitmap s) start_block (Z.to_nat blocks) used ;
  let n := if used then u64 (used_blocks s + blocks) else u64 (used_blocks s - blocks) in
  Ok (with_block_lock (with_blocks s bm n (last_free_block s)) false).

Definition pmm_get_total_memory (s : bpmm) : Z := memory_size s.
Definition pmm_get_free_memory (s : bpmm) : Z := u64 (u64 (total_blocks s - used_blocks s) * BLOCK_SIZE).
Definition pmm_get_used_memory (s : bpmm) : Z := u64 (used_blocks s * BLOCK_SIZE).
Definition pmm_is_initialized (s : bpmm) : bool := initialized s.

(** ** Abstract view *)

(** The bit of block [b]; blocks outside the bitmap count as used. *)
Definition block_used (bm : list Z) (b : Z) : bool :=
  if b <? 0 then true
  else match bm !! Z.to_nat (b / 64) with
       | Some q => Z.testbit q (b mod 64)
       | None => true
       end.

Record bpmm_wf (s : bpmm) : Prop := {
  bw_words : Forall in_u64 (bitmap s);
  bw_total : 0 <= total_blocks s < 2 ^ 52;
  bw_cover : total_blocks s <= 64 * Z.of_nat (length (bitmap s));
  bw_hint : 0 <= last_free_block s <= total_blocks s;
  bw_init : initialized s = true;
  bw_unlocked : block_lock s = false
}.

Lemma block_word bm b :
  0 <= b < 64 * Z.of_nat (length bm) -> Forall in_u64 bm ->
  exists q, arr_get bm (BITMAP_INDEX b) = Ok q /\ bm !! Z.to_nat (b / 64) = Some q /\ in_u64 q /\
    block_used bm b = Z.testbit q (b mod 64) /\ 0 <= b / 64 < Z.of_nat (length bm) /\ 0 <= b mod 64 < 64.
Proof.
  intros Hb Hw. pose proof (frame_split b ltac:(lia)) as (? & ? & ?).
  assert (b / 64 < Z.of_nat (length bm)) as Hlt by lia.
  destruct (lookup_lt_is_Some_2 bm (Z.to_nat (b / 64))) as [q Hq]; [lia|].
  exists q. split; [|split; [done|split; [|split; [|lia]]]].
  - apply arr_get_Ok. split; [done|exact Hq].
  - by eapply Forall_lookup_1 in Hq.
  - unfold block_used. zcase (b <? 0). by rewrite Hq.
Qed.

(** One step of [set_blocks]. *)
Lemma set_block_spec bm b (used : bool) :
  0 <= b < 64 * Z.of_nat (length bm) -> Forall in_u64 bm ->
  exists q bm', arr_get bm (BITMAP_INDEX b) = Ok q /\
    arr_set bm (BITMAP_INDEX b) (if used then Z.lor q (shl64 1 (BITMAP_OFFSET b))
      else Z.land q (not64 (shl64 1 (BITMAP_OFFSET b)))) = Ok bm' /\
    length bm' = length bm /\ Forall in_u64 bm' /\
    forall g, block_used bm' g = if g =? b then used else block_used bm g.
Proof.
  intros Hb Hw. destruct (block_word bm b Hb Hw) as (q & Hg & Hq & Hqr & _ & Hi & Ho).
  unfold BITMAP_INDEX, BITMAP_OFFSET, BLOCKS_PER_LONG in *.
  set (q' := if used then Z.lor q (shl64 1 (b mod 64)) else Z.land q (not64 (shl64 1 (b mod 64)))).
  assert (in_u64 q') as Hq' by (unfold q'; destruct used; [by apply setbit64_range|by apply clearbit64_range]).
  assert (forall i, 0 <= i < 64 -> Z.testbit q' i = if i =? b mod 64 then used else Z.testbit q i) as Hbits.
  { intros i Hi'. unfold q'. destruct used; [rewrite setbit64_bits by lia|rewrite clearbit64_bits by (done || lia)];
      by destruct (i =? b mod 64). }
  exists q, (<[Z.to_nat (b / 64) := q']> bm). fold q'. split; [done|]. split; [by apply arr_set_Ok|].
  split; [apply length_insert|]. split; [by apply Forall_insert|]. intros g.
  unfold block_used. zcase (g <? 0); [zcase (g =? b)|].
  pose proof (frame_split g ltac:(lia)) as Hsg. pose proof (frame_split b ltac:(lia)) as Hsb.
  destruct (Z.eq_dec (g / 64) (b / 64)) as [Heq|Hne].
  - rewrite Heq, list_lookup_insert_eq by lia. rewrite Hq, Hbits by lia.
    zcase (g =? b); zcase (g mod 64 =? b mod 64).
  - rewrite list_lookup_insert_ne by lia. zcase (g =? b).
Qed.

Lemma set_blocks_spec n : forall bm b used,
  0 <= b -> b + Z.of_nat n <= 64 * Z.of_nat (length bm) -> b + Z.of_nat n < 2 ^ 64 -> Forall in_u64 bm ->
  exists bm', set_blocks bm b n used = Ok bm' /\ length bm' = length bm /\ Forall in_u64 bm' /\
    forall g, block_used bm' g = if (b <=? g) && (g <? b + Z.of_nat n) then used else block_used bm g.
Proof.
  induction n as [|n IH]; intros bm b used Hb Hn H64 Hw.
  { exists bm. split; [done|]. split; [done|]. split; [done|]. intros g.
    destruct (Z.leb_spec b g), (Z.ltb_spec g (b + Z.of_nat 0)); (done || lia). }
  cbn [set_blocks]. destruct (set_block_spec bm b used ltac:(lia) Hw) as (q & bm1 & -> & Hs & Hl & Hw1 & Hg1).
  cbn [mbind outcome_bind]. rewrite Hs. cbn [mbind outcome_bind]. rewrite u64_small by (unfold in_u64; lia).
  destruct (IH bm1 (b + 1) used ltac:(lia) ltac:(lia) ltac:(lia) Hw1) as (bm2 & -> & Hl2 & Hw2 & Hg2).
  exists bm2. split; [done|]. split; [lia|]. split; [done|]. intros g. rewrite Hg2, Hg1.
  destruct (Z.leb_spec (b + 1) g), (Z.ltb_spec g (b + 1 + Z.of_nat n)), (Z.leb_spec b g),
    (Z.ltb_spec g (b + Z.of_nat (S n))), (Z.eqb_spec g b); cbn; (done || lia).
Qed.

(** The blocks [a .. a + n) are free. *)
Definition run_free (bm : list Z) (a n : Z) : Prop := forall g, a <= g < a + n -> block_used bm g = false.

(** The search finds the first run that ends at or after [i], counting the
    [c] free blocks just before [i]; it fails only if there is none. *)
Lemma find_blocks_spec n : forall s count i c,
  bpmm_wf s -> 0 < count < 2 ^ 63 -> 0 <= c < count -> 0 <= i - c -> run_free (bitmap s) (i - c) c ->
  i + Z.of_nat n = total_blocks s ->
  (exists e, find_blocks n s count i c = Ok (Some e) /\ i <= e < total_blocks s /\ i - c <= e - count + 1 /\
     run_free (bitmap s) (e - count + 1) count /\
     forall e', i <= e' < e -> i - c <= e' - count + 1 -> ~ run_free (bitmap s) (e' - count + 1) count) \/
  (find_blocks n s count i c = Ok None /\
     forall a, i - c <= a -> a + count <= total_blocks s -> ~ run_free (bitmap s) a count).
Proof.
  induction n as [|n IH]; intros s count i c Hwf Hcount Hc Hic Hrun Hn.
  { right. split; [done|]. intros a Ha Hle. lia. }
  cbn [find_blocks]. pose proof (bw_cover _ Hwf). pose proof (bw_total _ Hwf).
  destruct (block_word (bitmap s) i ltac:(lia) (bw_words _ Hwf)) as (q & -> & _ & _ & Hu & _ & Ho).
  cbn [mbind outcome_bind]. unfold BITMAP_OFFSET, BLOCKS_PER_LONG. rewrite testbit64_land, <- Hu by done.
  destruct (block_used (bitmap s) i) eqn:E; cbn [negb].
  - destruct (IH s count (i + 1) 0 Hwf Hcount) as [(e & Hr & He & Hb & Hf & Hmin)|[Hr Hno]]; try lia.
    + intros g Hg. lia.
    + left. exists e. split; [done|]. split; [lia|]. split; [lia|]. split; [done|].
      intros e' He' Hb' Hf'. destruct (Z.eq_dec e' i) as [->|].
      * specialize (Hf' i ltac:(lia)). congruence.
      * destruct (Z.leb_spec (i + 1) (e' - count + 1)); [by apply (Hmin e'); [lia|lia|]|].
        specialize (Hf' i ltac:(lia)). congruence.
    + right. split; [done|]. intros a Ha Hle Hf'. destruct (Z.leb_spec (i + 1) a); [by apply (Hno a); [lia|done|]|].
      specialize (Hf' i). rewrite E in Hf'. enough (true = false) by done. apply Hf'. lia.
  - rewrite u64_small by (unfold in_u64; lia).
    assert (run_free (bitmap s) (i - c) (c + 1)) as Hrun'.
    { intros g Hg. destruct (Z.eq_dec g i) as [->|]; [done|]. apply Hrun. lia. }
    destruct (Z.eqb_spec (c + 1) count) as [Heq|Hne].
    + left. exists i. split; [done|]. split; [lia|]. split; [lia|]. split.
      * replace (i - count + 1) with (i - c) by lia. by rewrite <- Heq.
      * intros e' He'. lia.
    + destruct (IH s count (i + 1) (c + 1) Hwf Hcount) as [(e & Hr & He & Hb & Hf & Hmin)|[Hr Hno]]; try lia.
      * by replace (i + 1 - (c + 1)) with (i - c) by lia.
      * left. exists e. split; [done|]. split; [lia|]. split; [lia|]. split; [done|].
        intros e' He' Hb'. destruct (Z.eq_dec e' i) as [->|]; [lia|]. apply Hmin; lia.
      * right. split; [done|]. intros a Ha. apply Hno. lia.
Qed.

(** ** Allocation and release *)

(** The state after the blocks [a .. a + n) got the value [used]. *)
Record blocks_post (s : bpmm) (a n : Z) (used : bool) (count hint : Z) (s' : bpmm) : Prop := {
  bp_wf : bpmm_wf s';
  bp_bits : forall g, block_used (bitmap s') g =
    if (a <=? g) && (g <? a + n) then used else block_used (bitmap s) g;
  bp_count : used_blocks s' = u64 count;
  bp_hint : last_free_block s' = hint;
  bp_total : total_blocks s' = total_blocks s
}.

Lemma blocks_post_intro s bm a n used count hint :
  bpmm_wf s -> length bm = length (bitmap s) -> Forall in_u64 bm -> 0 <= hint <= total_blocks s ->
  (forall g, block_used bm g = if (a <=? g) && (g <? a + n) then used else block_used (bitmap s) g) ->
  blocks_post s a n used count hint
    (with_block_lock (with_blocks (with_block_lock s true) bm (u64 count) hint) false).
Proof.
  intros [] Hl Hw Hh Hb. constructor; try done. constructor; cbn; try done. by rewrite Hl.
Qed.

Lemma alloc_blocks_cases s count :
  bpmm_wf s -> 0 < count < 2 ^ 52 ->
  (exists a s', pmm_alloc_blocks s count = Ok (a * BLOCK_SIZE, s') /\
     last_free_block s <= a /\ a + count <= total_blocks s /\ run_free (bitmap s) a count /\
     (forall a', last_free_block s <= a' < a -> ~ run_free (bitmap s) a' count) /\
     blocks_post s a count true (used_blocks s + count) (a + count) s') \/
  (pmm_alloc_blocks s count = Ok (0, s) /\
     forall a, last_free_block s <= a -> a + count <= total_blocks s -> ~ run_free (bitmap s) a count).
Proof.
  intros Hwf Hc. pose proof (bw_hint _ Hwf) as Hh. pose proof (bw_total _ Hwf) as Ht.
  unfold pmm_alloc_blocks. rewrite (bw_init _ Hwf), (bw_unlocked _ Hwf). cbn [negb orb].
  zcase (count =? 0). cbn [spin_acquire mbind outcome_bind].
  set (s1 := with_block_lock s true).
  change (total_blocks s1) with (total_blocks s). change (last_free_block s1) with (last_free_block s).
  assert (find_blocks (Z.to_nat (total_blocks s - last_free_block s)) s1 count (last_free_block s) 0 =
    find_blocks (Z.to_nat (total_blocks s - last_free_block s)) s count (last_free_block s) 0) as ->.
  { generalize (last_free_block s) at 2 4. generalize 0.
    generalize (Z.to_nat (total_blocks s - last_free_block s)).
    induction n as [|n IH]; intros c i; [done|]. cbn [find_blocks].
    change (bitmap s1) with (bitmap s). destruct (arr_get (bitmap s) (BITMAP_INDEX i)); try done.
    cbn [mbind outcome_bind]. by rewrite !IH. }
  destruct (find_blocks_spec (Z.to_nat (total_blocks s - last_free_block s)) s count (last_free_block s) 0 Hwf)
    as [(e & -> & He & Hb & Hf & Hmin)|[-> Hno]]; try lia.
  { intros g Hg. lia. }
  - left. cbn [mbind outcome_bind]. rewrite (u64_small (e - count + 1)) by (unfold in_u64; lia).
    destruct (set_blocks_spec (Z.to_nat count) (bitmap s1) (e - count + 1) true) as (bm & -> & Hl & Hw & Hg).
    { lia. } { pose proof (bw_cover _ Hwf). cbn. lia. } { lia. } { apply Hwf. }
    cbn [mbind outcome_bind]. rewrite (u64_small ((e - count + 1) * BLOCK_SIZE)) by (unfold in_u64, BLOCK_SIZE; lia).
    exists (e - count + 1). eexists. split; [reflexivity|]. split; [lia|]. split; [lia|]. split; [done|]. split.
    + intros a' Ha' Hf'. apply (Hmin (a' + count - 1)); [lia|lia|].
      by replace (a' + count - 1 - count + 1) with a' by lia.
    + replace (e - count + 1 + count) with (e + 1) by lia. apply blocks_post_intro; try done; [lia|].
      intros g. rewrite Hg. by replace (e - count + 1 + Z.of_nat (Z.to_nat count)) with (e - count + 1 + count) by lia.
  - right. cbn [mbind outcome_bind]. split; [|intros a Ha; apply Hno; lia].
    f_equal. f_equal. pose proof (bw_unlocked _ Hwf). destruct s. cbn in *. by subst.
Qed.

Lemma free_blocks_spec s a count :
  bpmm_wf s -> 0 < count < 2 ^ 52 -> 0 < a -> a + count <= total_blocks s ->
  exists s', pmm_free_blocks s (a * BLOCK_SIZE) count = Ok s' /\
    blocks_post s a count false (used_blocks s - count)
      (if a <? last_free_block s then a else last_free_block s) s'.
Proof.
  intros Hwf Hc Ha Hle. pose proof (bw_hint _ Hwf) as Hh. pose proof (bw_total _ Hwf) as Ht.
  unfold pmm_free_blocks. rewrite (bw_init _ Hwf), (bw_unlocked _ Hwf).
  zcase (a * BLOCK_SIZE =? 0); [unfold BLOCK_SIZE in *; lia|]. zcase (count =? 0). cbn [negb orb].
  replace (a * BLOCK_SIZE / BLOCK_SIZE) with a by (symmetry; by apply Z.div_mul).
  rewrite (u64_small (a + count)) by (unfold in_u64; lia). zcase (total_blocks s <? a + count).
  cbn [spin_acquire mbind outcome_bind].
  destruct (set_blocks_spec (Z.to_nat count) (bitmap s) a false) as (bm & Hs & Hl & Hw & Hg).
  { lia. } { pose proof (bw_cover _ Hwf). lia. } { lia. } { apply Hwf. }
  cbn [with_block_lock bitmap]. rewrite Hs. cbn [mbind outcome_bind]. eexists. split; [reflexivity|].
  apply blocks_post_intro; try done.
  - cbn. zcase (a <? last_free_block s).
  - intros g. rewrite Hg. by replace (a + Z.of_nat (Z.to_nat count)) with (a + count) by lia.
Qed.

(** An unaligned attempt leads back to the same block. *)
Lemma aligned_retry s k a s1 s2 :
  bpmm_wf s -> 0 < k < 2 ^ 52 -> 0 < a -> last_free_block s <= a -> a + k <= total_blocks s ->
  run_free (bitmap s) a k -> blocks_post s a k true (used_blocks s + k) (a + k) s1 ->
  blocks_post s1 a k false (used_blocks s1 - k) (if a <? last_free_block s1 then a else last_free_block s1) s2 ->
  exists s3, pmm_alloc_blocks s2 k = Ok (a * BLOCK_SIZE, s3) /\
    blocks_post s2 a k true (used_blocks s2 + k) (a + k) s3 /\
    last_free_block s2 = a /\ run_free (bitmap s2) a k.
Proof.
  intros Hwf Hk Ha Hlo Hhi Hrun [W1 B1 C1 H1 T1] [W2 B2 C2 H2 T2].
  assert (last_free_block s2 = a) as Hh2 by (rewrite H2, H1; zcase (a <? a + k)).
  assert (run_free (bitmap s2) a k) as Hr2.
  { intros g Hg. rewrite B2. zcase (a <=? g). zcase (g <? a + k). }
  destruct (alloc_blocks_cases s2 k W2 Hk) as [(b & s3 & Hr & Hb & Hb' & Hf & Hmin & Hp)|[_ Hno]].
  - assert (b = a) as ->.
    { destruct (Z.lt_trichotomy b a) as [|[|Hlt]]; [lia|done|]. exfalso. by apply (Hmin a); [lia|]. }
    exists s3. split; [done|]. done.
  - exfalso. apply (Hno a); [lia|lia|done].
Qed.

(** ** Properties *)

(** C12: [pmm_alloc_blocks] is first fit from the hint: it returns the lowest run
    of [count] free blocks at or above the hint, marks exactly these blocks, adds
    [count] to the counter and moves the hint past the run; it returns 0 with the
    state unchanged exactly when there is no such run. *)
Theorem pmm_alloc_blocks_first_fit (s : bpmm) (count : Z) :
  bpmm_wf s -> 0 < count < 2 ^ 52 ->
  (exists a s', pmm_alloc_blocks s count = Ok (a * BLOCK_SIZE, s') /\
     last_free_block s <= a /\ a + count <= total_blocks s /\ run_free (bitmap s) a count /\
     (forall a', last_free_block s <= a' < a -> ~ run_free (bitmap s) a' count) /\
     blocks_post s a count true (used_blocks s + count) (a + count) s') \/
  (pmm_alloc_blocks s count = Ok (0, s) /\
     forall a, last_free_block s <= a -> a + count <= total_blocks s -> ~ run_free (bitmap s) a count).
Proof. apply alloc_blocks_cases. Qed.

(** Blocks 1, 2, 3 and 8 to 63 are free. *)
Definition demo_blocks : bpmm := mk_bpmm 64 5 262144 [0xF1] 1 1 true false.

Lemma demo_blocks_wf : bpmm_wf demo_blocks.
Proof. constructor; try done; cbn; try lia. repeat constructor; vm_compute; congruence. Qed.

Lemma pmm_alloc_blocks_first_fit_witness :
  (exists a s', pmm_alloc_blocks demo_blocks 4 = Ok (a * BLOCK_SIZE, s') /\
     1 <= a /\ a + 4 <= 64 /\ run_free [0xF1] a 4 /\ (forall a', 1 <= a' < a -> ~ run_free [0xF1] a' 4) /\
     blocks_post demo_blocks a 4 true (5 + 4) (a + 4) s') \/
  (pmm_alloc_blocks demo_blocks 4 = Ok (0, demo_blocks) /\
     forall a, 1 <= a -> a + 4 <= 64 -> ~ run_free [0xF1] a 4).
Proof. exact (pmm_alloc_blocks_first_fit demo_blocks 4 demo_blocks_wf ltac:(lia)). Defined.

(** Releasing the run that an allocation returned (other than block 0)
    restores every bit and the counter, and moves the hint back to it. *)
Theorem pmm_alloc_free_roundtrip (s s1 : bpmm) (count a : Z) :
  bpmm_wf s -> 0 < count < 2 ^ 52 -> 0 < a -> in_u64 (used_blocks s) ->
  pmm_alloc_blocks s count = Ok (a * BLOCK_SIZE, s1) ->
  exists s2, pmm_free_blocks s1 (a * BLOCK_SIZE) count = Ok s2 /\ bpmm_wf s2 /\
    (forall g, block_used (bitmap s2) g = block_used (bitmap s) g) /\
    used_blocks s2 = used_blocks s /\ last_free_block s2 = a.
Proof.
  intros Hwf Hc Ha Hu Hr. unfold BLOCK_SIZE in *.
  destruct (alloc_blocks_cases s count Hwf Hc) as [(b & s1' & Hr' & Hb & Hb' & Hf & _ & Hp)|[Hr' _]];
    rewrite Hr in Hr'; injection Hr' as Heq Hs; [|lia]. unfold BLOCK_SIZE in *.
  assert (b = a) as -> by lia. subst s1'. destruct Hp as [W1 B1 C1 H1 T1].
  destruct (free_blocks_spec s1 a count W1 Hc Ha) as (s2 & Hf2 & [W2 B2 C2 H2 T2]); [lia|].
  exists s2. split; [done|]. split; [done|]. split; [|split].
  - intros g. rewrite B2, B1. destruct ((a <=? g) && (g <? a + count)) eqn:E; [|done].
    symmetry. apply Hf. zbool. lia.
  - rewrite C2, C1. unfold u64, wrap. rewrite Zminus_mod_idemp_l.
    replace (used_blocks s + count - count) with (used_blocks s) by lia. by apply Z.mod_small.
  - rewrite H2, H1. zcase (a <? a + count).
Qed.

(** The demo state after the allocation of four blocks. *)
Definition demo_blocks4 : bpmm := mk_bpmm 64 9 262144 [0xFF1] 1 12 true false.

Lemma demo_blocks_alloc : pmm_alloc_blocks demo_blocks 4 = Ok (8 * BLOCK_SIZE, demo_blocks4).
Proof. reflexivity. Qed.

Lemma pmm_alloc_free_roundtrip_witness :
  exists s2, pmm_free_blocks demo_blocks4 (8 * BLOCK_SIZE) 4 = Ok s2 /\ bpmm_wf s2 /\
    (forall g, block_used (bitmap s2) g = block_used [0xF1] g) /\
    used_blocks s2 = 5 /\ last_free_block s2 = 8.
Proof.
  exact (pmm_alloc_free_roundtrip demo_blocks demo_blocks4 4 8 demo_blocks_wf ltac:(lia) ltac:(lia)
    ltac:(unfold in_u64; cbn; lia) demo_blocks_alloc).
Defined.

(** The retries of [pmm_alloc_block_aligned] never help: when the first run
    found is not aligned, the release moves the hint back to it, all three
    attempts return that run, and the result is [NULL], even if an aligned run is
    free further up. *)
Theorem pmm_alloc_aligned_retry_futile (s : bpmm) (alignment a : Z) (s1 : bpmm) :
  bpmm_wf s -> 0 < alignment < 2 ^ 52 -> alignment mod BLOCK_SIZE = 0 ->
  pmm_alloc_blocks s (alignment / BLOCK_SIZE) = Ok (a * BLOCK_SIZE, s1) ->
  (a * BLOCK_SIZE) mod alignment <> 0 ->
  exists s', pmm_alloc_block_aligned s alignment = Ok (0, s').
Proof.
  intros Hwf Hal Hmod Hr Hun. set (k := alignment / BLOCK_SIZE) in *.
  assert (0 < k < 2 ^ 52) as Hk.
  { unfold k, BLOCK_SIZE in *. Z.div_mod_to_equations. lia. }
  destruct (alloc_blocks_cases s k Hwf Hk) as [(b & s1' & Hr' & Hb & Hb' & Hf & _ & P1)|[Hr' _]];
    rewrite Hr in Hr'; injection Hr' as Heq Hs; [|by rewrite Heq, Z.mod_0_l in Hun by lia].
  assert (b = a) as -> by (unfold BLOCK_SIZE in *; lia). subst s1'.
  pose proof (bw_hint _ Hwf) as Hh. pose proof (bp_wf _ _ _ _ _ _ _ P1) as W1.
  assert (0 < a) as Ha. { destruct (Z.eq_dec a 0) as [->|]; [|lia]. by rewrite Z.mul_0_l, Z.mod_0_l in Hun by lia. }
  pose proof (bp_total _ _ _ _ _ _ _ P1) as T1.
  destruct (free_blocks_spec s1 a k W1 Hk Ha) as (s2 & F2 & P2); [lia|].
  destruct (aligned_retry s k a s1 s2 Hwf Hk Ha Hb Hb' Hf P1 P2) as (s3 & A3 & P3 & H2 & R2).
  pose proof (bp_wf _ _ _ _ _ _ _ P2) as W2. pose proof (bp_total _ _ _ _ _ _ _ P2) as T2.
  pose proof (bp_wf _ _ _ _ _ _ _ P3) as W3. pose proof (bp_total _ _ _ _ _ _ _ P3) as T3.
  destruct (free_blocks_spec s3 a k W3 Hk Ha) as (s4 & F4 & P4); [lia|].
  destruct (aligned_retry s2 k a s3 s4 W2 Hk Ha ltac:(lia) ltac:(lia) R2 P3 P4) as (s5 & A5 & P5 & _).
  pose proof (bp_wf _ _ _ _ _ _ _ P5) as W5. pose proof (bp_total _ _ _ _ _ _ _ P5) as T5.
  pose proof (bp_total _ _ _ _ _ _ _ P4) as T4.
  destruct (free_blocks_spec s5 a k W5 Hk Ha) as (s6 & F6 & _); [lia|].
  exists s6. unfold pmm_alloc_block_aligned. rewrite Hmod. cbn [ASSERT Z.eqb mbind outcome_bind].
  cbn [aligned_attempts]. fold k. unfold cmod. zcase (alignment =? 0).
  rewrite Hr. cbn [mbind outcome_bind]. apply Z.eqb_neq in Hun. rewrite Hun, F2. cbn [mbind outcome_bind].
  rewrite A3. cbn [mbind outcome_bind]. rewrite Hun, F4. cbn [mbind outcome_bind].
  rewrite A5. cbn [mbind outcome_bind]. rewrite Hun, F6. done.
Qed.

Definition demo_blocks2 : bpmm := mk_bpmm 64 7 262144 [0xF7] 1 3 true false.

Lemma demo_blocks_alloc2 : pmm_alloc_blocks demo_blocks (8192 / BLOCK_SIZE) = Ok (1 * BLOCK_SIZE, demo_blocks2).
Proof. reflexivity. Qed.

Lemma pmm_alloc_aligned_retry_futile_witness :
  exists s', pmm_alloc_block_aligned demo_blocks 8192 = Ok (0, s').
Proof.
  exact (pmm_alloc_aligned_retry_futile demo_blocks 8192 1 demo_blocks2 demo_blocks_wf ltac:(lia) eq_refl
    demo_blocks_alloc2 ltac:(vm_compute; congruence)).
Defined.

(** There is no check against a double release: releasing a free block again
    succeeds and decrements the counter, which wraps below zero. *)
Theorem pmm_double_free_underflows :
  exists s1 s2, pmm_free_block (mk_bpmm 64 1 262144 [0x2] 1 2 true false) 4096 = Ok s1 /\
    used_blocks s1 = 0 /\ pmm_free_block s1 4096 = Ok s2 /\ used_blocks s2 = UINT64_MAX.
Proof. do 2 eexists. repeat split. Qed.
