(* ===== verification/Paging.v ===== *)
(** Page tables of [src/kernel/arch/x86_64/mm/paging.c] and the virtual memory
    layer of [src/kernel/arch/x86_64/mm/vmm.c] on top of the block allocator.

    The code reaches page tables through pointers, so it depends on the page
    tables in force while it runs, which may be those it edits. [view s v] is the
    physical address that the pointer [v] reaches through the tables CR3 points to,
    [None] a page fault. *)
From Stdlib Require Import ZArith Lia.
From stdpp Require Import strings numbers gmap base.
From stdpp Require Import list.
From S2P Require Import Prelude Pmm Vmm BlockPmm.
Open Scope Z_scope.

Definition KERNEL_VIRTUAL_BASE : Z := 0xFFFF800000000000.
Definition PAGE_MASK : Z := 0xFFFFFFFFFFFFF000.
Definition PAGE_FLAGS_MASK : Z := 0xFFF.
Definition PAGE_PRESENT : Z := 1.
Definition PAGE_WRITABLE : Z := 2.
Definition ALIGN_PAGE (addr : Z) : Z := Z.land addr PAGE_MASK.
Definition PML4_INDEX (addr : Z) : Z := Z.land (Z.shiftr addr 39) 0x1FF.
Definition PDPT_INDEX (addr : Z) : Z := Z.land (Z.shiftr addr 30) 0x1FF.
Definition PD_INDEX (addr : Z) : Z := Z.land (Z.shiftr addr 21) 0x1FF.
Definition PT_INDEX (addr : Z) : Z := Z.land (Z.shiftr addr 12) 0x1FF.

(** Memory, the block allocator, the [pml4] pointer, CR3, the VMM globals and the
    translations the processor has cached, by virtual page number. *)
Record pg := mk_pg {
  pg_mem : Z -> Z;
  pg_blocks : bpmm;
  pml4 : Z;
  cr3 : Z;
  next_free_page : Z;
  vmm_lock : bool;
  pg_tlb : Z -> option Z
}.

Definition with_mem (s : pg) (m : Z -> Z) : pg :=
  mk_pg m (pg_blocks s) (pml4 s) (cr3 s) (next_free_page s) (vmm_lock s) (pg_tlb s).
Definition with_bpmm (s : pg) (b : bpmm) : pg :=
  mk_pg (pg_mem s) b (pml4 s) (cr3 s) (next_free_page s) (vmm_lock s) (pg_tlb s).
Definition with_vmm_lock (s : pg) (l : bool) : pg :=
  mk_pg (pg_mem s) (pg_blocks s) (pml4 s) (cr3 s) (next_free_page s) l (pg_tlb s).
Definition with_next_free (s : pg) (n : Z) : pg :=
  mk_pg (pg_mem s) (pg_blocks s) (pml4 s) (cr3 s) n (vmm_lock s) (pg_tlb s).
Definition with_tlb (s : pg) (tlb : Z -> option Z) : pg :=
  mk_pg (pg_mem s) (pg_blocks s) (pml4 s) (cr3 s) (next_free_page s) (vmm_lock s) tlb.

(** [invlpg]: the page's cached translation is dropped. *)
Definition flush_page (s : pg) (va : Z) : pg :=
  with_tlb s (fun n => if n =? vpn va then None else pg_tlb s n).

(** What a pointer reaches now. *)
Definition view (s : pg) (v : Z) : option Z :=
  match translate (pg_mem s) (cr3 s) v with
  | Some e => Some (pte_addr e + v mod PAGE_SIZE)
  | None => None
  end.

Definition rd (s : pg) (p : Z) : outcome Z :=
  match view s p with Some a => Ok (pg_mem s a) | None => Undef "page fault" end.
Definition wr (s : pg) (p x : Z) : outcome pg :=
  match view s p with Some a => Ok (with_mem s (upd (pg_mem s) a x)) | None => Undef "page fault" end.

(** [table[index]]. *)
Definition slot (table index : Z) : Z := u64 (table + 8 * index).

(** The loop that clears the entries [i .. 511] of a table. *)
Fixpoint clear_table (n : nat) (s : pg) (table i : Z) : outcome pg :=
  match n with
  | O => Ok s
  | S n' => s ← wr s (slot table i) 0 ; clear_table n' s table (i + 1)
  end.

Definition get_next_level (s : pg) (table index : Z) (create : bool) (flags : Z) : outcome (Z * pg) :=
  e ← rd s (slot table index) ;
  if Z.land e PAGE_PRESENT =? 0 then
    if negb create then Ok (0, s)
    else
      '(new_table, b) ← pmm_alloc_block (pg_blocks s) ;
      let s := with_bpmm s b in
      if new_table =? 0 then Ok (0, s)
      else
        s ← clear_table 512 s new_table 0 ;
        s ← wr s (slot table index)
              (Z.lor (Z.lor (ALIGN_PAGE new_table) (Z.land flags PAGE_FLAGS_MASK)) PAGE_PRESENT) ;
        e ← rd s (slot table index) ;
        Ok (u64 (ALIGN_PAGE e + KERNEL_VIRTUAL_BASE), s)
  else Ok (u64 (ALIGN_PAGE e + KERNEL_VIRTUAL_BASE), s).

(** Loading CR3 drops the cached translations that are not global. *)
Definition paging_load_directory (s : pg) (pml4_addr : Z) : pg :=
  mk_pg (pg_mem s) (pg_blocks s) (pml4 s) pml4_addr (next_free_page s) (vmm_lock s)
    (fun n => match pg_tlb s n with
              | Some e => if Z.land e PTE_GLOBAL =? 0 then None else Some e
              | None => None
              end).
Definition paging_get_directory (s : pg) : Z := cr3 s.

Definition paging_init (s : pg) : outcome pg :=
  '(p, b) ← pmm_alloc_block_aligned (pg_blocks s) PAGE_SIZE ;
  let s := mk_pg (pg_mem s) b p (cr3 s) (next_free_page s) (vmm_lock s) (pg_tlb s) in
  s ← clear_table 512 s (pml4 s) 0 ;
  Ok (paging_load_directory s (u64 (pml4 s - KERNEL_VIRTUAL_BASE))).

Definition paging_map_page (s : pg) (phys_addr virt_addr flags : Z) : outcome (Z * pg) :=
  if negb (Z.land phys_addr (not64 PAGE_MASK) =? 0) then Ok (0, s) else
  '(pdpt, s) ← get_next_level s (pml4 s) (PML4_INDEX virt_addr) true flags ;
  if pdpt =? 0 then Ok (0, s) else
  '(pd, s) ← get_next_level s pdpt (PDPT_INDEX virt_addr) true flags ;
  if pd =? 0 then Ok (0, s) else
  '(pt, s) ← get_next_level s pd (PD_INDEX virt_addr) true flags ;
  if pt =? 0 then Ok (0, s) else
  s ← wr s (slot pt (PT_INDEX virt_addr))
        (Z.lor (Z.lor (ALIGN_PAGE phys_addr) (Z.land flags PAGE_FLAGS_MASK)) PAGE_PRESENT) ;
  Ok (virt_addr, flush_page s virt_addr).

(** The walk shared by the queries: the page table of the address, or 0. *)
Definition find_pt (s : pg) (virt_addr : Z) : outcome Z :=
  '(pdpt, s) ← get_next_level s (pml4 s) (PML4_INDEX virt_addr) false 0 ;
  if pdpt =? 0 then Ok 0 else
  '(pd, s) ← get_next_level s pdpt (PDPT_INDEX virt_addr) false 0 ;
  if pd =? 0 then Ok 0 else
  '(pt, s) ← get_next_level s pd (PD_INDEX virt_addr) false 0 ;
  Ok pt.

Definition paging_unmap_page (s : pg) (virt_addr : Z) : outcome pg :=
  pt ← find_pt s virt_addr ;
  if pt =? 0 then Ok s
  else s ← wr s (slot pt (PT_INDEX virt_addr)) 0 ; Ok (flush_page s virt_addr).

Definition paging_is_page_present (s : pg) (virt_addr : Z) : outcome bool :=
  pt ← find_pt s virt_addr ;
  if pt =? 0 then Ok false
  else e ← rd s (slot pt (PT_INDEX virt_addr)) ; Ok (negb (Z.land e PAGE_PRESENT =? 0)).

Definition paging_get_physical_address (s : pg) (virt_addr : Z) : outcome Z :=
  pt ← find_pt s virt_addr ;
  if pt =? 0 then Ok 0
  else e ← rd s (slot pt (PT_INDEX virt_addr)) ;
       Ok (Z.lor (ALIGN_PAGE e) (Z.land virt_addr (not64 PAGE_MASK))).

Fixpoint paging_map_range (pages : nat) (s : pg) (phys_start virt_start flags : Z) : outcome pg :=
  match pages with
  | O => Ok s
  | S n =>
      '(_, s) ← paging_map_page s phys_start virt_start flags ;
      paging_map_range n s (u64 (phys_start + PAGE_SIZE)) (u64 (virt_start + PAGE_SIZE)) flags
  end.

Definition paging_identity_map (pages : nat) (s : pg) (start flags : Z) : outcome pg :=
  paging_map_range pages s start start flags.

(** ** vmm.c *)

Definition VMM_FLAGS_RW : Z := Z.lor 1 2.
Definition is_page_aligned (addr : Z) : bool := Z.land addr (PAGE_SIZE - 1) =? 0.

(** The rollback of [vmm_alloc_pages]: [i] runs down to 0. *)
Fixpoint alloc_rollback (i : nat) (s : pg) (current_virt : Z) : outcome pg :=
  match i with
  | O => Ok s
  | S i' =>
      let a := u64 (current_virt - PAGE_SIZE * (Z.of_nat i' + 1)) in
      b ← pmm_free_block (pg_blocks s) a ;
      s ← paging_unmap_page (with_bpmm s b) a ;
      alloc_rollback i' s current_virt
  end.

(** [n] pages are left, [i] are done; [None] reports failure. *)
Fixpoint alloc_pages_loop (n i : nat) (s : pg) (current_virt : Z) : outcome (option Z * pg) :=
  match n with
  | O => Ok (Some current_virt, s)
  | S n' =>
      '(phys, b) ← pmm_alloc_block (pg_blocks s) ;
      let s := with_bpmm s b in
      if phys =? 0 then s ← alloc_rollback i s current_virt ; Ok (None, s)
      else
        '(r, s) ← paging_map_page s phys current_virt VMM_FLAGS_RW ;
        if r =? 0 then
          b ← pmm_free_block (pg_blocks s) phys ; Ok (None, with_bpmm s b)
        else alloc_pages_loop n' (S i) s (u64 (current_virt + PAGE_SIZE))
  end.

Definition vmm_alloc_pages (s : pg) (count : nat) : outcome (Z * pg) :=
  if (count =? 0)%nat then Ok (0, s)
  else
    l ← spin_acquire (vmm_lock s) ;
    let s := with_vmm_lock s l in
    let base_virt := next_free_page s in
    '(r, s) ← alloc_pages_loop count 0 s base_virt ;
    match r with
    | None => Ok (0, with_vmm_lock s false)
    | Some current_virt => Ok (base_virt, with_vmm_lock (with_next_free s current_virt) false)
    end.

Fixpoint free_pages_loop (n : nat) (s : pg) (virt : Z) : outcome pg :=
  match n with
  | O => Ok s
  | S n' =>
      phys ← paging_get_physical_address s virt ;
      s ← (if negb (phys =? 0) then
             b ← pmm_free_block (pg_blocks s) phys ; paging_unmap_page (with_bpmm s b) virt
           else Ok s) ;
      free_pages_loop n' s (u64 (virt + PAGE_SIZE))
  end.

Definition vmm_free_pages (s : pg) (addr : Z) (count : nat) : outcome pg :=
  if (addr =? 0) || (count =? 0)%nat || negb (is_page_aligned addr) then Ok s
  else
    l ← spin_acquire (vmm_lock s) ;
    s ← free_pages_loop count (with_vmm_lock s l) addr ;
    Ok (with_vmm_lock s false).

Definition vmm_map_page (s : pg) (phys virt flags : Z) : outcome (bool * pg) :=
  if negb (is_page_aligned phys) || negb (is_page_aligned virt) then Ok (false, s)
  else
    l ← spin_acquire (vmm_lock s) ;
    '(r, s) ← paging_map_page (with_vmm_lock s l) phys virt flags ;
    Ok (negb (r =? 0), with_vmm_lock s false).

Definition vmm_unmap_page (s : pg) (virt : Z) : outcome pg :=
  if negb (is_page_aligned virt) then Ok s
  else
    l ← spin_acquire (vmm_lock s) ;
    s ← paging_unmap_page (with_vmm_lock s l) virt ;
    Ok (with_vmm_lock s false).

Fixpoint unmap_back (i : nat) (s : pg) (virt_start : Z) : outcome pg :=
  match i with
  | O => Ok s
  | S i' => s ← paging_unmap_page s (u64 (virt_start + Z.of_nat i' * PAGE_SIZE)) ; unmap_back i' s virt_start
  end.

Fixpoint map_range_loop (n i : nat) (s : pg) (phys_start virt_start flags : Z) : outcome (bool * pg) :=
  match n with
  | O => Ok (true, s)
  | S n' =>
      let phys := u64 (phys_start + Z.of_nat i * PAGE_SIZE) in
      let virt := u64 (virt_start + Z.of_nat i * PAGE_SIZE) in
      '(r, s) ← paging_map_page s phys virt flags ;
      if r =? 0 then s ← unmap_back i s virt_start ; Ok (false, s)
      else map_range_loop n' (S i) s phys_start virt_start flags
  end.

Definition vmm_map_range (s : pg) (phys_start virt_start : Z) (pages : nat) (flags : Z) : outcome (bool * pg) :=
  if negb (is_page_aligned phys_start) || negb (is_page_aligned virt_start) then Ok (false, s)
  else
    l ← spin_acquire (vmm_lock s) ;
    '(r, s) ← map_range_loop pages 0 (with_vmm_lock s l) phys_start virt_start flags ;
    Ok (r, with_vmm_lock s false).

Definition vmm_protect_page (s : pg) (virt flags : Z) : outcome pg :=
  if negb (is_page_aligned virt) then Ok s
  else
    l ← spin_acquire (vmm_lock s) ;
    let s := with_vmm_lock s l in
    entry ← paging_get_physical_address s virt ;
    s ← (if negb (entry =? 0) then
           e ← rd s entry ;
           wr s entry (Z.lor (Z.land e (not64 0xFFF)) (Z.land flags 0xFFF))
         else Ok s) ;
    Ok (with_vmm_lock s false).

Definition vmm_init (s : pg) : outcome pg :=
  s ← paging_init s ;
  '(_, s) ← vmm_map_range s 0 0 1024 VMM_FLAGS_RW ;
  '(_, s) ← vmm_map_range s 0 KERNEL_VIRTUAL_BASE 512 VMM_FLAGS_RW ;
  Ok (paging_load_directory s (paging_get_directory s)).

Definition vmm_get_free_virtual (s : pg) : Z := next_free_page s.

(** ** Queries against the hardware walk *)

Lemma page_mask_bits i : 0 <= i -> Z.testbit PAGE_MASK i = (12 <=? i) && (i <? 64).
Proof.
  intros Hi. change PAGE_MASK with (Z.shiftl (Z.ones 52) 12).
  rewrite Z.shiftl_spec by lia. destruct (Z.leb_spec 12 i).
  - rewrite Z.testbit_ones_nonneg by lia. cbn [andb].
    destruct (Z.ltb_spec (i - 12) 52), (Z.ltb_spec i 64); (done || lia).
  - rewrite Z.testbit_neg_r by lia. done.
Qed.

(** Without high bits the two masks agree. *)
Lemma align_page_addr e : 0 <= e < 2 ^ 52 -> ALIGN_PAGE e = pte_addr e.
Proof.
  intros He. unfold ALIGN_PAGE, pte_addr. apply Z.bits_inj'. intros i Hi.
  rewrite !Z.land_spec, page_mask_bits, addr_mask_bits by done.
  destruct (Z.ltb_spec i 52).
  - assert ((i <? 64) = true) as -> by lia. done.
  - rewrite (testbit_high e 52 i) by lia. done.
Qed.

(** The pointers in use reach the tables: the root through [pml4], the others
    at the kernel's offset, and interior entries carry no bits above 51. *)
Record tables_visible (s : pg) (root : Z) (lvl : Z -> nat) : Prop := {
  tv_tree : pt_tree (pg_mem s) root lvl;
  tv_root : forall i, 0 <= i < 512 -> view s (slot (pml4 s) i) = Some (root + 8 * i);
  tv_low : forall t, lvl t <> 0%nat -> t < 2 ^ 46;
  tv_high : forall t i, lvl t <> 0%nat -> 0 <= i < 512 ->
    view s (slot (t + KERNEL_VIRTUAL_BASE) i) = Some (t + 8 * i);
  tv_entries : forall t i k, lvl t = S (S k) -> 0 <= i < 512 ->
    present (pg_mem s (t + 8 * i)) = true -> pg_mem s (t + 8 * i) < 2 ^ 52
}.

Section Queries.
Context (s : pg) (root : Z) (lvl : Z -> nat).
Context (HV : tables_visible s root lvl).

(** One level of a walk without allocation. *)
Lemma next_level_query ptr t i k :
  lvl t = S (S k) -> 0 <= i < 512 -> view s (slot ptr i) = Some (t + 8 * i) ->
  get_next_level s ptr i false 0 =
    (if present (pg_mem s (t + 8 * i))
     then Ok (pte_addr (pg_mem s (t + 8 * i)) + KERNEL_VIRTUAL_BASE, s) else Ok (0, s)) /\
  (present (pg_mem s (t + 8 * i)) = true -> lvl (pte_addr (pg_mem s (t + 8 * i))) = S k /\
     (pte_addr (pg_mem s (t + 8 * i)) + KERNEL_VIRTUAL_BASE =? 0) = false).
Proof.
  intros Ht Hi Hv. pose proof (tv_tree _ _ _ HV) as HT. unfold get_next_level, rd. rewrite Hv.
  cbn [mbind outcome_bind].
  change (Z.land ?e PAGE_PRESENT =? 0) with (Z.land e PTE_PRESENT =? 0).
  assert (forall e, (Z.land e PTE_PRESENT =? 0) = negb (present e)) as Hpr.
  { intros e. unfold present. by rewrite negb_involutive. }
  rewrite Hpr. destruct (present (pg_mem s (t + 8 * i))) eqn:E; cbn [negb]; [|done].
  destruct (tr_child _ _ _ HT t i k Ht Hi E) as [Hc _].
  pose proof (tr_word _ _ _ HT t i ltac:(lia) Hi) as Hw. unfold in_u64 in Hw.
  pose proof (tv_entries _ _ _ HV t i k Ht Hi E).
  pose proof (tv_low _ _ _ HV (pte_addr (pg_mem s (t + 8 * i))) ltac:(lia)).
  pose proof (pte_addr_range (pg_mem s (t + 8 * i))) as [? _].
  rewrite align_page_addr by lia. unfold KERNEL_VIRTUAL_BASE.
  rewrite u64_small by (unfold in_u64; lia). split; [done|]. intros _. split; [done|]. lia.
Qed.

Lemma find_pt_spec va :
  (exists p, find_pt s va = Ok (p + KERNEL_VIRTUAL_BASE) /\ leaf_table (pg_mem s) 4 root va = Some p /\
     lvl p = 1%nat /\ (p + KERNEL_VIRTUAL_BASE =? 0) = false) \/
  (find_pt s va = Ok 0 /\ leaf_table (pg_mem s) 4 root va = None).
Proof.
  pose proof (tr_root _ _ _ (tv_tree _ _ _ HV)) as L4.
  pose proof (level_index_range 4 va : 0 <= PML4_INDEX va < 512) as I4.
  pose proof (level_index_range 3 va : 0 <= PDPT_INDEX va < 512) as I3.
  pose proof (level_index_range 2 va : 0 <= PD_INDEX va < 512) as I2.
  unfold find_pt. cbn [leaf_table level_index].
  destruct (next_level_query (pml4 s) root (PML4_INDEX va) 2 L4 I4 (tv_root _ _ _ HV _ I4)) as [-> H4].
  change (pml4_index va) with (PML4_INDEX va).
  destruct (present (pg_mem s (root + 8 * PML4_INDEX va))); cbn [mbind outcome_bind]; [|by right].
  destruct (H4 eq_refl) as [L3 ->]. set (c3 := pte_addr _) in *.
  destruct (next_level_query (c3 + KERNEL_VIRTUAL_BASE) c3 (PDPT_INDEX va) 1 L3 I3
    (tv_high _ _ _ HV c3 _ ltac:(lia) I3)) as [-> H3].
  change (pdpt_index va) with (PDPT_INDEX va).
  destruct (present (pg_mem s (c3 + 8 * PDPT_INDEX va))); cbn [mbind outcome_bind]; [|by right].
  destruct (H3 eq_refl) as [L2 ->]. set (c2 := pte_addr (pg_mem s (c3 + _))) in *.
  destruct (next_level_query (c2 + KERNEL_VIRTUAL_BASE) c2 (PD_INDEX va) 0 L2 I2
    (tv_high _ _ _ HV c2 _ ltac:(lia) I2)) as [-> H2].
  change (pd_index va) with (PD_INDEX va).
  destruct (present (pg_mem s (c2 + 8 * PD_INDEX va))); cbn [mbind outcome_bind]; [|by right].
  destruct (H2 eq_refl) as [L1 Hn]. left. eauto.
Qed.

(** The walk ends in the leaf entry of the page table found. *)
Lemma translate_leaf m va :
  translate m root va =
  match leaf_table m 4 root va with
  | Some p => if present (m (p + 8 * pt_index va)) then Some (m (p + 8 * pt_index va)) else None
  | None => None
  end.
Proof. unfold translate. cbn [walk leaf_table level_index]. repeat case_match; congruence. Qed.
End Queries.

(** ** Properties *)

(** The physical address of a page that translates. *)
Lemma get_physical_spec s root lvl va e :
  tables_visible s root lvl -> translate (pg_mem s) root va = Some e ->
  paging_get_physical_address s va = Ok (Z.lor (ALIGN_PAGE e) (Z.land va (not64 PAGE_MASK))).
Proof.
  intros HV He. unfold paging_get_physical_address. rewrite translate_leaf in He.
  pose proof (level_index_range 1 va : 0 <= PT_INDEX va < 512) as I1.
  destruct (find_pt_spec s root lvl HV va) as [(p & -> & El & Hl & Hn)|[_ El]]; rewrite El in He; [|done].
  cbn [mbind outcome_bind]. rewrite Hn. unfold rd. rewrite (tv_high _ _ _ HV p _ ltac:(lia) I1).
  cbn [mbind outcome_bind]. change (pt_index va) with (PT_INDEX va) in He.
  destruct (present (pg_mem s (p + 8 * PT_INDEX va))); [|done]. by injection He as <-.
Qed.

(** The page-table queries agree with the hardware's walk: a page is reported
    present exactly when the address translates, and then the physical address
    returned is the frame of the leaf entry with the page offset added in. *)
Theorem paging_query_correct (s : pg) (root : Z) (lvl : Z -> nat) (va : Z) :
  tables_visible s root lvl ->
  paging_is_page_present s va =
    Ok (match translate (pg_mem s) root va with Some _ => true | None => false end) /\
  forall e, translate (pg_mem s) root va = Some e ->
    paging_get_physical_address s va = Ok (Z.lor (ALIGN_PAGE e) (Z.land va (not64 PAGE_MASK))).
Proof.
  intros HV. split; [|intros e; by apply (get_physical_spec s root lvl)].
  unfold paging_is_page_present. rewrite !translate_leaf.
  pose proof (level_index_range 1 va : 0 <= PT_INDEX va < 512) as I1.
  destruct (find_pt_spec s root lvl HV va) as [(p & -> & -> & Hl & Hn)|[-> ->]]; cbn [mbind outcome_bind];
    [|done].
  rewrite Hn. unfold rd. rewrite (tv_high _ _ _ HV p _ ltac:(lia) I1). cbn [mbind outcome_bind].
  change (pt_index va) with (PT_INDEX va). change PAGE_PRESENT with PTE_PRESENT.
  fold (present (pg_mem s (p + 8 * PT_INDEX va))). by destruct (present (pg_mem s (p + 8 * PT_INDEX va))).
Qed.

(** Managed memory is reached at its physical address and at the kernel's offset, as
    [vmm_init] means to set it up. *)
Record blocks_visible (s : pg) (total : Z) : Prop := {
  bv_low : forall b, 0 <= b < total -> view s (b * 4096) = Some (b * 4096);
  bv_high : forall b, 0 <= b < total -> view s (b * 4096 + KERNEL_VIRTUAL_BASE) = Some (b * 4096)
}.

(** A page that is reached is reached with all its words. *)
Lemma view_slot s p q i :
  (4096 | p) -> 0 <= p -> p + 4096 <= 2 ^ 64 -> view s p = Some q -> 0 <= i < 512 -> view s (slot p i) = Some (q + 8 * i).
Proof.
  intros [n ->] Hp Hm Hv Hi. unfold slot, view in *. rewrite u64_small by (unfold in_u64; lia).
  rewrite (translate_vpn _ _ (n * 4096 + 8 * i) (n * 4096)).
  - destruct (translate _ _ _); [|done]. injection Hv as <-. unfold PAGE_SIZE. change 0x1000 with 4096.
    rewrite Z.mod_mul, (Z.add_comm (n * 4096)), Z.mod_add, (Z.mod_small (8 * i)) by lia. f_equal. lia.
  - unfold vpn. f_equal. rewrite Z.div_mul by done. rewrite Z.add_comm, Z.div_add, Z.div_small by lia. lia.
Qed.

Lemma slot_low s total b i :
  blocks_visible s total -> total * 4096 <= 2 ^ 46 -> 0 <= b < total -> 0 <= i < 512 ->
  view s (slot (b * 4096) i) = Some (b * 4096 + 8 * i).
Proof. intros HV Ht Hb Hi. apply view_slot; [by exists b|lia|lia|by apply (bv_low _ _ HV)|done]. Qed.

Lemma slot_high s total b i :
  blocks_visible s total -> total * 4096 <= 2 ^ 46 -> 0 <= b < total -> 0 <= i < 512 ->
  view s (slot (b * 4096 + KERNEL_VIRTUAL_BASE) i) = Some (b * 4096 + 8 * i).
Proof.
  intros HV Ht Hb Hi. apply view_slot; [|unfold KERNEL_VIRTUAL_BASE; lia..|by apply (bv_high _ _ HV)|done].
  apply Z.divide_add_r; [by exists b|by exists 0xFFFF800000000].
Qed.

(** A machine of 64 blocks. The tables in force, in blocks 1 to 4, 7, 8 and 11 to 13, map
    the blocks at their own address and at the kernel's offset, and page 5 GiB to block 9;
    blocks 5 and 6 are free. *)
Definition demo_mem (a : Z) : Z :=
  if a =? 0x1000 then 0x2003 else if a =? 0x1000 + 8 * 256 then 0xB003
  else if a =? 0x2000 then 0x7003 else if a =? 0x2000 + 8 * 5 then 0x3003
  else if a =? 0x3000 then 0x4003 else if a =? 0x4000 then 0x9003
  else if a =? 0x7000 then 0x8003 else if a =? 0xB000 then 0xC003 else if a =? 0xC000 then 0xD003
  else if (0x8000 <=? a) && (a <? 0x8000 + 8 * 64) && (a mod 8 =? 0) then (a - 0x8000) * 512 + 3
  else if (0xD000 <=? a) && (a <? 0xD000 + 8 * 64) && (a mod 8 =? 0) then (a - 0xD000) * 512 + 3
  else if a =? 0x9000 then 0xABCDE else 0.
Definition demo_pg : pg :=
  mk_pg demo_mem (mk_bpmm 64 62 262144 [UINT64_MAX - 0x60] 1 5 true false) 0x1000 0x1000
    (5 * 2 ^ 30 + 4096) false (fun _ => None).
Definition demo_pg_lvl (t : Z) : nat :=
  if t =? 0x1000 then 4%nat else if (t =? 0x2000) || (t =? 0xB000) then 3%nat
  else if (t =? 0x3000) || (t =? 0x7000) || (t =? 0xC000) then 2%nat
  else if (t =? 0x4000) || (t =? 0x8000) || (t =? 0xD000) then 1%nat else 0%nat.

(** The same machine without the map at the kernel's offset, as at boot. *)
Definition boot_pg : pg := with_mem demo_pg (upd demo_mem (0x1000 + 8 * 256) 0).

Lemma demo_pg_tables t : demo_pg_lvl t <> 0%nat ->
  t ∈ [0x1000; 0x2000; 0x3000; 0x4000; 0x7000; 0x8000; 0xB000; 0xC000; 0xD000].
Proof.
  unfold demo_pg_lvl. rewrite !elem_of_cons. intros H.
  repeat match type of H with context [t =? ?c] => destruct (Z.eqb_spec t c); cbn [orb] in H end; try (subst; by auto 20).
Qed.

Lemma demo_mem_range a : 0 <= demo_mem a < 2 ^ 52.
Proof. unfold demo_mem. repeat case_match; zbool; lia. Qed.

(** The interior entries: table, index, and level of the table below. *)
Definition demo_entries : list (Z * Z * nat) :=
  [(0x1000, 0, 3%nat); (0x1000, 256, 3%nat); (0x2000, 0, 2%nat); (0x2000, 5, 2%nat); (0x3000, 0, 1%nat);
   (0x7000, 0, 1%nat); (0xB000, 0, 2%nat); (0xC000, 0, 1%nat)].

Lemma demo_entry t i k :
  demo_pg_lvl t = S (S k) -> 0 <= i < 512 -> present (demo_mem (t + 8 * i)) = true -> (t, i, S k) ∈ demo_entries.
Proof.
  intros Ht Hi Hp. unfold demo_mem in Hp. assert (demo_pg_lvl t <> 0%nat) as Hn by lia. apply demo_pg_tables in Hn.
  rewrite !elem_of_cons, elem_of_nil in Hn. unfold demo_entries. rewrite !elem_of_cons.
  repeat (destruct Hn as [->|Hn]; [|try by apply elem_of_nil in Hn]); cbn in Ht; try done; injection Ht as <-;
    repeat case_match; zbool; try done; first
    [ lia | assert (i = 0) as -> by lia; by auto 20 | assert (i = 256) as -> by lia; by auto 20
    | assert (i = 5) as -> by lia; by auto 20 ].
Qed.

Lemma demo_blocks_visible : blocks_visible demo_pg 64.
Proof.
  assert (forallb (fun b => bool_decide (view demo_pg (b * 4096) = Some (b * 4096)) &&
    bool_decide (view demo_pg (b * 4096 + KERNEL_VIRTUAL_BASE) = Some (b * 4096))) (seqZ 0 64) = true) as H
    by (vm_compute; reflexivity).
  rewrite forallb_forall in H.
  assert (forall b, 0 <= b < 64 -> view demo_pg (b * 4096) = Some (b * 4096) /\
    view demo_pg (b * 4096 + KERNEL_VIRTUAL_BASE) = Some (b * 4096)) as Hv.
  { intros b Hb. specialize (H b ltac:(apply list_elem_of_In, elem_of_seqZ; lia)).
    apply andb_true_iff in H as [H1 H2]. split; by eapply bool_decide_eq_true. }
  exact (Build_blocks_visible _ _ (fun b Hb => proj1 (Hv b Hb)) (fun b Hb => proj2 (Hv b Hb))).
Qed.

Lemma demo_tree : pt_tree demo_mem 0x1000 demo_pg_lvl.
Proof.
  constructor; try done.
  - intros t. unfold demo_pg_lvl. repeat case_match; lia.
  - intros t Ht. apply demo_pg_tables in Ht. rewrite !elem_of_cons, elem_of_nil in Ht.
    repeat (destruct Ht as [->|Ht]); try done; (split; [lia|]).
    all: match goal with |- (4096 | ?x) => let q := eval vm_compute in (x / 4096) in by exists q end.
  - intros t i Ht Hi. pose proof (demo_mem_range (t + 8 * i)). unfold in_u64. lia.
  - intros t i k Ht Hi Hp. pose proof (demo_entry t i k Ht Hi Hp) as He. unfold demo_entries in He.
    rewrite !elem_of_cons, elem_of_nil in He. repeat (destruct He as [[= -> -> ->]|He]); done.
  - intros t i t' i' k Ht Ht' Hi Hi' Hp Hp'.
    pose proof (demo_entry t i k Ht Hi Hp) as He. pose proof (demo_entry t' i' k Ht' Hi' Hp') as He'.
    unfold demo_entries in He, He'. rewrite !elem_of_cons, elem_of_nil in He, He'.
    repeat (destruct He as [[= -> -> ?]|He]); repeat (destruct He' as [[= -> -> ?]|He']); done || lia.
Qed.

Lemma demo_pg_visible : tables_visible demo_pg 0x1000 demo_pg_lvl.
Proof.
  constructor.
  - exact demo_tree.
  - intros i Hi. apply (slot_low demo_pg 64 1); [exact demo_blocks_visible|lia..].
  - intros t Ht. apply demo_pg_tables in Ht. rewrite !elem_of_cons, elem_of_nil in Ht.
    repeat (destruct Ht as [->|Ht]); (done || lia).
  - intros t i Ht Hi. apply demo_pg_tables in Ht.
    assert (t = t / 4096 * 4096 /\ 0 <= t / 4096 < 64) as [Et Hb].
    { rewrite !elem_of_cons, elem_of_nil in Ht. repeat (destruct Ht as [->|Ht]); (done || (vm_compute; split; congruence || done)). }
    rewrite Et at 1. rewrite (slot_high demo_pg 64) by (exact demo_blocks_visible || done || lia). f_equal. lia.
  - intros t i k Ht Hi _. cbn. pose proof (demo_mem_range (t + 8 * i)). lia.
Qed.

Lemma paging_query_correct_witness :
  paging_is_page_present demo_pg (5 * 2 ^ 30) = Ok true /\
  paging_get_physical_address demo_pg (5 * 2 ^ 30 + 0x123) = Ok 0x9123.
Proof.
  split.
  - exact (proj1 (paging_query_correct demo_pg 0x1000 demo_pg_lvl (5 * 2 ^ 30) demo_pg_visible)).
  - exact (proj2 (paging_query_correct demo_pg 0x1000 demo_pg_lvl (5 * 2 ^ 30 + 0x123) demo_pg_visible)
      0x9003 eq_refl).
Defined.

(** [paging_init] loads CR3 with the table's address minus the kernel's
    virtual base although the pointer is a physical address: whenever it returns,
    CR3 is off the table by 2^47. *)
Theorem paging_init_wrong_cr3 (s s' : pg) :
  paging_init s = Ok s' -> 0 <= pml4 s' < KERNEL_VIRTUAL_BASE -> cr3 s' = pml4 s' + 2 ^ 47.
Proof.
  unfold paging_init. intros H Hr. apply bind_Ok in H as ([p b] & _ & H).
  apply bind_Ok in H as (s1 & Hc & [= <-]). cbn in *.
  unfold KERNEL_VIRTUAL_BASE, u64, wrap in *.
  symmetry. apply Z.mod_unique with (-1); lia.
Qed.

Lemma demo_paging_init :
  match paging_init demo_pg with Ok s => Some (pml4 s, cr3 s) | _ => None end = Some (0x5000, 0x5000 + 2 ^ 47).
Proof. vm_compute. reflexivity. Qed.

Lemma paging_init_wrong_cr3_witness :
  exists s', paging_init demo_pg = Ok s' /\ cr3 s' = pml4 s' + 2 ^ 47.
Proof.
  pose proof demo_paging_init as H. destruct (paging_init demo_pg) as [s'| | |] eqn:E; try discriminate H.
  exists s'. split; [reflexivity|]. injection H as Hp Hc. apply (paging_init_wrong_cr3 demo_pg s' E).
  rewrite Hp. split; vm_compute; congruence.
Defined.

(** Under the boot code's identity map of the first GiB, mapping a page
    faults: the second table is reached at the kernel's offset, which is not
    mapped yet. *)
Theorem paging_map_faults_at_boot :
  paging_map_page boot_pg 0xA000 (5 * 2 ^ 30 + 4096) VMM_FLAGS_RW = Undef "page fault".
Proof. reflexivity. Qed.

Lemma demo_protect :
  match vmm_protect_page demo_pg (5 * 2 ^ 30) 1 with
  | Ok s => Some (pg_mem s 0x9000, translate (pg_mem s) 0x1000 (5 * 2 ^ 30))
  | _ => None
  end = Some (0xAB001, Some 0x9003).
Proof. vm_compute. reflexivity. Qed.

(** [vmm_protect_page] takes the physical address of the page for the address
    of its entry: it overwrites the first word of the page and leaves the
    translation as it was. *)
Theorem vmm_protect_writes_page :
  exists s', vmm_protect_page demo_pg (5 * 2 ^ 30) 1 = Ok s' /\
    pg_mem s' 0x9000 = 0xAB001 /\ pg_mem demo_pg 0x9000 = 0xABCDE /\
    translate (pg_mem s') 0x1000 (5 * 2 ^ 30) = Some 0x9003.
Proof.
  pose proof demo_protect as H. destruct (vmm_protect_page demo_pg (5 * 2 ^ 30) 1) as [s'| | |]; try done.
  injection H as H1 H2. exists s'. done.
Qed.

(** The used counter and the result of an allocation of three pages when two
    blocks are left. *)
Lemma demo_rollback :
  match vmm_alloc_pages demo_pg 3 with
  | Ok (r, s) => Some (r, used_blocks (pg_blocks s), translate (pg_mem s) 0x1000 (5 * 2 ^ 30 + 4096))
  | _ => None
  end = Some (0, 64, None).
Proof. vm_compute. reflexivity. Qed.

(** The rollback of [vmm_alloc_pages] hands virtual addresses to the block
    allocator, which ignores them: after a failed allocation the pages are
    unmapped but their blocks stay allocated. *)
Theorem vmm_alloc_rollback_leaks :
  exists s', vmm_alloc_pages demo_pg 3 = Ok (0, s') /\
    used_blocks (pg_blocks demo_pg) = 62 /\ used_blocks (pg_blocks s') = 64 /\
    translate (pg_mem s') 0x1000 (5 * 2 ^ 30 + 4096) = None.
Proof.
  pose proof demo_rollback as H. destruct (vmm_alloc_pages demo_pg 3) as [[r s']| | |]; try done.
  injection H as -> Hu Ht. exists s'. done.
Qed.

(** The mapping of virtual address 0 returns the null pointer on success too. *)
Lemma map_zero_null s phys flags r s' :
  paging_map_page s phys 0 flags = Ok (r, s') -> r = 0.
Proof.
  unfold paging_map_page. intros H. destruct (negb _); [by injection H as <- _|].
  repeat (apply bind_Ok in H as ([? ?] & _ & H); case_match; [by injection H as <- _|]).
  apply bind_Ok in H as (? & _ & H). by injection H as <- _.
Qed.

(** A range that starts at virtual address 0 is never mapped:
    [paging_map_page] returns the virtual address as its success value, 0 counts
    as failure, and so the identity map that [vmm_init] asks for reports failure
    after its first page. *)
Theorem vmm_map_range_zero_fails (s s' : pg) (phys flags : Z) (n : nat) (b : bool) :
  vmm_map_range s phys 0 (S n) flags = Ok (b, s') -> b = false.
Proof.
  unfold vmm_map_range. intros H. destruct (negb _ || negb _); [by injection H as <- _|].
  apply bind_Ok in H as (l & _ & H). apply bind_Ok in H as ([b' s1] & Hr & H). injection H as <- _.
  cbn [map_range_loop] in Hr. change (u64 (0 + Z.of_nat 0 * PAGE_SIZE)) with 0 in Hr.
  apply bind_Ok in Hr as ([r s2] & Hm & Hr). apply map_zero_null in Hm. subst r. cbn [Z.eqb] in Hr.
  apply bind_Ok in Hr as (s3 & _ & Hr). by injection Hr as <- _.
Qed.

Lemma demo_map_zero :
  match vmm_map_range demo_pg 0 0 1024 VMM_FLAGS_RW with Ok (b, _) => Some b | _ => None end = Some false.
Proof. vm_compute. reflexivity. Qed.

Lemma vmm_map_range_zero_fails_witness :
  exists s', vmm_map_range demo_pg 0 0 1024 VMM_FLAGS_RW = Ok (false, s').
Proof.
  pose proof demo_map_zero as H.
  destruct (vmm_map_range demo_pg 0 0 1024 VMM_FLAGS_RW) as [[b s']| | |] eqn:E; try discriminate H.
  exists s'. rewrite (vmm_map_range_zero_fails demo_pg s' 0 VMM_FLAGS_RW 1023 b E). reflexivity.
Defined.
