(* ===== verification/PagingMap.v ===== *)
(** * Mapping pages in the second memory system

    What [paging_map_page], [paging_unmap_page] and [vmm_alloc_pages] of
    src/kernel/arch/x86_64/mm do to the hardware's translations, to the block
    allocator and to memory. The model is in [Paging]; the tree of tables, its updates
    and the walk are those of [Vmm], the allocator is [BlockPmm]. *)
From Stdlib Require Import ZArith Lia.
From stdpp Require Import strings numbers gmap base.
From stdpp Require Import list.
From S2P Require Import Prelude Pmm Vmm BlockPmm Paging.
Open Scope Z_scope.

(** ** Entries *)

(** The entry written for a table or a page. *)
Definition paging_entry (addr flags : Z) : Z :=
  Z.lor (Z.lor (ALIGN_PAGE addr) (Z.land flags PAGE_FLAGS_MASK)) PAGE_PRESENT.

Lemma page_frame_bits p i : 0 <= p < 2 ^ 52 -> (4096 | p) -> 0 <= i ->
  Z.testbit (ALIGN_PAGE p) i = Z.testbit p i.
Proof. intros Hr Hp Hi. rewrite align_page_addr, pte_addr_page by done. done. Qed.

Lemma paging_entry_bits p flags i :
  0 <= p < 2 ^ 52 -> (4096 | p) -> 0 <= i ->
  Z.testbit (paging_entry p flags) i =
  Z.testbit p i || (Z.testbit flags i && (i <? 12)) || (i =? 0).
Proof.
  intros Hr Hp Hi. unfold paging_entry. rewrite !Z.lor_spec, page_frame_bits, Z.land_spec by done.
  change PAGE_FLAGS_MASK with (Z.ones 12). rewrite Z.testbit_ones_nonneg by lia.
  change PAGE_PRESENT with (2 ^ 0). rewrite Z.pow2_bits_eqb by lia. by rewrite (Z.eqb_sym 0 i).
Qed.

Lemma paging_entry_spec p flags :
  0 <= p < 2 ^ 52 -> (4096 | p) ->
  present (paging_entry p flags) = true /\ pte_addr (paging_entry p flags) = p /\
  0 <= paging_entry p flags < 2 ^ 52 /\
  (Z.testbit flags 7 = false -> Z.land (paging_entry p flags) PTE_PAT = 0).
Proof.
  intros Hr Hp. split_and!.
  - rewrite present_bit, paging_entry_bits by (done || lia). by rewrite orb_true_r.
  - transitivity (pte_addr p); [|by apply pte_addr_page].
    unfold pte_addr. apply Z.bits_inj'. intros i Hi.
    rewrite !Z.land_spec, paging_entry_bits, addr_mask_bits by (done || lia).
    destruct (Z.testbit p i), (Z.testbit flags i); lia.
  - unfold paging_entry. rewrite !Z.lor_nonneg. rewrite align_page_addr, pte_addr_page, Z.land_nonneg by done.
    split; [split; [lia|right]|]; done.
  - apply bits_range; [lia| |].
    + unfold paging_entry. rewrite !Z.lor_nonneg, align_page_addr, pte_addr_page, Z.land_nonneg by done.
      split; [split; [lia|right]|]; done.
    + intros i Hi. rewrite paging_entry_bits, (testbit_high p 52) by (done || lia). lia.
  - intros H7. change PTE_PAT with (shl64 1 7). apply Z.eqb_eq.
    rewrite testbit64_land, paging_entry_bits, H7 by (done || lia).
    by rewrite (page_low_bits p) by (done || lia).
Qed.

(** ** Free blocks that the allocator can still find *)

Definition free_above (b : bpmm) : Z :=
  count_upto (fun g => (last_free_block b <=? g) && negb (block_used (bitmap b) g)) (Z.to_nat (total_blocks b)).

Lemma alloc_block_cases b :
  bpmm_wf b -> 1 <= last_free_block b ->
  (exists a b', pmm_alloc_block b = Ok (a * 4096, b') /\ last_free_block b <= a < total_blocks b /\
     block_used (bitmap b) a = false /\ bpmm_wf b' /\ total_blocks b' = total_blocks b /\
     last_free_block b' = a + 1 /\
     (forall g, block_used (bitmap b') g = (g =? a) || block_used (bitmap b) g) /\
     free_above b' = free_above b - 1) \/
  (pmm_alloc_block b = Ok (0, b) /\ free_above b = 0).
Proof.
  intros Hwf Hh. pose proof (bw_total _ Hwf) as Ht.
  assert (forall c, run_free (bitmap b) c 1 <-> block_used (bitmap b) c = false) as Hrun.
  { intros c. unfold run_free. split; [intros H; apply H; lia|intros H g Hg; by replace g with c by lia]. }
  destruct (alloc_blocks_cases b 1 Hwf ltac:(lia))
    as [(a & b' & E & Ha & Hle & Hf & Hmin & [W Hb _ Hhint Htot])|[E Hno]].
  - left. apply Hrun in Hf. exists a, b'. split; [exact E|]. split; [lia|]. split_and!; try done.
    + intros g. rewrite Hb. destruct (Z.eqb_spec g a) as [->|Hne].
      * zcase (a <=? a). zcase (a <? a + 1).
      * destruct ((a <=? g) && (g <? a + 1)) eqn:Eg; [lia|done].
    + unfold free_above. rewrite Htot, Hhint.
      rewrite (count_upto_flip (fun g => (a + 1 <=? g) && negb (block_used (bitmap b') g))
        (fun g => (last_free_block b <=? g) && negb (block_used (bitmap b) g)) _ a); [lia|lia| | |].
      * zcase (a + 1 <=? a).
      * rewrite Hf. zcase (last_free_block b <=? a).
      * intros g Hg. rewrite Hb. destruct ((a <=? g) && (g <? a + 1)) eqn:Eg; [lia|].
        destruct (Z.leb_spec (last_free_block b) g), (Z.leb_spec (a + 1) g); cbn [andb]; try done; [|lia].
        destruct (block_used (bitmap b) g) eqn:Eu; [done|]. exfalso. apply (Hmin g ltac:(lia)). by apply Hrun.
  - right. split; [exact E|]. unfold free_above. rewrite (count_upto_ext _ (fun _ => false)).
    + induction (Z.to_nat (total_blocks b)) as [|n IH]; [done|]. cbn [count_upto]. lia.
    + intros g Hg. destruct (Z.leb_spec (last_free_block b) g); cbn [andb]; [|done].
      destruct (block_used (bitmap b) g) eqn:Eu; [done|]. exfalso. apply (Hno g ltac:(lia) ltac:(lia)). by apply Hrun.
Qed.

(** ** The address space *)

(** The pages through which the code reaches managed memory, by number: those at the
    physical addresses and those at the kernel's offset. *)
Definition window (total v : Z) : Prop := 0 <= v < total \/ 2 ^ 35 <= v < 2 ^ 35 + total.

Lemma vpn_low total b : total * 4096 <= 2 ^ 46 -> 0 <= b < total -> window total (vpn (b * 4096)).
Proof. intros Ht Hb. left. unfold vpn. rewrite Z.div_mul, Z.mod_small by lia. done. Qed.

Lemma vpn_high total b : total * 4096 <= 2 ^ 46 -> 0 <= b < total -> window total (vpn (b * 4096 + KERNEL_VIRTUAL_BASE)).
Proof.
  intros Ht Hb. right. unfold vpn, KERNEL_VIRTUAL_BASE.
  replace (b * 4096 + 0xFFFF800000000000) with ((b + 0xFFFF800000000) * 4096) by lia. rewrite Z.div_mul by done.
  replace (b + 0xFFFF800000000) with (2 ^ 35 + b + 65535 * 2 ^ 36) by lia. rewrite Z.mod_add, Z.mod_small by lia. lia.
Qed.

(** Pointers reach the same memory as long as the translations of their pages stay. *)
Lemma view_same s s' v :
  cr3 s' = cr3 s -> translate (pg_mem s') (cr3 s) v = translate (pg_mem s) (cr3 s) v -> view s' v = view s v.
Proof. intros Hc Ht. unfold view. by rewrite Hc, Ht. Qed.

Lemma visible_same s s' total :
  blocks_visible s total -> total * 4096 <= 2 ^ 46 -> cr3 s' = cr3 s ->
  (forall va, window total (vpn va) -> translate (pg_mem s') (cr3 s) va = translate (pg_mem s) (cr3 s) va) ->
  blocks_visible s' total.
Proof.
  intros HV Ht Hc Hs. constructor; intros b Hb; rewrite (view_same s s') by (try done; apply Hs; by apply vpn_low || by apply vpn_high).
  - by apply (bv_low _ _ HV).
  - by apply (bv_high _ _ HV).
Qed.

(** The tables form a tree in blocks that are marked used; they are the tables in force,
    and managed memory is visible through them. *)
Record space_inv (s : pg) (root : Z) (lvl : Z -> nat) : Prop := {
  si_blocks : bpmm_wf (pg_blocks s);
  si_hint : 1 <= last_free_block (pg_blocks s);
  si_small : total_blocks (pg_blocks s) * 4096 <= 2 ^ 46;
  si_view : blocks_visible s (total_blocks (pg_blocks s));
  si_cr3 : cr3 s = root;
  si_pml4 : pml4 s = root;
  si_tree : pt_tree (pg_mem s) root lvl;
  si_entries : forall t i k, lvl t = S (S k) -> 0 <= i < 512 ->
    present (pg_mem s (t + 8 * i)) = true -> pg_mem s (t + 8 * i) < 2 ^ 52;
  si_owned : forall t, lvl t <> 0%nat ->
    block_used (bitmap (pg_blocks s)) (t / 4096) = true /\ t / 4096 < total_blocks (pg_blocks s)
}.

(** What creating tables out of [n] free blocks may change: tables are added, present
    interior entries and all translations stay, and so does the contents of every block
    in use that is no table. *)
Record grown (root n : Z) (s : pg) (lvl : Z -> nat) (s' : pg) (lvl' : Z -> nat) : Prop := {
  gr_inv : space_inv s' root lvl';
  gr_ext : forall t, lvl t <> 0%nat -> lvl' t = lvl t;
  gr_keep : forall t i k, lvl t = S (S k) -> 0 <= i < 512 ->
    present (pg_mem s (t + 8 * i)) = true -> pg_mem s' (t + 8 * i) = pg_mem s (t + 8 * i);
  gr_walk : forall va, translate (pg_mem s') root va = translate (pg_mem s) root va;
  gr_used : forall b, block_used (bitmap (pg_blocks s)) b = true -> block_used (bitmap (pg_blocks s')) b = true;
  gr_fresh : forall t, lvl' t <> 0%nat -> lvl t = 0%nat -> block_used (bitmap (pg_blocks s)) (t / 4096) = false;
  gr_data : forall x, block_used (bitmap (pg_blocks s)) (x / 4096) = true -> lvl (x / 4096 * 4096) = 0%nat ->
    pg_mem s' x = pg_mem s x;
  gr_free : free_above (pg_blocks s') = free_above (pg_blocks s) - n;
  gr_rest : pml4 s' = pml4 s /\ next_free_page s' = next_free_page s /\ vmm_lock s' = vmm_lock s /\
    pg_tlb s' = pg_tlb s /\ total_blocks (pg_blocks s') = total_blocks (pg_blocks s)
}.

Section Space.
Context (root : Z).

Lemma table_block s lvl t : space_inv s root lvl -> lvl t <> 0%nat ->
  t = t / 4096 * 4096 /\ 0 <= t / 4096 < total_blocks (pg_blocks s).
Proof.
  intros HI Ht. destruct (tr_page _ _ _ (si_tree _ _ _ HI) t Ht) as [Hr [q ->]].
  destruct (si_owned _ _ _ HI _ Ht) as [_ Hlt]. rewrite Z.div_mul in * by done. lia.
Qed.

Lemma space_visible s lvl : space_inv s root lvl -> tables_visible s root lvl.
Proof.
  intros HI. pose proof (si_small _ _ _ HI) as Hsm. constructor; try apply HI.
  - intros i Hi. rewrite (si_pml4 _ _ _ HI).
    destruct (table_block s lvl root HI) as [E Hb]; [by rewrite (tr_root _ _ _ (si_tree _ _ _ HI))|].
    rewrite E. by apply (slot_low s _ _ _ (si_view _ _ _ HI)).
  - intros t Ht. destruct (table_block s lvl t HI Ht). lia.
  - intros t i Ht Hi. destruct (table_block s lvl t HI Ht) as [E Hb]. rewrite E.
    by apply (slot_high s _ _ _ (si_view _ _ _ HI)).
Qed.

Lemma grown_refl s lvl : space_inv s root lvl -> grown root 0 s lvl s lvl.
Proof. intros H. constructor; auto with lia. Qed.

Lemma grown_trans n1 n2 s lvl s1 lvl1 s2 lvl2 :
  grown root n1 s lvl s1 lvl1 -> grown root n2 s1 lvl1 s2 lvl2 ->
  grown root (n1 + n2) s lvl s2 lvl2.
Proof.
  intros [I1 E1 K1 W1 U1 F1 D1 C1 R1] [I2 E2 K2 W2 U2 F2 D2 C2 R2].
  constructor; [done| | | |auto| | |lia|].
  - intros t Ht. rewrite E2, E1; [done|done|]. by rewrite E1.
  - intros t i k Ht Hi Hp. rewrite (K2 t i k), (K1 t i k); try done.
    + by rewrite E1 by lia.
    + by rewrite (K1 t i k).
  - intros va. by rewrite W2, W1.
  - intros t Ht H0. destruct (decide (lvl1 t = 0%nat)) as [Hz|Hn]; [|by apply F1].
    specialize (F2 t Ht Hz). destruct (block_used (bitmap (pg_blocks s)) (t / 4096)) eqn:E; [|done].
    apply U1 in E. congruence.
  - intros x Hx Hl. rewrite D2, D1; try done; [by apply U1|].
    destruct (decide (lvl1 (x / 4096 * 4096) = 0%nat)) as [|Hn]; [done|].
    specialize (F1 _ Hn Hl). rewrite Z.div_mul in F1 by done. congruence.
  - destruct R1 as (? & ? & ? & ? & ?), R2 as (? & ? & ? & ? & ?). split_and!; congruence.
Qed.

(** A write to a block that holds no table changes no entry of a table. *)
Lemma other_block m lvl b i x t j :
  pt_tree m root lvl -> lvl (b * 4096) = 0%nat -> 0 <= i < 512 -> lvl t <> 0%nat -> 0 <= j < 512 ->
  upd m (b * 4096 + 8 * i) x (t + 8 * j) = m (t + 8 * j).
Proof.
  intros HT Hb Hi Ht Hj. apply upd_ne. intros E. destruct (tr_page _ _ _ HT t Ht) as [_ Hat].
  destruct (entry_inj t j (b * 4096) i Hat ltac:(by exists b) Hj Hi E) as [-> _]. done.
Qed.

(** The clearing loop, through the physical address of a block that is no table. *)
Lemma clear_table_spec n s lvl total b i :
  pt_tree (pg_mem s) root lvl -> cr3 s = root -> lvl (b * 4096) = 0%nat ->
  blocks_visible s total -> total * 4096 <= 2 ^ 46 -> 0 <= b < total -> 0 <= i -> i + Z.of_nat n <= 512 ->
  exists m, clear_table n s (b * 4096) i = Ok (with_mem s m) /\
    (forall j, i <= j < i + Z.of_nat n -> m (b * 4096 + 8 * j) = 0) /\
    (forall x, (forall j, i <= j < i + Z.of_nat n -> x <> b * 4096 + 8 * j) -> m x = pg_mem s x).
Proof.
  intros HT Hc Hl HV Hsm Hb. revert s HT Hc HV i. induction n as [|n IH]; intros s HT Hc HV i Hi Hn.
  - exists (pg_mem s). split; [by destruct s|]. split; [intros j Hj; lia|done].
  - cbn [clear_table]. unfold wr. rewrite (slot_low s total) by (done || lia). cbn [mbind outcome_bind].
    assert (forall t j, lvl t <> 0%nat -> 0 <= j < 512 ->
      upd (pg_mem s) (b * 4096 + 8 * i) 0 (t + 8 * j) = pg_mem s (t + 8 * j)) as Hsame.
    { intros t j Ht Hj. apply (other_block _ lvl); (done || lia). }
    destruct (IH (with_mem s (upd (pg_mem s) (b * 4096 + 8 * i) 0))) with (i := i + 1) as (m & -> & Hz & Ho); [|done| |lia|lia|].
    { by apply (tree_same (pg_mem s)). }
    { apply (visible_same s); [done..|]. intros va _. cbn. rewrite Hc. by apply (translate_same _ _ _ lvl). }
    exists m. split; [done|]. split.
    + intros j Hj. destruct (decide (j = i)) as [->|]; [|apply Hz; lia].
      rewrite Ho; [cbn; apply upd_eq|]. intros j' Hj'. lia.
    + intros x Hx. rewrite Ho; [|intros j Hj; apply Hx; lia]. cbn. apply upd_ne. apply Hx. lia.
Qed.

Lemma free_no_table s lvl a :
  space_inv s root lvl -> block_used (bitmap (pg_blocks s)) a = false -> lvl (a * 4096) = 0%nat.
Proof.
  intros HI Hu. destruct (decide (lvl (a * 4096) = 0%nat)) as [|Hn]; [done|].
  destruct (si_owned _ _ _ HI _ Hn) as [Hu' _]. rewrite Z.div_mul in Hu' by done. congruence.
Qed.

(** The block [a] the allocator handed out, cleared and linked below entry [i] of [t]. *)
Lemma link_block s lvl t i k a b' m flags :
  space_inv s root lvl -> lvl t = S (S k) -> 0 <= i < 512 ->
  present (pg_mem s (t + 8 * i)) = false -> Z.testbit flags 7 = false ->
  last_free_block (pg_blocks s) <= a < total_blocks (pg_blocks s) ->
  block_used (bitmap (pg_blocks s)) a = false -> bpmm_wf b' -> total_blocks b' = total_blocks (pg_blocks s) ->
  last_free_block b' = a + 1 ->
  (forall g, block_used (bitmap b') g = (g =? a) || block_used (bitmap (pg_blocks s)) g) ->
  free_above b' = free_above (pg_blocks s) - 1 ->
  (forall j, 0 <= j < 512 -> m (a * 4096 + 8 * j) = 0) ->
  (forall x, (forall j, 0 <= j < 512 -> x <> a * 4096 + 8 * j) -> m x = pg_mem s x) ->
  grown root 1 s lvl
    (with_mem (with_bpmm s b') (upd m (t + 8 * i) (paging_entry (a * 4096) flags)))
    (add_lvl lvl (a * 4096) (S k)).
Proof.
  intros HI Ht Hi Hnp H7 Ha Hu Hwf Htot Hhint Hbits Hfree Hz Ho.
  pose proof (si_tree _ _ _ HI) as HT. pose proof (si_small _ _ _ HI) as Hsm.
  pose proof (si_hint _ _ _ HI) as Hh. remember (a * 4096) as f eqn:Ef.
  assert (0 <= f < 2 ^ 52) as Hfr by lia. assert (4096 | f) as Hfa by (by exists a).
  assert (f / 4096 = a) as Hfd by (rewrite Ef; by apply Z.div_mul).
  assert (lvl f = 0%nat) as Hlf.
  { destruct (decide (lvl f = 0%nat)) as [|Hn]; [done|]. destruct (si_owned _ _ _ HI f Hn) as [Hu' _]. congruence. }
  destruct (paging_entry_spec f flags Hfr Hfa) as (Hpr & Had & Hrange & Hps).
  assert (forall x j, lvl x <> 0%nat -> 0 <= j < 512 ->
    upd m (t + 8 * i) (paging_entry f flags) (x + 8 * j) =
    if (x =? t) && (j =? i) then paging_entry f flags else pg_mem s (x + 8 * j)) as Hold.
  { intros x j Hx Hj. destruct (tr_page _ _ _ HT x Hx) as [_ Hax]. destruct (tr_page _ _ _ HT t ltac:(lia)) as [_ Hat].
    unfold upd. destruct (Z.eqb_spec (x + 8 * j) (t + 8 * i)) as [Heq|Hne].
    - destruct (entry_inj x j t i Hax Hat Hj Hi Heq) as [-> ->]. by rewrite !Z.eqb_refl.
    - assert ((x =? t) && (j =? i) = false) as -> by lia. apply Ho. intros j' Hj' Heq.
      destruct (entry_inj x j f j' Hax Hfa Hj Hj' Heq) as [-> _]. done. }
  assert (linked (pg_mem s) lvl (upd m (t + 8 * i) (paging_entry f flags)) f t i (paging_entry f flags)) as HL.
  { constructor; [|done|].
    - split_and!; [done|done|by apply Hps|]. unfold in_u64. lia.
    - intros j Hj. rewrite upd_ne; [by apply Hz|]. intros Heq. destruct (tr_page _ _ _ HT t ltac:(lia)) as [_ Hat].
      destruct (entry_inj f j t i Hfa Hat Hj Hi Heq) as [-> _]. lia. }
  assert (forall va, translate (upd m (t + 8 * i) (paging_entry f flags)) root va = translate (pg_mem s) root va) as Hwalk.
  { intros va. eapply walk_link; try done. apply (tr_root _ _ _ HT). }
  constructor; cbn [pg_mem pg_blocks with_mem with_bpmm pml4 next_free_page vmm_lock pg_tlb].
  - constructor; cbn [pg_mem pg_blocks with_mem with_bpmm pml4 cr3]; [done|lia|by rewrite Htot| |apply HI|apply HI| | |].
    + rewrite Htot. apply (visible_same s); [apply HI|done|done|]. intros va _. rewrite (si_cr3 _ _ _ HI). apply Hwalk.
    + eapply tree_link; done.
    + intros x j k' Hx Hj. unfold add_lvl in Hx. destruct (Z.eqb_spec x f) as [->|Hne].
      * by rewrite (lk_new _ _ _ _ _ _ _ HL j Hj).
      * rewrite Hold by (done || lia). destruct ((x =? t) && (j =? i)); [lia|]. by apply (si_entries _ _ _ HI x j k').
    + intros x Hx. unfold add_lvl in Hx. rewrite Hbits, Htot. destruct (Z.eqb_spec x f) as [Hxf|Hne].
      * rewrite Hxf, Hfd, Z.eqb_refl. split; [done|lia].
      * destruct (si_owned _ _ _ HI x Hx) as [-> ?]. by rewrite orb_true_r.
  - intros x Hx. unfold add_lvl. destruct (Z.eqb_spec x f) as [->|]; congruence.
  - intros x j k' Hx Hj Hp. rewrite Hold by (done || lia).
    destruct (Z.eqb_spec x t) as [->|]; [destruct (Z.eqb_spec j i) as [->|]|]; cbn [andb]; congruence.
  - exact Hwalk.
  - intros g Hg. by rewrite Hbits, Hg, orb_true_r.
  - intros x. unfold add_lvl. destruct (Z.eqb_spec x f) as [->|]; [|done]. intros _ _. by rewrite Hfd.
  - intros x Hx Hl. rewrite upd_ne.
    + apply Ho. intros j Hj ->. rewrite Ef, Z.add_comm, Z.div_add in Hx by done.
      rewrite (Z.div_small (8 * j)), Z.add_0_l in Hx by lia. congruence.
    + intros ->. destruct (table_block s lvl t HI ltac:(lia)) as [Et _]. rewrite Et in Hl.
      rewrite Z.add_comm, Z.div_add, (Z.div_small (8 * i)), Z.add_0_l in Hl by lia. rewrite <- Et in Hl. lia.
  - done.
  - done.
Qed.

(** One level of the walk with creation: the next table, or [NULL] when the allocator
    finds no block. *)
Lemma next_level_create s lvl ptr t i k flags :
  space_inv s root lvl -> lvl t = S (S k) -> 0 <= i < 512 -> Z.testbit flags 7 = false ->
  view s (slot ptr i) = Some (t + 8 * i) ->
  (exists c s' lvl' n, get_next_level s ptr i true flags = Ok (c + KERNEL_VIRTUAL_BASE, s') /\
     grown root n s lvl s' lvl' /\ 0 <= n <= 1 /\ lvl' c = S k /\ (c + KERNEL_VIRTUAL_BASE =? 0) = false /\
     present (pg_mem s' (t + 8 * i)) = true /\ pte_addr (pg_mem s' (t + 8 * i)) = c) \/
  (get_next_level s ptr i true flags = Ok (0, s) /\ free_above (pg_blocks s) = 0).
Proof.
  intros HI Ht Hi H7 Hv. pose proof (space_visible s lvl HI) as HV.
  destruct (present (pg_mem s (t + 8 * i))) eqn:E.
  { left. destruct (next_level_query s root lvl HV ptr t i k Ht Hi Hv) as [Hq Hc]. rewrite E in Hq, Hc.
    destruct (Hc eq_refl) as [Hl Hn]. exists (pte_addr (pg_mem s (t + 8 * i))), s, lvl, 0.
    split; [|by split; [apply grown_refl|]]. unfold get_next_level in *. unfold rd in *. rewrite Hv in *.
    cbn [mbind outcome_bind] in *. change PAGE_PRESENT with PTE_PRESENT in *.
    unfold present in E. apply negb_true_iff in E. rewrite E in *. done. }
  destruct (alloc_block_cases (pg_blocks s) (si_blocks _ _ _ HI) (si_hint _ _ _ HI))
    as [(a & b' & Ea & Ha & Hu & Hwf & Htot & Hhint & Hbits & Hfree)|[Ea H0]].
  - left. pose proof (si_hint _ _ _ HI) as Hh. pose proof (si_small _ _ _ HI) as Hsm.
    pose proof (free_no_table s lvl a HI Hu) as Hla.
    destruct (clear_table_spec 512 (with_bpmm s b') lvl (total_blocks (pg_blocks s)) a 0) as (m & Em & Hz & Ho);
      [apply HI|apply HI|done|by apply (visible_same s); [apply HI|..]|done|lia|lia|lia|].
    assert (forall t' j, lvl t' <> 0%nat -> 0 <= j < 512 -> m (t' + 8 * j) = pg_mem s (t' + 8 * j)) as Hsame.
    { intros t' j Ht' Hj. apply Ho. intros j' Hj' Heq. destruct (tr_page _ _ _ (si_tree _ _ _ HI) t' Ht') as [_ Hat].
      destruct (entry_inj t' j (a * 4096) j' Hat ltac:(by exists a) Hj Hj' Heq) as [-> _]. done. }
    assert (view (with_mem (with_bpmm s b') m) (slot ptr i) = Some (t + 8 * i)) as Hv1.
    { rewrite <- Hv. apply view_same; [done|]. cbn. rewrite (si_cr3 _ _ _ HI). apply (translate_same _ _ _ lvl); [apply HI|done]. }
    pose proof (link_block s lvl t i k a b' m flags HI Ht Hi E H7 Ha Hu Hwf Htot Hhint Hbits Hfree Hz Ho) as G.
    match type of G with grown _ _ _ _ ?s2 _ => assert (view s2 (slot ptr i) = Some (t + 8 * i)) as Hv2 end.
    { rewrite <- Hv. apply view_same; [done|]. rewrite (si_cr3 _ _ _ HI). apply (gr_walk _ _ _ _ _ _ G). }
    destruct (paging_entry_spec (a * 4096) flags ltac:(lia) ltac:(by exists a)) as (Hpr & Had & Hrange & _).
    exists (a * 4096). eexists _, _, 1. unfold get_next_level, rd. rewrite Hv. cbn [mbind outcome_bind].
    change PAGE_PRESENT with PTE_PRESENT. unfold present in E. apply negb_false_iff in E. rewrite E. cbn [negb].
    rewrite Ea. cbn [mbind outcome_bind]. zcase (a * 4096 =? 0). rewrite Em. cbn [mbind outcome_bind].
    unfold wr. rewrite Hv1. cbn [mbind outcome_bind].
    change (with_mem (with_mem (with_bpmm s b') m) (upd (pg_mem (with_mem (with_bpmm s b') m)) (t + 8 * i) ?v))
      with (with_mem (with_bpmm s b') (upd m (t + 8 * i) (paging_entry (a * 4096) flags))).
    rewrite Hv2. cbn [mbind outcome_bind pg_mem with_mem]. rewrite upd_eq. rewrite align_page_addr, Had by lia.
    split; [|split; [exact G|]].
    + unfold KERNEL_VIRTUAL_BASE. rewrite u64_small by (unfold in_u64; lia). done.
    + split; [lia|]. split; [unfold add_lvl; by rewrite Z.eqb_refl|]. split; [unfold KERNEL_VIRTUAL_BASE; lia|].
      cbn [pg_mem with_mem]. by rewrite upd_eq.
  - right. split; [|done]. unfold get_next_level, rd. rewrite Hv. cbn [mbind outcome_bind].
    change PAGE_PRESENT with PTE_PRESENT. unfold present in E. apply negb_false_iff in E. rewrite E. cbn [negb].
    rewrite Ea. cbn [mbind outcome_bind Z.eqb]. by destruct s.
Qed.

(** ** Writing a leaf entry *)

Definition pg_tlb_ok (s : pg) : Prop :=
  forall va e, pg_tlb s (vpn va) = Some e -> translate (pg_mem s) root va = Some e.

(** The state after the leaf entry of [va] became [v] (0 removes the page), with [n]
    blocks taken for tables. *)
Record leaf_written (n va v : Z) (s : pg) (lvl : Z -> nat) (s' : pg) (lvl' : Z -> nat) : Prop := {
  lw_inv : space_inv s' root lvl';
  lw_tlb : pg_tlb_ok s';
  lw_walk : forall va', translate (pg_mem s') root va' =
    if vpn va' =? vpn va then (if present v then Some v else None) else translate (pg_mem s) root va';
  lw_ext : forall t, lvl t <> 0%nat -> lvl' t = lvl t;
  lw_used : forall b, block_used (bitmap (pg_blocks s)) b = true -> block_used (bitmap (pg_blocks s')) b = true;
  lw_fresh : forall t, lvl' t <> 0%nat -> lvl t = 0%nat -> block_used (bitmap (pg_blocks s)) (t / 4096) = false;
  lw_data : forall x, block_used (bitmap (pg_blocks s)) (x / 4096) = true -> lvl (x / 4096 * 4096) = 0%nat ->
    pg_mem s' x = pg_mem s x;
  lw_free : free_above (pg_blocks s') = free_above (pg_blocks s) - n;
  lw_rest : next_free_page s' = next_free_page s /\ vmm_lock s' = vmm_lock s /\
    total_blocks (pg_blocks s') = total_blocks (pg_blocks s)
}.

Lemma write_leaf s0 lvl0 n s lvl c1 va v :
  grown root n s0 lvl0 s lvl -> pg_tlb_ok s0 -> lvl c1 = 1%nat -> leaf_table (pg_mem s) 4 root va = Some c1 ->
  present v = true \/ v = 0 -> in_u64 v -> ~ window (total_blocks (pg_blocks s0)) (vpn va) ->
  exists s', (s ← wr s (slot (c1 + KERNEL_VIRTUAL_BASE) (PT_INDEX va)) v; Ok (flush_page s va)) = Ok s' /\
    leaf_written n va v s0 lvl0 s' lvl.
Proof.
  intros G Htlb Hc Hleaf Hv Hw Hwin. pose proof (gr_inv _ _ _ _ _ _ G) as HI. pose proof (si_tree _ _ _ HI) as HT.
  pose proof (level_index_range 1 va : 0 <= PT_INDEX va < 512) as I1.
  pose proof (fun va' => translate_leaf_write _ _ _ c1 va v va' HT Hc Hleaf Hv) as Hwalk.
  change (pt_index va) with (PT_INDEX va) in Hwalk.
  assert (forall t j, lvl t <> 0%nat -> 0 <= j < 512 -> t <> c1 ->
    upd (pg_mem s) (c1 + 8 * PT_INDEX va) v (t + 8 * j) = pg_mem s (t + 8 * j)) as Hother.
  { intros t j Ht Hj Hne. apply (upd_entry_other _ _ _ HT); try done; [lia|by left]. }
  unfold wr. rewrite (tv_high _ _ _ (space_visible s lvl HI) c1) by (done || lia). cbn [mbind outcome_bind].
  eexists. split; [reflexivity|].
  destruct (gr_rest _ _ _ _ _ _ G) as (R1 & R2 & R3 & R4 & R5).
  constructor; cbn [pg_mem pg_blocks with_mem flush_page with_tlb next_free_page vmm_lock]; try apply G; try done.
  - constructor; cbn [pg_mem pg_blocks with_mem flush_page with_tlb pml4 cr3]; try apply HI.
    + apply (visible_same s); [apply HI|apply HI|done|]. intros va' Hva'. cbn [pg_mem with_mem flush_page with_tlb].
      rewrite (si_cr3 _ _ _ HI), Hwalk. destruct (Z.eqb_spec (vpn va') (vpn va)) as [Ev|]; [|done].
      rewrite Ev, R5 in Hva'. done.
    + by apply tree_set_leaf.
    + intros t j k Ht Hj. rewrite Hother by (done || lia || congruence). by apply (si_entries _ _ _ HI t j k).
  - intros va' e. cbn [pg_mem pg_tlb with_mem flush_page with_tlb]. rewrite Hwalk, R4.
    destruct (vpn va' =? vpn va); [done|]. rewrite (gr_walk _ _ _ _ _ _ G). apply Htlb.
  - intros va'. by rewrite Hwalk, (gr_walk _ _ _ _ _ _ G).
  - intros x Hx Hl. rewrite upd_ne; [by apply (gr_data _ _ _ _ _ _ G)|]. intros ->.
    destruct (table_block s lvl c1 HI ltac:(lia)) as [Ec _].
    rewrite Ec in Hl, Hx. rewrite Z.add_comm, Z.div_add, (Z.div_small (8 * _)), Z.add_0_l in Hl, Hx by lia.
    rewrite <- Ec in Hl.
    assert (lvl c1 <> 0%nat) as Hcn by lia. pose proof (gr_fresh _ _ _ _ _ _ G c1 Hcn Hl). congruence.
Qed.

(** Entries that are present survive a later growth step. *)
Lemma grown_entry n s lvl s' lvl' t i k c :
  grown root n s lvl s' lvl' -> lvl t = S (S k) -> 0 <= i < 512 ->
  present (pg_mem s (t + 8 * i)) = true -> pte_addr (pg_mem s (t + 8 * i)) = c ->
  present (pg_mem s' (t + 8 * i)) = true /\ pte_addr (pg_mem s' (t + 8 * i)) = c.
Proof. intros G Ht Hi Hp Hc. by rewrite (gr_keep _ _ _ _ _ _ G t i k Ht Hi Hp). Qed.

(** One step of the descent, relative to the state at the call. *)
Lemma descend_create s0 lvl0 n s lvl ptr t i k flags :
  grown root n s0 lvl0 s lvl -> lvl t = S (S k) -> 0 <= i < 512 -> Z.testbit flags 7 = false ->
  view s (slot ptr i) = Some (t + 8 * i) ->
  (exists c s' lvl' n', get_next_level s ptr i true flags = Ok (c + KERNEL_VIRTUAL_BASE, s') /\
     grown root (n + n') s0 lvl0 s' lvl' /\ grown root n' s lvl s' lvl' /\ 0 <= n' <= 1 /\ lvl' c = S k /\
     (c + KERNEL_VIRTUAL_BASE =? 0) = false /\
     present (pg_mem s' (t + 8 * i)) = true /\ pte_addr (pg_mem s' (t + 8 * i)) = c /\
     (forall j, 0 <= j < 512 -> view s' (slot (c + KERNEL_VIRTUAL_BASE) j) = Some (c + 8 * j))) \/
  (get_next_level s ptr i true flags = Ok (0, s) /\ free_above (pg_blocks s0) = n).
Proof.
  intros G Ht Hi H7 Hv. pose proof (gr_free _ _ _ _ _ _ G) as Hfree.
  destruct (next_level_create s lvl ptr t i k flags (gr_inv _ _ _ _ _ _ G) Ht Hi H7 Hv)
    as [(c & s' & lvl' & n' & E & G' & Hn & Hl & Hc & Hp & Ha)|[E H0]]; [left|right; split; [done|lia]].
  exists c, s', lvl', n'. split_and!; try done; try lia; [by eapply grown_trans|].
  intros j Hj. apply (tv_high _ _ _ (space_visible s' lvl' (gr_inv _ _ _ _ _ _ G'))); [lia|done].
Qed.

(** [paging_map_page] maps the page, or stops because the allocator has no block left. *)
Lemma map_page_spec s lvl pa va flags :
  space_inv s root lvl -> pg_tlb_ok s -> 0 <= pa < 2 ^ 52 -> (4096 | pa) -> Z.testbit flags 7 = false ->
  ~ window (total_blocks (pg_blocks s)) (vpn va) ->
  (exists s' lvl' n, paging_map_page s pa va flags = Ok (va, s') /\ 0 <= n <= 3 /\
     leaf_written n va (paging_entry pa flags) s lvl s' lvl') \/
  (exists s' lvl' n, paging_map_page s pa va flags = Ok (0, s') /\ 0 <= n <= 2 /\
     grown root n s lvl s' lvl' /\ free_above (pg_blocks s) = n).
Proof.
  intros HI Htlb Hpa Hal H7 Hwin. unfold paging_map_page.
  assert ((Z.land pa (not64 PAGE_MASK) =? 0) = true) as ->.
  { apply Z.eqb_eq. change (not64 PAGE_MASK) with (Z.ones 12). rewrite Z.land_ones by lia.
    destruct Hal as [q ->]. apply Z.mod_mul. done. }
  cbn [negb]. pose proof (tr_root _ _ _ (si_tree _ _ _ HI)) as Hroot.
  pose proof (level_index_range 4 va : 0 <= PML4_INDEX va < 512) as I4.
  pose proof (level_index_range 3 va : 0 <= PDPT_INDEX va < 512) as I3.
  pose proof (level_index_range 2 va : 0 <= PD_INDEX va < 512) as I2.
  pose proof (grown_refl s lvl HI) as G0.
  destruct (descend_create _ _ _ _ _ (pml4 s) root _ _ flags G0 Hroot I4 H7 (tv_root _ _ _ (space_visible s lvl HI) _ I4))
    as [(c3 & s1 & lvl1 & n1 & -> & G1 & _ & N1 & L3 & Z3 & P3 & A3 & V3)|[-> H0]]; cbn [mbind outcome_bind].
  2: { right. exists s, lvl, 0. done. }
  rewrite Z3. destruct (descend_create _ _ _ _ _ _ c3 _ _ flags G1 L3 I3 H7 (V3 _ I3))
    as [(c2 & s2 & lvl2 & n2 & -> & G2 & S2 & N2 & L2 & Z2 & P2 & A2 & V2)|[-> H0]]; cbn [mbind outcome_bind].
  2: { right. exists s1, lvl1, (0 + n1). split_and!; try done; lia. }
  rewrite Z2. destruct (descend_create _ _ _ _ _ _ c2 _ _ flags G2 L2 I2 H7 (V2 _ I2))
    as [(c1 & s3 & lvl3 & n3 & -> & G3 & S3 & N3 & L1 & Z1 & P1 & A1 & V1)|[-> H0]]; cbn [mbind outcome_bind].
  2: { right. exists s2, lvl2, (0 + n1 + n2). split_and!; try done; lia. }
  rewrite Z1. left.
  assert (lvl1 root = 4%nat) as R1 by (by rewrite (gr_ext _ _ _ _ _ _ G1) by lia).
  destruct (grown_entry _ _ _ _ _ _ _ _ _ S2 R1 I4 P3 A3) as [P3' A3'].
  destruct (grown_entry _ _ _ _ _ root _ 2 _ S3 ltac:(by rewrite (gr_ext _ _ _ _ _ _ G2) by lia) I4 P3' A3') as [P3'' A3''].
  destruct (grown_entry _ _ _ _ _ c3 _ 1 _ S3 ltac:(by rewrite (gr_ext _ _ _ _ _ _ S2) by lia) I3 P2 A2) as [P2' A2'].
  destruct (paging_entry_spec pa flags Hpa Hal) as (Hpr & _ & Hr & _).
  destruct (write_leaf s lvl _ s3 lvl3 c1 va (paging_entry pa flags) G3 Htlb L1) as (s' & E & HL).
  { cbn [leaf_table level_index]. change (pml4_index va) with (PML4_INDEX va). change (pdpt_index va) with (PDPT_INDEX va).
    change (pd_index va) with (PD_INDEX va). by rewrite P3'', A3'', P2', A2', P1, A1. }
  { by left. } { unfold in_u64. lia. } { done. }
  fold (paging_entry pa flags). apply bind_Ok in E as (s4 & -> & [= <-]). cbn [mbind outcome_bind].
  do 3 eexists. split; [reflexivity|]. split; [|exact HL]. lia.
Qed.

(** [paging_unmap_page] removes the translation of one page and nothing else. *)
Lemma unmap_page_spec s lvl va :
  space_inv s root lvl -> pg_tlb_ok s -> ~ window (total_blocks (pg_blocks s)) (vpn va) ->
  exists s', paging_unmap_page s va = Ok s' /\ pg_blocks s' = pg_blocks s /\
    leaf_written 0 va 0 s lvl s' lvl.
Proof.
  intros HI Htlb Hwin. unfold paging_unmap_page.
  destruct (find_pt_spec s root lvl (space_visible s lvl HI) va) as [(p & -> & Hleaf & Hl & Hn)|[-> Hleaf]];
    cbn [mbind outcome_bind].
  - rewrite Hn.
    destruct (write_leaf s lvl 0 s lvl p va 0 (grown_refl s lvl HI) Htlb Hl Hleaf (or_intror eq_refl)) as (s' & E & HL).
    { unfold in_u64. lia. } { done. }
    exists s'. split; [exact E|]. split; [|exact HL]. apply bind_Ok in E as (s4 & E & [= <-]).
    unfold wr in E. destruct (view _ _); [|done]. by injection E as <-.
  - exists s. split; [done|]. split; [done|].
    assert (forall va', vpn va' = vpn va -> translate (pg_mem s) root va' = None) as Hnone.
    { intros va' Hv. rewrite (translate_vpn _ _ va' va Hv), translate_leaf. by rewrite Hleaf. }
    constructor; try done; [|lia].
    intros va'. destruct (Z.eqb_spec (vpn va') (vpn va)) as [Hv|]; [|done]. by rewrite Hnone.
Qed.

(** ** Blocks taken and given back beside the tables *)


(** ** What an operation leaves alone

    Translations outside the pages [T], blocks in use, and the contents of blocks in use
    that are no tables; tables come from free blocks only. *)
Record space_step (T : Z -> Prop) (s : pg) (lvl : Z -> nat) (s' : pg) (lvl' : Z -> nat) : Prop := {
  ss_inv : space_inv s' root lvl';
  ss_tlb : pg_tlb_ok s';
  ss_walk : forall va, ~ T (vpn va) -> translate (pg_mem s') root va = translate (pg_mem s) root va;
  ss_used : forall b, block_used (bitmap (pg_blocks s)) b = true -> block_used (bitmap (pg_blocks s')) b = true;
  ss_fresh : forall t, lvl' t <> 0%nat -> lvl t = 0%nat -> block_used (bitmap (pg_blocks s)) (t / 4096) = false;
  ss_data : forall x, block_used (bitmap (pg_blocks s)) (x / 4096) = true -> lvl (x / 4096 * 4096) = 0%nat ->
    pg_mem s' x = pg_mem s x;
  ss_rest : next_free_page s' = next_free_page s /\ vmm_lock s' = vmm_lock s /\
    total_blocks (pg_blocks s') = total_blocks (pg_blocks s)
}.

Lemma space_step_trans T s lvl s1 lvl1 s2 lvl2 :
  space_step T s lvl s1 lvl1 -> space_step T s1 lvl1 s2 lvl2 -> space_step T s lvl s2 lvl2.
Proof.
  intros [I1 T1 W1 U1 F1 D1 R1] [I2 T2 W2 U2 F2 D2 R2]. constructor; [done|done| |auto| | |].
  - intros va Hva. by rewrite W2, W1.
  - intros t Ht H0. destruct (decide (lvl1 t = 0%nat)) as [Hz|Hn]; [|by apply F1].
    specialize (F2 t Ht Hz). destruct (block_used (bitmap (pg_blocks s)) (t / 4096)) eqn:E; [|done].
    apply U1 in E. congruence.
  - intros x Hx Hl. rewrite D2, D1; try done; [by apply U1|].
    destruct (decide (lvl1 (x / 4096 * 4096) = 0%nat)) as [|Hn]; [done|].
    specialize (F1 _ Hn Hl). rewrite Z.div_mul in F1 by done. congruence.
  - destruct R1 as (? & ? & ?), R2 as (? & ? & ?). split_and!; congruence.
Qed.

Lemma space_step_refl T s lvl : space_inv s root lvl -> pg_tlb_ok s -> space_step T s lvl s lvl.
Proof. intros HI Ht. by constructor. Qed.

Lemma leaf_written_step T n va v s lvl s' lvl' :
  T (vpn va) -> leaf_written n va v s lvl s' lvl' -> space_step T s lvl s' lvl'.
Proof.
  intros HT [I Ht W E U F D _ R]. constructor; try done.
  intros va' Hn. rewrite W. destruct (Z.eqb_spec (vpn va') (vpn va)) as [Hv|]; [|done].
  destruct Hn. by rewrite Hv.
Qed.

Lemma grown_step T n s lvl s' lvl' :
  pg_tlb_ok s -> grown root n s lvl s' lvl' -> space_step T s lvl s' lvl'.
Proof.
  intros Ht [I E K W U F D _ (_ & R2 & R3 & R4 & R5)]. constructor; try done.
  intros va e. rewrite R4, W. apply Ht.
Qed.


(** ** [vmm_alloc_pages] *)

(** The pages [base], [base + 4096], ... [n] of them. *)
Definition in_pages (base n : Z) (v : Z) : Prop := exists j, 0 <= j < n /\ v = vpn (base + 4096 * j).

Lemma vpn_page base j : 0 <= base -> 0 <= j -> vpn (base + 4096 * j) = (base / 4096 + j) mod 2 ^ 36.
Proof. intros Hb Hj. unfold vpn. rewrite (Z.mul_comm 4096), Z.div_add by done. done. Qed.

Lemma vpn_page_inj base j j' : 0 <= base -> 0 <= j < 2 ^ 36 -> 0 <= j' < 2 ^ 36 ->
  vpn (base + 4096 * j) = vpn (base + 4096 * j') -> j = j'.
Proof.
  intros Hb Hj Hj' E. rewrite !vpn_page in E by lia.
  pose proof (Z.div_mod (base / 4096 + j) (2 ^ 36) ltac:(lia)). pose proof (Z.div_mod (base / 4096 + j') (2 ^ 36) ltac:(lia)).
  rewrite E in *. nia.
Qed.


Lemma space_step_weaken (T T' : Z -> Prop) s lvl s' lvl' :
  (forall v, T v -> T' v) -> space_step T s lvl s' lvl' -> space_step T' s lvl s' lvl'.
Proof. intros HT [I Ht W U F D R]. constructor; try done. intros va Hn. apply W. intros H. by apply Hn, HT. Qed.






(** ** [vmm_free_pages] *)





(** ** [vmm_map_range] *)

(** The pages from [virt] on are mapped to the frames from [phys] on. *)
Definition range_mapped (phys virt n flags : Z) (s : pg) : Prop :=
  forall j, 0 <= j < n ->
    translate (pg_mem s) root (virt + 4096 * j) = Some (paging_entry (phys + 4096 * j) flags).

(** The way back of a failed range. *)
Lemma unmap_back_spec i s lvl T virt :
  space_inv s root lvl -> pg_tlb_ok s -> 0 <= virt -> virt + 4096 * Z.of_nat i < 2 ^ 64 ->
  Z.of_nat i < 2 ^ 36 -> (forall j, 0 <= j < Z.of_nat i -> T (vpn (virt + 4096 * j))) ->
  (forall v, T v -> ~ window (total_blocks (pg_blocks s)) v) ->
  exists s', unmap_back i s virt = Ok s' /\ space_step T s lvl s' lvl /\
    forall j, 0 <= j < Z.of_nat i -> translate (pg_mem s') root (virt + 4096 * j) = None.
Proof.
  revert s T. induction i as [|i IH]; intros s T HI Ht Hv Hlim Hn HT Hwin.
  { exists s. split; [done|]. split; [by apply space_step_refl|]. intros j Hj. lia. }
  cbn [unmap_back]. change PAGE_SIZE with 4096. rewrite u64_small by (unfold in_u64; lia).
  replace (virt + Z.of_nat i * 4096) with (virt + 4096 * Z.of_nat i) by lia.
  destruct (unmap_page_spec s lvl (virt + 4096 * Z.of_nat i) HI Ht ltac:(apply Hwin, HT; lia)) as (s1 & -> & Hbl & HL). cbn [mbind outcome_bind].
  destruct (IH s1 (in_pages virt (Z.of_nat i))) as (s2 & E2 & HS & Hnone);
    [apply HL|apply HL|lia|lia|lia|intros j Hj; by exists j|intros v (j & Hj & ->); rewrite Hbl; apply Hwin, HT; lia|].
  exists s2. split; [exact E2|]. split.
  - eapply space_step_trans; [eapply leaf_written_step; [|exact HL]; apply HT; lia|].
    eapply space_step_weaken; [|exact HS]. intros v (j & Hj & ->). apply HT. lia.
  - intros j Hj. destruct (decide (j = Z.of_nat i)) as [->|]; [|apply Hnone; lia].
    rewrite (ss_walk _ _ _ _ _ HS).
    + by rewrite (lw_walk _ _ _ _ _ _ _ HL), Z.eqb_refl.
    + intros (j & Hj' & Ev). apply vpn_page_inj in Ev; lia.
Qed.

Lemma map_range_loop_spec n i s lvl phys virt flags :
  space_inv s root lvl -> pg_tlb_ok s -> Z.testbit flags 7 = false -> 0 < virt ->
  0 <= phys -> (4096 | phys) -> phys + 4096 * (Z.of_nat i + Z.of_nat n) < 2 ^ 52 ->
  virt + 4096 * (Z.of_nat i + Z.of_nat n) < 2 ^ 64 -> Z.of_nat i + Z.of_nat n < 2 ^ 36 ->
  range_mapped phys virt (Z.of_nat i) flags s ->
  (forall v, in_pages virt (Z.of_nat i + Z.of_nat n) v -> ~ window (total_blocks (pg_blocks s)) v) ->
  let T := in_pages virt (Z.of_nat i + Z.of_nat n) in
  (exists s' lvl', map_range_loop n i s phys virt flags = Ok (true, s') /\ space_step T s lvl s' lvl' /\
     range_mapped phys virt (Z.of_nat i + Z.of_nat n) flags s') \/
  (exists s' lvl' k, map_range_loop n i s phys virt flags = Ok (false, s') /\ space_step T s lvl s' lvl' /\
     Z.of_nat i <= k < Z.of_nat i + Z.of_nat n /\ free_above (pg_blocks s) < 3 * Z.of_nat n /\
     (forall j, 0 <= j < k -> translate (pg_mem s') root (virt + 4096 * j) = None) /\
     forall j, k <= j < Z.of_nat i + Z.of_nat n ->
       translate (pg_mem s') root (virt + 4096 * j) = translate (pg_mem s) root (virt + 4096 * j)).
Proof.
  intros HI Ht H7 Hv Hp Hpa Hpl Hvl Hn. revert i s lvl HI Ht Hpl Hvl Hn.
  induction n as [|n IH]; intros i s lvl HI Ht Hpl Hvl Hn HR Hwin T.
  { left. exists s, lvl. split; [done|]. split; [by apply space_step_refl|]. by rewrite Z.add_0_r. }
  cbn [map_range_loop]. change PAGE_SIZE with 4096. rewrite !u64_small by (unfold in_u64; lia).
  replace (phys + Z.of_nat i * 4096) with (phys + 4096 * Z.of_nat i) by lia.
  replace (virt + Z.of_nat i * 4096) with (virt + 4096 * Z.of_nat i) by lia.
  destruct (map_page_spec s lvl (phys + 4096 * Z.of_nat i) (virt + 4096 * Z.of_nat i) flags HI Ht)
    as [(s1 & lvl1 & m & -> & Hm & HL)|(s1 & lvl1 & m & -> & Hm & G & Hfree)]; [lia| |done| | |].
  { apply Z.divide_add_r; [done|]. exists (Z.of_nat i). lia. }
  { apply Hwin. exists (Z.of_nat i). split; [lia|done]. }
  - cbn [mbind outcome_bind]. rewrite (proj2 (Z.eqb_neq _ 0)) by lia.
    assert (T (vpn (virt + 4096 * Z.of_nat i))) as HTi by (unfold T; exists (Z.of_nat i); split; [lia|done]).
    pose proof (leaf_written_step T _ _ _ _ _ _ _ HTi HL) as H1. pose proof (lw_free _ _ _ _ _ _ _ HL) as Hlf.
    assert (forall j, vpn (virt + 4096 * j) = vpn (virt + 4096 * Z.of_nat i) -> 0 <= j <= Z.of_nat i -> j = Z.of_nat i) as Hinj.
    { intros j Ev Hj. apply vpn_page_inj in Ev; lia. }
    subst T. replace (Z.of_nat i + Z.of_nat (S n)) with (Z.of_nat (S i) + Z.of_nat n) in * by lia.
    destruct (IH (S i) s1 lvl1) as [(s2 & lvl2 & E & H2 & HR2)|(s2 & lvl2 & k & E & H2 & Hk & Hfr & Hnone & Hrest)];
      [apply HL|apply HL|lia|lia|lia| | | |].
    + intros j Hj. rewrite (lw_walk _ _ _ _ _ _ _ HL). destruct (Z.eqb_spec (vpn (virt + 4096 * j)) (vpn (virt + 4096 * Z.of_nat i))) as [Ev|Hne].
      * rewrite (Hinj j Ev ltac:(lia)). destruct (paging_entry_spec (phys + 4096 * Z.of_nat i) flags) as (-> & _); [lia| |done].
        apply Z.divide_add_r; [done|]. exists (Z.of_nat i). lia.
      * apply HR. destruct (decide (j = Z.of_nat i)) as [->|]; [done|lia].
    + by destruct (lw_rest _ _ _ _ _ _ _ HL) as (_ & _ & ->).
    + left. exists s2, lvl2. split; [exact E|]. split; [|done]. by eapply space_step_trans.
    + right. exists s2, lvl2, k. split; [exact E|]. split; [by eapply space_step_trans|]. split; [lia|]. split; [lia|].
      split; [done|]. intros j Hj. rewrite Hrest by lia. rewrite (lw_walk _ _ _ _ _ _ _ HL).
      destruct (Z.eqb_spec (vpn (virt + 4096 * j)) (vpn (virt + 4096 * Z.of_nat i))) as [Ev|]; [|done].
      apply vpn_page_inj in Ev; lia.
  - cbn [mbind outcome_bind Z.eqb]. pose proof (grown_step T _ _ _ _ _ Ht G) as H1.
    destruct (unmap_back_spec i s1 lvl1 (in_pages virt (Z.of_nat i)) virt) as (s2 & -> & H2 & Hnone);
      [apply H1|apply H1|lia|lia|lia|intros j Hj; by exists j| |].
    { destruct (ss_rest _ _ _ _ _ H1) as (_ & _ & ->). intros v (j & Hj & ->). apply Hwin. exists j. split; [lia|done]. }
    assert (space_step T s1 lvl1 s2 lvl1) as H2' by (eapply space_step_weaken; [|exact H2]; intros v (j & Hj & ->); exists j; split; [lia|done]).
    right. exists s2, lvl1, (Z.of_nat i). cbn [mbind outcome_bind]. split; [done|]. split; [by eapply space_step_trans|].
    split; [lia|]. split; [lia|]. split; [done|]. intros j Hj. rewrite (ss_walk _ _ _ _ _ H2).
    + apply (ss_walk _ _ _ _ _ (grown_step (fun _ => False) _ _ _ _ _ Ht G)). intros [].
    + intros (j' & Hj' & Ev). apply vpn_page_inj in Ev; lia.
Qed.

End Space.

(** ** Theorems *)

(** The invariant holds again, and outside the pages [T] translations, blocks in use and
    the contents of blocks that are no tables are as before. *)
Record space_kept (root : Z) (T : Z -> Prop) (s : pg) (lvl : Z -> nat) (s' : pg)
    (lvl' : Z -> nat) : Prop := {
  sk_inv : space_inv s' root lvl';
  sk_tlb : pg_tlb_ok root s';
  sk_walk : forall va, ~ T (vpn va) -> translate (pg_mem s') root va = translate (pg_mem s) root va;
  sk_used : forall b, block_used (bitmap (pg_blocks s)) b = true -> block_used (bitmap (pg_blocks s')) b = true;
  sk_data : forall x, block_used (bitmap (pg_blocks s)) (x / 4096) = true -> lvl (x / 4096 * 4096) = 0%nat ->
    pg_mem s' x = pg_mem s x;
  sk_total : total_blocks (pg_blocks s') = total_blocks (pg_blocks s)
}.

(** The fields the invariant does not speak of may change. *)
Lemma space_inv_ext s s' root lvl :
  pg_mem s' = pg_mem s -> pg_blocks s' = pg_blocks s -> pml4 s' = pml4 s -> cr3 s' = cr3 s ->
  space_inv s root lvl -> space_inv s' root lvl.
Proof.
  intros E1 E2 E3 E4 HI. pose proof HI as []. constructor; rewrite ?E1, ?E2, ?E3, ?E4; try done.
  apply (visible_same s); try done. intros va _. by rewrite E1.
Qed.

Lemma step_kept root T s0 s lvl s1 lvl1 s' :
  space_step root T s0 lvl s1 lvl1 -> pg_mem s0 = pg_mem s -> pg_blocks s0 = pg_blocks s ->
  pg_mem s' = pg_mem s1 -> pg_blocks s' = pg_blocks s1 ->
  pml4 s' = pml4 s1 -> cr3 s' = cr3 s1 -> pg_tlb s' = pg_tlb s1 -> space_kept root T s lvl s' lvl1.
Proof.
  intros [I Ht W U F D R] E1 E2 E3 E4 E5 E7 E6. rewrite E1, E2 in *. constructor; rewrite ?E3, ?E4; try done.
  - by apply (space_inv_ext s1).
  - intros va e. rewrite E3, E6. apply Ht.
  - apply R.
Qed.




(** C26: [vmm_map_range], for a range outside the windows through which the tables are
    reached, maps all of it or nothing: when it reports success, every page of the
    range translates to the frame at the same distance, with the flags asked for; when it
    fails, for want of table blocks, the pages mapped so far do not translate any more and
    the rest of the range is as it was.
    No other translation, no block in use and no data changes. *)
Theorem vmm_map_range_correct (s : pg) (root : Z) (lvl : Z -> nat) (phys virt : Z) (pages : nat)
    (flags : Z) :
  space_inv s root lvl -> pg_tlb_ok root s -> vmm_lock s = false -> Z.testbit flags 7 = false ->
  (4096 | phys) -> (4096 | virt) -> 0 <= phys -> 0 < virt ->
  phys + 4096 * Z.of_nat pages < 2 ^ 52 -> virt + 4096 * Z.of_nat pages < 2 ^ 64 -> Z.of_nat pages < 2 ^ 36 ->
  (forall v, in_pages virt (Z.of_nat pages) v -> ~ window (total_blocks (pg_blocks s)) v) ->
  exists b s' lvl', vmm_map_range s phys virt pages flags = Ok (b, s') /\
    space_kept root (in_pages virt (Z.of_nat pages)) s lvl s' lvl' /\ vmm_lock s' = false /\
    if b then range_mapped root phys virt (Z.of_nat pages) flags s'
    else free_above (pg_blocks s) < 3 * Z.of_nat pages /\
      exists k, 0 <= k < Z.of_nat pages /\
        (forall j, 0 <= j < k -> translate (pg_mem s') root (virt + 4096 * j) = None) /\
        forall j, k <= j < Z.of_nat pages ->
          translate (pg_mem s') root (virt + 4096 * j) = translate (pg_mem s) root (virt + 4096 * j).
Proof.
  intros HI Ht Hl H7 Hpa Hva Hp Hv Hpl Hvl Hn Hwin. unfold vmm_map_range, is_page_aligned.
  change (PAGE_SIZE - 1) with (Z.ones 12). rewrite !Z.land_ones by lia.
  assert (forall x, (4096 | x) -> x mod 2 ^ 12 = 0) as Hmod by (intros x [q ->]; by apply Z.mod_mul).
  rewrite !Hmod by done. cbn [Z.eqb negb orb]. rewrite Hl. cbn [spin_acquire mbind outcome_bind].
  assert (space_inv (with_vmm_lock s true) root lvl) as HI' by (by apply (space_inv_ext s)).
  destruct (map_range_loop_spec root pages 0 (with_vmm_lock s true) lvl phys virt flags HI' Ht H7 Hv Hp Hpa)
    as [(s1 & lvl1 & -> & HS & HR)|(s1 & lvl1 & k & -> & HS & Hk & Hf & Hnone & Hrest)]; [lia|lia|lia|intros j Hj; lia|done| |];
    cbn [mbind outcome_bind]; eexists _, _, lvl1; (split; [reflexivity|]).
  - split; [by apply (step_kept root _ _ _ _ _ _ _ HS)|]. done.
  - split; [by apply (step_kept root _ _ _ _ _ _ _ HS)|]. split; [done|]. split; [done|]. exists k. split; [lia|done].
Qed.

(** The address space of [demo_pg]: blocks 5 and 6 free, the rest tables and data. *)
Lemma demo_space_inv : space_inv demo_pg 0x1000 demo_pg_lvl.
Proof.
  constructor; try done.
  - constructor; try done; try (cbn; lia). repeat constructor; done.
  - exact demo_blocks_visible.
  - exact demo_tree.
  - apply demo_pg_visible.
  - intros t Ht. apply demo_pg_tables in Ht. rewrite !elem_of_cons, elem_of_nil in Ht.
    repeat (destruct Ht as [->|Ht]); done.
Qed.

(** The pages above 5 GiB are in no window of the demo machine. *)
Lemma demo_no_window base n v :
  5 * 2 ^ 30 <= base -> base + 4096 * n <= 6 * 2 ^ 30 -> in_pages base n v -> ~ window 64 v.
Proof.
  intros Hb Hn (j & Hj & ->). rewrite vpn_page by lia.
  assert (5 * 2 ^ 18 <= base / 4096) by (apply Z.div_le_lower_bound; lia).
  assert (base / 4096 + j < 6 * 2 ^ 18) by (pose proof (Z.mul_div_le base 4096 ltac:(lia)); lia).
  rewrite Z.mod_small by lia. unfold window. lia.
Qed.




Lemma demo_map_range :
  match vmm_map_range demo_pg 0x20000 (5 * 2 ^ 30 + 0x3000) 2 3 with Ok (b, _) => Some b | _ => None end
  = Some true.
Proof. vm_compute. reflexivity. Qed.

Lemma vmm_map_range_correct_witness :
  exists s', vmm_map_range demo_pg 0x20000 (5 * 2 ^ 30 + 0x3000) 2 3 = Ok (true, s') /\
    range_mapped 0x1000 0x20000 (5 * 2 ^ 30 + 0x3000) 2 3 s' /\ vmm_lock s' = false.
Proof.
  pose proof demo_map_range as H.
  destruct (vmm_map_range_correct demo_pg 0x1000 demo_pg_lvl 0x20000 (5 * 2 ^ 30 + 0x3000) 2 3 demo_space_inv)
    as (b & s' & lvl' & E & _ & Hl & Hb).
  - intros va e Hva. discriminate Hva.
  - reflexivity.
  - reflexivity.
  - exists 32. reflexivity.
  - exists (5 * 2 ^ 18 + 3). reflexivity.
  - lia.
  - lia.
  - cbn. lia.
  - cbn. lia.
  - cbn. lia.
  - intros v. apply demo_no_window; cbn; lia.
  - rewrite E in H. injection H as ->. exists s'. split; [exact E|]. split; [exact Hb|exact Hl].
Defined.

(** [next_free_page] is not compared with what is mapped. It starts at
    [KERNEL_VIRTUAL_BASE], the window through which the tables are reached, and the
    first page handed out replaces the mapping of block 0 there; a page that was mapped
    elsewhere is mapped anew, too. *)
Example alloc_replaces_mapping :
  view demo_pg KERNEL_VIRTUAL_BASE = Some 0 /\
  match vmm_alloc_pages (with_next_free demo_pg KERNEL_VIRTUAL_BASE) 1 with
  | Ok (r, s) => Some (r, view s KERNEL_VIRTUAL_BASE)
  | _ => None
  end = Some (KERNEL_VIRTUAL_BASE, Some 0x5000) /\
  translate (pg_mem demo_pg) 0x1000 (5 * 2 ^ 30) = Some 0x9003 /\
  match vmm_alloc_pages (with_next_free demo_pg (5 * 2 ^ 30)) 1 with
  | Ok (r, s) => Some (r, translate (pg_mem s) 0x1000 (5 * 2 ^ 30))
  | _ => None
  end = Some (5 * 2 ^ 30, Some 0x5003).
Proof. split_and!; vm_compute; reflexivity. Qed.
