(* ===== verification/NetProto.v ===== *)
(** Line protocol of the server in [src/net/network.c]: input sanitising, command
    recognition, buffered receive and send, and the session of one client.

    A C string is the list of its bytes before the terminator. System calls are
    scripts: the list of results that [select], [recv], [send] and [time] give. *)
From Stdlib Require Import ZArith Lia Ascii String.
From stdpp Require Import strings numbers gmap base.
From stdpp Require Import list.
From S2P Require Import Prelude.
Open Scope Z_scope.

Definition MAX_COMMAND_LINE_LENGTH : Z := 1024.

Definition chars (s : string) : list Z := (fun c => Z.of_N (Ascii.N_of_ascii c)) <$> String.list_ascii_of_string s.

(** [isprint] and [isspace] of the C locale. *)
Definition isprint (c : Z) : bool := (32 <=? c) && (c <=? 126).
Definition isspace (c : Z) : bool := ((9 <=? c) && (c <=? 13)) || (c =? 32).

(** ** sanitize_input *)

(** [if (len > 0 && buffer[len - 1] == c) buffer[--len] = '\0']. *)
Definition strip_last (c : Z) (l : list Z) : list Z :=
  match last l with
  | Some d => if d =? c then removelast l else l
  | None => l
  end.

Definition sanitize_char (c : Z) : Z := if negb (isprint c) && negb (isspace c) then 63 else c.

(** The loop that skips leading white space. *)
Fixpoint skip_spaces (l : list Z) : list Z :=
  match l with
  | [] => []
  | c :: l' => if isspace c then skip_spaces l' else l
  end.

(** The loop that cuts trailing white space. *)
Definition cut_spaces (l : list Z) : list Z := reverse (skip_spaces (reverse l)).

Definition sanitize_input (buffer : list Z) : list Z :=
  let b := strip_last 13 (strip_last 10 buffer) in
  let b := if MAX_COMMAND_LINE_LENGTH <=? Z.of_nat (length b)
           then take (Z.to_nat (MAX_COMMAND_LINE_LENGTH - 1)) b else b in
  let b := sanitize_char <$> b in
  cut_spaces (skip_spaces b).

(** ** is_valid_command *)

Definition allowed_commands : list (list Z) := chars <$> ["help"; "info"; "exit"; "quit"; "echo"]%string.

(** [strncmp(command, kw, strlen(kw)) == 0]. *)
Fixpoint has_prefix (kw command : list Z) : bool :=
  match kw, command with
  | [], _ => true
  | k :: kw', c :: command' => (k =? c) && has_prefix kw' command'
  | _ :: _, [] => false
  end.

Fixpoint check_commands (kws : list (list Z)) (command : list Z) : bool :=
  match kws with
  | [] => false
  | kw :: kws' =>
      if has_prefix kw command then
        if bool_decide (kw = chars "echo") then true
        else match drop (length kw) command with
             | [] => true
             | c :: _ => if isspace c then true else check_commands kws' command
             end
      else check_commands kws' command
  end.

Definition is_valid_command (command : list Z) : bool :=
  match command with
  | [] => false
  | _ => check_commands allowed_commands command
  end.

(** ** Dispatch of one sanitised line in [handle_client] *)
Inductive response :=
| RPrompt | RGoodbye | RInvalid | RHelp | RInfo | REcho (msg : list Z) | REchoEmpty | RNotImplemented.

Definition dispatch (buffer : list Z) : response :=
  match buffer with
  | [] => RPrompt
  | _ =>
      if bool_decide (buffer = chars "exit") || bool_decide (buffer = chars "quit") then RGoodbye
      else if negb (is_valid_command buffer) then RInvalid
      else if bool_decide (buffer = chars "help") then RHelp
      else if bool_decide (buffer = chars "info") then RInfo
      else if has_prefix (chars "echo ") buffer then REcho (drop 5 buffer)
      else if bool_decide (buffer = chars "echo") then REchoEmpty
      else RNotImplemented
  end.

(** ** recv_full *)
Inductive recv_status := RECV_OK | RECV_EOF | RECV_TIMEOUT | RECV_ERROR.

(** What one round of [select] and [recv] gives. *)
Inductive sock_event :=
| SelEINTR | SelError | SelTimeout | RecvEINTR | RecvAgain | RecvError | RecvEOF | RecvData (bytes : list Z).

(** [got] holds the bytes received so far; the answer is the status, the
    buffer's contents and the events that are left. [recv] gives at most the room
    left in the buffer; the rest of a chunk stays to be received later, and then
    the buffer is full and the loop ends. *)
Fixpoint recv_loop (evs : list sock_event) (len : Z) (got : list Z)
    : outcome (recv_status * list Z * list sock_event) :=
  if Z.of_nat (length got) <? len - 1 then
    match evs with
    | [] => Hang
    | SelEINTR :: rest | RecvEINTR :: rest => recv_loop rest len got
    | SelError :: rest | RecvAgain :: rest | RecvError :: rest => Ok (RECV_ERROR, got, rest)
    | SelTimeout :: rest =>
        Ok (if 0 <? Z.of_nat (length got) then RECV_OK else RECV_TIMEOUT, got, rest)
    | RecvEOF :: rest | RecvData [] :: rest => Ok (RECV_EOF, got, rest)
    | RecvData bytes :: rest =>
        let room := Z.to_nat (len - Z.of_nat (length got) - 1) in
        let chunk := take room bytes in
        let push more := match more with [] => rest | _ => RecvData more :: rest end in
        if bool_decide (10 ∈ chunk) then Ok (RECV_OK, got ++ chunk, push (drop room bytes))
        else match drop room bytes with
             | [] => recv_loop rest len (got ++ chunk)
             | more => Ok (RECV_OK, got ++ chunk, RecvData more :: rest)
             end
    end
  else Ok (RECV_OK, got, evs).

Definition recv_full (evs : list sock_event) (len : Z) : outcome (recv_status * list Z * list sock_event) :=
  if len =? 0 then Ok (RECV_OK, [], evs) else recv_loop evs len [].

(** ** send_full *)
Inductive send_event := SendSome (n : Z) | SendEINTR | SendFail.

(** The result ([-1] on error), the bytes handed to the socket and the events
    that are left; [send] takes at least one and at most all bytes offered. *)
Fixpoint send_loop (evs : list send_event) (buffer : list Z) (bytes_sent : Z) : outcome (Z * list Z * list send_event) :=
  if bytes_sent <? Z.of_nat (length buffer) then
    match evs with
    | [] => Hang
    | SendEINTR :: rest => send_loop rest buffer bytes_sent
    | SendFail :: rest => Ok (-1, take (Z.to_nat bytes_sent) buffer, rest)
    | SendSome n :: rest =>
        let n := Z.min (Z.max 1 n) (Z.of_nat (length buffer) - bytes_sent) in
        send_loop rest buffer (bytes_sent + n)
    end
  else Ok (bytes_sent, take (Z.to_nat bytes_sent) buffer, evs).

Definition send_full (evs : list send_event) (buffer : list Z) : outcome (Z * list Z * list send_event) :=
  send_loop evs buffer 0.

(** ** handle_client *)

Definition welcome : list Z := chars "Welcome to the Enhanced Server!".

(** What the session does to the outside: messages and the close of the
    connection, which also takes the client off the active count. *)
Inductive action :=
| ATooMany | AWelcome | ATimeoutMsg | ARespond (r : response) | AClose.

(** One pass of the session loop: whether the server still runs, the time before
    the receive, the receive's result and the time after it. *)
Record pass := mk_pass { p_running : bool; p_now : Z; p_status : recv_status; p_data : list Z; p_after : Z }.

Fixpoint session_loop (timeout : Z) (ps : list pass) (last_activity : Z) : outcome (list action) :=
  match ps with
  | [] => Hang
  | p :: rest =>
      if negb (p_running p) then Ok []
      else if timeout <? p_now p - last_activity then Ok [ATimeoutMsg]
      else
        match p_status p with
        | RECV_TIMEOUT => session_loop timeout rest last_activity
        | RECV_ERROR | RECV_EOF => Ok []
        | RECV_OK =>
            let r := dispatch (sanitize_input (p_data p)) in
            match r with
            | RGoodbye => Ok [ARespond RGoodbye]
            | _ => out ← session_loop timeout rest (p_after p) ; Ok (ARespond r :: out)
            end
        end
  end.

(** [buffer_ok]: the buffer could be allocated; [allowed]: the answer of the rate
    limiter; [welcome_ok]: the welcome message could be sent; [start]: the time
    after it. *)
Definition handle_client (buffer_ok allowed welcome_ok : bool) (timeout start : Z) (ps : list pass)
    : outcome (list action) :=
  if negb buffer_ok then Ok [AClose]
  else if negb allowed then Ok [ATooMany; AClose]
  else if negb welcome_ok then Ok [AWelcome; AClose]
  else out ← session_loop timeout ps start ; Ok (AWelcome :: out ++ [AClose]).

(** ** Sanitising *)

Definition clean (c : Z) : bool := isprint c || isspace c.

Lemma sanitize_char_clean c : clean (sanitize_char c) = true.
Proof.
  unfold sanitize_char, clean. destruct (isprint c) eqn:E1, (isspace c) eqn:E2; cbn; rewrite ?E1, ?E2; done.
Qed.

Lemma sanitize_char_id c : clean c = true -> sanitize_char c = c.
Proof. unfold sanitize_char, clean. by destruct (isprint c), (isspace c). Qed.

Lemma skip_spaces_suffix l : exists k, skip_spaces l = drop k l.
Proof.
  induction l as [|c l [k IH]]; [by exists 0%nat|]. cbn. destruct (isspace c); [by exists (S k)|by exists 0%nat].
Qed.

Lemma skip_spaces_head l c l' : skip_spaces l = c :: l' -> isspace c = false.
Proof. induction l as [|d l IH]; cbn; [done|]. destruct (isspace d) eqn:E; [done|]. by intros [= <- _]. Qed.

Lemma skip_spaces_id l : (forall c l', l = c :: l' -> isspace c = false) -> skip_spaces l = l.
Proof. destruct l as [|c l]; [done|]. intros H. cbn. by rewrite (H c l). Qed.

Lemma cut_spaces_prefix l : exists k, cut_spaces l = take k l.
Proof.
  unfold cut_spaces. destruct (skip_spaces_suffix (reverse l)) as [k ->].
  exists (length (reverse (drop k (reverse l)))).
  assert (l = reverse (drop k (reverse l)) ++ reverse (take k (reverse l))) as Hl.
  { by rewrite <- reverse_app, take_drop, reverse_involutive. }
  rewrite Hl at 3. by rewrite take_app_length.
Qed.

Lemma cut_spaces_last l c : last (cut_spaces l) = Some c -> isspace c = false.
Proof.
  unfold cut_spaces. rewrite last_reverse. destruct (skip_spaces (reverse l)) as [|d m] eqn:E; [done|].
  intros [= <-]. by eapply skip_spaces_head.
Qed.

Lemma cut_spaces_id l : (forall c, last l = Some c -> isspace c = false) -> cut_spaces l = l.
Proof.
  intros H. unfold cut_spaces. rewrite skip_spaces_id; [apply reverse_involutive|].
  intros c l' Hr. apply H. rewrite <- (reverse_involutive l), Hr. by rewrite last_reverse.
Qed.

Lemma strip_last_prefix c l : exists k, strip_last c l = take k l.
Proof.
  unfold strip_last. destruct (last l) as [d|] eqn:E; [|by exists (length l); rewrite take_ge].
  destruct (d =? c); [|by exists (length l); rewrite take_ge].
  apply last_Some in E as [l' ->]. exists (length l'). rewrite removelast_last. by rewrite take_app_length.
Qed.

Lemma cut_spaces_head l c l' : (forall d m, l = d :: m -> isspace d = false) -> cut_spaces l = c :: l' -> isspace c = false.
Proof.
  intros H Hc. destruct (cut_spaces_prefix l) as [k Hk]. rewrite Hk in Hc.
  destruct l as [|d m], k; try done. injection Hc as <- _. by eapply H.
Qed.

Lemma sanitize_spec b :
  let r := sanitize_input b in
  Z.of_nat (length r) < MAX_COMMAND_LINE_LENGTH /\ Forall (fun c => clean c = true) r /\
  (forall c l, r = c :: l -> isspace c = false) /\ (forall c, last r = Some c -> isspace c = false).
Proof.
  unfold sanitize_input, MAX_COMMAND_LINE_LENGTH.
  set (b1 := strip_last 13 (strip_last 10 b)).
  set (b2 := if 1024 <=? Z.of_nat (length b1) then take (Z.to_nat (1024 - 1)) b1 else b1).
  assert (Z.of_nat (length b2) < 1024) as Hl.
  { unfold b2. zcase (1024 <=? Z.of_nat (length b1)). rewrite length_take. lia. }
  set (b3 := sanitize_char <$> b2). cbv zeta.
  destruct (skip_spaces_suffix b3) as [k Hk]. destruct (cut_spaces_prefix (skip_spaces b3)) as [j Hj].
  split; [|split; [|split]].
  - rewrite Hj, Hk, length_take, length_drop. unfold b3. rewrite length_fmap. lia.
  - rewrite Hj, Hk. apply Forall_take, Forall_drop. unfold b3. apply Forall_fmap, Forall_forall.
    intros c _. apply sanitize_char_clean.
  - intros c l. apply cut_spaces_head. intros d m. apply skip_spaces_head.
  - apply cut_spaces_last.
Qed.

Lemma strip_last_id c l : (forall d, last l = Some d -> isspace d = false) -> isspace c = true -> strip_last c l = l.
Proof.
  intros H Hc. unfold strip_last. destruct (last l) as [d|] eqn:E; [|done].
  destruct (Z.eqb_spec d c) as [->|]; [|done]. rewrite (H c eq_refl) in Hc. done.
Qed.

(** ** Receive and send *)

(** The bytes that a script delivers, in order. *)
Definition payload (evs : list sock_event) : list Z :=
  mjoin ((fun e => match e with RecvData b => b | _ => [] end) <$> evs).

Lemma recv_loop_spec evs : forall len got st d rest,
  Z.of_nat (length got) <= len - 1 ->
  recv_loop evs len got = Ok (st, d, rest) ->
  Z.of_nat (length d) <= len - 1 /\ got ++ payload evs = d ++ payload rest /\
  (st = RECV_TIMEOUT -> d = []) /\
  (st = RECV_OK -> d <> [] \/ len = 1).
Proof.
  assert (forall (got : list Z) len, Z.of_nat (length got) <= len - 1 -> ~ Z.of_nat (length got) < len - 1 ->
    got <> [] \/ len = 1) as Hfull.
  { intros [|x got] len; cbn; [right; lia|by left]. }
  induction evs as [|e evs IH]; intros len got st d rest Hl; cbn [recv_loop];
    destruct (Z.ltb_spec (Z.of_nat (length got)) (len - 1)) as [Hlt|Hge].
  - done.
  - intros [= <- <- <-]. split; [done|]. split; [done|]. split; [done|]. intros _. apply Hfull; lia.
  - destruct e as [| | | | | | |bytes]; cbn [payload].
    + intros H. by apply IH in H.
    + intros [= <- <- <-]. done.
    + intros [= <- <- <-]. split; [done|]. split; [done|].
      destruct (Z.ltb_spec 0 (Z.of_nat (length got))) as [Hp|Hz]; (split; [|]); try done.
      * intros _. left. by destruct got.
      * intros _. by destruct got.
    + intros H. by apply IH in H.
    + intros [= <- <- <-]. done.
    + intros [= <- <- <-]. done.
    + intros [= <- <- <-]. done.
    + destruct bytes as [|b0 bs]; [by intros [= <- <- <-]|]. set (bytes := b0 :: bs).
      set (room := Z.to_nat (len - Z.of_nat (length got) - 1)).
      assert (Z.of_nat (length (got ++ take room bytes)) <= len - 1) as Hb.
      { rewrite length_app, length_take. unfold room. lia. }
      assert (got ++ take room bytes <> []) as Hne.
      { assert (room <> 0%nat) by (unfold room; lia). destruct room; [done|]. by destruct got. }
      change (payload (RecvData bytes :: evs)) with (bytes ++ payload evs).
      assert (forall tl, got ++ bytes ++ tl = (got ++ take room bytes) ++ drop room bytes ++ tl) as Hsplit.
      { intros tl. rewrite <- app_assoc. f_equal. by rewrite app_assoc, take_drop. }
      rewrite Hsplit.
      destruct (bool_decide (10 ∈ take room bytes)).
      * intros [= <- <- <-]. split; [done|]. split; [f_equal; by destruct (drop room bytes)|].
        split; [done|]. intros _. by left.
      * destruct (drop room bytes) as [|m0 ms] eqn:E.
        -- intros H. apply IH in H as (H1 & H2 & H3); [|done]. split; [done|]. split; [|done].
           done.
        -- intros [= <- <- <-]. split; [done|]. split; [done|]. split; [done|]. intros _. by left.
  - intros [= <- <- <-]. split; [done|]. split; [done|]. split; [done|]. intros _. apply Hfull; lia.
Qed.

Lemma send_loop_spec evs : forall buffer n r sent rest,
  0 <= n <= Z.of_nat (length buffer) -> send_loop evs buffer n = Ok (r, sent, rest) ->
  (r = Z.of_nat (length buffer) /\ sent = buffer) \/
  (r = -1 /\ exists k, (k < length buffer)%nat /\ sent = take k buffer).
Proof.
  induction evs as [|e evs IH]; intros buffer n r sent rest Hn; cbn [send_loop];
    destruct (Z.ltb_spec n (Z.of_nat (length buffer))) as [Hlt|Hge].
  - done.
  - intros [= <- <- <-]. left. split; [lia|]. rewrite take_ge by lia. done.
  - destruct e as [k| |].
    + intros H. apply IH in H; [done|lia].
    + intros H. apply IH in H; [done|lia].
    + intros [= <- <- <-]. right. split; [done|]. exists (Z.to_nat n). split; [lia|done].
  - intros [= <- <- <-]. left. split; [lia|]. rewrite take_ge by lia. done.
Qed.

(** ** Commands *)

Lemma has_prefix_spec kw c : has_prefix kw c = true <-> exists rest, c = kw ++ rest.
Proof.
  revert c. induction kw as [|k kw IH]; intros c; cbn; [naive_solver|].
  destruct c as [|d c]; [split; [done|intros [r [=]]]|]. rewrite andb_true_iff, IH, Z.eqb_eq. naive_solver.
Qed.

(** The words that must stand alone. *)
Definition whole_word (kw command : list Z) : Prop :=
  command = kw \/ exists sp rest, isspace sp = true /\ command = kw ++ sp :: rest.

Lemma check_commands_spec kws c :
  check_commands kws c = true <->
  exists kw, kw ∈ kws /\
    ((kw = chars "echo" /\ exists rest, c = kw ++ rest) \/ (kw <> chars "echo" /\ whole_word kw c)).
Proof.
  unfold whole_word. induction kws as [|kw kws IH]; cbn [check_commands].
  { split; [done|]. intros (kw & Hin & _). by apply elem_of_nil in Hin. }
  setoid_rewrite elem_of_cons.
  assert (has_prefix kw c = false -> forall rest, c <> kw ++ rest) as Hno.
  { intros Hf rest Heq. assert (has_prefix kw c = true) by (apply has_prefix_spec; eauto). congruence. }
  destruct (has_prefix kw c) eqn:E.
  - apply has_prefix_spec in E as [rest ->]. rewrite drop_app_length.
    destruct (bool_decide_reflect (kw = chars "echo")) as [->|Hne].
    { split; [|done]. intros _. exists (chars "echo"). split; [by left|]. left. eauto. }
    destruct rest as [|sp rest].
    { split; [|done]. intros _. exists kw. split; [by left|]. right. split; [done|]. left. by rewrite app_nil_r. }
    destruct (isspace sp) eqn:Es.
    { split; [|done]. intros _. exists kw. split; [by left|]. right. eauto 6. }
    rewrite IH. split.
    + intros (kw' & Hin & H). exists kw'. auto.
    + intros (kw' & [->|Hin] & H); [|by exists kw'].
      exfalso. destruct H as [[? _]|[_ [H|(sp' & r' & Hs & H)]]]; [done| |].
      * rewrite <- (app_nil_r kw) in H at 2. by apply app_inv_head in H.
      * apply app_inv_head in H. injection H as -> ->. congruence.
  - rewrite IH. split.
    + intros (kw' & Hin & H). exists kw'. auto.
    + intros (kw' & [->|Hin] & H); [|by exists kw']. exfalso.
      destruct H as [[_ (r & H)]|[_ [H|(sp & r & _ & H)]]].
      * by apply (Hno eq_refl r).
      * apply (Hno eq_refl []). by rewrite app_nil_r.
      * by apply (Hno eq_refl (sp :: r)).
Qed.

(** ** Sessions *)

Lemma session_no_close ps : forall timeout t out, session_loop timeout ps t = Ok out -> AClose ∉ out.
Proof.
  induction ps as [|p ps IH]; intros timeout t out; cbn [session_loop]; [done|].
  destruct (negb (p_running p)); [intros [= <-]; set_solver|].
  destruct (_ <? _); [intros [= <-]; set_solver|].
  destruct (p_status p); try (intros [= <-]; set_solver).
  - destruct (dispatch _); intros H;
      (injection H as <-; set_solver) || (apply bind_Ok in H as (o & Ho & [= <-]); apply IH in Ho; set_solver).
  - apply IH.
Qed.

(** ** Properties *)

(** Whatever the client sends, the sanitised line is shorter than the command
    limit, consists of printable characters and white space, neither starts nor
    ends with white space, and sanitising it again changes nothing. *)
Theorem sanitize_input_correct (b : list Z) :
  let r := sanitize_input b in
  Z.of_nat (length r) < MAX_COMMAND_LINE_LENGTH /\ Forall (fun c => clean c = true) r /\
  (forall c l, r = c :: l -> isspace c = false) /\ (forall c, last r = Some c -> isspace c = false) /\
  sanitize_input r = r.
Proof.
  intros r. destruct (sanitize_spec b) as (Hl & Hc & Hh & Ht). fold r in Hl, Hc, Hh, Ht.
  split; [done|]. split; [done|]. split; [done|]. split; [done|].
  unfold sanitize_input. rewrite (strip_last_id 10), (strip_last_id 13) by done.
  zcase (MAX_COMMAND_LINE_LENGTH <=? Z.of_nat (length r)).
  assert (sanitize_char <$> r = r) as ->.
  { clear -Hc. induction Hc as [|c l Hc _ IH]; [done|]. cbn. rewrite sanitize_char_id by done. f_equal. exact IH. }
  rewrite skip_spaces_id by done. by apply cut_spaces_id.
Qed.

(** A command is valid exactly when it starts with [echo], or is one of
    [help], [info], [exit], [quit] standing alone or followed by white space. *)
Theorem is_valid_command_iff (c : list Z) :
  is_valid_command c = true <->
  (exists rest, c = chars "echo" ++ rest) \/
  exists kw, kw ∈ (chars <$> ["help"; "info"; "exit"; "quit"]%string) /\ whole_word kw c.
Proof.
  assert (is_valid_command c = true <-> check_commands allowed_commands c = true) as ->.
  { by destruct c. }
  rewrite check_commands_spec. split.
  - intros (kw & Hin & [[-> (rest & ->)]|[Hne Hw]]); [left; eauto|]. right. exists kw. split; [|done].
    change allowed_commands with ((chars <$> ["help"; "info"; "exit"; "quit"]%string) ++ [chars "echo"]) in Hin.
    apply elem_of_app in Hin as [Hin|Hin]; [done|]. apply list_elem_of_singleton in Hin. done.
  - intros [(rest & ->)|(kw & Hin & Hw)].
    + exists (chars "echo"). split; [|left; eauto].
      change allowed_commands with ((chars <$> ["help"; "info"; "exit"; "quit"]%string) ++ [chars "echo"]).
      apply elem_of_app. right. by apply list_elem_of_singleton.
    + exists kw. split.
      * change allowed_commands with ((chars <$> ["help"; "info"; "exit"; "quit"]%string) ++ [chars "echo"]).
        apply elem_of_app. by left.
      * right. split; [|done]. intros ->. vm_compute in Hin.
        repeat (apply elem_of_cons in Hin as [Hin|Hin]; [discriminate Hin|]). by apply elem_of_nil in Hin.
Qed.

(** [recv_full] never writes past the buffer (the terminator has room), neither
    loses, repeats nor reorders a byte that the socket delivered, reports a
    timeout only when nothing was received, and success only with data. *)
Theorem recv_full_correct (evs rest : list sock_event) (len : Z) (st : recv_status) (d : list Z) :
  1 < len -> recv_full evs len = Ok (st, d, rest) ->
  Z.of_nat (length d) + 1 <= len /\ payload evs = d ++ payload rest /\
  (st = RECV_TIMEOUT -> d = []) /\ (st = RECV_OK -> d <> []).
Proof.
  intros Hlen. unfold recv_full. zcase (len =? 0). intros H.
  apply recv_loop_spec in H as (H1 & H2 & H3 & H4); [|cbn; lia].
  split; [lia|]. split; [done|]. split; [done|]. intros ->. destruct (H4 eq_refl); [done|lia].
Qed.

Lemma recv_full_correct_witness :
  Z.of_nat (length (chars "help")) + 1 <= 5 /\
  payload [RecvData (chars "he"); SelEINTR; RecvData (chars "lp me")] = chars "help" ++ payload [RecvData (chars " me")].
Proof.
  destruct (recv_full_correct [RecvData (chars "he"); SelEINTR; RecvData (chars "lp me")] [RecvData (chars " me")] 5
    RECV_OK (chars "help") ltac:(lia) eq_refl) as (H1 & H2 & _). exact (conj H1 H2).
Defined.

(** [send_full] either reports the full length, and then exactly the message
    went out, or reports -1 after sending a proper prefix of it. *)
Theorem send_full_correct (evs rest : list send_event) (buffer sent : list Z) (r : Z) :
  send_full evs buffer = Ok (r, sent, rest) ->
  (r = Z.of_nat (length buffer) /\ sent = buffer) \/
  (r = -1 /\ exists k, (k < length buffer)%nat /\ sent = take k buffer).
Proof. apply send_loop_spec. lia. Qed.

Lemma send_full_correct_witness :
  (9 = 9 /\ chars "Goodbye!!" = chars "Goodbye!!") \/
  (9 = -1 /\ exists k, (k < 9)%nat /\ chars "Goodbye!!" = take k (chars "Goodbye!!")).
Proof.
  exact (send_full_correct [SendSome 4; SendEINTR; SendSome 7] [] (chars "Goodbye!!") (chars "Goodbye!!") 9 eq_refl).
Defined.

(** Every session that ends closes the connection exactly once, as its last
    action; a client over the rate limit gets no welcome and no answer. *)
Theorem handle_client_closes_once (buffer_ok allowed welcome_ok : bool) (timeout start : Z)
    (ps : list pass) (acts : list action) :
  handle_client buffer_ok allowed welcome_ok timeout start ps = Ok acts ->
  (exists pre, acts = pre ++ [AClose] /\ AClose ∉ pre) /\
  (allowed = false -> (AWelcome ∉ acts) /\ forall r, ARespond r ∉ acts).
Proof.
  unfold handle_client. destruct buffer_ok; cbn [negb].
  2: { intros [= <-]. split; [exists []; set_solver|set_solver]. }
  destruct allowed; cbn [negb].
  2: { intros [= <-]. split; [exists [ATooMany]; set_solver|set_solver]. }
  destruct welcome_ok; cbn [negb].
  2: { intros [= <-]. split; [exists [AWelcome]; set_solver|done]. }
  intros H. apply bind_Ok in H as (out & Ho & [= <-]). apply session_no_close in Ho.
  split; [|done]. exists (AWelcome :: out). set_solver.
Qed.

(** A session: one command, one empty line, and [quit]. *)
Definition demo_passes : list pass :=
  [mk_pass true 10 RECV_OK (chars "help " ++ [10]) 11; mk_pass true 12 RECV_TIMEOUT [] 12;
   mk_pass true 13 RECV_OK [13; 10] 14; mk_pass true 15 RECV_OK (chars "quit") 16].

Lemma handle_client_closes_once_witness :
  exists pre, [AWelcome; ARespond RHelp; ARespond RPrompt; ARespond RGoodbye; AClose] = pre ++ [AClose] /\ AClose ∉ pre.
Proof.
  exact (proj1 (handle_client_closes_once true true true 60 9 demo_passes
    [AWelcome; ARespond RHelp; ARespond RPrompt; ARespond RGoodbye; AClose] eq_refl)).
Defined.

(** Lines accepted by [is_valid_command] can still reach the branch that the
    code calls impossible: a keyword with arguments, and any word that starts with
    [echo]. *)
Theorem dispatch_reaches_unimplemented :
  dispatch (chars "help me") = RNotImplemented /\ dispatch (chars "exit now") = RNotImplemented /\
  dispatch (chars "echofoo") = RNotImplemented /\ is_valid_command (chars "echofoo") = true.
Proof. repeat split. Qed.
