(* ===== verification/NetPool.v ===== *)
(** Thread pool of the server in [src/net/network.c]: the bounded work queue, the
    connection counter, the rate limiter, and the interleavings of the acceptor
    with the workers. *)
From Stdlib Require Import ZArith Lia Sorted.
From stdpp Require Import strings numbers gmap base.
From stdpp Require Import list.
From S2P Require Import Prelude.
Open Scope Z_scope.

Definition RATE_LIMIT_WINDOW : Z := 60.
Definition INET6_ADDRSTRLEN : nat := 46.

Record server_config := mk_config {
  port : Z; backlog : Z; buf_size : Z; thread_pool_size : Z; max_queue_size : Z;
  max_connections : Z; connection_timeout : Z; max_requests_per_minute : Z; log_level : Z
}.

(** [init_config]. *)
Definition init_config : server_config := mk_config 8080 10 4096 20 100 1000 60 60 1.

(** The port option: out-of-range numbers fall back to the default. *)
Definition parse_port (c : server_config) (p : Z) : server_config :=
  mk_config (if (p <=? 0) || (65535 <? p) then 8080 else p) (backlog c) (buf_size c) (thread_pool_size c)
    (max_queue_size c) (max_connections c) (connection_timeout c) (max_requests_per_minute c) (log_level c).

(** ** Rate limiter *)
Record rate_limit_entry := mk_rate { rl_ip : string; first_request_time : Z; request_count : Z }.

#[export] Instance rate_limit_entry_inhabited : Inhabited rate_limit_entry := populate (mk_rate "" 0 0).

(** State of the compaction loop: the array, [write_idx], [found_idx] and [allowed]. *)
Record scan := mk_scan { sc_arr : list rate_limit_entry; sc_write : nat; sc_found : Z; sc_allowed : bool }.

(** One iteration, at [read_idx]. [request_count] is an [int] of the source; it is kept
    without a bound here, since an entry lives for [RATE_LIMIT_WINDOW] seconds and only
    2^31 requests of one address in that time would overflow it. *)
Definition scan_step (now limit : Z) (ip : string) (st : scan) (read_idx : nat) : outcome scan :=
  e ← arr_get (sc_arr st) (Z.of_nat read_idx) ;
  if RATE_LIMIT_WINDOW <? now - first_request_time e then Ok st
  else
    let hit := (sc_found st =? -1) && bool_decide (rl_ip e = ip) in
    let e := if hit then mk_rate (rl_ip e) (first_request_time e) (request_count e + 1) else e in
    arr ← arr_set (sc_arr st) (Z.of_nat read_idx) e ;
    let found := if hit then Z.of_nat (sc_write st) else sc_found st in
    let allowed := if hit && (limit <? request_count e) then false else sc_allowed st in
    arr ← (if negb (read_idx =? sc_write st)%nat then arr_set arr (Z.of_nat (sc_write st)) e else Ok arr) ;
    Ok (mk_scan arr (S (sc_write st)) found allowed).

Fixpoint scan_loop (n : nat) (now limit : Z) (ip : string) (st : scan) (read_idx : nat) : outcome scan :=
  match n with
  | O => Ok st
  | S n' => st ← scan_step now limit ip st read_idx ; scan_loop n' now limit ip st (S read_idx)
  end.

(** The table: the allocated array (its length is the capacity) and the number
    of entries in use. *)
Record rate_table := mk_table { rate_limits : list rate_limit_entry; rate_limit_size : nat }.

Definition check_and_update_rate_limit (t : rate_table) (now limit : Z) (ip : string)
    : outcome (bool * rate_table) :=
  st ← scan_loop (rate_limit_size t) now limit ip (mk_scan (rate_limits t) 0 (-1) true) 0 ;
  let size := sc_write st in
  if sc_allowed st && (sc_found st =? -1) then
    if (size <? length (rate_limits t))%nat then
      let e := mk_rate (String.substring 0 (INET6_ADDRSTRLEN - 1) ip) now 1 in
      arr ← arr_set (sc_arr st) (Z.of_nat size) e ;
      Ok (true, mk_table arr (S size))
    else Ok (true, mk_table (sc_arr st) size)
  else Ok (sc_allowed st, mk_table (sc_arr st) size).

(** ** Queue and connection counter *)
Record client := mk_client { cl_socket : Z; cl_ip : string; cl_port : Z; last_activity : Z; cl_requests : Z }.

(** The linked list of work items, from head to tail. *)
Record thread_pool := mk_pool {
  work_queue : list client;
  queue_size : Z;
  shutdown : bool;
  active_connections : Z
}.

Definition init_pool : thread_pool := mk_pool [] 0 false 0.

(** The part of [enqueue_client] under the queue lock: [None] while the caller
    has to wait, [Some None] when the server is shutting down. *)
Definition enqueue_item (c : server_config) (p : thread_pool) (cl : client) (now : Z)
    : option (option thread_pool) :=
  if (max_queue_size c <=? queue_size p) && negb (shutdown p) then None
  else if shutdown p then Some None
  else
    let item := mk_client (cl_socket cl) (cl_ip cl) (cl_port cl) now 0 in
    Some (Some (mk_pool (work_queue p ++ [item]) (queue_size p + 1) (shutdown p) (active_connections p))).

(** The part of [enqueue_client] under the connection lock. *)
Definition count_connection (p : thread_pool) : thread_pool :=
  mk_pool (work_queue p) (queue_size p) (shutdown p) (active_connections p + 1).

Definition dequeue_client (p : thread_pool) : option (client * thread_pool) :=
  if queue_size p =? 0 then None
  else match work_queue p with
       | [] => None
       | cl :: rest => Some (cl, mk_pool rest (queue_size p - 1) (shutdown p) (active_connections p))
       end.

(** The counter side of [close_client_connection]. *)
Definition close_client_connection (p : thread_pool) (update_count : bool) : thread_pool :=
  if update_count && (0 <? active_connections p)
  then mk_pool (work_queue p) (queue_size p) (shutdown p) (active_connections p - 1)
  else p.

Definition max_conn_reached (c : server_config) (p : thread_pool) : bool :=
  max_connections c <=? active_connections p.

(** The end of [cleanup_thread_pool]: unprocessed clients are closed without
    touching the counter. *)
Definition drop_queue (p : thread_pool) : list client * thread_pool :=
  (work_queue p, mk_pool [] 0 (shutdown p) (active_connections p)).

(** ** Interleavings

    The acceptor is between two connections ([AccIdle]) or has queued one and not
    counted it yet ([AccCount]); a worker waits, handles a client or has exited. *)
Inductive acceptor := AccIdle | AccCount.
Inductive worker := WIdle | WBusy (cl : client) | WExited.

Record server := mk_server {
  sv_pool : thread_pool;
  sv_acc : acceptor;
  sv_workers : list worker;
  sv_arrived : list client;
  sv_closed : list client
}.

Inductive server_step (c : server_config) : server -> server -> Prop :=
| step_enqueue p ws arr cld cl now p' :
    max_conn_reached c p = false -> enqueue_item c p cl now = Some (Some p') ->
    server_step c (mk_server p AccIdle ws arr cld)
      (mk_server p' AccCount ws (arr ++ [mk_client (cl_socket cl) (cl_ip cl) (cl_port cl) now 0]) cld)
| step_count p ws arr cld :
    server_step c (mk_server p AccCount ws arr cld) (mk_server (count_connection p) AccIdle ws arr cld)
| step_take p acc ws1 ws2 arr cld cl p' :
    dequeue_client p = Some (cl, p') ->
    server_step c (mk_server p acc (ws1 ++ WIdle :: ws2) arr cld)
      (mk_server p' acc (ws1 ++ WBusy cl :: ws2) arr cld)
| step_close p acc ws1 ws2 arr cld cl :
    server_step c (mk_server p acc (ws1 ++ WBusy cl :: ws2) arr cld)
      (mk_server (close_client_connection p true) acc (ws1 ++ WIdle :: ws2) arr (cl :: cld))
| step_shutdown p acc ws arr cld :
    server_step c (mk_server p acc ws arr cld)
      (mk_server (mk_pool (work_queue p) (queue_size p) true (active_connections p)) acc ws arr cld)
| step_exit p acc ws1 ws2 arr cld :
    shutdown p = true -> queue_size p = 0 ->
    server_step c (mk_server p acc (ws1 ++ WIdle :: ws2) arr cld)
      (mk_server p acc (ws1 ++ WExited :: ws2) arr cld).

Definition init_server (n : nat) : server := mk_server init_pool AccIdle (replicate n WIdle) [] [].

(** Clients that workers are handling. *)
Definition busy_clients (ws : list worker) : list client :=
  mjoin ((fun w => match w with WBusy cl => [cl] | _ => [] end) <$> ws).

Definition live_clients (s : server) : list client := work_queue (sv_pool s) ++ busy_clients (sv_workers s).

Definition pending (s : server) : Z := match sv_acc s with AccCount => 1 | AccIdle => 0 end.

Record server_inv (c : server_config) (s : server) : Prop := {
  sv_size : queue_size (sv_pool s) = Z.of_nat (length (work_queue (sv_pool s)));
  sv_bound : queue_size (sv_pool s) <= max_queue_size c;
  sv_nonneg : 0 <= active_connections (sv_pool s);
  sv_counted : Z.of_nat (length (live_clients s)) <= active_connections (sv_pool s) + pending s;
  sv_limit : active_connections (sv_pool s) + pending s <= max_connections c;
  sv_perm : sv_arrived s ≡ₚ live_clients s ++ sv_closed s
}.

#[local] Arguments busy_clients : simpl never.

Lemma busy_app ws1 w ws2 :
  busy_clients (ws1 ++ w :: ws2) = busy_clients ws1 ++ (match w with WBusy cl => [cl] | _ => [] end) ++ busy_clients ws2.
Proof. unfold busy_clients. by rewrite fmap_app, fmap_cons, join_app. Qed.

(** Rearrangements of the arrival list. *)
Lemma perm_arrive {A} (q b d : list A) x : ((q ++ b) ++ d) ++ [x] ≡ₚ ((q ++ [x]) ++ b) ++ d.
Proof. rewrite <- !app_assoc. f_equiv. rewrite (app_assoc b d [x]). apply Permutation_app_comm. Qed.

Lemma perm_take {A} (q b1 b2 d : list A) x : ((x :: q) ++ b1 ++ b2) ++ d ≡ₚ (q ++ b1 ++ x :: b2) ++ d.
Proof. f_equiv. cbn. rewrite !app_assoc. apply Permutation_middle. Qed.

Lemma perm_close {A} (q b1 b2 d : list A) x : (q ++ b1 ++ x :: b2) ++ d ≡ₚ (q ++ b1 ++ b2) ++ x :: d.
Proof.
  transitivity (x :: (q ++ b1 ++ b2) ++ d); [|apply Permutation_middle].
  change (x :: (q ++ b1 ++ b2) ++ d) with ((x :: q ++ b1 ++ b2) ++ d).
  apply Permutation_app_tail. rewrite !app_assoc. symmetry. apply Permutation_middle.
Qed.

Lemma server_inv_step c s s' : server_inv c s -> server_step c s s' -> server_inv c s'.
Proof.
  intros [Hs Hb Hn Hc Hl Hp] Hst.
  destruct Hst as [p ws arr cld cl now p' Hmax Henq|p ws arr cld|p acc ws1 ws2 arr cld cl p' Hd
    |p acc ws1 ws2 arr cld cl|p acc ws arr cld|p acc ws1 ws2 arr cld Hsd Hq];
    unfold live_clients, pending in *; cbn [sv_pool sv_acc sv_workers sv_arrived sv_closed] in *.
  - unfold enqueue_item in Henq. unfold max_conn_reached in Hmax.
    destruct (shutdown p) eqn:Esd; [by destruct (max_queue_size c <=? queue_size p)|].
    destruct (Z.leb_spec (max_queue_size c) (queue_size p)); cbn in Henq; [done|].
    injection Henq as <-. zbool. cbn [work_queue queue_size active_connections] in *.
    constructor; unfold live_clients, pending; cbn [sv_pool sv_acc sv_workers sv_arrived sv_closed work_queue queue_size active_connections];
      rewrite ?length_app in *; cbn [length] in *; try lia.
    rewrite Hp. apply perm_arrive.
  - constructor; unfold live_clients, pending, count_connection; cbn; try done; try lia.
  - unfold dequeue_client in Hd. destruct (Z.eqb_spec (queue_size p) 0); [done|].
    destruct (work_queue p) as [|cl' rest] eqn:Eq; [done|]. injection Hd as -> <-.
    rewrite !busy_app in *. cbn [app] in *.
    constructor; unfold live_clients, pending; cbn [sv_pool sv_acc sv_workers sv_arrived sv_closed work_queue queue_size active_connections];
      rewrite ?busy_app; rewrite ?length_app in *; cbn [length app] in *; try lia; try done.
    { rewrite !length_app in Hc. lia. }
    rewrite Hp. apply perm_take.
  - rewrite !busy_app in *. cbn [app] in *.
    unfold close_client_connection. cbn [andb].
    destruct (Z.ltb_spec 0 (active_connections p)) as [Hpos|Hz];
    (constructor; unfold live_clients, pending; cbn [sv_pool sv_acc sv_workers sv_arrived sv_closed work_queue queue_size active_connections];
      rewrite ?busy_app; rewrite ?length_app in *; cbn [length app] in *; rewrite ?length_app in *; cbn [length] in *; try lia; try done).
    all: rewrite Hp; apply perm_close.
  - constructor; unfold live_clients, pending; cbn; try done.
  - rewrite !busy_app in *. cbn [app] in *. constructor; unfold live_clients, pending; cbn; rewrite ?busy_app; try done.
Qed.

(** ** The rate limiter against a reference on lists *)

Definition entries (t : rate_table) : list rate_limit_entry := take (rate_limit_size t) (rate_limits t).
Definition live_entry (now : Z) (e : rate_limit_entry) : bool := negb (RATE_LIMIT_WINDOW <? now - first_request_time e).

(** The entries that stay, with the first one of [ip] incremented; whether one
    was found; and whether the request is within the limit. *)
Fixpoint ref_scan (now limit : Z) (ip : string) (found : bool) (l : list rate_limit_entry)
    : list rate_limit_entry * bool * bool :=
  match l with
  | [] => ([], found, true)
  | e :: l' =>
      if live_entry now e then
        if negb found && bool_decide (rl_ip e = ip) then
          let e' := mk_rate (rl_ip e) (first_request_time e) (request_count e + 1) in
          let '(r, f, a) := ref_scan now limit ip true l' in (e' :: r, f, negb (limit <? request_count e') && a)
        else
          let '(r, f, a) := ref_scan now limit ip found l' in (e :: r, f, a)
      else ref_scan now limit ip found l'
  end.

Definition ref_check (cap : nat) (now limit : Z) (ip : string) (l : list rate_limit_entry)
    : bool * list rate_limit_entry :=
  let '(r, found, allowed) := ref_scan now limit ip false l in
  if negb found && (length r <? cap)%nat
  then (true, r ++ [mk_rate (String.substring 0 (INET6_ADDRSTRLEN - 1) ip) now 1])
  else (allowed, r).

Definition table_wf (t : rate_table) : Prop := (rate_limit_size t <= length (rate_limits t))%nat.

Lemma ref_scan_length now limit ip f l : (length (ref_scan now limit ip f l).1.1 <= length l)%nat.
Proof.
  revert f. induction l as [|e l IH]; intros f; cbn [ref_scan]; [done|].
  destruct (live_entry now e); [|specialize (IH f); cbn; lia].
  destruct (negb f && _).
  - specialize (IH true). destruct (ref_scan now limit ip true l) as [[r f'] a]. cbn in *. lia.
  - specialize (IH f). destruct (ref_scan now limit ip f l) as [[r f'] a]. cbn in *. lia.
Qed.

(** Once an entry was found nothing more is refused. *)
Lemma ref_scan_found now limit ip l : (ref_scan now limit ip true l).1.2 = true /\ (ref_scan now limit ip true l).2 = true.
Proof.
  induction l as [|e l IH]; cbn [ref_scan negb andb]; [done|]. destruct (live_entry now e); [|done].
  by destruct (ref_scan now limit ip true l) as [[r f] a].
Qed.

Lemma ref_scan_unfound now limit ip l :
  (ref_scan now limit ip false l).1.2 = false -> (ref_scan now limit ip false l).2 = true.
Proof.
  induction l as [|e l IH]; cbn [ref_scan]; [done|]. destruct (live_entry now e); [|done].
  destruct (negb false && bool_decide (rl_ip e = ip)).
  - pose proof (ref_scan_found now limit ip l) as [H _]. by destruct (ref_scan now limit ip true l) as [[r f] a]; cbn in *; subst.
  - by destruct (ref_scan now limit ip false l) as [[r f] a].
Qed.

(** The loop invariant: the part below [write_idx] is final, the part from
    [read_idx] on is untouched. *)
Lemma scan_loop_spec n : forall now limit ip arr w found allowed r out f a,
  (w <= r)%nat -> (r + n <= length arr)%nat -> found = -1 \/ 0 <= found ->
  ref_scan now limit ip (negb (found =? -1)) (take n (drop r arr)) = (out, f, a) ->
  exists st', scan_loop n now limit ip (mk_scan arr w found allowed) r = Ok st' /\
    length (sc_arr st') = length arr /\ sc_write st' = (w + length out)%nat /\
    take (w + length out) (sc_arr st') = take w arr ++ out /\
    negb (sc_found st' =? -1) = f /\ sc_allowed st' = allowed && a.
Proof.
  induction n as [|n IH]; intros now limit ip arr w found allowed r out f a Hw Hr Hf Href.
  { cbn in Href. injection Href as <- <- <-. exists (mk_scan arr w found allowed). cbn.
    rewrite Nat.add_0_r, app_nil_r, andb_true_r. done. }
  destruct (lookup_lt_is_Some_2 arr r) as [e He]; [lia|].
  rewrite (drop_S arr e r He) in Href. cbn [take ref_scan] in Href.
  cbn [scan_loop]. unfold scan_step. cbn [sc_arr sc_write sc_found sc_allowed].
  assert (arr_get arr (Z.of_nat r) = Ok e) as -> by (apply arr_get_Ok; rewrite Nat2Z.id; auto with lia).
  cbn [mbind outcome_bind]. unfold live_entry in Href.
  destruct (RATE_LIMIT_WINDOW <? now - first_request_time e) eqn:Eex; cbn [negb] in Href.
  { cbn [mbind outcome_bind]. destruct (IH now limit ip arr w found allowed (S r) out f a) as (st' & H); try done; [lia|lia|].
    exists st'. exact H. }
  set (hit := (found =? -1) && bool_decide (rl_ip e = ip)).
  set (e' := if hit then mk_rate (rl_ip e) (first_request_time e) (request_count e + 1) else e).
  assert (arr_set arr (Z.of_nat r) e' = Ok (<[r := e']> arr)) as ->.
  { apply arr_set_Ok. rewrite Nat2Z.id. split; [lia|done]. }
  cbn [mbind outcome_bind].
  assert ((if negb (r =? w)%nat then arr_set (<[r := e']> arr) (Z.of_nat w) e' else Ok (<[r := e']> arr)) =
    Ok (<[w := e']> (<[r := e']> arr))) as ->.
  { destruct (Nat.eqb_spec r w) as [->|]; cbn [negb]; [by rewrite list_insert_insert_eq|].
    apply arr_set_Ok. rewrite Nat2Z.id, length_insert. split; [lia|done]. }
  cbn [mbind outcome_bind].
  set (arr1 := <[w := e']> (<[r := e']> arr)). set (found1 := if hit then Z.of_nat w else found).
  set (allowed1 := if hit && (limit <? request_count e') then false else allowed).
  assert (drop (S r) arr1 = drop (S r) arr) as Hdrop.
  { unfold arr1. rewrite !drop_insert_lt by lia. done. }
  assert (take (S w) arr1 = take w arr ++ [e']) as Htake.
  { unfold arr1. rewrite (take_S_r _ w e') by (rewrite list_lookup_insert_eq; [done|rewrite length_insert; lia]).
    rewrite !take_insert_ge by lia. done. }
  assert (exists out1 a1, ref_scan now limit ip (negb (found1 =? -1)) (take n (drop (S r) arr1)) = (out1, f, a1) /\
    out = e' :: out1 /\ allowed && a = allowed1 && a1) as (out1 & a1 & Href1 & -> & Ha).
  { rewrite Hdrop. unfold found1, allowed1, e'.
    assert ((negb (negb (found =? -1)) && bool_decide (rl_ip e = ip)) = hit) as Hh by (by rewrite negb_involutive).
    rewrite Hh in Href. destruct hit eqn:Eh; cbn [andb request_count].
    - assert ((Z.of_nat w =? -1) = false) as -> by lia. cbn [negb].
      destruct (ref_scan now limit ip true (take n (drop (S r) arr))) as [[o1 f1] a1]. injection Href as <- <- <-.
      exists o1, a1. split; [done|]. split; [done|]. by destruct (limit <? request_count e + 1), allowed.
    - destruct (ref_scan now limit ip (negb (found =? -1)) (take n (drop (S r) arr))) as [[o1 f1] a1].
      injection Href as <- <- <-. by exists o1, a1. }
  destruct (IH now limit ip arr1 (S w) found1 allowed1 (S r) out1 f a1) as (st' & Hrun & Hlen & Hwr & Htk & Hfo & Hal).
  { lia. } { unfold arr1. rewrite !length_insert. lia. } { unfold found1. destruct hit; lia. } { done. }
  exists st'. split; [done|]. split; [unfold arr1 in Hlen; rewrite !length_insert in Hlen; done|].
  cbn [length]. replace (w + S (length out1))%nat with (S w + length out1)%nat by lia.
  split; [done|]. split; [rewrite Htk, Htake, <- app_assoc; done|]. split; [done|]. by rewrite Hal, Ha.
Qed.

Lemma check_refines t now limit ip :
  table_wf t ->
  exists t', check_and_update_rate_limit t now limit ip =
      Ok ((ref_check (length (rate_limits t)) now limit ip (entries t)).1, t') /\
    entries t' = (ref_check (length (rate_limits t)) now limit ip (entries t)).2 /\
    length (rate_limits t') = length (rate_limits t) /\ table_wf t'.
Proof.
  intros Hwf. unfold check_and_update_rate_limit, ref_check.
  destruct (ref_scan now limit ip false (entries t)) as [[out f] a] eqn:Href.
  pose proof (ref_scan_length now limit ip false (entries t)) as Hol. rewrite Href in Hol. cbn in Hol.
  unfold entries in Hol. rewrite length_take in Hol. unfold table_wf in Hwf.
  destruct (scan_loop_spec (rate_limit_size t) now limit ip (rate_limits t) 0 (-1) true 0 out f a)
    as (st & -> & Hlen & Hwr & Htk & Hfo & Hal); [lia|lia|by left|exact Href|].
  cbn [mbind outcome_bind]. cbn in Htk, Hwr, Hal. rewrite Hal, Hwr.
  assert ((sc_found st =? -1) = negb f) as -> by (rewrite <- Hfo; by rewrite negb_involutive).
  assert (f = false -> a = true) as Hunf.
  { intros ->. pose proof (ref_scan_unfound now limit ip (entries t)) as Hu. rewrite Href in Hu. by apply Hu. }
  destruct f; cbn [negb andb].
  - rewrite andb_false_r. eexists. split; [reflexivity|]. unfold entries, table_wf. cbn.
    split; [done|]. split; [done|]. lia.
  - rewrite (Hunf eq_refl). cbn [andb]. destruct (Nat.ltb_spec (length out) (length (rate_limits t))) as [Hlt|Hge].
    + assert (forall x, arr_set (sc_arr st) (Z.of_nat (length out)) x = Ok (<[length out := x]> (sc_arr st))) as Hset.
      { intros x. apply arr_set_Ok. rewrite Nat2Z.id. split; [lia|done]. }
      rewrite Hset. cbn [mbind outcome_bind]. eexists. split; [reflexivity|]. unfold entries, table_wf. cbn [rate_limits rate_limit_size].
      rewrite length_insert. split; [|lia]. cbn [snd].
      erewrite take_S_r by (apply list_lookup_insert_eq; lia). rewrite take_insert_ge by lia. by rewrite Htk.
    + eexists. split; [reflexivity|]. unfold entries, table_wf. cbn. split; [done|]. lia.
Qed.

(** ** A run of requests *)
Fixpoint rate_run (t : rate_table) (limit : Z) (calls : list (Z * string)) : outcome (list bool * rate_table) :=
  match calls with
  | [] => Ok ([], t)
  | (now, ip) :: rest =>
      '(a, t) ← check_and_update_rate_limit t now limit ip ;
      '(bs, t) ← rate_run t limit rest ;
      Ok (a :: bs, t)
  end.

(** Requests of [ip], and how many of them were let through. *)
Fixpoint calls_of (ip : string) (calls : list (Z * string)) : Z :=
  match calls with
  | [] => 0
  | (_, i) :: rest => (if bool_decide (i = ip) then 1 else 0) + calls_of ip rest
  end.

Fixpoint passed_of (ip : string) (calls : list (Z * string)) (bs : list bool) : Z :=
  match calls, bs with
  | (_, i) :: rest, b :: bs' => (if bool_decide (i = ip) && b then 1 else 0) + passed_of ip rest bs'
  | _, _ => 0
  end.

(** The live entries of one address. *)
Definition ip_live (now : Z) (ip : string) (l : list rate_limit_entry) : list rate_limit_entry :=
  filter (fun e => live_entry now e = true /\ rl_ip e = ip) l.

Definition bump (e : rate_limit_entry) : rate_limit_entry :=
  mk_rate (rl_ip e) (first_request_time e) (request_count e + 1).

Lemma live_mono now now' e : now <= now' -> live_entry now' e = true -> live_entry now e = true.
Proof. unfold live_entry, RATE_LIMIT_WINDOW. intros H. rewrite !negb_true_iff, !Z.ltb_ge. lia. Qed.

Lemma ip_live_later now now' ip l : now <= now' -> ip_live now' ip l = ip_live now' ip (ip_live now ip l).
Proof.
  intros H. unfold ip_live. induction l as [|e l IH]; [done|]. rewrite !filter_cons.
  destruct (decide (live_entry now e = true /\ rl_ip e = ip)) as [Hd|Hd].
  - rewrite filter_cons. by rewrite IH.
  - rewrite decide_False; [done|]. intros [Hl Hi]. apply Hd. split; [by eapply live_mono|done].
Qed.

Lemma ref_scan_other now limit ip ip' f l :
  ip' <> ip -> filter (fun e => rl_ip e = ip) (ref_scan now limit ip' f l).1.1 = ip_live now ip l.
Proof.
  intros Hne. revert f. induction l as [|e l IH]; intros f; [done|]. cbn [ref_scan]. unfold ip_live in *.
  rewrite filter_cons. destruct (live_entry now e) eqn:El.
  - destruct (negb f && bool_decide (rl_ip e = ip')) eqn:Eh.
    + apply andb_true_iff in Eh as [_ Eh]. apply bool_decide_eq_true in Eh.
      specialize (IH true). destruct (ref_scan now limit ip' true l) as [[r f'] a]. cbn [fst] in *.
      rewrite filter_cons, !decide_False by (cbn; naive_solver). exact IH.
    + specialize (IH f). destruct (ref_scan now limit ip' f l) as [[r f'] a]. cbn [fst] in *.
      rewrite filter_cons. destruct (decide (rl_ip e = ip)) as [Hi|Hi].
      * rewrite decide_True by done. by rewrite IH.
      * rewrite decide_False by naive_solver. exact IH.
  - rewrite decide_False by naive_solver. apply IH.
Qed.

Lemma ref_scan_same_found now limit ip l :
  filter (fun e => rl_ip e = ip) (ref_scan now limit ip true l).1.1 = ip_live now ip l.
Proof.
  induction l as [|e l IH]; [done|]. cbn [ref_scan negb andb]. unfold ip_live in *. rewrite filter_cons.
  destruct (live_entry now e) eqn:El.
  - destruct (ref_scan now limit ip true l) as [[r f'] a]. cbn [fst] in *. rewrite filter_cons.
    destruct (decide (rl_ip e = ip)) as [Hi|Hi].
    + rewrite decide_True by done. by rewrite IH.
    + rewrite decide_False by naive_solver. exact IH.
  - rewrite decide_False by naive_solver. exact IH.
Qed.

Lemma ref_scan_same now limit ip l :
  match ip_live now ip l with
  | [] => filter (fun e => rl_ip e = ip) (ref_scan now limit ip false l).1.1 = [] /\
          (ref_scan now limit ip false l).1.2 = false
  | e :: es => filter (fun e => rl_ip e = ip) (ref_scan now limit ip false l).1.1 = bump e :: es /\
          (ref_scan now limit ip false l).1.2 = true /\
          (ref_scan now limit ip false l).2 = negb (limit <? request_count e + 1)
  end.
Proof.
  induction l as [|e l IH]; [done|]. cbn [ref_scan negb andb]. unfold ip_live in *. rewrite filter_cons.
  destruct (live_entry now e) eqn:El.
  - destruct (bool_decide_reflect (rl_ip e = ip)) as [Hi|Hi].
    + rewrite decide_True by done. pose proof (ref_scan_same_found now limit ip l) as Hs.
      pose proof (ref_scan_found now limit ip l) as [Hf Ha].
      destruct (ref_scan now limit ip true l) as [[r f'] a]. cbn [fst snd request_count] in *.
      rewrite filter_cons, decide_True by done. rewrite Hs, Ha, andb_true_r. done.
    + rewrite decide_False by naive_solver.
      destruct (ref_scan now limit ip false l) as [[r f'] a]. cbn [fst snd] in *.
      rewrite filter_cons, decide_False by done. exact IH.
  - rewrite decide_False by naive_solver. exact IH.
Qed.

(** The state of one address within its window: [j] requests so far. *)
Definition window (t0 now : Z) (ip : string) (j : Z) (l : list rate_limit_entry) : Prop :=
  (j = 0 /\ ip_live now ip l = []) \/
  (0 < j /\ exists first, t0 <= first <= now /\ ip_live now ip l = [mk_rate ip first j]).

Lemma window_later t0 now now' ip j l :
  window t0 now ip j l -> now <= now' <= t0 + RATE_LIMIT_WINDOW -> window t0 now' ip j l.
Proof.
  intros Hw Hn. unfold window in *. rewrite (ip_live_later now now') by lia.
  destruct Hw as [[-> ->]|(Hj & first & Hf & ->)]; [by left|]. right. split; [done|]. exists first. split; [lia|].
  unfold ip_live. rewrite filter_cons_True; [done|]. split; [|done]. cbn. unfold live_entry. cbn.
  apply negb_true_iff. apply Z.ltb_ge. lia.
Qed.

(** All entries of a scanned table are live, so filtering by address suffices. *)
Lemma ref_scan_live now limit ip f l e : e ∈ (ref_scan now limit ip f l).1.1 -> live_entry now e = true.
Proof.
  revert f. induction l as [|d l IH]; intros f; cbn [ref_scan]; [intros H; by apply elem_of_nil in H|].
  destruct (live_entry now d) eqn:El; [|apply IH].
  destruct (negb f && _); [specialize (IH true)|specialize (IH f)];
    (destruct (ref_scan now limit ip _ l) as [[r f'] a]); cbn [fst] in *; intros H;
    apply elem_of_cons in H as [->|H]; auto.
Qed.

Lemma ip_live_filter now ip l :
  (forall e, e ∈ l -> live_entry now e = true) -> ip_live now ip l = filter (fun e => rl_ip e = ip) l.
Proof.
  induction l as [|e l IH]; intros H; [done|]. unfold ip_live in *. rewrite !filter_cons.
  rewrite IH by (intros; apply H; by apply list_elem_of_further).
  pose proof (H e (list_elem_of_here _ _)) as He.
  destruct (decide (rl_ip e = ip)); [rewrite decide_True by done|rewrite decide_False by naive_solver]; done.
Qed.

Lemma ip_live_app now ip l1 l2 : ip_live now ip (l1 ++ l2) = ip_live now ip l1 ++ ip_live now ip l2.
Proof. apply filter_app. Qed.

(** One request, of this or of another address. *)
Lemma window_step cap t0 now limit ip ip' j l :
  window t0 now ip j l -> t0 <= now -> 1 <= limit -> (length l < cap)%nat ->
  String.substring 0 (INET6_ADDRSTRLEN - 1) ip = ip ->
  let '(a, l') := ref_check cap now limit ip' l in
  (ip' = ip -> window t0 now ip (j + 1) l' /\ a = (j + 1 <=? limit)) /\
  (ip' <> ip -> String.substring 0 (INET6_ADDRSTRLEN - 1) ip' <> ip -> window t0 now ip j l') /\
  (length l' <= length l + 1)%nat.
Proof.
  intros Hw Ht Hlim Hcap Hip. unfold ref_check.
  pose proof (ref_scan_length now limit ip' false l) as Hlen.
  pose proof (ref_scan_live now limit ip' false l) as Hlive.
  pose proof (fun H => ref_scan_other now limit ip ip' false l H) as Hoth.
  pose proof (ref_scan_same now limit ip l) as Hsame.
  destruct (ref_scan now limit ip' false l) as [[r f] a] eqn:Er. cbn [fst snd] in *.
  assert (negb f && (length r <? cap)%nat = negb f) as ->.
  { destruct f; [done|]. cbn. apply Nat.ltb_lt. lia. }
  pose proof (ip_live_filter now ip r (fun e H => Hlive e H)) as Hr.
  assert (live_entry now (mk_rate (String.substring 0 (INET6_ADDRSTRLEN - 1) ip') now 1) = true) as Hnew.
  { unfold live_entry. cbn. rewrite Z.sub_diag. done. }
  assert (ip' <> ip -> ip_live now ip r = ip_live now ip l) as Heq by (intros Hne; rewrite Hr; by apply Hoth).
  destruct f; cbn [negb]; (split; [|split]).
  - intros ->. rewrite Er in Hsame. cbn [fst snd] in Hsame.
    destruct Hw as [[-> Hw]|(Hj & first & Hf & Hw)]; rewrite Hw in Hsame; [by destruct Hsame|].
    destruct Hsame as (Hcons & _ & ->). split.
    + right. split; [lia|]. exists first. split; [done|]. by rewrite Hr, Hcons.
    + cbn [request_count]. destruct (Z.ltb_spec limit (j + 1)), (Z.leb_spec (j + 1) limit); (done || lia).
  - intros Hne _. unfold window in *. by rewrite (Heq Hne).
  - lia.
  - intros ->. rewrite Er in Hsame. cbn [fst snd] in Hsame.
    destruct Hw as [[-> Hw]|(Hj & first & Hf & Hw)]; rewrite Hw in Hsame; [|by destruct Hsame as (_ & ? & _)].
    destruct Hsame as [Hnil _]. split; [|lia]. right. split; [lia|]. exists now. split; [lia|].
    rewrite ip_live_app, Hr, Hnil. unfold ip_live. rewrite filter_cons_True; [|done]. by rewrite filter_nil, Hip.
  - intros Hne Hsub. unfold window in *. rewrite ip_live_app, (Heq Hne).
    assert (ip_live now ip [mk_rate (String.substring 0 (INET6_ADDRSTRLEN - 1) ip') now 1] = []) as ->.
    { unfold ip_live. rewrite filter_cons_False; [done|]. naive_solver. }
    by rewrite app_nil_r.
  - rewrite length_app. cbn. lia.
Qed.

Lemma rate_run_window calls : forall t limit t0 now ip j,
  table_wf t -> window t0 now ip j (entries t) -> 0 <= j -> t0 <= now -> 1 <= limit ->
  String.substring 0 (INET6_ADDRSTRLEN - 1) ip = ip ->
  (length (entries t) + length calls <= length (rate_limits t))%nat ->
  Sorted Z.le (now :: calls.*1) -> Forall (fun c => c.1 <= t0 + RATE_LIMIT_WINDOW) calls ->
  Forall (fun c => c.2 <> ip -> String.substring 0 (INET6_ADDRSTRLEN - 1) c.2 <> ip) calls ->
  exists bs t', rate_run t limit calls = Ok (bs, t') /\ length bs = length calls /\
    Z.min j limit + passed_of ip calls bs = Z.min (j + calls_of ip calls) limit.
Proof.
  induction calls as [|[now' ip'] calls IH]; intros t limit t0 now ip j Hwf Hw Hj Ht Hlim Hip Hcap Hs Hwin Hsub.
  { exists [], t. cbn. split; [done|]. split; [done|]. lia. }
  apply Sorted_inv in Hs as [Hs Hhd]. cbn in Hs, Hhd. apply HdRel_inv in Hhd.
  inversion Hwin as [|? ? Hw1 Hwin']; subst. inversion Hsub as [|? ? Hs1 Hsub']; subst. cbn [fst snd] in *.
  cbn [rate_run]. destruct (check_refines t now' limit ip' Hwf) as (t1 & -> & He & Hl & Hwf1).
  cbn [mbind outcome_bind].
  pose proof (window_later t0 now now' ip j _ Hw ltac:(unfold RATE_LIMIT_WINDOW in *; lia)) as Hw'.
  cbn [length] in Hcap.
  pose proof (window_step (length (rate_limits t)) t0 now' limit ip ip' j _ Hw' ltac:(lia) Hlim ltac:(lia) Hip) as Hstep.
  destruct (ref_check (length (rate_limits t)) now' limit ip' (entries t)) as [a l']. cbn [fst snd] in *. subst l'.
  destruct Hstep as (Hsame & Hoth & Hlen). cbn [calls_of passed_of].
  destruct (bool_decide_reflect (ip' = ip)) as [->|Hne].
  - destruct (Hsame eq_refl) as [Hw1' ->].
    destruct (IH t1 limit t0 now' ip (j + 1)) as (bs & t' & -> & Hbl & Hmin); try done; try lia.
    cbn [mbind outcome_bind]. exists ((j + 1 <=? limit) :: bs), t'. split; [done|]. split; [cbn; lia|].
    cbn [andb]. zcase (j + 1 <=? limit).
  - destruct (IH t1 limit t0 now' ip j) as (bs & t' & -> & Hbl & Hmin); try done; try lia; [by apply Hoth; auto|].
    cbn [mbind outcome_bind]. exists (a :: bs), t'. split; [done|]. split; [cbn; lia|].
    cbn [andb]. lia.
Qed.

(** ** Properties *)

(** C27: The in-place compaction of [check_and_update_rate_limit] implements the
    list specification: expired entries go, the first live entry of the address is
    incremented and decides the answer, and an unknown address is appended while
    there is room; no access leaves the array. *)
Theorem rate_limit_refines (t : rate_table) (now limit : Z) (ip : string) :
  table_wf t ->
  exists t', check_and_update_rate_limit t now limit ip =
      Ok ((ref_check (length (rate_limits t)) now limit ip (entries t)).1, t') /\
    entries t' = (ref_check (length (rate_limits t)) now limit ip (entries t)).2 /\
    length (rate_limits t') = length (rate_limits t) /\ table_wf t'.
Proof. apply check_refines. Qed.

(** A table with an expired entry, a live one and two unused slots. *)
Definition demo_table : rate_table :=
  mk_table [mk_rate "10.0.0.1" 5 9; mk_rate "10.0.0.2" 80 2; mk_rate "" 0 0; mk_rate "" 0 0; mk_rate "" 0 0; mk_rate "" 0 0] 2.

Lemma rate_limit_refines_witness :
  exists t', check_and_update_rate_limit demo_table 100 2 "10.0.0.2" = Ok (false, t') /\
    entries t' = [mk_rate "10.0.0.2" 80 3].
Proof.
  destruct (rate_limit_refines demo_table 100 2 "10.0.0.2" ltac:(vm_compute; lia)) as (t' & H1 & H2 & _).
  exists t'. exact (conj H1 H2).
Defined.

(** Within the window that its first request opens, an address gets exactly
    [min(k, limit)] of its [k] requests through, whatever other addresses do in
    between, as long as the table has room. *)
Theorem rate_limit_bound (t : rate_table) (limit t0 : Z) (ip : string) (calls : list (Z * string)) :
  table_wf t -> ip_live t0 ip (entries t) = [] -> 1 <= limit ->
  String.substring 0 (INET6_ADDRSTRLEN - 1) ip = ip ->
  (length (entries t) + length calls <= length (rate_limits t))%nat ->
  Sorted Z.le (t0 :: calls.*1) -> Forall (fun c => c.1 <= t0 + RATE_LIMIT_WINDOW) calls ->
  Forall (fun c => c.2 <> ip -> String.substring 0 (INET6_ADDRSTRLEN - 1) c.2 <> ip) calls ->
  exists bs t', rate_run t limit calls = Ok (bs, t') /\ length bs = length calls /\
    passed_of ip calls bs = Z.min (calls_of ip calls) limit.
Proof.
  intros Hwf Hno Hlim Hip Hcap Hs Hwin Hsub.
  destruct (rate_run_window calls t limit t0 t0 ip 0) as (bs & t' & Hr & Hl & Hm); try done; try lia; [by left|].
  exists bs, t'. split; [done|]. split; [done|]. rewrite Z.min_l in Hm by lia. done.
Qed.

Lemma rate_limit_bound_witness :
  exists bs t', rate_run demo_table 1 [(100, "10.0.0.1"%string); (101, "10.0.0.2"%string); (130, "10.0.0.1"%string)] = Ok (bs, t') /\
    length bs = 3%nat /\
    passed_of "10.0.0.1" [(100, "10.0.0.1"%string); (101, "10.0.0.2"%string); (130, "10.0.0.1"%string)] bs = 1.
Proof.
  apply (rate_limit_bound demo_table 1 90 "10.0.0.1"
    [(100, "10.0.0.1"%string); (101, "10.0.0.2"%string); (130, "10.0.0.1"%string)]).
  - vm_compute. lia.
  - reflexivity.
  - lia.
  - reflexivity.
  - vm_compute. lia.
  - repeat first [apply Sorted_nil | apply HdRel_nil | apply Sorted_cons | apply HdRel_cons; vm_compute; congruence].
  - repeat constructor; vm_compute; congruence.
  - repeat constructor; vm_compute; congruence.
Defined.

(** C24: In every reachable state of the acceptor and the workers, the clients that
    are queued or being handled number at most [max_connections], the queue stays
    within its bound and its counter is exact, and every accepted client is in
    exactly one place: queued, handled, or closed. *)
Theorem connection_limit (c : server_config) (n : nat) (s : server) :
  0 <= max_queue_size c -> 0 <= max_connections c -> rtc (server_step c) (init_server n) s ->
  Z.of_nat (length (live_clients s)) <= max_connections c /\
  queue_size (sv_pool s) = Z.of_nat (length (work_queue (sv_pool s))) /\
  queue_size (sv_pool s) <= max_queue_size c /\
  sv_arrived s ≡ₚ live_clients s ++ sv_closed s.
Proof.
  intros Hq Hc Hr.
  assert (server_inv c s) as [Hs Hb Hn Hcnt Hl Hp]; [|split; [lia|done]].
  assert (server_inv c (init_server n)) as H0.
  { assert (busy_clients (replicate n WIdle) = []) as Hb.
    { clear. unfold busy_clients. induction n as [|n IH]; [done|]. cbn. exact IH. }
    constructor; unfold live_clients, pending; cbn; rewrite ?Hb; cbn; (done || lia). }
  revert H0. induction Hr as [|x y z Hst _ IH]; [done|]. intros Hx. apply IH. by eapply server_inv_step.
Qed.

Definition demo_client : client := mk_client 7 "10.0.0.1" 5000 0 0.
Definition demo_item : client := mk_client 7 "10.0.0.1" 5000 3 0.

(** The acceptor queues a client; a worker serves and closes it before the
    acceptor counts it. *)
Definition race_end : server := mk_server (mk_pool [] 0 false 1) AccIdle [WIdle] [demo_item] [demo_item].

Lemma race_run c : 0 < max_connections c -> 0 < max_queue_size c -> rtc (server_step c) (init_server 1) race_end.
Proof.
  intros Hc Hq.
  eapply rtc_l; [apply (step_enqueue c init_pool [WIdle] [] [] demo_client 3 (mk_pool [demo_item] 1 false 0))|].
  { unfold max_conn_reached. cbn. lia. }
  { unfold enqueue_item. cbn. zcase (max_queue_size c <=? 0). }
  eapply rtc_l; [apply (step_take c (mk_pool [demo_item] 1 false 0) AccCount [] [] [demo_item] [] demo_item (mk_pool [] 0 false 0)); done|].
  eapply rtc_l; [apply (step_close c (mk_pool [] 0 false 0) AccCount [] [] [demo_item] [] demo_item)|].
  eapply rtc_l; [apply (step_count c (mk_pool [] 0 false 0) [WIdle] [demo_item] [demo_item])|]. apply rtc_refl.
Qed.

Lemma connection_limit_witness :
  Z.of_nat (length (live_clients race_end)) <= 1000 /\ sv_arrived race_end ≡ₚ live_clients race_end ++ sv_closed race_end.
Proof.
  destruct (connection_limit init_config 1 race_end ltac:(vm_compute; congruence) ltac:(vm_compute; congruence)
    (race_run init_config eq_refl eq_refl)) as (H & _ & _ & Hp).
  exact (conj H Hp).
Defined.

(** The connection counter can stay too high: when a worker closes a client
    before the acceptor has counted it, the decrement is dropped and the count
    never comes back down; with a limit of one connection the idle server then
    refuses every client. *)
Theorem connection_count_race (c : server_config) :
  max_connections c = 1 -> 0 < max_queue_size c ->
  exists s, rtc (server_step c) (init_server 1) s /\ live_clients s = [] /\ sv_acc s = AccIdle /\
    active_connections (sv_pool s) = 1 /\ max_conn_reached c (sv_pool s) = true.
Proof.
  intros Hc Hq. exists race_end. split; [apply race_run; lia|]. split; [done|]. split; [done|]. split; [done|].
  unfold max_conn_reached. rewrite Hc. done.
Qed.

Definition demo_config : server_config := mk_config 8080 10 4096 1 100 1 60 60 1.

Lemma connection_count_race_witness :
  exists s, rtc (server_step demo_config) (init_server 1) s /\ live_clients s = [] /\ sv_acc s = AccIdle /\
    active_connections (sv_pool s) = 1 /\ max_conn_reached demo_config (sv_pool s) = true.
Proof. exact (connection_count_race demo_config eq_refl eq_refl). Defined.
