(* ===== verification/NetThreads.v ===== *)
(** * Threads of the server (src/net/network.c)

    Creation of the workers in [initialize_thread_pool], the acceptor with
    [enqueue_client], [worker_thread] and [cleanup_thread_pool], as interleaved
    threads that share the queue mutex and its two condition variables. The pool and
    what is done to it inside a critical section are those of [NetPool]; here each
    acquisition and release of the mutex, each sleep on a condition variable and each
    unprotected access to [shutdown] is a step of its own. A sleeper can also be woken
    without a signal. [handle_client] is one step: a session ends because its
    receives have a time limit and its loop tests [server_running]. *)
From Stdlib Require Import ZArith Lia.
From stdpp Require Import strings numbers gmap base.
From stdpp Require Import list relations.
From S2P Require Import Prelude NetPool.

Open Scope Z_scope.

Module Threads.

(** Where [worker_thread] is. *)
Inductive worker_pc :=
| WStart                (* at pthread_mutex_lock *)
| WTest                 (* holds the mutex, at the test of the loop *)
| WSleep                (* holds the mutex, about to call pthread_cond_wait *)
| WWait                 (* asleep on queue_not_empty *)
| WWake                 (* woken, taking the mutex again *)
| WAfter                (* holds the mutex, behind the loop *)
| WHandle (cl : client) (* in handle_client *)
| WExit.                (* pthread_exit *)

#[local] Instance client_eq_dec : EqDecision client.
Proof. solve_decision. Defined.
#[local] Instance worker_pc_eq_dec : EqDecision worker_pc.
Proof. solve_decision. Defined.

(** Where the main thread is. *)
Inductive main_pc :=
| MCreate                 (* initialize_thread_pool, creating workers *)
| MAccept                 (* main, at the top of the accept loop *)
| MEnq (cl : client)      (* enqueue_client, at pthread_mutex_lock *)
| MFull (cl : client)     (* holds the mutex, at the test of the loop *)
| MSleep (cl : client)    (* holds the mutex, about to wait *)
| MWait (cl : client)     (* asleep on queue_not_full *)
| MWake (cl : client)     (* woken, taking the mutex again *)
| MSignal                 (* holds the mutex, item linked, at pthread_cond_signal *)
| MUnlock                 (* holds the mutex, after the signal *)
| MCount                  (* counting the connection *)
| MShutdown               (* cleanup_thread_pool, at shutdown = true *)
| MLock                   (* at pthread_mutex_lock *)
| MBroadcast              (* holds the mutex, at the broadcasts *)
| MBroadcastDone          (* holds the mutex, after the broadcasts *)
| MJoin (i : nat)         (* joining worker i *)
| MClean                  (* closing what is left in the queue *)
| MDone
| MFailShutdown           (* a pthread_create failed: at shutdown = true *)
| MFailBroadcast          (* at the broadcast, without the mutex *)
| MFailJoin (i : nat)     (* cleanup_threads *)
| MFailed.

(** One step of a worker: the pool, the mutex, the worker, and whether
    [queue_not_full] is signalled. *)
Definition worker_step (p : thread_pool) (locked : bool) (w : worker_pc)
    : option (thread_pool * bool * worker_pc * bool) :=
  match w with
  | WStart | WWake => if locked then None else Some (p, true, WTest, false)
  | WTest =>
      if (queue_size p =? 0) && negb (shutdown p) then Some (p, locked, WSleep, false)
      else Some (p, locked, WAfter, false)
  | WSleep => Some (p, false, WWait, false)
  | WAfter =>
      if shutdown p && (queue_size p =? 0) then Some (p, false, WExit, false)
      else match dequeue_client p with
           | Some (cl, p') => Some (p', false, WHandle cl, true)
           | None => Some (p, false, WStart, false)
           end
  | WHandle _ => Some (close_client_connection p true, locked, WStart, false)
  | WWait | WExit => None
  end.

(** The client whose session a worker's step ends. *)
Definition finished (w : worker_pc) : list client := match w with WHandle cl => [cl] | _ => [] end.

(** [pthread_cond_signal(&queue_not_full)]: only the main thread sleeps there. *)
Definition wake_main (m : main_pc) : main_pc := match m with MWait cl => MWake cl | _ => m end.

(** [pthread_cond_signal(&queue_not_empty)]: some sleeper, if there is one. *)
Inductive signalled : list worker_pc -> list worker_pc -> Prop :=
| signal_none ws : WWait ∉ ws -> signalled ws ws
| signal_one ws1 ws2 : signalled (ws1 ++ WWait :: ws2) (ws1 ++ WWake :: ws2).

(** [pthread_cond_broadcast(&queue_not_empty)]. *)
Definition wake (w : worker_pc) : worker_pc := match w with WWait => WWake | _ => w end.

Definition set_shutdown (p : thread_pool) : thread_pool :=
  mk_pool (work_queue p) (queue_size p) true (active_connections p).

(** The item that [enqueue_client] links. *)
Definition item (cl : client) (now : Z) : client := mk_client (cl_socket cl) (cl_ip cl) (cl_port cl) now 0.

(** The steps of the main thread that touch no worker: the pool, the mutex, the main
    thread, and the client that was linked. *)
Definition main_step (c : server_config) (now : Z) (p : thread_pool) (locked : bool) (m : main_pc)
    : option (thread_pool * bool * main_pc * list client) :=
  match m with
  | MEnq cl | MWake cl => if locked then None else Some (p, true, MFull cl, [])
  | MFull cl =>
      match enqueue_item c p cl now with
      | None => Some (p, locked, MSleep cl, [])
      | Some None => Some (p, false, MAccept, [])
      | Some (Some p') => Some (p', locked, MSignal, [item cl now])
      end
  | MSleep cl => Some (p, false, MWait cl, [])
  | MUnlock => Some (p, false, MCount, [])
  | MCount => Some (count_connection p, locked, MAccept, [])
  | MShutdown => Some (set_shutdown p, locked, MLock, [])
  | MLock => if locked then None else Some (p, true, MBroadcast, [])
  | MBroadcastDone => Some (p, false, MJoin 0, [])
  | MClean => Some ((drop_queue p).2, locked, MDone, [])
  | MFailShutdown => Some (set_shutdown p, locked, MFailBroadcast, [])
  | _ => None
  end.

(** The machine; [accepted] and [handled] record the clients that were queued and
    whose sessions ended. *)
Record state := mk_state {
  pool : thread_pool;
  locked : bool;
  main : main_pc;
  workers : list worker_pc;
  accepted : list client;
  handled : list client
}.

Definition init : state := mk_state init_pool false MCreate [] [] [].

Inductive step (c : server_config) : state -> state -> Prop :=
| step_worker p l m ws1 w ws2 acc hd p' l' w' sg :
    worker_step p l w = Some (p', l', w', sg) ->
    step c (mk_state p l m (ws1 ++ w :: ws2) acc hd)
      (mk_state p' l' (if sg then wake_main m else m) (ws1 ++ w' :: ws2) acc (finished w ++ hd))
| step_main p l m ws acc hd now p' l' m' new :
    main_step c now p l m = Some (p', l', m', new) ->
    step c (mk_state p l m ws acc hd) (mk_state p' l' m' ws (acc ++ new) hd)
| step_create p l ws acc hd :
    Z.of_nat (length ws) < thread_pool_size c ->
    step c (mk_state p l MCreate ws acc hd) (mk_state p l MCreate (ws ++ [WStart]) acc hd)
| step_created p l ws acc hd :
    thread_pool_size c <= Z.of_nat (length ws) ->
    step c (mk_state p l MCreate ws acc hd) (mk_state p l MAccept ws acc hd)
| step_create_fails p l ws acc hd :
    Z.of_nat (length ws) < thread_pool_size c ->
    step c (mk_state p l MCreate ws acc hd) (mk_state p l MFailShutdown ws acc hd)
| step_accept p l ws acc hd cl :
    max_conn_reached c p = false ->
    step c (mk_state p l MAccept ws acc hd) (mk_state p l (MEnq cl) ws acc hd)
| step_stop p l ws acc hd :
    step c (mk_state p l MAccept ws acc hd) (mk_state p l MShutdown ws acc hd)
| step_signal p l ws ws' acc hd :
    signalled ws ws' ->
    step c (mk_state p l MSignal ws acc hd) (mk_state p l MUnlock ws' acc hd)
| step_broadcast p l ws acc hd :
    step c (mk_state p l MBroadcast ws acc hd) (mk_state p l MBroadcastDone (wake <$> ws) acc hd)
| step_fail_broadcast p l ws acc hd :
    step c (mk_state p l MFailBroadcast ws acc hd) (mk_state p l (MFailJoin 0) (wake <$> ws) acc hd)
| step_join p l ws acc hd i :
    ws !! i = Some WExit ->
    step c (mk_state p l (MJoin i) ws acc hd) (mk_state p l (MJoin (S i)) ws acc hd)
| step_joined p l ws acc hd :
    step c (mk_state p l (MJoin (length ws)) ws acc hd) (mk_state p l MClean ws acc hd)
| step_fail_join p l ws acc hd i :
    ws !! i = Some WExit ->
    step c (mk_state p l (MFailJoin i) ws acc hd) (mk_state p l (MFailJoin (S i)) ws acc hd)
| step_fail_joined p l ws acc hd :
    step c (mk_state p l (MFailJoin (length ws)) ws acc hd) (mk_state p l MFailed ws acc hd).

(** Wake-ups without a signal. *)
Inductive spurious : state -> state -> Prop :=
| spurious_worker p l m ws1 ws2 acc hd :
    spurious (mk_state p l m (ws1 ++ WWait :: ws2) acc hd) (mk_state p l m (ws1 ++ WWake :: ws2) acc hd)
| spurious_main p l cl ws acc hd :
    spurious (mk_state p l (MWait cl) ws acc hd) (mk_state p l (MWake cl) ws acc hd).

Definition any_step (c : server_config) (s s' : state) : Prop := step c s s' \/ spurious s s'.

Definition reachable (c : server_config) (s : state) : Prop := rtc (any_step c) init s.

(** * Invariant *)

Definition holds (w : worker_pc) : bool := match w with WTest | WSleep | WAfter => true | _ => false end.
Definition main_holds (m : main_pc) : bool :=
  match m with MFull _ | MSleep _ | MSignal | MUnlock | MBroadcast | MBroadcastDone => true | _ => false end.

(** Number of workers that hold the mutex. *)
Definition holders (ws : list worker_pc) : nat := sum_list_with (fun w => Nat.b2n (holds w)) ws.

(** The main thread has set [shutdown]; it has woken everybody; it is on the error
    path of [initialize_thread_pool]. *)
Definition stopped (m : main_pc) : bool :=
  match m with
  | MLock | MBroadcast | MBroadcastDone | MJoin _ | MClean | MDone | MFailBroadcast | MFailJoin _ | MFailed => true
  | _ => false
  end.
Definition broadcasted (m : main_pc) : bool :=
  match m with MBroadcastDone | MJoin _ | MClean | MDone => true | _ => false end.
Definition failing (m : main_pc) : bool :=
  match m with MFailShutdown | MFailBroadcast | MFailJoin _ | MFailed => true | _ => false end.
Definition starting (m : main_pc) : bool := match m with MCreate => true | _ => failing m end.
Definition awake (w : worker_pc) : bool := match w with WWait | WExit => false | _ => true end.

(** Clients in a session. *)
Definition busy (ws : list worker_pc) : list client := ws ≫= finished.

Definition joined (m : main_pc) (ws : list worker_pc) : Prop :=
  match m with
  | MJoin i => (i <= length ws)%nat /\ forall j, (j < i)%nat -> ws !! j = Some WExit
  | MClean | MDone => forall w, w ∈ ws -> w = WExit
  | MFailJoin i => (i <= length ws)%nat
  | _ => True
  end.

Definition waiting_full (c : server_config) (p : thread_pool) (m : main_pc) : Prop :=
  match m with MSleep _ | MWait _ => max_queue_size c <= queue_size p | _ => True end.

Record inv (c : server_config) (s : state) : Prop := {
  i_mutex : (holders (workers s) + Nat.b2n (main_holds (main s)) = Nat.b2n (locked s))%nat;
  i_size : queue_size (pool s) = Z.of_nat (length (work_queue (pool s)));
  i_stop : shutdown (pool s) = stopped (main s);
  i_exit : WExit ∈ workers s -> stopped (main s) = true /\ work_queue (pool s) = [];
  i_sleep : WSleep ∈ workers s -> work_queue (pool s) = [];
  i_awake : work_queue (pool s) <> [] -> main s <> MSignal -> exists w, w ∈ workers s /\ awake w = true;
  i_full : waiting_full c (pool s) (main s);
  i_broadcast : broadcasted (main s) = true -> (WWait ∉ workers s) /\ (WSleep ∉ workers s);
  i_workers : starting (main s) = false -> thread_pool_size c <= Z.of_nat (length (workers s));
  i_start : starting (main s) = true -> work_queue (pool s) = [];
  i_join : joined (main s) (workers s);
  i_perm : accepted s ≡ₚ work_queue (pool s) ++ busy (workers s) ++ handled s
}.

Lemma threads_init_inv c : inv c init.
Proof. split; cbn; try done; set_solver. Qed.

Lemma holders_mid ws1 w ws2 : holders (ws1 ++ w :: ws2) = (holders ws1 + Nat.b2n (holds w) + holders ws2)%nat.
Proof. unfold holders. rewrite sum_list_with_app. cbn. lia. Qed.

Lemma holders_elem ws w : w ∈ ws -> holds w = true -> (1 <= holders ws)%nat.
Proof. intros (l1 & l2 & ->)%list_elem_of_split Hh. rewrite holders_mid, Hh. cbn. lia. Qed.

Lemma busy_mid ws1 w ws2 : busy (ws1 ++ w :: ws2) = busy ws1 ++ finished w ++ busy ws2.
Proof. unfold busy. by rewrite bind_app, bind_cons. Qed.

Lemma elem_mid {A} (x y : A) l1 l2 : x ∈ l1 ++ y :: l2 <-> x = y \/ x ∈ l1 ++ l2.
Proof. set_solver. Qed.

Lemma busy_perm ws1 w ws2 : busy (ws1 ++ w :: ws2) ≡ₚ finished w ++ busy (ws1 ++ ws2).
Proof. unfold busy. rewrite bind_app, bind_cons, bind_app. apply Permutation_app_swap_app. Qed.

Lemma dequeue_Some p cl p' :
  dequeue_client p = Some (cl, p') ->
  work_queue p = cl :: work_queue p' /\ queue_size p' = queue_size p - 1 /\ shutdown p' = shutdown p.
Proof.
  unfold dequeue_client. destruct (queue_size p =? 0); [done|]. destruct (work_queue p) eqn:E; [done|].
  intros [= <- <-]. done.
Qed.

(** What a worker's step does to the pool. *)
Lemma worker_step_pool p l w p' l' w' sg :
  worker_step p l w = Some (p', l', w', sg) ->
  shutdown p' = shutdown p /\ w <> WExit /\ w <> WWait /\
  ((sg = false /\ finished w' = [] /\ work_queue p' = work_queue p /\ queue_size p' = queue_size p) \/
   (exists cl, sg = true /\ w = WAfter /\ w' = WHandle cl /\ work_queue p = cl :: work_queue p' /\ queue_size p' = queue_size p - 1)).
Proof.
  intros E. destruct w; cbn in E; try done.
  1-4: repeat case_match; simplify_eq; split_and!; try done; by left.
  - case_match; simplify_eq; [split_and!; try done; by left|].
    destruct (dequeue_client p) as [[cl q]|] eqn:Ed; simplify_eq; [|split_and!; try done; by left].
    apply dequeue_Some in Ed as (? & ? & ?). split_and!; try done. right. by exists cl.
  - simplify_eq. unfold close_client_connection. cbn. case_match; (split_and!; try done; by left).
Qed.

(** What it does to the mutex. *)
Lemma worker_step_mutex p l w p' l' w' sg :
  worker_step p l w = Some (p', l', w', sg) -> (Nat.b2n (holds w) <= Nat.b2n l)%nat ->
  (Nat.b2n (holds w') + Nat.b2n l = Nat.b2n (holds w) + Nat.b2n l')%nat.
Proof. intros E Hl. destruct w; cbn in E; try done; repeat case_match; simplify_eq;
  repeat match goal with b : bool |- _ => destruct b end; cbn in *; lia.
Qed.

(** Positions other than the middle one. *)
Lemma lookup_mid_ne {A} (l1 l2 : list A) x y j : j <> length l1 -> (l1 ++ x :: l2) !! j = (l1 ++ y :: l2) !! j.
Proof.
  intros Hj. destruct (decide (j < length l1)%nat).
  - by rewrite !lookup_app_l.
  - rewrite !lookup_app_r by lia. destruct (j - length l1)%nat eqn:E; [lia|done].
Qed.

Lemma joined_replace m ws1 w w' ws2 : w <> WExit -> joined m (ws1 ++ w :: ws2) -> joined m (ws1 ++ w' :: ws2).
Proof.
  intros Hw Hj. destruct m; cbn in *; try done.
  - rewrite length_app in *. cbn in *. destruct Hj as [Hi Hj]. split; [lia|]. intros j Hlt.
    assert (j <> length ws1).
    { intros ->. specialize (Hj _ Hlt). rewrite list_lookup_middle in Hj by done. congruence. }
    rewrite (lookup_mid_ne _ _ w' w) by done. auto.
  - destruct Hw. apply Hj. set_solver.
  - destruct Hw. apply Hj. set_solver.
  - rewrite length_app in *. cbn in *. lia.
Qed.

Lemma wake_main_facts m :
  main_holds (wake_main m) = main_holds m /\ stopped (wake_main m) = stopped m /\
  broadcasted (wake_main m) = broadcasted m /\ starting (wake_main m) = starting m /\
  (wake_main m = MSignal <-> m = MSignal) /\ forall ws, joined (wake_main m) ws <-> joined m ws.
Proof. destruct m; cbn; naive_solver. Qed.

(** When a worker exits, decides to sleep, sleeps. *)
Lemma worker_step_target p l w p' l' w' sg :
  worker_step p l w = Some (p', l', w', sg) ->
  (w' = WExit -> shutdown p = true /\ queue_size p = 0) /\
  (w' = WSleep -> queue_size p = 0 /\ shutdown p = false) /\
  (w' = WWait -> w = WSleep).
Proof.
  intros E. destruct w; cbn in E; try done; repeat case_match; simplify_eq; zbool; split_and!; try done.
Qed.

Lemma inv_worker c p l m ws1 w ws2 acc hd p' l' w' sg :
  worker_step p l w = Some (p', l', w', sg) ->
  inv c (mk_state p l m (ws1 ++ w :: ws2) acc hd) ->
  inv c (mk_state p' l' (if sg then wake_main m else m) (ws1 ++ w' :: ws2) acc (finished w ++ hd)).
Proof.
  intros E [Hmu Hsz Hst Hex Hsl Haw Hfu Hbr Hwo Hsa Hjo Hpe]. cbn [pool locked main workers accepted handled] in *.
  destruct (worker_step_pool _ _ _ _ _ _ _ E) as (Ep & Hne1 & Hne2 & Hq).
  destruct (worker_step_target _ _ _ _ _ _ _ E) as (T1 & T2 & T3).
  destruct (wake_main_facts m) as (M1 & M2 & M3 & M4 & M5 & M6).
  rewrite holders_mid in Hmu.
  pose proof (worker_step_mutex _ _ _ _ _ _ _ E ltac:(lia)) as Em.
  set (m' := if sg then wake_main m else m).
  assert (Hm : main_holds m' = main_holds m /\ stopped m' = stopped m /\ broadcasted m' = broadcasted m /\
    starting m' = starting m /\ (m' = MSignal <-> m = MSignal) /\ forall ws, joined m' ws <-> joined m ws).
  { subst m'. destruct sg; [by rewrite M1, M2, M3, M4|done]. }
  clear M1 M2 M3 M4 M5 M6. destruct Hm as (M1 & M2 & M3 & M4 & M5 & M6).
  assert (Hemp : queue_size p = 0 -> work_queue p = []) by (intros Hz; apply nil_length_inv; lia).
  assert (Hq0 : work_queue p = [] -> work_queue p' = [] /\ queue_size p' = queue_size p).
  { intros Hz. destruct Hq as [(_ & _ & -> & ->)|(cl & _ & _ & _ & Hc & _)]; [done|congruence]. }
  split; cbn [pool locked main workers accepted handled]; rewrite ?M1, ?M2, ?M3, ?M4, ?Ep.
  - rewrite holders_mid. lia.
  - destruct Hq as [(_ & _ & -> & ->)|(cl & _ & _ & _ & Hc & ->)]; [done|]. rewrite Hsz, Hc. cbn. lia.
  - done.
  - rewrite elem_mid. intros [<-|Hin].
    + destruct T1 as [H1 H2]; [done|]. rewrite <- Hst. split; [done|]. apply Hq0; auto.
    + destruct Hex as [H1 H2]; [rewrite elem_mid; auto|]. split; [done|]. apply Hq0; auto.
  - rewrite elem_mid. intros [<-|Hin]; apply Hq0; [apply Hemp, T2; done|]. apply Hsl. rewrite elem_mid. auto.
  - rewrite M5. intros Hnq Hms. exists w'. rewrite elem_mid. split; [by left|].
    destruct w'; try done; exfalso; apply Hnq, Hq0.
    + rewrite (T3 eq_refl) in Hsl. apply Hsl. rewrite elem_mid. auto.
    + apply Hemp, T1. done.
  - subst m'. destruct Hq as [(-> & _ & _ & Hs)|(cl & -> & -> & _ & Hc & Hs)].
    + destruct m; cbn in *; try done; lia.
    + destruct m; cbn in *; try done. exfalso. destruct l; cbn in *; lia.
  - intros Hb. destruct (Hbr Hb) as [B1 B2]. rewrite elem_mid in B1, B2. rewrite !elem_mid.
    split; (intros [Hw|Hin]; [|by auto]).
    + apply B2. left. by rewrite (T3 (eq_sym Hw)).
    + destruct (T2 (eq_sym Hw)) as [_ Hsd]. rewrite Hst in Hsd. destruct m; done.
  - intros Hs. specialize (Hwo Hs). rewrite length_app in *. done.
  - intros Hs. apply Hq0. auto.
  - rewrite M6. eapply joined_replace; [|exact Hjo]. done.
  - rewrite Hpe, !busy_perm. destruct Hq as [(_ & -> & -> & _)|(cl & _ & -> & -> & Hc & _)].
    + f_equiv. cbn [app]. rewrite <- app_assoc. apply Permutation_app_swap_app.
    + rewrite Hc. cbn [finished app]. by rewrite <- Permutation_middle.
Qed.

(** A main thread that has the mutex excludes every worker from it. *)
Lemma main_excludes c p l m ws acc hd :
  inv c (mk_state p l m ws acc hd) -> main_holds m = true -> forall w, w ∈ ws -> holds w = false.
Proof.
  intros [Hmu _ _ _ _ _ _ _ _ _ _ _] Hm w Hin. cbn [locked main workers] in Hmu. rewrite Hm in Hmu.
  destruct (holds w) eqn:E; [|done]. pose proof (holders_elem ws w Hin E). destruct l; cbn [Nat.b2n] in Hmu; lia.
Qed.

Lemma main_locked c p l m ws acc hd : inv c (mk_state p l m ws acc hd) -> main_holds m = true -> l = true.
Proof.
  intros [Hmu _ _ _ _ _ _ _ _ _ _ _] Hm. cbn [locked main workers] in Hmu. rewrite Hm in Hmu.
  destruct l; [done|]. cbn [Nat.b2n] in Hmu. lia.
Qed.

(** Steps of the main thread that leave pool and workers alone. *)
Lemma inv_main_pc c p l l' m m' ws acc hd :
  inv c (mk_state p l m ws acc hd) ->
  (Nat.b2n (main_holds m') + Nat.b2n l = Nat.b2n (main_holds m) + Nat.b2n l')%nat ->
  stopped m' = stopped m -> (m = MSignal -> m' = MSignal) -> waiting_full c p m' ->
  (broadcasted m' = true -> broadcasted m = true) ->
  (starting m' = false -> starting m = true -> thread_pool_size c <= Z.of_nat (length ws)) ->
  (starting m' = true -> starting m = true) -> joined m' ws ->
  inv c (mk_state p l' m' ws acc hd).
Proof.
  intros [Hmu Hsz Hst Hex Hsl Haw Hfu Hbr Hwo Hsa Hjo Hpe] H1 H2 H3 H4 H5 H6 H7 H8. cbn [pool locked main workers accepted handled] in *.
  split; cbn [pool locked main workers accepted handled]; rewrite ?H2; auto; try lia.
  destruct (starting m) eqn:E; auto.
Qed.

(** The steps that change the pool. *)
Lemma inv_put c now p l cl ws acc hd p' :
  enqueue_item c p cl now = Some (Some p') ->
  inv c (mk_state p l (MFull cl) ws acc hd) -> inv c (mk_state p' l MSignal ws (acc ++ [item cl now]) hd).
Proof.
  intros E I. pose proof (main_excludes _ _ _ _ _ _ _ I eq_refl) as Hx.
  destruct I as [Hmu Hsz Hst Hex Hsl Haw Hfu Hbr Hwo Hsa Hjo Hpe]. cbn [pool locked main workers accepted handled] in *.
  unfold enqueue_item in E. rewrite Hst in E. cbn [stopped negb andb] in E.
  destruct (max_queue_size c <=? queue_size p); [done|]. cbn in E. injection E as <-.
  split; cbn [pool locked main workers accepted handled work_queue queue_size shutdown]; try done.
  - rewrite length_app. cbn. lia.
  - intros Hin. destruct (Hex Hin). done.
  - intros Hin. discriminate (Hx _ Hin).
  - rewrite Hpe. fold (item cl now). rewrite <- !app_assoc. f_equiv. rewrite app_assoc. apply Permutation_app_comm.
Qed.

Lemma inv_shutdown c p l m m' ws acc hd :
  (m = MShutdown /\ m' = MLock) \/ (m = MFailShutdown /\ m' = MFailBroadcast) ->
  inv c (mk_state p l m ws acc hd) -> inv c (mk_state (set_shutdown p) l m' ws acc hd).
Proof.
  intros Hm [Hmu Hsz Hst Hex Hsl Haw Hfu Hbr Hwo Hsa Hjo Hpe]. cbn [pool locked main workers accepted handled] in *.
  destruct Hm as [[-> ->]|[-> ->]];
    (split; cbn [pool locked main workers accepted handled set_shutdown work_queue queue_size shutdown]; try done;
     [by intros [? _]%Hex|intros ? _; by apply Haw]).
Qed.

Lemma inv_count c p l ws acc hd :
  inv c (mk_state p l MCount ws acc hd) -> inv c (mk_state (count_connection p) l MAccept ws acc hd).
Proof.
  intros [Hmu Hsz Hst Hex Hsl Haw Hfu Hbr Hwo Hsa Hjo Hpe]. cbn [pool locked main workers accepted handled] in *.
  split; cbn [pool locked main workers accepted handled count_connection work_queue queue_size shutdown]; try done.
  intros ? _; by apply Haw.
Qed.

(** When everybody has left nothing is in the queue. *)
Lemma inv_clean c p l ws acc hd :
  inv c (mk_state p l MClean ws acc hd) -> work_queue p = [].
Proof.
  intros [Hmu Hsz Hst Hex Hsl Haw Hfu Hbr Hwo Hsa Hjo Hpe]. cbn [pool locked main workers accepted handled] in *.
  destruct (work_queue p) eqn:Eq; [done|]. destruct Haw as (w & Hin & Hw); [done..|].
  rewrite (Hjo w Hin) in Hw. done.
Qed.

Lemma inv_main c now p l m ws acc hd p' l' m' new :
  main_step c now p l m = Some (p', l', m', new) ->
  inv c (mk_state p l m ws acc hd) -> inv c (mk_state p' l' m' ws (acc ++ new) hd).
Proof.
  intros E I. pose proof (main_locked _ _ _ _ _ _ _ I) as Hl.
  destruct m as [| |cl|cl|cl|cl|cl| | | | | | | |i| | | | |i|]; cbn in E; try done.
  1,4,8: destruct l; simplify_eq; rewrite app_nil_r; eapply inv_main_pc; done.
  - destruct (enqueue_item c p cl now) as [[q|]|] eqn:Eq; injection E as <- <- <- <-.
    + by eapply inv_put.
    + rewrite app_nil_r. rewrite Hl in I by done. eapply inv_main_pc; done.
    + rewrite app_nil_r. eapply inv_main_pc; try done. cbn.
      unfold enqueue_item in Eq. destruct (max_queue_size c <=? queue_size p) eqn:El; zbool; [done|].
      cbn in Eq. by destruct (shutdown p).
  - injection E as <- <- <- <-. rewrite app_nil_r. rewrite Hl in I by done. eapply inv_main_pc; try done. apply I.
  - injection E as <- <- <- <-. rewrite app_nil_r. rewrite Hl in I by done. eapply inv_main_pc; done.
  - injection E as <- <- <- <-. rewrite app_nil_r. by apply inv_count.
  - injection E as <- <- <- <-. rewrite app_nil_r. eapply inv_shutdown; [|done]. auto.
  - injection E as <- <- <- <-. rewrite app_nil_r. rewrite Hl in I by done. eapply inv_main_pc; try done. split; [lia|]. intros; lia.
  - injection E as <- <- <- <-. rewrite app_nil_r. pose proof (inv_clean _ _ _ _ _ _ I) as Hq.
    destruct I as [Hmu Hsz Hst Hex Hsl Haw Hfu Hbr Hwo Hsa Hjo Hpe]. cbn [pool locked main workers accepted handled] in *.
    rewrite Hq in Hpe. split; cbn [pool locked main workers accepted handled drop_queue snd work_queue queue_size shutdown]; try done.
  - injection E as <- <- <- <-. rewrite app_nil_r. eapply inv_shutdown; [|done]. auto.
Qed.

(** Waking workers: fewer sleepers, nothing else changes. *)
Lemma inv_wake c p l m m' ws ws' acc hd :
  inv c (mk_state p l m ws acc hd) -> Forall2 (fun w w' => w' = w \/ (w = WWait /\ w' = WWake)) ws ws' ->
  main_holds m' = main_holds m -> stopped m' = stopped m ->
  (work_queue p <> [] -> m' <> MSignal -> exists w, w ∈ ws' /\ awake w = true) ->
  waiting_full c p m' -> (broadcasted m' = true -> (WWait ∉ ws') /\ (WSleep ∉ ws')) ->
  starting m' = starting m -> joined m' ws' ->
  inv c (mk_state p l m' ws' acc hd).
Proof.
  intros [Hmu Hsz Hst Hex Hsl Haw Hfu Hbr Hwo Hsa Hjo Hpe] Hw H1 H2 H3 H4 H5 H6 H7.
  cbn [pool locked main workers accepted handled] in *.
  assert (Hh : holders ws' = holders ws).
  { clear -Hw. induction Hw as [|w w' ws ws' Hww _ IH]; [done|]. unfold holders in *. cbn. rewrite IH.
    by destruct Hww as [->|[-> ->]]. }
  assert (Hb : busy ws' = busy ws).
  { clear -Hw. induction Hw as [|w w' ws ws' Hww _ IH]; [done|]. unfold busy in *. cbn. rewrite IH.
    by destruct Hww as [->|[-> ->]]. }
  assert (He : forall x, x <> WWake -> x ∈ ws' -> x ∈ ws).
  { intros x Hx Hin. clear -Hw Hx Hin. induction Hw as [|w w' ws ws' Hww _ IH]; [done|].
    apply elem_of_cons. apply elem_of_cons in Hin as [->|Hin]; [|auto].
    destruct Hww as [->|[-> ->]]; [by left|done]. }
  split; cbn [pool locked main workers accepted handled]; rewrite ?Hh, ?Hb, ?H1, ?H2, ?H6; auto.
  rewrite <- (Forall2_length _ _ _ Hw). done.
Qed.

Lemma wake_related (ws : list worker_pc) : Forall2 (fun w w' => w' = w \/ (w = WWait /\ w' = WWake)) ws (wake <$> ws).
Proof. induction ws as [|[] ws IH]; cbn; constructor; auto. Qed.

Lemma wake_elem (ws : list worker_pc) w : w ∈ wake <$> ws -> w <> WWait /\ (w = WSleep -> WSleep ∈ ws).
Proof.
  intros (v & -> & Hv)%list_elem_of_fmap. split; [by destruct v|]. intros Hw. by destruct v.
Qed.

Lemma replace_related ws1 ws2 :
  Forall2 (fun w w' => w' = w \/ (w = WWait /\ w' = WWake)) (ws1 ++ WWait :: ws2) (ws1 ++ WWake :: ws2).
Proof.
  apply Forall2_app; [|constructor]; [| auto |]; apply Forall_Forall2_diag; apply Forall_forall; auto.
Qed.

Lemma inv_signal c p l ws ws' acc hd :
  1 <= thread_pool_size c -> signalled ws ws' ->
  inv c (mk_state p l MSignal ws acc hd) -> inv c (mk_state p l MUnlock ws' acc hd).
Proof.
  intros Hn Hs I. destruct Hs as [ws Hnw|ws1 ws2].
  - eapply inv_wake; [exact I|by apply Forall_Forall2_diag, Forall_forall; auto|done|done| |done|done|done|done].
    intros _ _. destruct I as [_ _ _ Hex _ _ _ _ Hwo _ _ _]. cbn [workers main stopped] in *.
    destruct ws as [|w ws]; [specialize (Hwo eq_refl); cbn in Hwo; lia|].
    exists w. split; [set_solver|]. destruct w; try done; exfalso; [set_solver|]. destruct Hex; [set_solver|done].
  - eapply inv_wake; [exact I|apply replace_related|done|done| |done|done|done|done].
    intros _ _. exists WWake. split; [set_solver|done].
Qed.

Lemma inv_broadcast c p l ws acc hd :
  inv c (mk_state p l MBroadcast ws acc hd) -> inv c (mk_state p l MBroadcastDone (wake <$> ws) acc hd).
Proof.
  intros I. pose proof (main_excludes _ _ _ _ _ _ _ I eq_refl) as Hx.
  eapply inv_wake; [exact I|apply wake_related|done|done| |done| |done|done].
  - intros Hq _. destruct I as [_ _ _ _ _ Haw _ _ _ _ _ _]. destruct (Haw Hq) as (w & Hin & Hw); [done|].
    exists (wake w). split; [apply list_elem_of_fmap; eauto|]. by destruct w.
  - intros _. split; intros Hin; destruct (wake_elem _ _ Hin) as [H1 H2]; [done|].
    discriminate (Hx WSleep). auto.
Qed.

Lemma step_inv c s s' : 1 <= thread_pool_size c -> inv c s -> step c s s' -> inv c s'.
Proof.
  intros Hn I Hs. destruct Hs as [p l m ws1 w ws2 acc hd p' l' w' sg E|p l m ws acc hd now p' l' m' new E|p l ws acc hd Hlt
    |p l ws acc hd Hge|p l ws acc hd Hlt|p l ws acc hd cl Hm|p l ws acc hd|p l ws ws' acc hd Hsg|p l ws acc hd|p l ws acc hd
    |p l ws acc hd i Hi|p l ws acc hd|p l ws acc hd i Hi|p l ws acc hd].
  - by eapply inv_worker.
  - by eapply inv_main.
  - destruct I as [Hmu Hsz Hst Hex Hsl Haw Hfu Hbr Hwo Hsa Hjo Hpe]. cbn [pool locked main workers accepted handled] in *.
    split; cbn [pool locked main workers accepted handled]; try done.
    + rewrite holders_mid. change (holders []) with 0%nat. cbn [holds Nat.b2n]. lia.
    + intros Hin. apply Hex. set_solver.
    + intros Hin. apply Hsl. set_solver.
    + intros Hq _. by destruct (Hq (Hsa eq_refl)).
    + rewrite busy_mid. cbn. by rewrite app_nil_r.
  - eapply inv_main_pc; try done.
  - eapply inv_main_pc; done.
  - eapply inv_main_pc; done.
  - eapply inv_main_pc; done.
  - by eapply inv_signal.
  - by apply inv_broadcast.
  - eapply inv_wake; [exact I|apply wake_related|done|done| |done|done|done|cbn; lia].
    intros Hq. destruct I as [_ _ _ _ _ _ _ _ _ Hsa _ _]. by destruct (Hq (Hsa eq_refl)).
  - eapply inv_main_pc; try done. destruct I as [_ _ _ _ _ _ _ _ _ _ [Hl Hj] _]. cbn [workers] in *.
    split; [by apply lookup_lt_Some in Hi|]. intros j Hlt. destruct (decide (j = i)) as [->|]; [done|]. apply Hj. lia.
  - eapply inv_main_pc; try done. destruct I as [_ _ _ _ _ _ _ _ _ _ [_ Hj] _]. cbn [workers] in *.
    intros w (j & Hw)%list_elem_of_lookup. rewrite Hj in Hw; [by simplify_eq|]. by apply lookup_lt_Some in Hw.
  - eapply inv_main_pc; try done. by apply lookup_lt_Some in Hi.
  - eapply inv_main_pc; done.
Qed.

Lemma spurious_inv c s s' : inv c s -> spurious s s' -> inv c s'.
Proof.
  intros I Hs. destruct Hs as [p l m ws1 ws2 acc hd|p l cl ws acc hd].
  - pose proof I as [Hmu Hsz Hst Hex Hsl Haw Hfu Hbr Hwo Hsa Hjo Hpe]. cbn [pool locked main workers accepted handled] in *.
    eapply inv_wake; [exact I|apply replace_related|done|done| |done| |done|].
    + intros _ _. exists WWake. split; [set_solver|done].
    + intros Hb. destruct (Hbr Hb) as [[] _]. set_solver.
    + by eapply joined_replace; [|exact Hjo].
  - eapply inv_main_pc; done.
Qed.

Lemma reachable_inv c s : 1 <= thread_pool_size c -> reachable c s -> inv c s.
Proof.
  intros Hn. apply (rtc_ind_r (inv c)); [apply threads_init_inv|].
  intros y z _ [Hs|Hs] I; [by eapply step_inv|by eapply spurious_inv].
Qed.

(** * No deadlock *)

(** A worker that can run, runs, or waits for one that can. *)
Lemma holder_runs c p m ws acc hd :
  inv c (mk_state p true m ws acc hd) -> main_holds m = false -> exists s', step c (mk_state p true m ws acc hd) s'.
Proof.
  intros [Hmu _ _ _ _ _ _ _ _ _ _ _] Hm. cbn [locked main workers] in Hmu. rewrite Hm in Hmu.
  assert (exists w, w ∈ ws /\ holds w = true) as (w & Hin & Hw).
  { clear -Hmu. induction ws as [|w ws IH]; [cbn in Hmu; lia|]. destruct (holds w) eqn:E; [exists w; set_solver|].
    destruct IH as (v & ? & ?); [unfold holders in *; cbn in *; rewrite E in Hmu; done|]. exists v. set_solver. }
  apply list_elem_of_split in Hin as (ws1 & ws2 & ->).
  destruct (worker_step p true w) as [[[[p' l'] w'] sg]|] eqn:E; [eexists; by apply step_worker|].
  exfalso. destruct w; cbn in E; repeat case_match; done.
Qed.

Lemma awake_runs c p l m ws acc hd w :
  inv c (mk_state p l m ws acc hd) -> main_holds m = false -> w ∈ ws -> awake w = true ->
  exists s', step c (mk_state p l m ws acc hd) s'.
Proof.
  intros I Hm Hin Hw. destruct l; [by apply holder_runs|].
  apply list_elem_of_split in Hin as (ws1 & ws2 & ->).
  destruct (worker_step p false w) as [[[[p' l'] w'] sg]|] eqn:E; [eexists; by apply step_worker|].
  exfalso. destruct w; cbn in E; repeat case_match; done.
Qed.

(** Nothing left to do: every worker has exited, nothing is queued, and every client
    that was queued has had its session. *)
Definition final (s : state) : Prop :=
  main s = MDone /\ (forall w, w ∈ workers s -> w = WExit) /\ work_queue (pool s) = [] /\ accepted s ≡ₚ handled s.

Lemma main_runs c now p l m ws acc hd :
  is_Some (main_step c now p l m) -> exists s', step c (mk_state p l m ws acc hd) s'.
Proof. intros [[[[p' l'] m'] new] E]. eexists. by eapply step_main. Qed.

Lemma progress c s :
  1 <= max_queue_size c -> inv c s -> failing (main s) = false -> final s \/ exists s', step c s s'.
Proof.
  intros Hq I Hf. destruct s as [p l m ws acc hd]. cbn [main] in Hf.
  destruct (main_step c 0 p l m) as [x|] eqn:E; [right; eapply (main_runs c 0); by rewrite E|].
  destruct m as [| |cl|cl|cl|cl|cl| | | | | | | |i| | | | |i|]; try done.
  - right. destruct (Z.ltb_spec (Z.of_nat (length ws)) (thread_pool_size c)); eexists; [by apply step_create|by apply step_created].
  - right. eexists. apply step_stop.
  - right. destruct l; [by apply holder_runs|done].
  - exfalso. cbn in E. repeat case_match; done.
  - right. pose proof I as [Hmu Hsz Hst Hex Hsl Haw Hfu Hbr Hwo Hsa Hjo Hpe]. cbn [pool main workers waiting_full] in *.
    destruct Haw as (w & Hin & Hw); [|done|by eapply awake_runs]. intros Hz. rewrite Hz in Hsz. cbn in Hsz. lia.
  - right. destruct l; [by apply holder_runs|done].
  - right. destruct (decide (WWait ∈ ws)) as [(ws1 & ws2 & ->)%list_elem_of_split|Hn]; eexists; apply step_signal; by constructor.
  - right. destruct l; [by apply holder_runs|done].
  - right. eexists. apply step_broadcast.
  - right. pose proof I as [Hmu Hsz Hst Hex Hsl Haw Hfu Hbr Hwo Hsa Hjo Hpe]. cbn [pool main workers joined broadcasted] in *.
    destruct Hjo as [Hle Hj]. destruct (decide (i = length ws)) as [->|]; [eexists; apply step_joined|].
    destruct (lookup_lt_is_Some_2 ws i) as [w Hw]; [lia|]. destruct (decide (w = WExit)) as [->|Hne]; [eexists; by apply step_join|].
    apply (awake_runs c p l (MJoin i) ws acc hd w I); [done|by eapply list_elem_of_lookup_2|].
    destruct w; try done. destruct (Hbr eq_refl) as [[] _]. by eapply list_elem_of_lookup_2.
  - left. destruct I as [Hmu Hsz Hst Hex Hsl Haw Hfu Hbr Hwo Hsa Hjo Hpe]. cbn [pool main workers joined accepted handled] in *.
    assert (Hz : work_queue p = []).
    { destruct (work_queue p); [done|]. destruct Haw as (w & Hin & Hw); [done..|]. by rewrite (Hjo w Hin) in Hw. }
    unfold final. cbn [pool main workers accepted handled]. split_and!; try done. rewrite Hpe, Hz.
    assert (Hb : busy ws = []); [|by rewrite Hb].
    clear -Hjo. induction ws as [|w ws IH]; [done|]. unfold busy. cbn. rewrite (Hjo w) by set_solver. cbn. apply IH. set_solver.
Qed.

(** The path behind a failed [pthread_create]. *)
Lemma progress_failing c s :
  inv c s -> failing (main s) = true ->
  main s = MFailed \/ (exists s', step c s s') \/ exists i, main s = MFailJoin i /\ workers s !! i = Some WWait.
Proof.
  intros I Hf. destruct s as [p l m ws acc hd]. cbn [main workers] in *. destruct m as [| | | | | | | | | | | | | | | | | | |i|]; try done.
  - right; left. by apply (main_runs c 0).
  - right; left. eexists. apply step_fail_broadcast.
  - right. pose proof (i_join _ _ I) as Hjo. cbn [main workers joined] in Hjo.
    destruct (decide (i = length ws)) as [->|]; [left; eexists; apply step_fail_joined|].
    destruct (lookup_lt_is_Some_2 ws i) as [w Hw]; [lia|]. pose proof (list_elem_of_lookup_2 _ _ _ Hw) as Hin.
    destruct (decide (w = WExit)) as [->|Hne]; [left; eexists; by apply step_fail_join|].
    destruct (decide (w = WWait)) as [->|Hnw]; [right; eauto|]. left.
    apply (awake_runs c p l (MFailJoin i) ws acc hd w I); [done..|]. by destruct w.
  - by left.
Qed.

(** * Termination after the broadcast *)

Definition weight (w : worker_pc) : nat :=
  match w with WStart | WWake => 3 | WTest => 2 | WAfter => 1 | WHandle _ => 4 | _ => 0 end.

Definition rank (m : main_pc) (n : nat) : nat :=
  match m with MBroadcastDone => n + 3 | MJoin i => n - i + 2 | MClean => 1 | _ => 0 end.

(** What is left to do: ten for a queued client, and the rest of each thread. *)
Definition remaining (s : state) : nat :=
  10 * length (work_queue (pool s)) + sum_list_with weight (workers s) + rank (main s) (length (workers s)).

Lemma weight_mid ws1 w ws2 :
  sum_list_with weight (ws1 ++ w :: ws2) = (sum_list_with weight ws1 + weight w + sum_list_with weight ws2)%nat.
Proof. rewrite sum_list_with_app. cbn. lia. Qed.

(** A worker under shutdown only moves forward. *)
Lemma worker_step_weight p l w p' l' w' sg :
  worker_step p l w = Some (p', l', w', sg) -> shutdown p = true -> w <> WSleep ->
  queue_size p = Z.of_nat (length (work_queue p)) ->
  (10 * length (work_queue p') + weight w' < 10 * length (work_queue p) + weight w)%nat.
Proof.
  intros E Hs Hw Hq. destruct w; cbn in E; try done; rewrite ?Hs in E; cbn in E.
  - destruct l; simplify_eq. cbn. lia.
  - rewrite andb_false_r in E. simplify_eq. cbn. lia.
  - destruct l; simplify_eq. cbn. lia.
  - destruct (queue_size p =? 0) eqn:E0; simplify_eq; [cbn; lia|].
    destruct (dequeue_client p) as [[cl q]|] eqn:Ed; simplify_eq.
    + apply dequeue_Some in Ed as (-> & _ & _). cbn. lia.
    + unfold dequeue_client in Ed. rewrite E0 in Ed. zbool. destruct (work_queue p'); cbn in *; [lia|done].
  - simplify_eq. unfold close_client_connection. cbn. case_match; cbn; lia.
Qed.

Lemma remaining_decreases c s s' :
  inv c s -> broadcasted (main s) = true -> any_step c s s' ->
  broadcasted (main s') = true /\ (remaining s' < remaining s)%nat.
Proof.
  intros I Hb [Hs|Hs].
  - pose proof I as [_ Hsz Hst _ _ _ _ Hbr _ _ Hjo _]. destruct (Hbr Hb) as [N1 N2].
    destruct Hs as [p l m ws1 w ws2 acc hd p' l' w' sg E|p l m ws acc hd now p' l' m' new E| | | | | | | | |p l ws acc hd i Hi|p l ws acc hd| |];
      cbn [pool main workers] in *; try done.
    + assert (Em : (if sg then wake_main m else m) = m) by (destruct sg, m; done). rewrite Em. split; [done|].
      unfold remaining. cbn [pool main workers]. rewrite !weight_mid, !length_app. cbn [length].
      pose proof (worker_step_weight _ _ _ _ _ _ _ E ltac:(rewrite Hst; destruct m; done) ltac:(set_solver) Hsz). lia.
    + destruct m; try done; cbn in E; simplify_eq; (split; [done|]); unfold remaining; cbn [pool main workers rank drop_queue snd work_queue length]; lia.
    + split; [done|]. unfold remaining. cbn [pool main workers rank]. apply lookup_lt_Some in Hi. lia.
    + split; [done|]. unfold remaining. cbn [pool main workers rank]. lia.
  - exfalso. destruct I as [_ _ _ _ _ _ _ Hbr _ _ _ _]. destruct Hs; cbn [main workers] in *; [|done].
    destruct (Hbr Hb) as [[] _]. set_solver.
Qed.

Lemma any_step_inv c s s' : 1 <= thread_pool_size c -> inv c s -> any_step c s s' -> inv c s'.
Proof. intros Hn I [Hs|Hs]; [by eapply step_inv|by eapply spurious_inv]. Qed.

Lemma broadcast_sn c s : 1 <= thread_pool_size c -> inv c s -> broadcasted (main s) = true -> sn (any_step c) s.
Proof.
  intros Hn. remember (remaining s) as n eqn:En. revert s En. induction (lt_wf n) as [n _ IH]. intros s -> I Hb.
  constructor. intros s' Hs. cbn in Hs. destruct (remaining_decreases _ _ _ I Hb Hs) as [Hb' Hlt].
  by eapply IH; [exact Hlt|reflexivity|eapply any_step_inv|].
Qed.

Lemma broadcast_stays c s s' :
  1 <= thread_pool_size c -> inv c s -> broadcasted (main s) = true -> rtc (any_step c) s s' ->
  inv c s' /\ broadcasted (main s') = true.
Proof.
  intros Hn I Hb. apply (rtc_ind_r (fun x => inv c x /\ broadcasted (main x) = true)); [done|].
  intros y z _ Hyz [Iy By]. split; [by eapply any_step_inv|]. by eapply remaining_decreases.
Qed.

(** C10: where the server can stand still. In every interleaving of acceptor and workers,
    with wake-ups out of the blue, at most one thread holds the queue mutex. While no
    [pthread_create] has failed, some thread can take a step that is not such a wake-up,
    until the machine is final: shut down, every worker gone, the queue empty and every
    queued client served. Once a [pthread_create] has failed, some thread can take a step
    until the error is returned, except that the join of the error path may wait for a
    worker asleep on [queue_not_empty]. *)
Theorem server_no_deadlock c s :
  1 <= thread_pool_size c -> 1 <= max_queue_size c -> reachable c s ->
  (holders (workers s) + Nat.b2n (main_holds (main s)) <= 1)%nat /\
  (failing (main s) = false -> final s \/ exists s', step c s s') /\
  (failing (main s) = true ->
     main s = MFailed \/ (exists s', step c s s') \/ exists i, main s = MFailJoin i /\ workers s !! i = Some WWait).
Proof.
  intros Hn Hq Hr. pose proof (reachable_inv _ _ Hn Hr) as I. split; [|split].
  - rewrite (i_mutex _ _ I). by destruct (locked s); cbn; lia.
  - by apply progress.
  - by apply progress_failing.
Qed.

(** C11: shutting down terminates. Once [cleanup_thread_pool] has broadcast, every
    execution is finite, wake-ups out of the blue included; where no thread can take a
    step of its own, without such a wake-up, every worker has exited, the queue is
    empty and every client that was queued has been served; and the loop that closes
    unprocessed connections has nothing to do. *)
Theorem shutdown_terminates c s :
  1 <= thread_pool_size c -> 1 <= max_queue_size c -> reachable c s -> broadcasted (main s) = true ->
  sn (any_step c) s /\
  (forall s', rtc (any_step c) s s' -> (forall t, ~ step c s' t) -> final s') /\
  (forall s', rtc (any_step c) s s' -> main s' = MClean -> (drop_queue (pool s')).1 = []).
Proof.
  intros Hn Hq Hr Hb. pose proof (reachable_inv _ _ Hn Hr) as I. split; [by apply broadcast_sn|]. split.
  - intros s' Hss Hend. destruct (broadcast_stays c s s' Hn I Hb Hss) as [I' Hb'].
    destruct (progress c s' Hq I') as [Hf|[t Ht]]; [by destruct (main s')|done|]. by destruct (Hend t).
  - intros s' Hss Hm. destruct (broadcast_stays c s s' Hn I Hb Hss) as [I' _].
    destruct s' as [p l m ws acc hd]. cbn in Hm. subst m. by apply (inv_clean c p l ws acc hd).
Qed.

(** A small server: one worker, a queue of one. *)
Definition small_config : server_config := mk_config 8080 10 4096 1 1 10 60 60 1.

(** Runs one chosen step. *)
Tactic Notation "go" uconstr(t) := eapply rtc_l; [left; eapply t; (reflexivity || (cbn; lia))|cbn].
Ltac go_worker ws1 := eapply rtc_l; [left; eapply (step_worker _ _ _ _ ws1); reflexivity|cbn].

(** The worker sleeps while a client is being queued. *)
Definition queueing (cl : client) : state :=
  mk_state (mk_pool [item cl 7] 1 false 0) true MSignal [WWait] [item cl 7] [].

Lemma reach_queueing cl : reachable small_config (queueing cl).
Proof.
  unfold reachable. go step_create. go step_created. do 3 go_worker (@nil worker_pc).
  eapply rtc_l; [left; by apply (step_accept _ _ _ _ _ _ cl)|]. go (step_main small_config _ _ _ _ _ _ 7).
  go (step_main small_config _ _ _ _ _ _ 7). apply rtc_refl.
Qed.

Lemma server_no_deadlock_witness :
  exists s', step small_config (queueing (mk_client 3 "10.0.0.1" 5000 0 0)) s'.
Proof.
  destruct (server_no_deadlock small_config (queueing (mk_client 3 "10.0.0.1" 5000 0 0))) as (_ & H & _).
  - cbn. lia.
  - cbn. lia.
  - apply reach_queueing.
  - destruct (H eq_refl) as [[Hd _]|Hs]; [discriminate Hd|exact Hs].
Defined.

(** The acceptor has broadcast while a client is queued and the worker is in a
    session. *)
Definition stopping (cl : client) : state :=
  mk_state (mk_pool [] 0 true 1) true MBroadcastDone [WHandle (item cl 7)] [item cl 7] [].

Lemma reach_stopping cl : reachable small_config (stopping cl).
Proof.
  unfold reachable. etrans; [apply reach_queueing|].
  eapply rtc_l; [left; apply (step_signal _ _ _ _ [WWake]); apply (signal_one [] [])|].
  do 2 go (step_main small_config _ _ _ _ _ _ 7). do 3 go_worker (@nil worker_pc). go step_stop.
  do 2 go (step_main small_config _ _ _ _ _ _ 7). go step_broadcast. apply rtc_refl.
Qed.

Lemma shutdown_terminates_witness :
  sn (any_step small_config) (stopping (mk_client 3 "10.0.0.1" 5000 0 0)) /\
  (forall s', rtc (any_step small_config) (stopping (mk_client 3 "10.0.0.1" 5000 0 0)) s' ->
     (forall t, ~ step small_config s' t) -> final s').
Proof.
  destruct (shutdown_terminates small_config (stopping (mk_client 3 "10.0.0.1" 5000 0 0))) as (H1 & H2 & _).
  - cbn. lia.
  - cbn. lia.
  - apply reach_stopping.
  - reflexivity.
  - exact (conj H1 H2).
Defined.

(** The error path of [initialize_thread_pool] sets [shutdown] and broadcasts without
    the mutex: a worker that has decided to sleep but does not sleep yet misses the
    broadcast, and the join waits for it until a wake-up out of the blue. *)
Lemma create_failure_can_hang :
  exists s, reachable (mk_config 8080 10 4096 2 1 10 60 60 1) s /\
    main s = MFailJoin 0 /\ workers s = [WWait] /\ forall s', ~ step (mk_config 8080 10 4096 2 1 10 60 60 1) s s'.
Proof.
  exists (mk_state (mk_pool [] 0 true 0) false (MFailJoin 0) [WWait] [] []). split; [|split; [done|split; [done|]]].
  - unfold reachable. go step_create. do 2 go_worker (@nil worker_pc). go step_create_fails.
    go (step_main (mk_config 8080 10 4096 2 1 10 60 60 1) _ _ _ _ _ _ 7). go step_fail_broadcast.
    go_worker (@nil worker_pc). apply rtc_refl.
  - intros s' Hs. inversion Hs as [? ? ? ws1 w ws2 ? ? ? ? ? ? E| | | | | | | | | | | | |]; subst; try done.
    destruct ws1 as [|? [|]]; cbn in *; simplify_eq.
Qed.

End Threads.
