(* ===== verification/NetSetup.v ===== *)
(** * Start and end of the server (src/net/network.c)

    The resources the server takes and gives back: the listening socket
    ([setup_server_socket]), the memory, mutexes, condition variables and threads of
    the pool ([initialize_thread_pool], [cleanup_thread_pool]), and the parts of
    [main] before and after the accept loop, which [NetPool] and [NetThreads] model.
    Whether a call of the system succeeds is an input. Giving back something that is
    not held is [Undef]. Whether a worker ends once [shutdown] is set is an input too,
    and joining one that does not end hangs: [NetThreads] shows that workers end after
    [cleanup_thread_pool] has set the flag, and that one may sleep for ever on the error
    path of [initialize_thread_pool]. *)
From Stdlib Require Import ZArith Lia.
From stdpp Require Import strings numbers gmap base.
From stdpp Require Import list.
From S2P Require Import Prelude NetPool.

Open Scope Z_scope.

(** How the system numbers descriptors: never one that is open, never negative. *)
Class Descriptors := next_fd : gset Z -> Z.
Class DescriptorLaws `{!Descriptors} : Prop := {
  next_fd_new : forall s, next_fd s ∉ s;
  next_fd_nonneg : forall s, 0 <= next_fd s
}.

Module Setup.

(** An open socket and what was done to it. *)
Record sock := mk_sock { reuse : bool; dual : bool; bound : bool; nonblock : bool; listening : bool }.

Abbreviation fds := (gmap Z sock).

Definition close_fd (fd : Z) (t : fds) : outcome fds :=
  if decide (is_Some (t !! fd)) then Ok (delete fd t) else Undef "close of a closed descriptor".

Definition update_fd (fd : Z) (f : sock -> sock) (t : fds) : outcome fds :=
  match t !! fd with
  | Some s => Ok (<[fd := f s]> t)
  | None => Undef "call on a closed descriptor"
  end.

Definition set_reuse (s : sock) : sock := mk_sock true (dual s) (bound s) (nonblock s) (listening s).
Definition set_dual (s : sock) : sock := mk_sock (reuse s) true (bound s) (nonblock s) (listening s).
Definition set_bound (s : sock) : sock := mk_sock (reuse s) (dual s) true (nonblock s) (listening s).
Definition set_nonblock (s : sock) : sock := mk_sock (reuse s) (dual s) (bound s) true (listening s).
Definition set_listening (s : sock) : sock := mk_sock (reuse s) (dual s) (bound s) (nonblock s) true.

(** One result of [getaddrinfo], with what the calls on it return. *)
Record address := mk_address {
  inet6 : bool; socket_ok : bool; reuse_ok : bool; v6only_ok : bool; bind_ok : bool
}.

Section descriptors.
Context `{!Descriptors}.

(** The loop over the addresses: whether it was left by [break], [sockfd], the
    table. *)
Fixpoint bind_loop (rps : list address) (sockfd : Z) (t : fds) : outcome (bool * Z * fds) :=
  match rps with
  | [] => Ok (false, sockfd, t)
  | rp :: rps =>
      if negb (socket_ok rp) then bind_loop rps (-1) t
      else
        let sockfd := next_fd (dom t) in
        let t := <[sockfd := mk_sock false false false false false]> t in
        if negb (reuse_ok rp) then t ← close_fd sockfd t; bind_loop rps (-1) t
        else
          t ← update_fd sockfd set_reuse t;
          t ← (if inet6 rp && v6only_ok rp then update_fd sockfd set_dual t else Ok t);
          if bind_ok rp then t ← update_fd sockfd set_bound t; Ok (true, sockfd, t)
          else t ← close_fd sockfd t; bind_loop rps (-1) t
  end.

(** What the other calls of [setup_server_socket] return; [None]: [getaddrinfo]
    failed. *)
Record socket_world := mk_socket_world {
  addresses : option (list address); getfl_ok : bool; setfl_ok : bool; listen_ok : bool
}.

Definition setup_server_socket (w : socket_world) (t : fds) : outcome (Z * fds) :=
  match addresses w with
  | None => Ok (-1, t)
  | Some rps =>
      '(found, sockfd, t) ← bind_loop rps (-1) t;
      if (sockfd =? -1) || negb found then Ok (-1, t)
      else if negb (getfl_ok w) then t ← close_fd sockfd t; Ok (-1, t)
      else if negb (setfl_ok w) then t ← close_fd sockfd t; Ok (-1, t)
      else
        t ← update_fd sockfd set_nonblock t;
        if negb (listen_ok w) then t ← close_fd sockfd t; Ok (-1, t)
        else t ← update_fd sockfd set_listening t; Ok (sockfd, t)
  end.

End descriptors.

(** * The pool *)

Inductive resource :=
| Threads | RateLimits | QueueMutex | ConnMutex | RateLimitMutex | QueueNotEmpty | QueueNotFull
| Worker (i : Z).

#[global] Instance resource_eq_dec : EqDecision resource.
Proof. solve_decision. Defined.

#[global] Instance resource_countable : Countable resource.
Proof.
  apply (inj_countable'
    (fun r => match r with
              | Threads => inl 0 | RateLimits => inl 1 | QueueMutex => inl 2 | ConnMutex => inl 3
              | RateLimitMutex => inl 4 | QueueNotEmpty => inl 5 | QueueNotFull => inl 6 | Worker i => inr i
              end)
    (fun x : Z + Z => match x with
              | inl 0 => Threads | inl 1 => RateLimits | inl 2 => QueueMutex | inl 3 => ConnMutex
              | inl 4 => RateLimitMutex | inl 5 => QueueNotEmpty | inl _ => QueueNotFull | inr i => Worker i
              end)).
  by intros [].
Defined.

(** The pool's resources, whether its two pointers are set, [thread_count] and
    [shutdown]. *)
Record pool_state := mk_pool_state {
  held : gset resource; threads_ptr : bool; rates_ptr : bool; thread_count : Z; stop : bool
}.

Definition with_held (s : pool_state) (h : gset resource) : pool_state :=
  mk_pool_state h (threads_ptr s) (rates_ptr s) (thread_count s) (stop s).

Definition acquire (r : resource) (s : pool_state) : outcome pool_state :=
  if decide (r ∈ held s) then Undef "initialised twice" else Ok (with_held s ({[r]} ∪ held s)).

Definition release (r : resource) (s : pool_state) : outcome pool_state :=
  if decide (r ∈ held s) then Ok (with_held s (held s ∖ {[r]})) else Undef "released without being held".

Definition release_if (b : bool) (r : resource) (s : pool_state) : outcome pool_state :=
  if b then release r s else Ok s.

(** [pthread_join] of worker [i], which returns when the worker ends. *)
Definition join (ends : Z -> bool) (i : Z) (s : pool_state) : outcome pool_state :=
  if stop s && ends i then release (Worker i) s else Hang.

(** What the calls of [initialize_thread_pool] return, and which workers end once
    [shutdown] is set. *)
Record pool_world := mk_pool_world {
  malloc_threads : bool; malloc_rates : bool;
  init_queue : bool; init_conn : bool; init_rate : bool;
  init_not_empty : bool; init_not_full : bool;
  create_ok : Z -> bool;
  worker_ends : Z -> bool
}.

(** The code after the label [cleanup]. *)
Definition cleanup (cond_init rate_mutex_init conn_mutex_init mutex_init : bool) (s : pool_state) : outcome (Z * pool_state) :=
  s ← release_if cond_init QueueNotEmpty s;
  s ← release_if cond_init QueueNotFull s;
  s ← release_if rate_mutex_init RateLimitMutex s;
  s ← release_if conn_mutex_init ConnMutex s;
  s ← release_if mutex_init QueueMutex s;
  s ← release_if (rates_ptr s) RateLimits s;
  s ← release_if (threads_ptr s) Threads s;
  Ok (-1, mk_pool_state (held s) false false (thread_count s) (stop s)).

(** The loop that creates the workers: [Some i] when creating worker [i] failed. *)
Fixpoint create_loop (ok : Z -> bool) (n : nat) (i : Z) (s : pool_state) : outcome (option Z * pool_state) :=
  match n with
  | O => Ok (None, s)
  | S n => if ok i then s ← acquire (Worker i) s; create_loop ok n (i + 1) s else Ok (Some i, s)
  end.

Definition initialize_thread_pool (w : pool_world) (count : Z) (s : pool_state) : outcome (Z * pool_state) :=
  if negb (malloc_threads w) then cleanup false false false false (mk_pool_state (held s) false (rates_ptr s) (thread_count s) (stop s))
  else
  s ← acquire Threads s;
  let s := mk_pool_state (held s) true (rates_ptr s) (thread_count s) (stop s) in
  if negb (malloc_rates w) then cleanup false false false false (mk_pool_state (held s) true false (thread_count s) (stop s))
  else
  s ← acquire RateLimits s;
  let s := mk_pool_state (held s) true true count false in
  if negb (init_queue w) then cleanup false false false false s
  else
  s ← acquire QueueMutex s;
  if negb (init_conn w) then cleanup false false false true s
  else
  s ← acquire ConnMutex s;
  if negb (init_rate w) then cleanup false false true true s
  else
  s ← acquire RateLimitMutex s;
  if negb (init_not_empty w) then cleanup false true true true s
  else
  s ← acquire QueueNotEmpty s;
  if negb (init_not_full w) then cleanup false true true true s
  else
  s ← acquire QueueNotFull s;
  '(failed, s) ← create_loop (create_ok w) (Z.to_nat count) 0 s;
  match failed with
  | None => Ok (0, s)
  | Some i =>
      let s := mk_pool_state (held s) (threads_ptr s) (rates_ptr s) i true in
      s ← for_range (Z.to_nat (thread_count s)) 0 (join (worker_ends w)) s;
      cleanup true true true true s
  end.

(** [cleanup_thread_pool]; the queue and the sockets in it are in [NetPool]. *)
Definition cleanup_thread_pool (w : pool_world) (s : pool_state) : outcome pool_state :=
  let s := mk_pool_state (held s) (threads_ptr s) (rates_ptr s) (thread_count s) true in
  s ← for_range (Z.to_nat (thread_count s)) 0 (join (worker_ends w)) s;
  s ← release QueueMutex s;
  s ← release ConnMutex s;
  s ← release RateLimitMutex s;
  s ← release QueueNotEmpty s;
  s ← release QueueNotFull s;
  s ← release_if (threads_ptr s) Threads s;
  s ← release_if (rates_ptr s) RateLimits s;
  Ok (mk_pool_state (held s) false false (thread_count s) (stop s)).

(** [main] without the accept loop: the exit status, the descriptors and the pool. *)
Definition server_main `{!Descriptors} (c : server_config) (signals_ok : bool) (sw : socket_world) (pw : pool_world)
    (t : fds) (s : pool_state) : outcome (Z * fds * pool_state) :=
  if negb signals_ok then Ok (1, t, s)
  else
  '(server_fd, t) ← setup_server_socket sw t;
  if server_fd <? 0 then Ok (1, t, s)
  else
  '(r, s) ← initialize_thread_pool pw (thread_pool_size c) s;
  if negb (r =? 0) then t ← close_fd server_fd t; Ok (1, t, s)
  else
  t ← (if 0 <=? server_fd then close_fd server_fd t else Ok t);
  s ← cleanup_thread_pool pw s;
  Ok (0, t, s).

(** * The listening socket *)

(** The address that is used: the first on which all three calls succeed. *)
Definition usable (rp : address) : bool := socket_ok rp && reuse_ok rp && bind_ok rp.

Section setup.
Context `{!Descriptors, !DescriptorLaws}.

Lemma next_fd_closed (t : fds) : t !! next_fd (dom t) = None.
Proof. apply not_elem_of_dom, next_fd_new. Qed.

Lemma close_fresh fd s (t : fds) : t !! fd = None -> close_fd fd (<[fd := s]> t) = Ok t.
Proof.
  intros Hfree. unfold close_fd. rewrite decide_True by (rewrite lookup_insert_eq; eauto). by rewrite delete_insert_id.
Qed.

Lemma update_fresh fd f s (t : fds) : update_fd fd f (<[fd := s]> t) = Ok (<[fd := f s]> t).
Proof. unfold update_fd. by rewrite lookup_insert_eq, insert_insert_eq. Qed.

Lemma bind_loop_spec rps sockfd t :
  match List.find usable rps with
  | None => exists fd, bind_loop rps sockfd t = Ok (false, fd, t)
  | Some rp => let fd := next_fd (dom t) in
      bind_loop rps sockfd t = Ok (true, fd, <[fd := mk_sock true (inet6 rp && v6only_ok rp) true false false]> t)
  end.
Proof.
  revert sockfd. induction rps as [|rp rps IH]; intros sockfd; [eexists; done|].
  cbn [List.find bind_loop]. unfold usable at 1. pose proof (next_fd_closed t) as Hfd.
  destruct (socket_ok rp); cbn [negb andb]; [|apply IH].
  destruct (reuse_ok rp); cbn [negb andb]; [|rewrite close_fresh by done; apply IH].
  rewrite update_fresh. cbn [mbind outcome_bind].
  destruct (inet6 rp && v6only_ok rp) eqn:Ev; rewrite ?update_fresh; cbn [mbind outcome_bind];
    (destruct (bind_ok rp); [rewrite update_fresh, Ev; done|rewrite close_fresh by done; apply IH]).
Qed.

(** The address that [getaddrinfo] gave and the loop chose. *)
Definition chosen (w : socket_world) : option address := addresses w ≫= List.find usable.

Definition setup_ok (w : socket_world) : bool :=
  bool_decide (is_Some (chosen w)) && getfl_ok w && setfl_ok w && listen_ok w.

Lemma setup_spec w t :
  let fd := next_fd (dom t) in
  setup_server_socket w t =
    match chosen w with
    | Some rp => if getfl_ok w && setfl_ok w && listen_ok w
                 then Ok (fd, <[fd := mk_sock true (inet6 rp && v6only_ok rp) true true true]> t) else Ok (-1, t)
    | None => Ok (-1, t)
    end.
Proof.
  cbn zeta. unfold setup_server_socket, chosen. destruct (addresses w) as [rps|]; cbn [mbind option_bind]; [|done].
  pose proof (bind_loop_spec rps (-1) t) as Hb. pose proof (next_fd_nonneg (dom t)) as Hn. pose proof (next_fd_closed t) as Hfd.
  destruct (List.find usable rps) as [rp|].
  - cbn zeta in Hb. rewrite Hb. cbn [mbind outcome_bind]. rewrite (proj2 (Z.eqb_neq _ _)) by lia. cbn [orb negb].
    destruct (getfl_ok w); cbn [negb andb]; [|by rewrite close_fresh].
    destruct (setfl_ok w); cbn [negb andb]; [|by rewrite close_fresh].
    rewrite update_fresh. cbn [mbind outcome_bind]. destruct (listen_ok w); cbn [negb]; [|by rewrite close_fresh].
    by rewrite update_fresh.
  - destruct Hb as [fd ->]. cbn. by rewrite orb_true_r.
Qed.

(** the listening socket. It is made from the first address on which creation, the
    address-reuse option and binding all succeed, and is then non-blocking and
    listening; on every other path the answer is -1 and every socket made on the way
    has been closed again, once. *)
Theorem setup_server_socket_correct w t :
  let fd := next_fd (dom t) in
  match chosen w with
  | Some rp =>
      if getfl_ok w && setfl_ok w && listen_ok w
      then setup_server_socket w t = Ok (fd, <[fd := mk_sock true (inet6 rp && v6only_ok rp) true true true]> t) /\
           0 <= fd /\ t !! fd = None
      else setup_server_socket w t = Ok (-1, t)
  | None => setup_server_socket w t = Ok (-1, t)
  end.
Proof.
  pose proof (setup_spec w t) as E. cbn zeta in *. destruct (chosen w); [|done].
  destruct (getfl_ok w && setfl_ok w && listen_ok w); [|done].
  split_and!; [done|apply next_fd_nonneg|apply next_fd_closed].
Qed.

End setup.

(** Descriptors numbered upwards. *)
Definition above (s : gset Z) : Z := foldr Z.max (-1) (elements s) + 1.

#[global] Instance above_descriptors : Descriptors := above.

Lemma foldr_max_ge (l : list Z) : -1 <= foldr Z.max (-1) l /\ forall x, x ∈ l -> x <= foldr Z.max (-1) l.
Proof.
  induction l as [|y l [IH1 IH2]]; cbn; [split; [lia|set_solver]|]. split; [lia|].
  intros x [->|Hx]%elem_of_cons; [lia|]. specialize (IH2 x Hx). lia.
Qed.

#[global] Instance above_laws : DescriptorLaws.
Proof.
  split; intros s; unfold next_fd, above_descriptors, above; destruct (foldr_max_ge (elements s)) as [H1 H2]; [|lia].
  intros Hin. apply elem_of_elements in Hin. specialize (H2 _ Hin). lia.
Qed.

Lemma setup_server_socket_correct_witness :
  let v6 := mk_address true true true true false in let v4 := mk_address false true true false true in
  setup_server_socket (mk_socket_world (Some [v6; v4]) true true true) ∅ = Ok (0, {[0 := mk_sock true false true true true]}).
Proof.
  exact (proj1 (setup_server_socket_correct
    (mk_socket_world (Some [mk_address true true true true false; mk_address false true true false true]) true true true) ∅)).
Defined.

(** * The pool's resources *)

(** The static [thread_pool] before the first call. *)
Definition start : pool_state := mk_pool_state ∅ false false 0 false.

Definition base : gset resource :=
  {[Threads; RateLimits; QueueMutex; ConnMutex; RateLimitMutex; QueueNotEmpty; QueueNotFull]}.

(** Workers [lo] to [hi - 1]. *)
Definition crew (lo hi : Z) : gset resource := list_to_set (Worker <$> seqZ lo (hi - lo)).

Lemma elem_of_crew r lo hi : r ∈ crew lo hi <-> exists j, r = Worker j /\ lo <= j < hi.
Proof.
  unfold crew. rewrite elem_of_list_to_set, list_elem_of_fmap. setoid_rewrite elem_of_seqZ. split.
  - intros (j & -> & Hj). exists j. split; [done|lia].
  - intros (j & -> & Hj). exists j. split; [done|lia].
Qed.

Lemma crew_base r lo hi : r ∈ crew lo hi -> r ∉ base.
Proof. intros (j & -> & _)%elem_of_crew. unfold base. set_solver. Qed.

Lemma crew_snoc lo hi : lo <= hi -> {[Worker hi]} ∪ crew lo hi = crew lo (hi + 1).
Proof.
  intros H. apply set_eq. intros r. rewrite elem_of_union, elem_of_singleton, !elem_of_crew. split.
  - intros [->|(j & -> & Hj)]; [exists hi|exists j]; (split; [done|lia]).
  - intros (j & -> & Hj). destruct (decide (j = hi)) as [->|]; [by left|]. right. exists j. split; [done|lia].
Qed.

Lemma crew_tail lo hi : lo < hi -> (base ∪ crew lo hi) ∖ {[Worker lo]} = base ∪ crew (lo + 1) hi.
Proof.
  intros H. apply set_eq. intros r. rewrite elem_of_difference, !elem_of_union, elem_of_singleton, !elem_of_crew. split.
  - intros [[Hb|(j & -> & Hj)] Hne]; [by left|]. right. exists j. split; [done|].
    assert (j <> lo) by (intros ->; done). lia.
  - intros [Hb|(j & -> & Hj)].
    + split; [by left|]. intros ->. unfold base in Hb. set_solver.
    + split; [right; exists j; split; [done|lia]|]. intros [= ->]. lia.
Qed.

Lemma crew_empty lo hi : hi <= lo -> crew lo hi = ∅.
Proof. intros H. apply set_eq. intros r. rewrite elem_of_crew. split; [intros (j & _ & Hj); lia|set_solver]. Qed.

Lemma crew_nat count : crew 0 (0 + Z.of_nat (Z.to_nat count)) = crew 0 count.
Proof. destruct (Z.le_gt_cases 0 count); [f_equal; lia|]. by rewrite !crew_empty by lia. Qed.

Lemma forallb_find {A} (f : A -> bool) l :
  forallb f l = match List.find (fun x => negb (f x)) l with None => true | Some _ => false end.
Proof. induction l as [|x l IH]; cbn; [done|]. by destruct (f x). Qed.

(** Creating workers: all of them, or those before the first failure. *)
Lemma create_loop_spec ok n i s :
  0 <= i -> held s = base ∪ crew 0 i ->
  let failed := List.find (fun j => negb (ok j)) (seqZ i (Z.of_nat n)) in
  create_loop ok n i s = Ok (failed, with_held s (base ∪ crew 0 (default (i + Z.of_nat n) failed))) /\
  match failed with None => True | Some j => i <= j < i + Z.of_nat n end.
Proof.
  cbn zeta. revert i s. induction n as [|n IH]; intros i s Hi Hs; cbn [create_loop].
  - change (seqZ i (Z.of_nat 0)) with (@nil Z). cbn [List.find from_option id]. replace (i + Z.of_nat 0) with i by lia.
    rewrite <- Hs. split; [by destruct s|done].
  - rewrite seqZ_cons by lia. cbn [List.find]. replace (Z.pred (Z.of_nat (S n))) with (Z.of_nat n) by lia.
    destruct (ok i) eqn:E; cbn [negb].
    + unfold acquire. rewrite decide_False.
      2: { rewrite Hs, elem_of_union, elem_of_crew. intros [Hb|(j & [= ->] & Hj)]; [unfold base in Hb; set_solver|lia]. }
      cbn [mbind outcome_bind]. destruct (IH (i + 1) (with_held s ({[Worker i]} ∪ held s))) as (-> & Hf); [lia| |].
      { cbn. rewrite Hs. rewrite <- (crew_snoc 0 i) by lia. set_solver. }
      replace (i + 1 + Z.of_nat n) with (i + Z.of_nat (S n)) in * by lia. rewrite <- Z.add_1_r in *.
      split; [done|]. destruct (List.find _ _); [lia|done].
    + cbn [from_option id]. rewrite <- Hs. split; [by destruct s|lia].
Qed.

(** Joining them. *)
Lemma join_loop_spec ends n i s :
  stop s = true -> held s = base ∪ crew i (i + Z.of_nat n) ->
  for_range n i (join ends) s = if forallb ends (seqZ i (Z.of_nat n)) then Ok (with_held s base) else Hang.
Proof.
  revert i s. induction n as [|n IH]; intros i s Hst Hs; cbn [for_range].
  - rewrite crew_empty in Hs by lia. rewrite union_empty_r_L in Hs. cbn. rewrite <- Hs. by destruct s.
  - rewrite seqZ_cons by lia. cbn [forallb]. replace (Z.pred (Z.of_nat (S n))) with (Z.of_nat n) by lia.
    change (join ends i s) with (if stop s && ends i then release (Worker i) s else Hang). rewrite Hst. cbn [andb]. destruct (ends i); [|done]. cbn [andb]. unfold release. rewrite decide_True.
    2: { rewrite Hs, elem_of_union, elem_of_crew. right. exists i. split; [done|lia]. }
    cbn [mbind outcome_bind]. rewrite <- Z.add_1_r. rewrite IH; [done|done|]. cbn. rewrite Hs, crew_tail by lia. do 2 f_equal. lia.
Qed.

(** Every call before the threads succeeds; so does every call; the only path that
    keeps a resource after a failure. *)
Definition inits_ok (w : pool_world) : bool :=
  malloc_threads w && malloc_rates w && init_queue w && init_conn w && init_rate w && init_not_empty w && init_not_full w.
Definition pool_ok (w : pool_world) (count : Z) : bool := inits_ok w && forallb (create_ok w) (seqZ 0 count).
Definition pool_leaks (w : pool_world) : bool :=
  malloc_threads w && malloc_rates w && init_queue w && init_conn w && init_rate w && init_not_empty w &&
  negb (init_not_full w).

(** The workers that get created, and whether all of those end. *)
Definition created (w : pool_world) (count : Z) : Z :=
  default count (List.find (fun i => negb (create_ok w i)) (seqZ 0 count)).
Definition crew_ends (w : pool_world) (count : Z) : bool := forallb (worker_ends w) (seqZ 0 (created w count)).

Lemma acquired_base w count :
  inits_ok w = true ->
  initialize_thread_pool w count start =
    ('(failed, s) ← create_loop (create_ok w) (Z.to_nat count) 0 (mk_pool_state base true true count false);
     match failed with
     | None => Ok (0, s)
     | Some i =>
         s ← for_range (Z.to_nat i) 0 (join (worker_ends w)) (mk_pool_state (held s) (threads_ptr s) (rates_ptr s) i true);
         cleanup true true true true s
     end).
Proof.
  intros H. unfold inits_ok in H. repeat match goal with H : _ && _ = true |- _ => apply andb_true_iff in H as [H ?] end.
  unfold initialize_thread_pool. rewrite H, H0, H1, H2, H3, H4, H5. reflexivity.
Qed.

Lemma cleanup_base i : cleanup true true true true (mk_pool_state base true true i true) = Ok (-1, mk_pool_state ∅ false false i true).
Proof. reflexivity. Qed.

Lemma seqZ_nat count : seqZ 0 (Z.of_nat (Z.to_nat count)) = seqZ 0 count.
Proof. unfold seqZ. by rewrite Nat2Z.id. Qed.

Lemma inits_leaks w : inits_ok w = true -> pool_leaks w = false.
Proof. intros E. unfold pool_leaks. apply andb_true_iff in E as [_ ->]. by rewrite andb_false_r. Qed.

Lemma initialize_spec w count :
  if inits_ok w && negb (forallb (create_ok w) (seqZ 0 count)) && negb (crew_ends w count)
  then initialize_thread_pool w count start = Hang
  else exists s, initialize_thread_pool w count start = Ok (if pool_ok w count then 0 else -1, s) /\
    if pool_ok w count then s = mk_pool_state (base ∪ crew 0 count) true true count false
    else threads_ptr s = false /\ rates_ptr s = false /\
         held s = if pool_leaks w then {[QueueNotEmpty]} else ∅.
Proof.
  unfold pool_ok. destruct (inits_ok w) eqn:Ein.
  - rewrite (acquired_base w count Ein), (inits_leaks w Ein). cbn [andb].
    destruct (create_loop_spec (create_ok w) (Z.to_nat count) 0 (mk_pool_state base true true count false)) as (-> & Hf); [lia| |].
    { cbn [held]. by rewrite crew_empty, union_empty_r_L by lia. }
    rewrite seqZ_nat in *. unfold crew_ends, created. rewrite forallb_find. cbn [mbind outcome_bind].
    destruct (List.find _ _) as [j|]; cbn [negb andb from_option id].
    + cbn [with_held held threads_ptr rates_ptr].
      rewrite join_loop_spec; [|done|cbn [held]; do 2 f_equal; lia]. rewrite seqZ_nat.
      destruct (forallb (worker_ends w) (seqZ 0 j)); cbn [negb]; [|done].
      cbn [mbind outcome_bind with_held threads_ptr rates_ptr thread_count stop].
      eexists. split; [exact (cleanup_base j)|]. done.
    + rewrite crew_nat. eexists. split; [reflexivity|]. done.
  - cbn [andb]. unfold inits_ok in Ein. unfold pool_leaks, initialize_thread_pool.
    destruct (malloc_threads w); [|eexists; split; [reflexivity|]; done].
    destruct (malloc_rates w); [|eexists; split; [reflexivity|]; done].
    destruct (init_queue w); [|eexists; split; [reflexivity|]; done].
    destruct (init_conn w); [|eexists; split; [reflexivity|]; done].
    destruct (init_rate w); [|eexists; split; [reflexivity|]; done].
    destruct (init_not_empty w); [|eexists; split; [reflexivity|]; done].
    destruct (init_not_full w); [done|eexists; split; [reflexivity|]; done].
Qed.

(** the pool's error paths. [initialize_thread_pool] answers 0 exactly when every
    call succeeded, and then holds its memory, mutexes, condition variables and one
    thread per worker; otherwise it answers -1, joins the workers it had created,
    clears its pointers and gives back everything exactly once, with one exception:
    when only the second condition variable fails, the first stays initialised. It
    hangs exactly when a worker could not be created and one that was created does
    not end. *)
Theorem initialize_thread_pool_correct w count :
  if inits_ok w && negb (forallb (create_ok w) (seqZ 0 count)) && negb (crew_ends w count)
  then initialize_thread_pool w count start = Hang
  else exists s, initialize_thread_pool w count start = Ok (if pool_ok w count then 0 else -1, s) /\
    if pool_ok w count then s = mk_pool_state (base ∪ crew 0 count) true true count false
    else threads_ptr s = false /\ rates_ptr s = false /\
         held s = if pool_leaks w then {[QueueNotEmpty]} else ∅.
Proof. apply initialize_spec. Qed.

Lemma cleanup_spec w count :
  cleanup_thread_pool w (mk_pool_state (base ∪ crew 0 count) true true count false) =
    if forallb (worker_ends w) (seqZ 0 count) then Ok (mk_pool_state ∅ false false count true) else Hang.
Proof.
  unfold cleanup_thread_pool. cbn [held threads_ptr rates_ptr thread_count].
  rewrite join_loop_spec; [|done|cbn [held]; by rewrite crew_nat]. rewrite seqZ_nat.
  by destruct (forallb (worker_ends w) (seqZ 0 count)).
Qed.

Lemma pool_ok_facts w count : pool_ok w count = true -> inits_ok w = true /\ created w count = count.
Proof.
  unfold pool_ok, created. rewrite andb_true_iff, forallb_find. intros [-> H]. by destruct (List.find _ _).
Qed.

(** C35: the server gives everything back, or hangs in a join. When every worker that is
    created ends once [shutdown] is set, whatever calls fail on the way up, [main] ends
    with the descriptor table it started with; the status is 0 exactly when everything
    could be set up, and nothing of the pool stays behind except after the failure of
    the second condition variable. When the threads are reached and some created worker
    does not end, [main] hangs. *)
Theorem server_main_releases `{!Descriptors, !DescriptorLaws} c signals_ok sw pw t :
  let up := signals_ok && setup_ok sw in
  if up && inits_ok pw && negb (crew_ends pw (thread_pool_size c))
  then server_main c signals_ok sw pw t start = Hang
  else exists s, server_main c signals_ok sw pw t start = Ok (if up && pool_ok pw (thread_pool_size c) then 0 else 1, t, s) /\
    threads_ptr s = false /\ rates_ptr s = false /\
    held s = if up && pool_leaks pw then {[QueueNotEmpty]} else ∅.
Proof.
  cbn zeta. unfold server_main, setup_ok. destruct signals_ok; cbn [negb andb]; [|by exists start].
  rewrite setup_spec. pose proof (next_fd_nonneg (dom t)) as Hn. pose proof (next_fd_closed t) as Hfd.
  destruct (chosen sw) as [rp|]; [|by exists start].
  rewrite (bool_decide_true (is_Some (Some rp))) by eauto. cbn [andb].
  destruct (getfl_ok sw && setfl_ok sw && listen_ok sw); [|by exists start].
  cbn [mbind outcome_bind andb]. rewrite (proj2 (Z.ltb_ge _ _)) by lia.
  pose proof (initialize_spec pw (thread_pool_size c)) as Hi. destruct (pool_ok pw (thread_pool_size c)) eqn:Eok.
  - destruct (pool_ok_facts _ _ Eok) as [Ein Ecr]. unfold pool_ok in Eok. rewrite Ein in *. cbn [andb] in Eok. rewrite Eok in Hi.
    cbn [negb andb] in *. destruct Hi as (s & -> & ->). cbn [mbind outcome_bind Z.eqb negb].
    rewrite (proj2 (Z.leb_le _ _)) by lia. rewrite close_fresh by done. cbn [mbind outcome_bind]. rewrite cleanup_spec.
    unfold crew_ends. rewrite Ecr, (inits_leaks pw Ein). destruct (forallb (worker_ends pw) _); [|done].
    cbn. eexists. split; [reflexivity|]. done.
  - unfold pool_ok in Eok. destruct (inits_ok pw) eqn:Ein; cbn [andb] in *.
    + rewrite Eok in Hi. cbn [negb andb] in Hi. destruct (crew_ends pw (thread_pool_size c)); cbn [negb] in *; [|by rewrite Hi].
      destruct Hi as (s & -> & Hs). cbn [mbind outcome_bind Z.eqb negb]. rewrite close_fresh by done. by eexists.
    + destruct Hi as (s & -> & Hs). cbn [mbind outcome_bind Z.eqb negb]. rewrite close_fresh by done. by eexists.
Qed.

(** A server whose first address cannot be bound and whose rate-limit mutex cannot be
    initialised, and one that runs and stops. *)
Lemma server_main_releases_witness :
  (exists s, server_main init_config true
      (mk_socket_world (Some [mk_address true true true true false; mk_address false true true false true]) true true true)
      (mk_pool_world true true true true false true true (fun _ => true) (fun _ => true)) ∅ start = Ok (1, ∅, s) /\ held s = ∅) /\
  (exists s, server_main init_config true
      (mk_socket_world (Some [mk_address false true true false true]) true true true)
      (mk_pool_world true true true true true true true (fun _ => true) (fun _ => true)) ∅ start = Ok (0, ∅, s) /\ held s = ∅).
Proof.
  split.
  - destruct (server_main_releases init_config true
      (mk_socket_world (Some [mk_address true true true true false; mk_address false true true false true]) true true true)
      (mk_pool_world true true true true false true true (fun _ => true) (fun _ => true)) ∅) as (s & H1 & _ & _ & H2).
    exists s. split; [exact H1|exact H2].
  - destruct (server_main_releases init_config true
      (mk_socket_world (Some [mk_address false true true false true]) true true true)
      (mk_pool_world true true true true true true true (fun _ => true) (fun _ => true)) ∅) as (s & H1 & _ & _ & H2).
    exists s. split; [exact H1|exact H2].
Defined.

End Setup.
