(* ===== verification/NetConfig.v ===== *)
(** * Configuration, log and signals of the network server (src/net/network.c)

    The options, the log file that they open, the messages written to it, what [main]
    does with both at the end, and the signal handler. What [getopt_long], [strtol],
    [strdup], [fopen] and [socket] answer is given; strings and files are tracked, so
    that a double release or a release of nothing is undefined. *)
From Stdlib Require Import ZArith Lia.
From stdpp Require Import strings numbers gmap base.
From stdpp Require Import list.
From S2P Require Import Prelude NetPool NetSetup.
Open Scope Z_scope.

Module NetConfig.
Import Setup.

(** Where messages go: a stream that [fopen] returned has a number. *)
Inductive stream := Stderr | Opened (n : nat) | NullStream.

#[export] Instance stream_eq_dec : EqDecision stream.
Proof. solve_decision. Defined.

(** The configuration with the strings and the files that are live. *)
Record config := mk_config_state {
  settings : server_config;
  use_ipv6 : bool;
  log_file : option (nat * string);   (* the copy and its text *)
  log_fp : stream;
  strings : gset nat;
  files : gset nat
}.

Definition init_config : config := mk_config_state NetPool.init_config false None Stderr ∅ ∅.

Definition free_string (p : nat) (c : config) : outcome config :=
  if decide (p ∈ strings c) then
    Ok (mk_config_state (settings c) (use_ipv6 c) (log_file c) (log_fp c) (strings c ∖ {[p]}) (files c))
  else Undef "free".

(** What [getopt_long] returned: [-p] with the number [strtol] read, [-f] with the
    answer of [strdup], [-h], or any other character. *)
Inductive opt := OptPort (p : Z) | OptLogFile (name : string) (dup_ok : bool) | OptHelp | OptOther.

Definition parse_option (o : opt) (c : config) : outcome config :=
  match o with
  | OptPort p =>
      Ok (mk_config_state (parse_port (settings c) p) (use_ipv6 c) (log_file c) (log_fp c) (strings c) (files c))
  | OptLogFile name dup_ok =>
      c ← match log_file c with Some (p, _) => free_string p c | None => Ok c end;
      if dup_ok then
        let p := fresh (strings c) in
        Ok (mk_config_state (settings c) (use_ipv6 c) (Some (p, name)) (log_fp c) ({[p]} ∪ strings c) (files c))
      else Ok (mk_config_state (settings c) (use_ipv6 c) None Stderr (strings c) (files c))
  | OptHelp => Panic "exit 0"
  | OptOther => Panic "exit 1"
  end.

Fixpoint parse_loop (os : list opt) (c : config) : outcome config :=
  match os with
  | [] => Ok c
  | o :: os => c ← parse_option o c; parse_loop os c
  end.

(** The loop, then the log file. *)
Definition parse_command_line (os : list opt) (fopen_ok : bool) (c : config) : outcome config :=
  c ← parse_loop os c;
  match log_file c with
  | Some _ =>
      if decide (log_fp c = Stderr) then
        if fopen_ok then
          let n := fresh (files c) in
          Ok (mk_config_state (settings c) (use_ipv6 c) (log_file c) (Opened n) (strings c) ({[n]} ∪ files c))
        else Ok c
      else Ok c
  | None => Ok c
  end.

(** ** Messages *)

Definition level_str (level : Z) : outcome string :=
  arr_get ["DEBUG"; "INFO"; "WARNING"; "ERROR"; "FATAL"]%string level.

(** What has been written, line by line; [now] is the time as [strftime] prints it. *)
Definition log_message (c : config) (level : Z) (now message : string) (out : list (stream * string)) :
  outcome (list (stream * string)) :=
  if level <? log_level (settings c) then Ok out
  else
    name ← level_str level;
    match log_fp c with
    | NullStream => Undef "fprintf"
    | fp => Ok (out ++ [(fp, ("[" +:+ now +:+ "] [" +:+ name +:+ "] " +:+ message)%string)])
    end.

(** ** The end of [main] *)

Definition close_log (c : config) : outcome config :=
  c ← match log_fp c with
      | Opened n =>
          if decide (n ∈ files c) then
            Ok (mk_config_state (settings c) (use_ipv6 c) (log_file c) NullStream (strings c) (files c ∖ {[n]}))
          else Undef "fclose"
      | _ => Ok c
      end;
  match log_file c with
  | Some (p, _) =>
      c ← free_string p c;
      Ok (mk_config_state (settings c) (use_ipv6 c) None (log_fp c) (strings c) (files c))
  | None => Ok c
  end.

(** ** The signal handler *)

Definition SIGINT : Z := 2.
Definition SIGTERM : Z := 15.

(** The flag and the descriptors after a signal; the connection to the own port only
    wakes [accept]. *)
Definition signal_handler `{!Descriptors} (sig server_fd : Z) (socket_ok : bool) (server_running : bool) (t : fds) :
  outcome (bool * fds) :=
  if (sig =? SIGINT) || (sig =? SIGTERM) then
    if (0 <=? server_fd) && socket_ok then
      let sock := next_fd (dom t) in
      t ← close_fd sock (<[sock := mk_sock false false false false false]> t);
      Ok (false, t)
    else Ok (false, t)
  else Ok (server_running, t).

(** * Theorems *)

Definition the_string (f : option (nat * string)) : gset nat :=
  match f with Some (p, _) => {[p]} | None => ∅ end.

(** While options are read: the only live string is the name of the log file, no file is
    open, and the port is a port. *)
Record parsing (c : config) : Prop := {
  pa_strings : strings c = the_string (log_file c);
  pa_files : files c = ∅;
  pa_fp : log_fp c = Stderr;
  pa_port : 1 <= port (settings c) <= 65535;
  pa_defaults : settings c = mk_config (port (settings c)) 10 4096 20 100 1000 60 60 1
}.

Lemma free_name c : parsing c ->
  match log_file c with Some (p, _) => free_string p c | None => Ok c end =
  Ok (mk_config_state (settings c) (use_ipv6 c) (log_file c) (log_fp c) ∅ (files c)).
Proof.
  intros [Hs _ _ _ _]. destruct (log_file c) as [[p n]|] eqn:E; cbn in Hs.
  - unfold free_string. rewrite Hs, decide_True by set_solver. by rewrite E, difference_diag_L.
  - destruct c; cbn in *. by subst.
Qed.

Lemma parse_option_spec o c : parsing c ->
  (exists c', parse_option o c = Ok c' /\ parsing c') \/ parse_option o c = Panic "exit 0" \/ parse_option o c = Panic "exit 1".
Proof.
  intros HP. pose proof HP as [Hs Hf Hp Hport Hdef]. destruct o as [p|name dup_ok| |]; cbn [parse_option]; [left|left|auto..].
  - eexists. split; [done|]. constructor; try done; cbn; [|by rewrite Hdef].
    destruct ((p <=? 0) || (65535 <? p)) eqn:E; lia.
  - rewrite (free_name c HP). cbn [mbind outcome_bind]. destruct dup_ok.
    + eexists. split; [done|]. constructor; cbn; try done.
    + eexists. split; [done|]. by constructor.
Qed.

Lemma options_spec os c : parsing c ->
  (exists c', parse_loop os c = Ok c' /\ parsing c') \/ parse_loop os c = Panic "exit 0" \/ parse_loop os c = Panic "exit 1".
Proof.
  revert c. induction os as [|o os IH]; intros c HP; cbn [parse_loop]; [by eauto|].
  destruct (parse_option_spec o c HP) as [(c' & -> & HP')|[-> | ->]]; cbn [mbind outcome_bind]; auto.
Qed.

(** The log from start to end. Whatever the options and the answers of the system, reading
    the options ends in a configuration or in [exit]; then the port is between 1 and
    65535 and every other setting its default, a message of any level can be logged, and the end of [main] closes the log
    file and frees its name, so that no file and no string is left. *)
Theorem config_lifecycle (os : list opt) (fopen_ok : bool) :
  (exists c, parse_command_line os fopen_ok init_config = Ok c /\ 1 <= port (settings c) <= 65535 /\
     settings c = mk_config (port (settings c)) 10 4096 20 100 1000 60 60 1 /\
     (forall level now message out, 0 <= level < 5 -> exists out', log_message c level now message out = Ok out') /\
     exists c', close_log c = Ok c' /\ strings c' = ∅ /\ files c' = ∅ /\ log_file c' = None) \/
  parse_command_line os fopen_ok init_config = Panic "exit 0" \/
  parse_command_line os fopen_ok init_config = Panic "exit 1".
Proof.
  assert (parsing init_config) as H0 by (by constructor). unfold parse_command_line.
  destruct (options_spec os _ H0) as [(c & -> & HP)|[-> | ->]]; cbn [mbind outcome_bind]; [left|auto..].
  pose proof HP as [Hs Hf Hp Hport Hdef].
  assert (forall c', settings c' = settings c -> log_fp c' <> NullStream -> forall level now message out, 0 <= level < 5 ->
    exists out', log_message c' level now message out = Ok out') as Hlog.
  { intros c' _ Hfp level now message out Hl. unfold log_message. destruct (level <? _); [by eauto|].
    assert (level = 0 \/ level = 1 \/ level = 2 \/ level = 3 \/ level = 4) as Hc by lia.
    destruct (log_fp c'); [| |done]; destruct Hc as [->|[->|[->|[->| ->]]]]; cbn; by eauto. }
  assert (exists c', close_log c = Ok c' /\ strings c' = ∅ /\ files c' = ∅ /\ log_file c' = None) as Hclose.
  { unfold close_log. rewrite Hp. cbn [mbind outcome_bind]. pose proof (free_name c HP) as Hfree.
    destruct (log_file c) as [[p n]|] eqn:E; [rewrite Hfree; cbn; by eauto|]. exists c. by rewrite Hs. }
  assert (log_fp c <> NullStream) as Hnn by (by rewrite Hp).
  destruct (log_file c) as [[p name]|] eqn:E; [|exists c; auto 10].
  rewrite Hp, decide_True by done. destruct fopen_ok; [|exists c; auto 10].
  eexists. split; [done|]. split; [done|]. split; [done|]. split; [by apply Hlog|].
  unfold close_log. cbn [log_fp files mbind outcome_bind log_file]. rewrite decide_True by set_solver.
  cbn [mbind outcome_bind log_file]. unfold free_string. cbn [strings]. rewrite decide_True by (rewrite Hs; set_solver).
  cbn [mbind outcome_bind]. eexists. split; [done|]. cbn. rewrite Hf, Hs. split_and!; [set_solver|set_solver|done].
Qed.

(** The usage message lists options for the backlog, the buffer, the threads, the queue,
    the limits, IPv6 and the log level; the [switch] has no case for them, and the first
    one given ends the server. *)
Lemma other_options_exit os c fopen_ok : parse_command_line (OptOther :: os) fopen_ok c = Panic "exit 1".
Proof. done. Qed.

(** A message below the level is dropped, one at or above it is written with its level. *)
Example log_levels :
  log_message init_config 0 "t" "x" [] = Ok [] /\
  log_message init_config 3 "2024-01-01 00:00:00" "bind failed" [] =
    Ok [(Stderr, "[2024-01-01 00:00:00] [ERROR] bind failed")%string].
Proof. split; reflexivity. Qed.

(** The handler stops the server on the two signals, leaves no descriptor open, and
    ignores the others. *)
Lemma signal_handler_spec `{!Descriptors, !DescriptorLaws} sig server_fd socket_ok running t :
  signal_handler sig server_fd socket_ok running t =
  Ok (negb ((sig =? SIGINT) || (sig =? SIGTERM)) && running, t).
Proof.
  unfold signal_handler. destruct ((sig =? SIGINT) || (sig =? SIGTERM)); [|done]. cbn [negb andb].
  destruct ((0 <=? server_fd) && socket_ok); [|done]. rewrite close_fresh; [done|].
  apply next_fd_closed.
Qed.

End NetConfig.
