(* ===== verification/Scheduler.v ===== *)
(** Task manager of [src/kernel/scheduler.c]: the table of task control blocks,
    thread creation and completion, the simulated priorities, the reaper, and
    the interleavings of their critical sections. *)
From Stdlib Require Import ZArith Lia.
From stdpp Require Import strings numbers gmap base.
From stdpp Require Import list.
From S2P Require Import Prelude.
Open Scope Z_scope.

Module Sched.

Definition MAX_TASKS : nat := 64.
Definition MIN_PRIORITY : Z := 1.
Definition MAX_PRIORITY : Z := 99.
Definition TASK_NAME_LEN : nat := 32.
Definition INT_MAX : Z := 2 ^ 31 - 1.
Definition INT_MIN : Z := - 2 ^ 31.

Inductive TaskState : Type := TASK_STATE_INVALID | TASK_STATE_RUNNING | TASK_STATE_DONE.

#[export] Instance TaskState_eq_dec : EqDecision TaskState.
Proof. solve_decision. Defined.

Record TCB := mk_tcb {
  tid : Z; pthread_handle : Z; state : TaskState; priority : Z; name : list Z
}.

#[export] Instance TCB_eq_dec : EqDecision TCB.
Proof. solve_decision. Defined.

Record ThreadStartArgs := mk_args {
  sa_tid : Z; user_entry : Z; user_arg : Z; sa_name : list Z
}.

Record Scheduler := mk_sched {
  task_list : list TCB; task_count : Z; terminate_manager : bool; next_tid : Z
}.

Definition set_state (t : TCB) (s : TaskState) : TCB :=
  mk_tcb (tid t) (pthread_handle t) s (priority t) (name t).
Definition set_prio (t : TCB) (p : Z) : TCB :=
  mk_tcb (tid t) (pthread_handle t) (state t) p (name t).

(** [strncpy(dst, name, TASK_NAME_LEN - 1); dst[TASK_NAME_LEN - 1] = 0] for a
    [name] given without its terminator: copy, pad with zeros, terminate. *)
Definition copy_name (nm : list Z) : list Z :=
  take (TASK_NAME_LEN - 1) (nm ++ replicate (TASK_NAME_LEN - 1) 0) ++ [0].

(** The loops "find the first slot with ..., change it and break": the changed
    table and [found]. *)
Fixpoint update_first (p : TCB -> bool) (f : TCB -> TCB) (l : list TCB) : list TCB * bool :=
  match l with
  | [] => ([], false)
  | t :: l' =>
      if p t then (f t :: l', true)
      else let '(l'', found) := update_first p f l' in (t :: l'', found)
  end.

(** Second half of [thread_runner], run when the user function has returned:
    the flag is [false] when the "could not find its TCB" error is logged. *)
Definition thread_finished (s : Scheduler) (t : Z) : Scheduler * bool :=
  let '(l, found) :=
    update_first (fun c => bool_decide (state c <> TASK_STATE_INVALID) && (tid c =? t))
      (fun c => set_state c TASK_STATE_DONE) (task_list s) in
  (mk_sched l (task_count s) (terminate_manager s) (next_tid s), found).

(** Search of [kernel_create_thread] for a free slot, from slot [i]; -1 when
    there is none. *)
Fixpoint free_slot (l : list TCB) (i : Z) : Z :=
  match l with
  | [] => -1
  | t :: l' => if bool_decide (state t = TASK_STATE_INVALID) then i else free_slot l' (i + 1)
  end.

(** What a call of [kernel_create_thread] leaves behind: the scheduler, the
    thread started if any, the returned id, and the change in the number of
    [ThreadStartArgs] blocks that are allocated. *)
Record created := mk_created {
  cr_sched : Scheduler; cr_started : option ThreadStartArgs; cr_tid : Z; cr_allocs : Z
}.

(** [mem] says whether [kmalloc] succeeds; [pth] is the handle that
    [pthread_create] stores, or [None] when it fails. *)
Definition kernel_create_thread (s : Scheduler) (nm : list Z) (prio entry arg : Z)
    (mem : bool) (pth : option Z) : outcome created :=
  if (prio <? MIN_PRIORITY) || (MAX_PRIORITY <? prio) then Ok (mk_created s None 0 0)
  else if negb mem then Ok (mk_created s None 0 0)
  else
    let slot := free_slot (task_list s) 0 in
    if slot =? -1 then Ok (mk_created s None 0 (1 - 1))
    else
      let t := next_tid s in
      let next := u32 (next_tid s + 1) in
      tcb ← arr_get (task_list s) slot ;
      let tcb := mk_tcb t (pthread_handle tcb) TASK_STATE_RUNNING prio (copy_name nm) in
      let args := mk_args t entry arg (copy_name nm) in
      match pth with
      | None =>
          l ← arr_set (task_list s) slot (set_state tcb TASK_STATE_INVALID) ;
          Ok (mk_created (mk_sched l (task_count s) (terminate_manager s) next) None 0 (1 - 1))
      | Some h =>
          l ← arr_set (task_list s) slot (mk_tcb t h TASK_STATE_RUNNING prio (copy_name nm)) ;
          Ok (mk_created (mk_sched l (u64 (task_count s + 1)) (terminate_manager s) next)
                (Some args) t (if t =? 0 then 1 - 1 else 1))
      end.

Definition kernel_set_priority (s : Scheduler) (t p : Z) : Scheduler :=
  let '(l, _) :=
    update_first (fun c => bool_decide (state c = TASK_STATE_RUNNING) && (tid c =? t))
      (fun c => set_prio c p) (task_list s) in
  mk_sched l (task_count s) (terminate_manager s) (next_tid s).

(** Compaction loop of [reap_tasks], in place: [n] slots are still to be read,
    the next one at [read_idx]. *)
Fixpoint reap_loop (n read_idx write_idx reaped : nat) (l : list TCB)
    : outcome (list TCB * nat * nat) :=
  match n with
  | O => Ok (l, write_idx, reaped)
  | S n' =>
      t ← arr_get l (Z.of_nat read_idx) ;
      match state t with
      | TASK_STATE_RUNNING =>
          l' ← (if negb (read_idx =? write_idx)%nat then arr_set l (Z.of_nat write_idx) t else Ok l) ;
          reap_loop n' (S read_idx) (S write_idx) reaped l'
      | TASK_STATE_DONE => reap_loop n' (S read_idx) write_idx (S reaped) l
      | TASK_STATE_INVALID => reap_loop n' (S read_idx) write_idx reaped l
      end
  end.

(** The slots from [write_idx] on are marked free; their other fields stay. *)
Definition clear_slot (t : TCB) : TCB :=
  mk_tcb 0 (pthread_handle t) TASK_STATE_INVALID (priority t) (name t).
Definition clear_from (w : nat) (l : list TCB) : list TCB := take w l ++ (clear_slot <$> drop w l).

Definition reap_tasks (s : Scheduler) : outcome Scheduler :=
  '(l, write_idx, reaped) ← reap_loop MAX_TASKS 0 0 0 (task_list s) ;
  Ok (mk_sched (clear_from write_idx l) (u64 (task_count s - Z.of_nat reaped))
        (terminate_manager s) (next_tid s)).

(** Priority update of one slot; [r] is what [rand()] returns there. Signed
    overflow of the sum is undefined. *)
Definition drift (r : Z) (t : TCB) : outcome TCB :=
  if bool_decide (state t <> TASK_STATE_RUNNING) then Ok t
  else
    let new_prio := priority t + (r mod 3 - 1) in
    if (new_prio <? INT_MIN) || (INT_MAX <? new_prio) then Undef "signed overflow"
    else
      let new_prio := if new_prio <? MIN_PRIORITY then MIN_PRIORITY else new_prio in
      let new_prio := if MAX_PRIORITY <? new_prio then MAX_PRIORITY else new_prio in
      Ok (if negb (new_prio =? priority t) then set_prio t new_prio else t).

Fixpoint drift_loop (rand : nat -> Z) (i : nat) (l : list TCB) : outcome (list TCB) :=
  match l with
  | [] => Ok []
  | t :: l' => t' ← drift (rand i) t ; l'' ← drift_loop rand (S i) l' ; Ok (t' :: l'')
  end.

(** One pass of [manager_thread_entry] under the lock. *)
Definition manager_pass (rand : nat -> Z) (s : Scheduler) : outcome Scheduler :=
  l ← drift_loop rand 0 (task_list s) ;
  reap_tasks (mk_sched l (task_count s) (terminate_manager s) (next_tid s)).

(** [initialize_scheduler] on a table whose slots hold anything. *)
Definition initialize_scheduler (slots : list TCB) : Scheduler :=
  mk_sched (clear_slot <$> slots) 0 false 1.

(** ** The running system: scheduler, threads that have started and have not yet
    marked themselves done, and the number of allocated argument blocks. *)
Record system := mk_system {
  sys_sched : Scheduler; sys_threads : list ThreadStartArgs; sys_args : Z
}.

(** One critical section of some thread. [P] bounds the priorities that callers
    pass to [kernel_set_priority]. The flag counts calls of
    [kernel_create_thread]. The manager tests [terminate_manager] before it
    sleeps, so a pass may still follow the request to stop. A pass that overflows a
    priority is undefined and not a step; [scheduler_priorities] shows that there is
    none when callers pass legal priorities. *)
Inductive sched_step (P : Z -> Prop) : bool -> system -> system -> Prop :=
| step_create s ths n nm prio entry arg mem pth r :
    kernel_create_thread s nm prio entry arg mem pth = Ok r ->
    sched_step P true (mk_system s ths n)
      (mk_system (cr_sched r) (ths ++ option_list (cr_started r)) (n + cr_allocs r))
| step_finish s ths1 a ths2 n :
    sched_step P false (mk_system s (ths1 ++ a :: ths2) n)
      (mk_system (thread_finished s (sa_tid a)).1 (ths1 ++ ths2) (n - 1))
| step_priority s ths n t p :
    P p ->
    sched_step P false (mk_system s ths n) (mk_system (kernel_set_priority s t p) ths n)
| step_manager s ths n rand s' :
    manager_pass rand s = Ok s' ->
    sched_step P false (mk_system s ths n) (mk_system s' ths n)
| step_terminate s ths n :
    sched_step P false (mk_system s ths n)
      (mk_system (mk_sched (task_list s) (task_count s) true (next_tid s)) ths n).

(** States reached with at most [k] calls of [kernel_create_thread]. *)
Inductive reach (P : Z -> Prop) : nat -> system -> Prop :=
| reach_init slots : length slots = MAX_TASKS ->
    reach P 0 (mk_system (initialize_scheduler slots) [] 0)
| reach_step k b s s' : reach P k s -> sched_step P b s s' ->
    reach P (if b then S k else k) s'.

(** ** Specification *)

Definition is_running (t : TCB) : bool := bool_decide (state t = TASK_STATE_RUNNING).
Definition in_use (t : TCB) : bool := bool_decide (state t <> TASK_STATE_INVALID).
Definition running (l : list TCB) : list TCB := List.filter is_running l.
Definition occupied (l : list TCB) : list TCB := List.filter in_use l.

(** The table has all its slots, the tasks in it have distinct ids below [next],
    and the running ones are exactly the threads [ts]. *)
Record table_inv (l : list TCB) (next : Z) (ts : list Z) : Prop := mk_table_inv {
  ti_slots : length l = MAX_TASKS;
  ti_nodup : NoDup (tid <$> occupied l);
  ti_tids : Forall (fun t => 0 < t < next) (tid <$> occupied l);
  ti_threads : tid <$> running l ≡ₚ ts
}.

(** Table, counter, threads and memory agree. *)
Record sched_inv (s : system) : Prop := mk_inv {
  inv_table : table_inv (task_list (sys_sched s)) (next_tid (sys_sched s)) (sa_tid <$> sys_threads s);
  inv_count : task_count (sys_sched s) = Z.of_nat (length (occupied (task_list (sys_sched s))));
  inv_next : 1 <= next_tid (sys_sched s);
  inv_args : sys_args s = Z.of_nat (length (sys_threads s))
}.

(** ** Lemmas on the loops *)

Lemma update_first_spec p f l :
  (exists l1 t l2, l = l1 ++ t :: l2 /\ Forall (fun c => p c = false) l1 /\ p t = true /\
     update_first p f l = (l1 ++ f t :: l2, true)) \/
  (Forall (fun c => p c = false) l /\ update_first p f l = (l, false)).
Proof.
  induction l as [|c l IH]; [right; done|]. cbn [update_first].
  destruct (p c) eqn:E.
  - left. exists [], c, l. auto.
  - destruct IH as [(l1 & t & l2 & -> & Hl1 & Ht & ->)|[Hl ->]].
    + left. exists (c :: l1), t, l2. auto.
    + right. auto.
Qed.

Lemma free_slot_spec l : forall i, 0 <= i ->
  (exists l1 t l2, l = l1 ++ t :: l2 /\ Forall (fun c => in_use c = true) l1 /\
     state t = TASK_STATE_INVALID /\ free_slot l i = i + Z.of_nat (length l1)) \/
  (Forall (fun c => in_use c = true) l /\ free_slot l i = -1).
Proof.
  induction l as [|c l IH]; intros i Hi; [right; done|]. cbn [free_slot].
  destruct (bool_decide_reflect (state c = TASK_STATE_INVALID)) as [E|E].
  - left. exists [], c, l. simpl. rewrite Z.add_0_r. auto.
  - assert (in_use c = true) by (by apply bool_decide_eq_true).
    destruct (IH (i + 1) ltac:(lia)) as [(l1 & t & l2 & -> & Hl1 & Ht & ->)|[Hl ->]].
    + left. exists (c :: l1), t, l2. simpl length. rewrite Nat2Z.inj_succ.
      repeat split; auto. lia.
    + right. auto.
Qed.

Lemma arr_get_middle {A} (l1 : list A) t l2 : arr_get (l1 ++ t :: l2) (Z.of_nat (length l1)) = Ok t.
Proof. apply arr_get_Ok. split; [lia|]. rewrite Nat2Z.id. by apply list_lookup_middle. Qed.

Lemma arr_set_middle {A} (l1 : list A) t l2 x :
  arr_set (l1 ++ t :: l2) (Z.of_nat (length l1)) x = Ok (l1 ++ x :: l2).
Proof.
  apply arr_set_Ok. rewrite length_app, Nat2Z.id. simpl length.
  split; [lia|]. by rewrite insert_app_r_alt, Nat.sub_diag by lia.
Qed.

Lemma occupied_app l1 l2 : occupied (l1 ++ l2) = occupied l1 ++ occupied l2.
Proof. apply List.filter_app. Qed.
Lemma running_app l1 l2 : running (l1 ++ l2) = running l1 ++ running l2.
Proof. apply List.filter_app. Qed.

Lemma occupied_cons t l :
  occupied (t :: l) = if bool_decide (state t = TASK_STATE_INVALID) then occupied l else t :: occupied l.
Proof. unfold occupied. cbn [List.filter]. unfold in_use at 1. by repeat case_bool_decide. Qed.
Lemma running_cons t l :
  running (t :: l) = if bool_decide (state t = TASK_STATE_RUNNING) then t :: running l else running l.
Proof. done. Qed.

Lemma running_occupied l : running l = List.filter is_running (occupied l).
Proof.
  unfold running, occupied. induction l as [|t l IH]; [done|]. cbn [List.filter].
  unfold is_running, in_use in *. destruct (state t) eqn:E; simpl; rewrite ?IH, ?E; done.
Qed.

Lemma cleared_unused l : occupied (clear_slot <$> l) = [] /\ running (clear_slot <$> l) = [].
Proof. by induction l as [|t l [IH1 IH2]]. Qed.

Lemma occupied_all l : Forall (fun c => in_use c = true) l -> occupied l = l.
Proof. unfold occupied. induction 1 as [|t l Ht _ IH]; [done|]. cbn [List.filter]. by rewrite Ht, IH. Qed.

Definition done_count (l : list TCB) : nat :=
  length (List.filter (fun t => bool_decide (state t = TASK_STATE_DONE)) l).

Lemma occupied_split l : length (occupied l) = (length (running l) + done_count l)%nat.
Proof.
  unfold occupied, running, done_count. induction l as [|t l IH]; [done|]. cbn [List.filter].
  unfold is_running, in_use in *. destruct (state t); simpl; lia.
Qed.

Lemma running_running l : running (running l) = running l.
Proof. unfold running. induction l as [|t l IH]; [done|]. cbn. destruct (is_running t) eqn:E; cbn; rewrite ?E, ?IH; done. Qed.

Lemma occupied_running l : occupied (running l) = running l.
Proof.
  apply occupied_all. apply Forall_forall. intros t Ht.
  apply list_elem_of_In in Ht. apply filter_In in Ht as [_ Ht].
  unfold is_running, in_use in *. destruct (state t); done.
Qed.

Lemma ok3_eq {A} (l l' : A) (a a' b b' : nat) :
  l = l' -> a = a' -> b = b' -> Ok (l, a, b) = Ok (l', a', b').
Proof. by intros -> -> ->. Qed.

(** The compaction loop moves the running tasks, in order, to the front. *)
Lemma reap_loop_spec rest : forall out mid reaped,
  exists junk, length junk = (length mid + length rest - length (running rest))%nat /\
  reap_loop (length rest) (length (out ++ mid)) (length out) reaped (out ++ mid ++ rest)
  = Ok (out ++ running rest ++ junk, (length out + length (running rest))%nat,
        (reaped + done_count rest)%nat).
Proof.
  induction rest as [|t rest IH]; intros out mid reaped.
  - exists mid. unfold done_count. cbn [reap_loop length running List.filter].
    rewrite !app_nil_r, !Nat.add_0_r, Nat.sub_0_r. done.
  - cbn [length reap_loop]. rewrite app_assoc, arr_get_middle. cbn [mbind outcome_bind].
    unfold running, is_running, done_count. cbn [List.filter].
    fold is_running (running rest). fold (done_count rest).
    assert (forall reaped', exists junk,
      length junk = (length mid + S (length rest) - length (running rest))%nat /\
      reap_loop (length rest) (S (length (out ++ mid))) (length out) reaped' ((out ++ mid) ++ t :: rest)
      = Ok (out ++ running rest ++ junk, (length out + length (running rest))%nat,
            (reaped' + done_count rest)%nat)) as Hskip.
    { intros reaped'. destruct (IH out (mid ++ [t]) reaped') as (junk & Hj & Hr).
      exists junk. rewrite Hj, length_app. simpl length. split; [lia|].
      replace (S (length (out ++ mid))) with (length (out ++ mid ++ [t])) by (rewrite !length_app; simpl; lia).
      replace ((out ++ mid) ++ t :: rest) with (out ++ (mid ++ [t]) ++ rest) by (by rewrite <- !app_assoc).
      exact Hr. }
    destruct (state t) eqn:Et; cbn [length bool_decide decide decide_rel TaskState_eq_dec].
    + exact (Hskip reaped).
    + rewrite bool_decide_true, bool_decide_false by congruence. cbn [length].
      destruct mid as [|m mid].
      * rewrite app_nil_r, Nat.eqb_refl. cbn [negb mbind outcome_bind].
        destruct (IH (out ++ [t]) [] reaped) as (junk & Hj & Hr). exists junk.
        rewrite app_nil_r, !length_app in Hr. cbn [length] in Hr, Hj |- *.
        split; [lia|]. rewrite <- !app_assoc in Hr. cbn [app] in Hr |- *.
        rewrite Nat.add_1_r in Hr. rewrite Hr. apply ok3_eq; unfold done_count; rewrite ?length_app; cbn [length]; (reflexivity || lia).
      * rewrite length_app. cbn [length]. destruct (Nat.eqb_spec (length out + S (length mid)) (length out)); [lia|].
        cbn [negb]. rewrite <- app_assoc. cbn [app]. rewrite arr_set_middle. cbn [mbind outcome_bind].
        destruct (IH (out ++ [t]) (mid ++ [t]) reaped) as (junk & Hj & Hr). exists junk.
        split; [rewrite length_app in Hj; cbn [length] in Hj |- *; lia|].
        rewrite <- !app_assoc in Hr. cbn [app] in Hr |- *.
        replace (S (length out + S (length mid))) with (length (out ++ t :: mid ++ [t]))
          by (rewrite length_app; cbn; rewrite length_app; cbn; lia).
        replace (S (length out)) with (length (out ++ [t])) by (rewrite length_app; cbn; lia).
        rewrite Hr. apply ok3_eq; unfold done_count; rewrite ?length_app; cbn [length]; (reflexivity || lia).
    + rewrite bool_decide_false, bool_decide_true by congruence. cbn [length].
      destruct (Hskip (S reaped)) as (junk & Hj & Hr). exists junk. split; [exact Hj|].
      rewrite Hr. apply ok3_eq; unfold done_count; rewrite ?length_app; cbn [length]; (reflexivity || lia).
Qed.

(** [reap_tasks] on a full-size table: running tasks first and in order, every
    other slot free, the counter lowered by the number of finished tasks. *)
Lemma reap_tasks_spec s :
  length (task_list s) = MAX_TASKS ->
  exists junk, length junk = (MAX_TASKS - length (running (task_list s)))%nat /\
    reap_tasks s = Ok (mk_sched (running (task_list s) ++ (clear_slot <$> junk))
                         (u64 (task_count s - Z.of_nat (done_count (task_list s))))
                         (terminate_manager s) (next_tid s)).
Proof.
  intros Hl. destruct (reap_loop_spec (task_list s) [] [] 0) as (junk & Hj & Hr).
  cbn [app length Nat.add] in Hr, Hj. rewrite Hl in Hr, Hj. exists junk. split; [exact Hj|].
  unfold reap_tasks. rewrite Hr. cbn [mbind outcome_bind]. unfold clear_from.
  by rewrite take_app_length, drop_app_length.
Qed.

Lemma running_le l : (length (running l) <= length l)%nat.
Proof. unfold running. induction l as [|t l IH]; cbn; [lia|]. destruct (is_running t); cbn; lia. Qed.

(** Two tables that hold the same tasks in the same slots. *)
Definition same_task (t t' : TCB) : Prop := tid t' = tid t /\ state t' = state t.

Lemma same_tasks l l' :
  Forall2 same_task l l' ->
  tid <$> occupied l' = tid <$> occupied l /\ tid <$> running l' = tid <$> running l /\
  done_count l' = done_count l.
Proof.
  unfold occupied, running, done_count, in_use, is_running.
  induction 1 as [|t t' l l' [Ht Hs] _ (IH1 & IH2 & IH3)]; [done|].
  cbn [List.filter]. rewrite Hs.
  split_and!; case_bool_decide; rewrite ?fmap_cons; cbn [length]; congruence.
Qed.

Lemma same_refl l : Forall2 same_task l l.
Proof. by induction l; constructor. Qed.

Lemma drift_same r t t' : drift r t = Ok t' -> same_task t t'.
Proof.
  unfold drift. destruct (bool_decide _); [by intros [= <-]|]. cbv zeta.
  destruct (_ || _); [done|]. intros [= <-]. by destruct (negb _).
Qed.

Lemma drift_loop_same rand l : forall i l', drift_loop rand i l = Ok l' -> Forall2 same_task l l'.
Proof.
  induction l as [|t l IH]; intros i l'; cbn [drift_loop]; intros H; inv_ok; [constructor|].
  constructor; [by eapply drift_same|by eapply IH].
Qed.

Lemma table_same l l' next ts :
  Forall2 same_task l l' -> table_inv l next ts -> table_inv l' next ts.
Proof.
  intros Hs [H1 H2 H3 H4]. destruct (same_tasks _ _ Hs) as (E1 & E2 & _).
  split; rewrite ?E1, ?E2; try done. by rewrite <- (Forall2_length _ _ _ Hs).
Qed.

Lemma occupied_count_same l l' : Forall2 same_task l l' -> length (occupied l') = length (occupied l).
Proof.
  intros Hs. destruct (same_tasks _ _ Hs) as (E1 & _ & _).
  rewrite <- (length_fmap tid (occupied l')), E1. apply length_fmap.
Qed.

Lemma running_sub l : tid <$> running l ⊆+ tid <$> occupied l.
Proof.
  rewrite running_occupied. apply fmap_submseteq. generalize (occupied l) as k.
  induction k as [|t k IH]; cbn; [done|]. destruct (is_running t); by constructor.
Qed.

(** Finishing the thread [t]: its control block is found and leaves [RUNNING]. *)
Lemma table_finish l next ts1 t ts2 :
  table_inv l next (ts1 ++ t :: ts2) ->
  exists l1 c l2, l = l1 ++ c :: l2 /\ tid c = t /\ state c = TASK_STATE_RUNNING /\
    update_first (fun c => bool_decide (state c <> TASK_STATE_INVALID) && (tid c =? t))
      (fun c => set_state c TASK_STATE_DONE) l = (l1 ++ set_state c TASK_STATE_DONE :: l2, true) /\
    table_inv (l1 ++ set_state c TASK_STATE_DONE :: l2) next (ts1 ++ ts2).
Proof.
  intros [H1 H2 H3 H4].
  assert (t ∈ tid <$> running l) as Hin by (rewrite H4; set_solver).
  apply list_elem_of_fmap in Hin as (c & -> & Hc).
  apply list_elem_of_In, filter_In in Hc as [Hc Hrun]. apply list_elem_of_In in Hc.
  apply bool_decide_eq_true in Hrun.
  match goal with |- context [update_first ?p ?f l] =>
    destruct (update_first_spec p f l) as [(l1 & d & l2 & -> & Hl1 & Hd & ->)|[Hno _]] end.
  - apply andb_true_iff in Hd as [Hd1 Hd2]. apply bool_decide_eq_true in Hd1. apply Z.eqb_eq in Hd2.
    assert (d = c) as ->.
    { apply elem_of_app in Hc as [Hc|Hc]; [|apply elem_of_cons in Hc as [->|Hc]; [done|]].
      - rewrite Forall_forall in Hl1. specialize (Hl1 c Hc). cbv beta in Hl1.
        rewrite Z.eqb_refl, bool_decide_true in Hl1 by congruence. done.
      - rewrite occupied_app, occupied_cons, bool_decide_false, fmap_app, fmap_cons in H2 by done.
        apply NoDup_app in H2 as (_ & _ & H2).
        apply NoDup_cons in H2 as [H2 _]. exfalso. apply H2. rewrite Hd2.
        apply list_elem_of_fmap_2. apply list_elem_of_In, filter_In. split; [by apply list_elem_of_In|].
        apply bool_decide_eq_true. congruence. }
    exists l1, c, l2. split_and!; try done.
    assert (tid <$> occupied (l1 ++ set_state c TASK_STATE_DONE :: l2) = tid <$> occupied (l1 ++ c :: l2)) as E.
    { rewrite !occupied_app, !fmap_app, !occupied_cons, !bool_decide_false by (cbn; congruence). done. }
    split; rewrite ?E; try done.
    + rewrite !length_app in *. exact H1.
    + rewrite running_app, running_cons, bool_decide_true, fmap_app, fmap_cons in H4 by done.
      rewrite running_app, running_cons, bool_decide_false, fmap_app by (cbn; congruence).
      apply (Permutation_app_inv _ _ _ _ _ H4).
  - rewrite Forall_forall in Hno. specialize (Hno c Hc). cbv beta in Hno.
    rewrite Z.eqb_refl, bool_decide_true in Hno by congruence. done.
Qed.

(** [kernel_create_thread], branch by branch. *)
Lemma create_refused s nm prio entry arg mem pth :
  ~ (MIN_PRIORITY <= prio <= MAX_PRIORITY) \/ mem = false \/ Forall (fun c => in_use c = true) (task_list s) ->
  kernel_create_thread s nm prio entry arg mem pth = Ok (mk_created s None 0 0).
Proof.
  intros H. unfold kernel_create_thread.
  destruct (_ || _) eqn:Ep; [done|]. zbool. destruct mem; [|done]. cbn [negb].
  destruct H as [H|[H|H]]; [lia|done|].
  destruct (free_slot_spec (task_list s) 0 ltac:(lia)) as [(l1 & t & l2 & E & _ & Ht & _)|[_ ->]]; [|done].
  rewrite E, Forall_app, Forall_cons in H. destruct H as (_ & H & _).
  apply bool_decide_eq_true in H. done.
Qed.

Lemma create_slot s nm prio entry arg pth l1 c l2 :
  MIN_PRIORITY <= prio <= MAX_PRIORITY -> task_list s = l1 ++ c :: l2 ->
  Forall (fun c => in_use c = true) l1 -> state c = TASK_STATE_INVALID ->
  kernel_create_thread s nm prio entry arg true pth =
  Ok (match pth with
      | None => mk_created
          (mk_sched (l1 ++ mk_tcb (next_tid s) (pthread_handle c) TASK_STATE_INVALID prio (copy_name nm) :: l2)
             (task_count s) (terminate_manager s) (u32 (next_tid s + 1))) None 0 0
      | Some h => mk_created
          (mk_sched (l1 ++ mk_tcb (next_tid s) h TASK_STATE_RUNNING prio (copy_name nm) :: l2)
             (u64 (task_count s + 1)) (terminate_manager s) (u32 (next_tid s + 1)))
          (Some (mk_args (next_tid s) entry arg (copy_name nm))) (next_tid s)
          (if next_tid s =? 0 then 0 else 1)
      end).
Proof.
  intros Hp El Hl1 Hc. unfold kernel_create_thread.
  destruct (_ || _) eqn:Ep; [apply orb_true_iff in Ep as [Ep|Ep]; zbool; lia|]. cbn [negb].
  destruct (free_slot_spec (task_list s) 0 ltac:(lia)) as [(k1 & t & k2 & E & Hk1 & Ht & ->)|[Hall _]].
  - assert (k1 = l1 /\ t = c /\ k2 = l2) as (-> & -> & ->).
    { rewrite El in E. clear -E Hk1 Hl1 Hc Ht. revert k1 E Hk1.
      induction Hl1 as [|d l1 Hd _ IH]; intros [|d' k1] E Hk1; cbn in E; simplify_eq; try done.
      - apply Forall_cons in Hk1 as [Hk _]. apply bool_decide_eq_true in Hk. done.
      - apply bool_decide_eq_true in Hd. done.
      - apply Forall_cons in Hk1 as [_ Hk1]. destruct (IH k1 ltac:(done) Hk1) as (-> & -> & ->). done. }
    destruct (Z.eqb_spec (0 + Z.of_nat (length l1)) (-1)); [lia|]. rewrite Z.add_0_l, El, arr_get_middle.
    cbn [mbind outcome_bind]. destruct pth; rewrite arr_set_middle; cbn [mbind outcome_bind]; [|done].
    by destruct (next_tid s =? 0).
  - rewrite El, Forall_app, Forall_cons in Hall. destruct Hall as (_ & Hall & _).
    apply bool_decide_eq_true in Hall. done.
Qed.

(** Either the call is refused or there is a first free slot. *)
Lemma create_cases s prio mem :
  (~ (MIN_PRIORITY <= prio <= MAX_PRIORITY) \/ mem = false \/ Forall (fun c => in_use c = true) (task_list s)) \/
  (MIN_PRIORITY <= prio <= MAX_PRIORITY /\ mem = true /\ exists l1 c l2, task_list s = l1 ++ c :: l2 /\
     Forall (fun c => in_use c = true) l1 /\ state c = TASK_STATE_INVALID).
Proof.
  destruct (decide (MIN_PRIORITY <= prio <= MAX_PRIORITY)); [|auto]. destruct mem; [|auto].
  destruct (free_slot_spec (task_list s) 0 ltac:(lia)) as [(l1 & t & l2 & E & H1 & Ht & _)|[H _]].
  - right. eauto 10.
  - auto.
Qed.

Lemma table_create l1 c l2 next ts h prio nm :
  state c = TASK_STATE_INVALID -> 1 <= next -> table_inv (l1 ++ c :: l2) next ts ->
  occupied (l1 ++ mk_tcb next h TASK_STATE_RUNNING prio nm :: l2)
    ≡ₚ mk_tcb next h TASK_STATE_RUNNING prio nm :: occupied (l1 ++ c :: l2) /\
  table_inv (l1 ++ mk_tcb next h TASK_STATE_RUNNING prio nm :: l2) (next + 1) (ts ++ [next]).
Proof.
  intros Hc Hn [H1 H2 H3 H4].
  assert (occupied (l1 ++ mk_tcb next h TASK_STATE_RUNNING prio nm :: l2)
    ≡ₚ mk_tcb next h TASK_STATE_RUNNING prio nm :: occupied (l1 ++ c :: l2)) as Ho.
  { rewrite !occupied_app, !occupied_cons, bool_decide_true with (P := state c = _) by done.
    symmetry. apply Permutation_middle. }
  split; [done|]. split.
  - rewrite !length_app in *. exact H1.
  - rewrite Ho. cbn. constructor; [|done]. intros Hin. rewrite Forall_forall in H3.
    specialize (H3 _ Hin). cbv beta in H3. lia.
  - rewrite Ho. cbn. constructor; [lia|]. eapply Forall_impl; [exact H3|]. cbv beta. lia.
  - rewrite <- H4, !running_app, !running_cons, bool_decide_false with (P := state c = _) by congruence.
    rewrite bool_decide_true by done. rewrite !fmap_app, fmap_cons.
    rewrite <- Permutation_middle. apply Permutation_cons_append.
Qed.

Lemma table_retry l1 c l2 next ts c' :
  state c = TASK_STATE_INVALID -> state c' = TASK_STATE_INVALID ->
  table_inv (l1 ++ c :: l2) next ts -> 
  occupied (l1 ++ c' :: l2) = occupied (l1 ++ c :: l2) /\ table_inv (l1 ++ c' :: l2) (next + 1) ts.
Proof.
  intros Hc Hc' [H1 H2 H3 H4].
  assert (occupied (l1 ++ c' :: l2) = occupied (l1 ++ c :: l2)) as Ho
    by (rewrite !occupied_app, !occupied_cons, !bool_decide_true by done; done).
  split; [done|]. split; rewrite ?Ho; try done.
  - rewrite !length_app in *. exact H1.
  - eapply Forall_impl; [exact H3|]. cbv beta. lia.
  - by rewrite <- H4, !running_app, !running_cons, !bool_decide_false by congruence.
Qed.

Lemma table_reap l junk next ts :
  length junk = (MAX_TASKS - length (running l))%nat -> table_inv l next ts ->
  occupied (running l ++ (clear_slot <$> junk)) = running l /\
  table_inv (running l ++ (clear_slot <$> junk)) next ts.
Proof.
  intros Hj [H1 H2 H3 H4]. destruct (cleared_unused junk) as [E1 E2].
  assert (occupied (running l ++ (clear_slot <$> junk)) = running l) as Ho
    by (by rewrite occupied_app, E1, app_nil_r, occupied_running).
  split; [done|].
  destruct (submseteq_Permutation _ _ (running_sub l)) as [k Hk].
  rewrite Hk in H2, H3. apply NoDup_app in H2 as [H2 _]. apply Forall_app in H3 as [H3 _].
  split; rewrite ?Ho; try done.
  - rewrite length_app, length_fmap, Hj. pose proof (running_le l). unfold MAX_TASKS in *. lia.
  - by rewrite running_app, E2, app_nil_r, running_running.
Qed.

(** Projections of the system and of a creation record, and nothing else. *)
Ltac sysred := cbn [sys_sched sys_threads sys_args task_list task_count terminate_manager next_tid
                    cr_sched cr_started cr_allocs cr_tid] in *.

Lemma occupied_le l : (length (occupied l) <= length l)%nat.
Proof. unfold occupied. induction l as [|t l IH]; cbn; [lia|]. destruct (in_use t); cbn; lia. Qed.

Lemma count_small s ths n : sched_inv (mk_system s ths n) -> 0 <= task_count s <= 64.
Proof.
  intros [[Hl _ _ _] Hc _ _]. cbn in *. pose proof (occupied_le (task_list s)).
  unfold MAX_TASKS in Hl. lia.
Qed.

Lemma inv_create s ths n nm prio entry arg mem pth r :
  sched_inv (mk_system s ths n) -> next_tid s < 2 ^ 32 - 1 ->
  kernel_create_thread s nm prio entry arg mem pth = Ok r ->
  sched_inv (mk_system (cr_sched r) (ths ++ option_list (cr_started r)) (n + cr_allocs r)) /\
  next_tid (cr_sched r) <= next_tid s + 1.
Proof.
  intros Hinv Hn Hr. pose proof (count_small _ _ _ Hinv) as Hcs. destruct Hinv as [Ht Hc H1 Ha]. sysred.
  assert (u32 (next_tid s + 1) = next_tid s + 1) as Hu by (unfold u32, wrap; apply Z.mod_small; lia).
  destruct (create_cases s prio mem) as [Href|(Hp & -> & l1 & c & l2 & El & Hl1 & Hst)].
  - rewrite create_refused in Hr by done. inv_ok. cbn. rewrite app_nil_r, Z.add_0_r. split; [by split|lia].
  - rewrite (create_slot _ _ _ _ _ _ l1 c l2) in Hr by done. rewrite El in Ht, Hc.
    destruct pth as [h|]; inv_ok; rewrite Hu.
    + destruct (table_create l1 c l2 (next_tid s) _ h prio (copy_name nm) Hst H1 Ht) as [Ho Ht'].
      split; [|lia]. destruct (Z.eqb_spec (next_tid s) 0); [lia|]. split; sysred; [|rewrite Ho, u64_small| |].
      * by rewrite fmap_app.
      * cbn. lia.
      * unfold in_u64. lia.
      * lia.
      * rewrite length_app. cbn. lia.
    + destruct (table_retry l1 c l2 _ _
        (mk_tcb (next_tid s) (pthread_handle c) TASK_STATE_INVALID prio (copy_name nm)) Hst eq_refl Ht) as [Ho Ht'].
      split; [|lia]. cbn [option_list cr_started]. rewrite app_nil_r, Z.add_0_r.
      split; cbn [sys_sched sys_threads sys_args cr_sched task_list task_count next_tid]; rewrite ?Ho; (done || lia).
Qed.

Lemma inv_finish s ths1 a ths2 n :
  sched_inv (mk_system s (ths1 ++ a :: ths2) n) ->
  (thread_finished s (sa_tid a)).2 = true /\
  sched_inv (mk_system (thread_finished s (sa_tid a)).1 (ths1 ++ ths2) (n - 1)).
Proof.
  intros [Ht Hc H1 Ha]. sysred. rewrite fmap_app, fmap_cons in Ht.
  destruct (table_finish _ _ _ _ _ Ht) as (l1 & c & l2 & El & Hid & Hst & Hu & Ht').
  unfold thread_finished. rewrite Hu. cbn. split; [done|]. split; cbn.
  - by rewrite fmap_app.
  - rewrite Hc, El, !occupied_app, !occupied_cons, !bool_decide_false by (cbn; congruence).
    by rewrite !length_app.
  - done.
  - rewrite Ha, !length_app. cbn. lia.
Qed.

Lemma inv_same s ths n l :
  Forall2 same_task (task_list s) l -> sched_inv (mk_system s ths n) ->
  sched_inv (mk_system (mk_sched l (task_count s) (terminate_manager s) (next_tid s)) ths n).
Proof.
  intros Hs [Ht Hc H1 Ha]. pose proof (occupied_count_same _ _ Hs) as E. split; sysred; try done.
  - by eapply table_same.
  - fold (occupied l). congruence.
Qed.

Lemma inv_reap s ths n :
  sched_inv (mk_system s ths n) ->
  exists s', reap_tasks s = Ok s' /\ sched_inv (mk_system s' ths n) /\
    occupied (task_list s') = running (task_list s) /\ next_tid s' = next_tid s.
Proof.
  intros Hinv. pose proof (count_small _ _ _ Hinv) as Hcs. destruct Hinv as [Ht Hc H1 Ha]. sysred.
  destruct (reap_tasks_spec s (ti_slots _ _ _ Ht)) as (junk & Hj & ->).
  destruct (table_reap _ junk _ _ Hj Ht) as [Ho Ht'].
  eexists. split; [done|]. sysred. split_and!; try done. split; sysred; try done.
  rewrite Ho, Hc, occupied_split. pose proof (occupied_split (task_list s)).
  rewrite u64_small by (unfold in_u64; lia). lia.
Qed.

Lemma set_priority_same s t p :
  Forall2 same_task (task_list s) (task_list (kernel_set_priority s t p)) /\
  kernel_set_priority s t p
  = mk_sched (task_list (kernel_set_priority s t p)) (task_count s) (terminate_manager s) (next_tid s).
Proof.
  unfold kernel_set_priority.
  match goal with |- context [update_first ?q ?f ?l] =>
    destruct (update_first_spec q f l) as [(l1 & c & l2 & -> & _ & _ & ->)|[_ ->]] end; cbn.
  - split; [|done]. apply Forall2_app; [apply same_refl|]. by constructor; [|apply same_refl].
  - split; [apply same_refl|done].
Qed.

Lemma sched_inv_step P b s s' :
  sched_step P b s s' -> sched_inv s -> (b = true -> next_tid (sys_sched s) < 2 ^ 32 - 1) ->
  sched_inv s' /\ next_tid (sys_sched s') <= next_tid (sys_sched s) + (if b then 1 else 0).
Proof.
  intros Hstep Hinv Hn. destruct Hstep as
    [s ths n nm prio entry arg mem pth r Hr|s ths1 a ths2 n|s ths n t p _|s ths n rand s' Hm|s ths n]; sysred.
  - eapply inv_create; eauto.
  - split; [by apply inv_finish|]. unfold thread_finished. destruct (update_first _ _ _). cbn. lia.
  - destruct (set_priority_same s t p) as [Hs ->]. split; [by apply inv_same|cbn; lia].
  - unfold manager_pass in Hm. apply bind_Ok in Hm as (l & Hl & Hm). apply drift_loop_same in Hl.
    destruct (inv_reap _ _ _ (inv_same _ _ _ _ Hl Hinv)) as (s'' & E & Hi & _ & Hnx).
    rewrite Hm in E. injection E as <-. cbn in Hnx. split; [done|lia].
  - split; [|lia]. destruct Hinv. by split.
Qed.

Lemma inv_init slots : length slots = MAX_TASKS -> sched_inv (mk_system (initialize_scheduler slots) [] 0).
Proof.
  intros Hl. destruct (cleared_unused slots) as [E1 E2].
  unfold initialize_scheduler. split; sysred; rewrite ?E1; try done.
  split; rewrite ?E1, ?E2; try done; [by rewrite length_fmap|apply NoDup_nil_2].
Qed.

Lemma reach_inv P k s :
  reach P k s -> Z.of_nat k < 2 ^ 32 - 1 ->
  sched_inv s /\ next_tid (sys_sched s) <= Z.of_nat k + 1.
Proof.
  induction 1 as [slots Hl|k b s s' _ IH Hstep]; intros Hk.
  - split; [by apply inv_init|done].
  - destruct IH as [Hinv Hn]; [destruct b; lia|].
    destruct (sched_inv_step _ _ _ _ Hstep Hinv) as [Hi Hx]; destruct b; try lia; (split; [done|lia]).
Qed.

(** ** Priorities *)

Definition prio_ok (t : TCB) : Prop :=
  state t = TASK_STATE_RUNNING -> MIN_PRIORITY <= priority t <= MAX_PRIORITY.

Lemma drift_ok r t :
  (state t = TASK_STATE_RUNNING -> INT_MIN < priority t < INT_MAX) ->
  exists t', drift r t = Ok t' /\ prio_ok t'.
Proof.
  intros H. unfold drift, prio_ok. case_bool_decide as Hs; [exists t; split; [done|intros; congruence]|].
  assert (state t = TASK_STATE_RUNNING) as Hr by (by destruct (decide (state t = TASK_STATE_RUNNING))).
  specialize (H Hr). pose proof (Z.mod_pos_bound r 3 ltac:(lia)) as Hm. cbv zeta.
  destruct (_ || _) eqn:E; [unfold INT_MIN, INT_MAX in *; apply orb_true_iff in E as [E|E]; zbool; lia|].
  eexists. split; [done|]. intros _. zbool. unfold MIN_PRIORITY, MAX_PRIORITY.
  destruct (_ <? 1) eqn:E1; zbool; [destruct (99 <? 1) eqn:E2|destruct (99 <? _) eqn:E2]; zbool; try lia;
    match goal with |- context [negb (?a =? ?b)] => destruct (Z.eqb_spec a b) end; cbn; lia.
Qed.

Lemma drift_loop_ok rand l : forall i,
  Forall (fun t => state t = TASK_STATE_RUNNING -> INT_MIN < priority t < INT_MAX) l ->
  exists l', drift_loop rand i l = Ok l' /\ Forall prio_ok l'.
Proof.
  induction l as [|t l IH]; intros i Hl; [by exists []|]. apply Forall_cons in Hl as [Ht Hl].
  destruct (drift_ok (rand i) t Ht) as (t' & E1 & H1). destruct (IH (S i) Hl) as (l' & E2 & H2).
  exists (t' :: l'). cbn [drift_loop]. rewrite E1. cbn [mbind outcome_bind]. rewrite E2. auto.
Qed.

Lemma prio_ok_weak l : Forall prio_ok l ->
  Forall (fun t => state t = TASK_STATE_RUNNING -> INT_MIN < priority t < INT_MAX) l.
Proof.
  intros H. eapply Forall_impl; [exact H|]. intros t Ht Hr. specialize (Ht Hr).
  unfold MIN_PRIORITY, MAX_PRIORITY, INT_MIN, INT_MAX in *. lia.
Qed.

Lemma manager_pass_ok rand s :
  length (task_list s) = MAX_TASKS ->
  Forall (fun t => state t = TASK_STATE_RUNNING -> INT_MIN < priority t < INT_MAX) (task_list s) ->
  exists s', manager_pass rand s = Ok s' /\ Forall prio_ok (task_list s').
Proof.
  intros Hl Hp. destruct (drift_loop_ok rand _ 0 Hp) as (l' & E & Hp').
  unfold manager_pass. rewrite E. cbn [mbind outcome_bind].
  pose proof (Forall2_length _ _ _ (drift_loop_same _ _ _ _ E)) as Hll.
  destruct (reap_tasks_spec (mk_sched l' (task_count s) (terminate_manager s) (next_tid s))) as (junk & _ & Hr);
    [sysred; congruence|].
  eexists. split; [exact Hr|]. sysred. apply Forall_app. split.
  - apply Forall_forall. intros t Ht. rewrite Forall_forall in Hp'. apply Hp'.
    apply list_elem_of_In in Ht. apply filter_In in Ht as [Ht _]. by apply list_elem_of_In.
  - apply Forall_fmap, Forall_true. intros t. by unfold prio_ok, compose.
Qed.

Lemma update_first_forall (Q : TCB -> Prop) p f l :
  Forall Q l -> (forall t, p t = true -> Q t -> Q (f t)) -> Forall Q (update_first p f l).1.
Proof.
  intros Hl Hf. destruct (update_first_spec p f l) as [(l1 & t & l2 & -> & _ & Ht & ->)|[_ ->]]; [|done].
  cbn. rewrite Forall_app, Forall_cons in *. naive_solver.
Qed.

Lemma prio_step b s s' :
  sched_step (fun p => MIN_PRIORITY <= p <= MAX_PRIORITY) b s s' -> sched_inv s ->
  Forall prio_ok (task_list (sys_sched s)) -> Forall prio_ok (task_list (sys_sched s')).
Proof.
  intros Hstep Hinv Hp. destruct Hstep as
    [s ths n nm prio entry arg mem pth r Hr|s ths1 a ths2 n|s ths n t p Hb|s ths n rand s' Hm|s ths n]; sysred.
  - destruct (create_cases s prio mem) as [Href|(Hb & -> & l1 & c & l2 & El & Hl1 & Hst)].
    + rewrite create_refused in Hr by done. by injection Hr as <-.
    + rewrite (create_slot _ _ _ _ _ _ l1 c l2) in Hr by done. rewrite El, Forall_app, Forall_cons in Hp.
      destruct pth as [h|]; injection Hr as <-; sysred; rewrite Forall_app, Forall_cons;
        unfold prio_ok at 2; cbn; naive_solver.
  - unfold thread_finished.
    pose proof (update_first_forall prio_ok
      (fun c => bool_decide (state c <> TASK_STATE_INVALID) && (tid c =? sa_tid a))
      (fun c => set_state c TASK_STATE_DONE) (task_list s) Hp) as H.
    destruct (update_first _ _ _). apply H. by unfold prio_ok.
  - unfold kernel_set_priority.
    pose proof (update_first_forall prio_ok
      (fun c => bool_decide (state c = TASK_STATE_RUNNING) && (tid c =? t))
      (fun c => set_prio c p) (task_list s) Hp) as H.
    destruct (update_first _ _ _). apply H. by unfold prio_ok.
  - destruct (manager_pass_ok rand s (ti_slots _ _ _ (inv_table _ Hinv)) (prio_ok_weak _ Hp)) as (s'' & E & H).
    rewrite Hm in E. by injection E as <-.
  - done.
Qed.

(** ** Draining *)

Definition finish_all (s : Scheduler) (ths : list ThreadStartArgs) : Scheduler :=
  foldl (fun s a => (thread_finished s (sa_tid a)).1) s ths.

Lemma inv_permute s ths ths' n : ths ≡ₚ ths' -> sched_inv (mk_system s ths n) -> sched_inv (mk_system s ths' n).
Proof.
  intros Hp [[H1 H2 H3 H4] Hc Hn Ha]. sysred. split; sysred; [|done|done|by rewrite <- Hp].
  split; try done. by rewrite H4, Hp.
Qed.

Lemma finish_all_inv ths : forall s n,
  sched_inv (mk_system s ths n) -> sched_inv (mk_system (finish_all s ths) [] (n - Z.of_nat (length ths))).
Proof.
  induction ths as [|a ths IH]; intros s n Hinv; cbn [finish_all foldl length].
  - by rewrite Z.sub_0_r.
  - destruct (inv_finish s [] a ths n Hinv) as [_ Hi]. apply IH in Hi.
    replace (n - Z.of_nat (S (length ths))) with (n - 1 - Z.of_nat (length ths)) by lia. exact Hi.
Qed.

Lemma no_running l : running l = [] -> Forall (fun t => state t <> TASK_STATE_RUNNING) l.
Proof.
  induction l as [|t l IH]; [done|]. rewrite running_cons. case_bool_decide; [done|]. auto.
Qed.

Lemma manager_pass_idle rand s n :
  sched_inv (mk_system s [] n) ->
  exists s', manager_pass rand s = Ok s' /\ occupied (task_list s') = [] /\ task_count s' = 0.
Proof.
  intros Hinv. pose proof (ti_threads _ _ _ (inv_table _ Hinv)) as Hr. sysred. cbn [fmap list_fmap] in Hr.
  apply Permutation_nil_r, fmap_nil_inv in Hr.
  destruct (manager_pass_ok rand s) as (s' & E & _).
  { exact (ti_slots _ _ _ (inv_table _ Hinv)). }
  { eapply Forall_impl; [exact (no_running _ Hr)|]. cbv beta. congruence. }
  exists s'. split; [done|]. unfold manager_pass in E. apply bind_Ok in E as (l & Hl & E).
  apply drift_loop_same in Hl. destruct (inv_reap _ _ _ (inv_same _ _ _ _ Hl Hinv)) as (s'' & E' & Hi & Ho & _).
  rewrite E in E'. injection E' as <-. sysred.
  destruct (same_tasks _ _ Hl) as (_ & E2 & _). rewrite Hr in E2. cbn in E2.
  apply fmap_nil_inv in E2. rewrite E2 in Ho. split; [done|].
  pose proof (inv_count _ Hi) as Hc. sysred. rewrite Ho in Hc. exact Hc.
Qed.

(** ** Theorems *)

Definition blank : TCB := mk_tcb 0 0 TASK_STATE_INVALID 0 [].
Definition boot : Scheduler := initialize_scheduler (replicate MAX_TASKS blank).

(** State after two tasks were created. *)
Definition demo_args (t : Z) : ThreadStartArgs := mk_args t 4096 0 (copy_name [72; 105]).
Definition demo_tcb (t : Z) : TCB := mk_tcb t (100 + t) TASK_STATE_RUNNING 50 (copy_name [72; 105]).
Definition demo : system :=
  mk_system (mk_sched ([demo_tcb 1; demo_tcb 2] ++ replicate 62 blank) 2 false 3) [demo_args 1; demo_args 2] 2.

Lemma demo_reach P : reach P 2 demo.
Proof.
  apply (reach_step P 1 true
    (mk_system (mk_sched (demo_tcb 1 :: replicate 63 blank) 1 false 2) [demo_args 1] 1)).
  - apply (reach_step P 0 true (mk_system boot [] 0)); [by apply reach_init|].
    refine (step_create P boot [] 0 [72; 105] 50 4096 0 true (Some 101) (mk_created _ (Some _) 1 1) _).
    vm_compute. reflexivity.
  - refine (step_create P _ [demo_args 1] 1 [72; 105] 50 4096 0 true (Some 102) (mk_created _ (Some _) 2 1) _).
    vm_compute. reflexivity.
Qed.

(** C21: In every interleaving of the critical sections of creators, finishing
    threads, priority changes and the manager, as long as fewer than 2^32 - 1
    creations were asked for: the task table keeps its 64 slots, [task_count] is
    the number of occupied slots, task ids are distinct, positive and below
    [next_tid], the running tasks are exactly the live threads, one argument
    block is allocated per live thread (no leak, no double free), and every
    live thread, when it finishes, finds its control block. *)
Theorem scheduler_invariant (P : Z -> Prop) (k : nat) (s : system) :
  reach P k s -> Z.of_nat k < 2 ^ 32 - 1 ->
  length (task_list (sys_sched s)) = MAX_TASKS /\
  task_count (sys_sched s) = Z.of_nat (length (occupied (task_list (sys_sched s)))) /\
  NoDup (tid <$> occupied (task_list (sys_sched s))) /\
  Forall (fun t => 0 < t < next_tid (sys_sched s)) (tid <$> occupied (task_list (sys_sched s))) /\
  (tid <$> running (task_list (sys_sched s))) ≡ₚ (sa_tid <$> sys_threads s) /\
  sys_args s = Z.of_nat (length (sys_threads s)) /\
  (forall a, a ∈ sys_threads s -> (thread_finished (sys_sched s) (sa_tid a)).2 = true).
Proof.
  intros Hr Hk. destruct (reach_inv _ _ _ Hr Hk) as [Hi _]. destruct s as [sc ths n].
  pose proof Hi as [[H1 H2 H3 H4] Hc Hn Ha]. sysred. split_and!; try done.
  intros a Hin. apply list_elem_of_split in Hin as (l1 & l2 & ->). by apply (inv_finish _ _ _ _ _ Hi).
Qed.

Lemma scheduler_invariant_witness : sys_args demo = 2 /\ (thread_finished (sys_sched demo) 2).2 = true.
Proof.
  destruct (scheduler_invariant (fun _ => True) 2 demo (demo_reach _) ltac:(lia)) as (_ & _ & _ & _ & _ & H1 & H2).
  split; [exact H1|]. apply (H2 (demo_args 2)). apply list_elem_of_further, list_elem_of_here.
Defined.

(** The in-place compaction of [reap_tasks] never leaves the table and is
    the filter it stands for: the running tasks, unchanged and in order, at the
    front; every other slot free with id 0; the counter lowered by the number
    of finished tasks. *)
Theorem reap_tasks_correct (s : Scheduler) :
  length (task_list s) = MAX_TASKS -> 0 <= task_count s < 2 ^ 64 ->
  Z.of_nat (done_count (task_list s)) <= task_count s ->
  exists s', reap_tasks s = Ok s' /\
    length (task_list s') = MAX_TASKS /\
    take (length (running (task_list s))) (task_list s') = running (task_list s) /\
    Forall (fun t => state t = TASK_STATE_INVALID /\ tid t = 0)
      (drop (length (running (task_list s))) (task_list s')) /\
    task_count s' = task_count s - Z.of_nat (done_count (task_list s)) /\
    next_tid s' = next_tid s.
Proof.
  intros Hl Hc Hd. destruct (reap_tasks_spec s Hl) as (junk & Hj & ->). eexists. split; [done|]. sysred.
  rewrite take_app_length, drop_app_length, length_app, length_fmap, Hj.
  pose proof (running_le (task_list s)). split_and!; try done.
  - lia.
  - apply Forall_fmap, Forall_true. done.
  - apply u64_small. unfold in_u64. lia.
Qed.

Definition mixed : list TCB :=
  [set_state (demo_tcb 1) TASK_STATE_DONE; demo_tcb 2; blank; set_state (demo_tcb 3) TASK_STATE_DONE; demo_tcb 4]
  ++ replicate 59 blank.

Lemma reap_tasks_correct_witness :
  exists s', reap_tasks (mk_sched mixed 4 false 5) = Ok s' /\
    take 2 (task_list s') = [demo_tcb 2; demo_tcb 4] /\ task_count s' = 2.
Proof.
  destruct (reap_tasks_correct (mk_sched mixed 4 false 5) eq_refl ltac:(cbn; lia) ltac:(vm_compute; discriminate))
    as (s' & E & _ & H1 & _ & H2 & _).
  exists s'. split; [exact E|]. split; [exact H1|exact H2].
Defined.



(** If callers of [kernel_set_priority] keep to the legal range, every
    running task always has a legal priority, and no pass of the manager
    overflows or fails, whatever [rand] returns. *)
Theorem scheduler_priorities (k : nat) (s : system) (rand : nat -> Z) :
  reach (fun p => MIN_PRIORITY <= p <= MAX_PRIORITY) k s -> Z.of_nat k < 2 ^ 32 - 1 ->
  Forall (fun t => MIN_PRIORITY <= priority t <= MAX_PRIORITY) (running (task_list (sys_sched s))) /\
  exists s', manager_pass rand (sys_sched s) = Ok s'.
Proof.
  intros Hr Hk. assert (Forall prio_ok (task_list (sys_sched s))) as Hp.
  { induction Hr as [slots Hl|k b s s' Hr IH Hstep].
    - cbn. apply Forall_fmap, Forall_true. intros t. by unfold prio_ok, compose.
    - eapply prio_step; [done| |]; [eapply reach_inv; [done|]|apply IH]; destruct b; lia. }
  split.
  - apply Forall_forall. intros t Ht. apply list_elem_of_In, filter_In in Ht as [Ht Hs].
    rewrite Forall_forall in Hp. apply Hp; [by apply list_elem_of_In|]. by apply bool_decide_eq_true in Hs.
  - destruct (reach_inv _ _ _ Hr Hk) as [Hi _].
    destruct (manager_pass_ok rand _ (ti_slots _ _ _ (inv_table _ Hi)) (prio_ok_weak _ Hp)) as (s' & E & _).
    by exists s'.
Qed.

Lemma scheduler_priorities_witness : exists s', manager_pass (fun _ => 2) (sys_sched demo) = Ok s'.
Proof. destruct (scheduler_priorities 2 demo (fun _ => 2) (demo_reach _) ltac:(lia)) as [_ H]. exact H. Defined.

(** From every reachable state, once the live threads have finished, in any
    order, one pass of the manager empties the table: all slots are free again
    and the counter is 0. *)
Theorem scheduler_drains (P : Z -> Prop) (k : nat) (s : system) (ths : list ThreadStartArgs) (rand : nat -> Z) :
  reach P k s -> Z.of_nat k < 2 ^ 32 - 1 -> ths ≡ₚ sys_threads s ->
  exists s', manager_pass rand (finish_all (sys_sched s) ths) = Ok s' /\
    occupied (task_list s') = [] /\ task_count s' = 0.
Proof.
  intros Hr Hk Hp. destruct (reach_inv _ _ _ Hr Hk) as [Hi _]. destruct s as [sc ths0 n]. sysred.
  eapply manager_pass_idle. apply finish_all_inv. eapply inv_permute; [symmetry; exact Hp|exact Hi].
Qed.

Lemma scheduler_drains_witness :
  exists s', manager_pass (fun _ => 0) (finish_all (sys_sched demo) [demo_args 2; demo_args 1]) = Ok s' /\
    task_count s' = 0.
Proof.
  destruct (scheduler_drains (fun _ => True) 2 demo [demo_args 2; demo_args 1] (fun _ => 0) (demo_reach _)
    ltac:(lia) ltac:(apply perm_swap)) as (s' & H1 & _ & H2). exists s'. split; [exact H1|exact H2].
Defined.

(** When the id counter has wrapped to 0, the call reports failure and frees the
    argument block of the thread it has just started. *)
Example tid_wrap_frees_running_args :
  kernel_create_thread (mk_sched [blank] 0 false 0) [] 50 1 2 true (Some 9)
  = Ok (mk_created (mk_sched [mk_tcb 0 9 TASK_STATE_RUNNING 50 (copy_name [])] 1 false 1)
          (Some (mk_args 0 1 2 (copy_name []))) 0 0).
Proof. reflexivity. Qed.

(** [kernel_set_priority] does not check the range: at [INT_MAX] the next pass of
    the manager overflows. *)
Example set_priority_unchecked :
  manager_pass (fun _ => 2) (kernel_set_priority (sys_sched demo) 1 INT_MAX) = Undef "signed overflow".
Proof. vm_compute. reflexivity. Qed.

End Sched.
