(* ===== verification/ByteStore.v ===== *)
(** Byte buffers behind a file position, shared by the character device
    ([src/kernel/mydevice.c]) and the in-memory file system ([src/fs/devfs.c]):
    bounded copies, the interface both promise to their users, and what a user
    can rely on for sequences of transfers. *)
From Stdlib Require Import ZArith Lia.
From stdpp Require Import strings numbers gmap base.
From stdpp Require Import list.
From S2P Require Import Prelude.
Open Scope Z_scope.

(** [len] bytes of [l] from [off]; reading outside the array is undefined. *)
Definition mem_slice (l : list Z) (off len : Z) : outcome (list Z) :=
  if (0 <=? off) && (0 <=? len) && (off + len <=? Z.of_nat (length l))
  then Ok (take (Z.to_nat len) (drop (Z.to_nat off) l))
  else Undef "read out of bounds".

(** [memcpy(l + off, bs, ...)]; writing outside the array is undefined. *)
Definition mem_splice (l : list Z) (off : Z) (bs : list Z) : outcome (list Z) :=
  if (0 <=? off) && (off + Z.of_nat (length bs) <=? Z.of_nat (length l))
  then Ok (take (Z.to_nat off) l ++ bs ++ drop (Z.to_nat off + length bs) l)
  else Undef "write out of bounds".

Lemma mem_slice_ok l off len :
  0 <= off -> 0 <= len -> off + len <= Z.of_nat (length l) ->
  mem_slice l off len = Ok (take (Z.to_nat len) (drop (Z.to_nat off) l)).
Proof.
  intros H1 H2 H3. unfold mem_slice.
  apply Z.leb_le in H1 as ->, H2 as ->, H3 as ->. done.
Qed.

Lemma mem_splice_ok l off bs :
  0 <= off -> off + Z.of_nat (length bs) <= Z.of_nat (length l) ->
  mem_splice l off bs = Ok (take (Z.to_nat off) l ++ bs ++ drop (Z.to_nat off + length bs) l).
Proof. intros H1 H2. unfold mem_splice. apply Z.leb_le in H1 as ->, H2 as ->. done. Qed.

Lemma splice_length (l : list Z) off bs :
  0 <= off -> off + Z.of_nat (length bs) <= Z.of_nat (length l) ->
  length (take (Z.to_nat off) l ++ bs ++ drop (Z.to_nat off + length bs) l) = length l.
Proof. intros H1 H2. rewrite !length_app, length_take, length_drop. lia. Qed.

(** ** Interface

    A store has a capacity and, below it, a size; [bytes d] are its first
    [size d] bytes. A read at [off] delivers what the request and the size allow;
    a write at [off] stores what the capacity allows and extends the size. *)
Class ByteStore (D : Type) := {
  wf : D -> Prop;
  capacity : D -> Z;
  bytes : D -> list Z;
  (** number of bytes delivered, the bytes, the new position *)
  read : D -> Z -> Z -> outcome (Z * list Z * Z);
  (** number of bytes taken, the new position, the new store *)
  write : D -> Z -> list Z -> outcome (Z * Z * D)
}.

Class ByteStoreLaws (D : Type) `{ByteStore D} := {
  size_law : forall d, wf d -> Z.of_nat (length (bytes d)) <= capacity d < 2 ^ 63;
  read_law : forall d off count, wf d -> 0 <= off < Z.of_nat (length (bytes d)) -> 0 <= count < 2 ^ 63 ->
    let n := Z.min count (Z.of_nat (length (bytes d)) - off) in
    read d off count = Ok (n, take (Z.to_nat n) (drop (Z.to_nat off) (bytes d)), off + n);
  read_end_law : forall d off count, wf d -> Z.of_nat (length (bytes d)) <= off < 2 ^ 63 ->
    read d off count = Ok (0, [], off);
  write_law : forall d off data, wf d -> 0 <= off <= Z.of_nat (length (bytes d)) -> off < capacity d ->
    Z.of_nat (length data) < 2 ^ 63 ->
    let n := Z.min (Z.of_nat (length data)) (capacity d - off) in
    exists d', write d off data = Ok (n, off + n, d') /\ wf d' /\ capacity d' = capacity d /\
      bytes d' = take (Z.to_nat off) (bytes d) ++ take (Z.to_nat n) data ++ drop (Z.to_nat (off + n)) (bytes d)
}.

(** ** A user of the interface: a run of transfers at one file position *)
Section User.
Context {D : Type} `{ByteStoreLaws D}.

(** Writes the chunks one after another. *)
Fixpoint write_seq (d : D) (off : Z) (chunks : list (list Z)) : outcome (Z * D) :=
  match chunks with
  | [] => Ok (off, d)
  | c :: cs => '(_, off', d') ← write d off c ; write_seq d' off' cs
  end.

(** Reads with the given request sizes one after another, until a read delivers
    nothing or the requests are used up. *)
Fixpoint read_seq (d : D) (off : Z) (reqs : list Z) : outcome (list Z * Z) :=
  match reqs with
  | [] => Ok ([], off)
  | r :: rs =>
      '(n, bs, off') ← read d off r ;
      if n =? 0 then Ok (bs, off')
      else '(bs', off'') ← read_seq d off' rs ; Ok (bs ++ bs', off'')
  end.

Definition total (reqs : list Z) : Z := foldr Z.add 0 reqs.

Lemma total_nonneg reqs : Forall (fun r => 0 < r < 2 ^ 63) reqs -> 0 <= total reqs.
Proof. induction 1; cbn; unfold total in *; lia. Qed.

(** A run of reads delivers the bytes from the position on, as many as were
    asked for, and moves the position past them. *)
Lemma read_seq_spec d reqs : forall off,
  wf d -> 0 <= off <= Z.of_nat (length (bytes d)) -> Forall (fun r => 0 < r < 2 ^ 63) reqs ->
  let n := Z.min (total reqs) (Z.of_nat (length (bytes d)) - off) in
  read_seq d off reqs = Ok (take (Z.to_nat n) (drop (Z.to_nat off) (bytes d)), off + n).
Proof.
  induction reqs as [|r rs IH]; intros off Hwf Hoff Hr; cbn [read_seq total foldr]; cbv zeta.
  - rewrite Z.min_l by lia. by rewrite Z.add_0_r.
  - apply Forall_cons in Hr as [Hr Hrs]. pose proof (total_nonneg _ Hrs) as Ht. fold (total rs).
    pose proof (size_law d Hwf) as Hs.
    destruct (decide (off = Z.of_nat (length (bytes d)))) as [->|Hne].
    + rewrite read_end_law by (done || lia). cbn [mbind outcome_bind]. rewrite Z.sub_diag, Z.min_r by lia.
      cbn. by rewrite Z.add_0_r.
    + rewrite read_law by (done || lia). cbv zeta. cbn [mbind outcome_bind].
      set (L := Z.of_nat (length (bytes d))) in *.
      destruct (Z.eqb_spec (Z.min r (L - off)) 0); [lia|].
      rewrite IH by (done || lia). cbv zeta. cbn [mbind outcome_bind].
      f_equal. f_equal; [|lia].
      replace (Z.to_nat (off + Z.min r (L - off))) with (Z.to_nat off + Z.to_nat (Z.min r (L - off)))%nat by lia.
      rewrite <- drop_drop, take_take_drop. f_equal. lia.
Qed.

(** A run of writes stores the chunks one after another from the position on,
    and touches nothing else. *)
Lemma write_seq_spec chunks : forall d off,
  wf d -> 0 <= off <= Z.of_nat (length (bytes d)) -> Forall (fun c => c <> []) chunks ->
  off + Z.of_nat (length (concat chunks)) <= capacity d ->
  exists d', write_seq d off chunks = Ok (off + Z.of_nat (length (concat chunks)), d') /\
    wf d' /\ capacity d' = capacity d /\
    bytes d' = take (Z.to_nat off) (bytes d) ++ concat chunks
                 ++ drop (Z.to_nat off + length (concat chunks)) (bytes d).
Proof.
  induction chunks as [|c cs IH]; intros d off Hwf Hoff Hne Hfit; cbn [write_seq concat] in *.
  - exists d. cbn [length app]. rewrite Z.add_0_r, Nat.add_0_r, take_drop. done.
  - pose proof (size_law d Hwf) as Hs. rewrite length_app in *. apply Forall_cons in Hne as [Hc Hne].
    assert (0 < length c)%nat by (destruct c; [done|cbn; lia]).
    destruct (write_law d off c Hwf) as (d1 & -> & Hwf1 & Hc1 & Hb1); [lia|lia|lia|].
    cbn [mbind outcome_bind]. rewrite Z.min_l in * by lia.
    rewrite Nat2Z.id, firstn_all in Hb1.
    replace (Z.to_nat (off + Z.of_nat (length c))) with (Z.to_nat off + length c)%nat in Hb1 by lia.
    rewrite app_assoc in Hb1.
    assert (length (take (Z.to_nat off) (bytes d) ++ c) = (Z.to_nat off + length c)%nat) as Hlen
      by (rewrite length_app, length_take; lia).
    destruct (IH d1 (off + Z.of_nat (length c)) Hwf1) as (d' & E & Hwf' & Hc' & Hb'); try done; try lia.
    { rewrite Hb1, length_app. lia. }
    exists d'. rewrite E. split_and!; [|done|congruence|].
    + f_equal. f_equal. lia.
    + rewrite Hb', Hb1.
      replace (Z.to_nat (off + Z.of_nat (length c))) with (Z.to_nat off + length c)%nat by lia.
      rewrite take_app_length' by lia. rewrite drop_app_ge by lia. rewrite Hlen, drop_drop, <- !app_assoc.
      do 4 f_equal. lia.
Qed.

(** Round trip: what a run of writes put at a position, a run of reads from that
    position delivers, however the two runs were cut into transfers. *)
Lemma write_read_roundtrip d off chunks reqs :
  wf d -> 0 <= off <= Z.of_nat (length (bytes d)) -> Forall (fun c => c <> []) chunks ->
  off + Z.of_nat (length (concat chunks)) <= capacity d ->
  Forall (fun r => 0 < r < 2 ^ 63) reqs -> total reqs = Z.of_nat (length (concat chunks)) ->
  exists d' off', write_seq d off chunks = Ok (off', d') /\
    read_seq d' off reqs = Ok (concat chunks, off').
Proof.
  intros Hwf Hoff Hne Hfit Hr Ht.
  destruct (write_seq_spec chunks d off Hwf Hoff Hne Hfit) as (d' & E & Hwf' & _ & Hb).
  exists d', (off + Z.of_nat (length (concat chunks))). split; [exact E|].
  assert (length (take (Z.to_nat off) (bytes d)) = Z.to_nat off) as Hl by (rewrite length_take; lia).
  assert (off + Z.of_nat (length (concat chunks)) <= Z.of_nat (length (bytes d'))) as Hlen.
  { rewrite Hb, !length_app, Hl. lia. }
  rewrite read_seq_spec by (done || lia). cbv zeta. rewrite Ht, Z.min_l by lia.
  f_equal. f_equal. rewrite Hb, Nat2Z.id, drop_app_length' by lia. by rewrite take_app_length.
Qed.

End User.
