(* ===== verification/MyDevice.v ===== *)
(** Character device of [src/kernel/mydevice.c]: creation and clean-up, open
    counting, positioned reads and writes, ioctl commands. *)
From Stdlib Require Import ZArith Lia.
From stdpp Require Import strings numbers gmap base.
From stdpp Require Import list.
From S2P Require Import Prelude ByteStore.
Open Scope Z_scope.

Module MyDev.

Definition EINVAL : Z := 22.
Definition ENOMEM : Z := 12.
Definition ENOTTY : Z := 25.
Definition DEFAULT_PAGE_SIZE : Z := 4096.
Definition MAX_BUFFER_SIZE_MULTIPLIER : Z := 10.
Definition MY_IOCTL_GET_BUFFER_SIZE : Z := 1.
Definition MY_IOCTL_SET_BUFFER_SIZE : Z := 2.
Definition MY_IOCTL_CLEAR_BUFFER : Z := 3.
Definition MY_IOCTL_GET_OPEN_COUNT : Z := 4.

(** [lock] is [true] while the mutex is held. *)
Record my_device := mk_dev { buffer : list Z; buffer_size : Z; lock : bool; open_count : Z }.

Definition set_lock (d : my_device) (b : bool) : my_device :=
  mk_dev (buffer d) (buffer_size d) b (open_count d).
Definition pthread_mutex_lock (d : my_device) : outcome my_device :=
  b ← spin_acquire (lock d) ; Ok (set_lock d b).
Definition pthread_mutex_unlock (d : my_device) : my_device := set_lock d false.

Definition zeros (n : Z) : list Z := replicate (Z.to_nat n) 0.

(** The page size the code works with, from what [sysconf] returns. *)
Definition page_size_to_use (page_size_val : Z) : Z :=
  if 0 <? page_size_val then page_size_val else DEFAULT_PAGE_SIZE.

(** [my_device_init]. [mem1], [mem2]: whether the two [malloc] calls succeed;
    [mutex_ret]: result of [pthread_mutex_init]. Result: [*dev], the return value
    and the number of blocks left allocated. *)
Definition my_device_init (mem1 mem2 : bool) (page_size_val mutex_ret : Z)
    : option my_device * Z * Z :=
  if negb mem1 then (None, - ENOMEM, 0)
  else
    let size := page_size_to_use page_size_val in
    if negb mem2 then (None, - ENOMEM, 1 - 1)
    else if negb (mutex_ret =? 0) then (None, - mutex_ret, 2 - 1 - 1)
    else (Some (mk_dev (zeros size) size false 0), 0, 2).

(** [my_device_cleanup]: the number of blocks it frees. *)
Definition my_device_cleanup (dev : option my_device) : Z :=
  match dev with Some _ => 2 | None => 0 end.

Definition my_open (dev : option my_device) : Z * option my_device :=
  match dev with
  | None => (- EINVAL, None)
  | Some d => (0, Some (mk_dev (buffer d) (buffer_size d) (lock d) (s32 (open_count d + 1))))
  end.

Definition my_release (dev : option my_device) : Z * option my_device :=
  match dev with
  | None => (- EINVAL, None)
  | Some d => (0, Some (mk_dev (buffer d) (buffer_size d) (lock d) (s32 (open_count d - 1))))
  end.

(** What a transfer leaves behind: return value, device, user buffer, [*off]. *)
Record transfer := mk_transfer {
  t_ret : Z; t_dev : option my_device; t_buf : option (list Z); t_off : option Z
}.

Definition my_read (dev : option my_device) (buf : option (list Z)) (count : Z) (off : option Z)
    : outcome transfer :=
  match dev, buf, off with
  | Some d, Some b, Some o =>
      d ← pthread_mutex_lock d ;
      if (o <? 0) || (buffer_size d <=? o)
      then Ok (mk_transfer 0 (Some (pthread_mutex_unlock d)) buf off)
      else
        let available := u64 (buffer_size d - o) in
        let read_count := if count <? available then count else available in
        if 0 <? read_count then
          bs ← mem_slice (buffer d) o read_count ;
          b ← mem_splice b 0 bs ;
          Ok (mk_transfer (s64 read_count) (Some (pthread_mutex_unlock d)) (Some b) (Some (s64 (o + read_count))))
        else Ok (mk_transfer 0 (Some (pthread_mutex_unlock d)) buf off)
  | _, _, _ => Ok (mk_transfer (- EINVAL) dev buf off)
  end.

Definition my_write (dev : option my_device) (buf : option (list Z)) (count : Z) (off : option Z)
    : outcome transfer :=
  match dev, buf, off with
  | Some d, Some b, Some o =>
      d ← pthread_mutex_lock d ;
      if (o <? 0) || (buffer_size d <=? o)
      then Ok (mk_transfer 0 (Some (pthread_mutex_unlock d)) buf off)
      else
        let available := u64 (buffer_size d - o) in
        let write_count := if count <? available then count else available in
        if 0 <? write_count then
          bs ← mem_slice b 0 write_count ;
          l ← mem_splice (buffer d) o bs ;
          Ok (mk_transfer (s64 write_count)
                (Some (pthread_mutex_unlock (mk_dev l (buffer_size d) (lock d) (open_count d))))
                buf (Some (s64 (o + write_count))))
        else Ok (mk_transfer 0 (Some (pthread_mutex_unlock d)) buf off)
  | _, _, _ => Ok (mk_transfer (- EINVAL) dev buf off)
  end.

(** The case [MY_IOCTL_SET_BUFFER_SIZE]; [mem] says whether [malloc] succeeds. *)
Definition ioctl_set (d : my_device) (arg : option Z) (page_size_val : Z) (mem : bool)
    : outcome (Z * my_device) :=
  match arg with
  | None => Ok (- EINVAL, d)
  | Some new_size =>
      if new_size =? 0 then Ok (- EINVAL, d)
      else
        let max_size := u64 (MAX_BUFFER_SIZE_MULTIPLIER * page_size_to_use page_size_val) in
        if max_size <? new_size then Ok (- EINVAL, d)
        else
          d ← pthread_mutex_lock d ;
          if new_size =? buffer_size d then Ok (0, pthread_mutex_unlock d)
          else if negb mem then Ok (- ENOMEM, pthread_mutex_unlock d)
          else Ok (0, pthread_mutex_unlock (mk_dev (zeros new_size) new_size (lock d) (open_count d)))
  end.

(** [my_ioctl]: return value, device and what [arg] points to. *)
Definition my_ioctl (dev : option my_device) (cmd : Z) (arg : option Z) (page_size_val : Z) (mem : bool)
    : outcome (Z * option my_device * option Z) :=
  match dev with
  | None => Ok (- EINVAL, None, arg)
  | Some d =>
      if cmd =? MY_IOCTL_GET_BUFFER_SIZE then
        match arg with
        | None => Ok (- EINVAL, dev, arg)
        | Some _ => Ok (0, dev, Some (buffer_size d))
        end
      else if cmd =? MY_IOCTL_SET_BUFFER_SIZE then
        '(ret, d) ← ioctl_set d arg page_size_val mem ; Ok (ret, Some d, arg)
      else if cmd =? MY_IOCTL_CLEAR_BUFFER then
        d ← pthread_mutex_lock d ;
        l ← mem_splice (buffer d) 0 (zeros (buffer_size d)) ;
        Ok (0, Some (pthread_mutex_unlock (mk_dev l (buffer_size d) (lock d) (open_count d))), arg)
      else if cmd =? MY_IOCTL_GET_OPEN_COUNT then
        match arg with
        | None => Ok (- EINVAL, dev, arg)
        | Some _ => Ok (0, dev, Some (open_count d))
        end
      else Ok (- ENOTTY, dev, arg)
  end.

(** ** Invariant *)

(** The buffer has the recorded size and the mutex is free. *)
Record dev_wf (d : my_device) : Prop := mk_wf {
  wf_size : Z.of_nat (length (buffer d)) = buffer_size d;
  wf_pos : 0 < buffer_size d < 2 ^ 63;
  wf_lock : lock d = false;
  wf_count : - 2 ^ 31 <= open_count d < 2 ^ 31
}.

(** Calls a user can make, with the data and the environment's answers. *)
Inductive dev_op : Type :=
| OpOpen
| OpRelease
| OpRead (buf : option (list Z)) (count : Z) (off : option Z)
| OpWrite (buf : option (list Z)) (count : Z) (off : option Z)
| OpIoctl (cmd : Z) (arg : option Z) (mem : bool).

(** The user's buffer is as long as the count that is passed with it, and the
    numbers fit their C types. *)
Definition op_ok (o : dev_op) : Prop :=
  match o with
  | OpRead buf count off | OpWrite buf count off =>
      0 <= count < 2 ^ 64 /\ (forall b, buf = Some b -> count <= Z.of_nat (length b)) /\
      (forall x, off = Some x -> - 2 ^ 63 <= x < 2 ^ 63)
  | OpIoctl cmd arg _ => forall x, arg = Some x -> 0 <= x < 2 ^ 64
  | _ => True
  end.

Definition run_op (page : Z) (d : my_device) (o : dev_op) : outcome (option my_device) :=
  match o with
  | OpOpen => Ok (my_open (Some d)).2
  | OpRelease => Ok (my_release (Some d)).2
  | OpRead buf count off => r ← my_read (Some d) buf count off ; Ok (t_dev r)
  | OpWrite buf count off => r ← my_write (Some d) buf count off ; Ok (t_dev r)
  | OpIoctl cmd arg mem => '(_, d', _) ← my_ioctl (Some d) cmd arg page mem ; Ok d'
  end.

Fixpoint run_ops (page : Z) (d : my_device) (os : list dev_op) : outcome my_device :=
  match os with
  | [] => Ok d
  | o :: os' =>
      r ← run_op page d o ;
      match r with
      | Some d' => run_ops page d' os'
      | None => Undef "device lost"
      end
  end.

(** ** Lemmas *)

Lemma zeros_length n : 0 <= n -> Z.of_nat (length (zeros n)) = n.
Proof. intros Hn. unfold zeros. rewrite length_replicate. lia. Qed.

Lemma lock_ok d : lock d = false -> pthread_mutex_lock d = Ok (set_lock d true).
Proof. intros Hl. unfold pthread_mutex_lock. by rewrite Hl. Qed.

Lemma unlock_locked d : lock d = false -> pthread_mutex_unlock (set_lock d true) = d.
Proof. destruct d. cbn. by intros ->. Qed.

(** Positions where nothing is transferred. *)
Definition outside (d : my_device) (o : Z) : Prop := o < 0 \/ buffer_size d <= o.

Lemma outside_test d o : outside d o <-> (o <? 0) || (buffer_size d <=? o) = true.
Proof. unfold outside. rewrite orb_true_iff, Z.ltb_lt, Z.leb_le. done. Qed.

Lemma my_read_outside d b count o :
  dev_wf d -> outside d o ->
  my_read (Some d) (Some b) count (Some o) = Ok (mk_transfer 0 (Some d) (Some b) (Some o)).
Proof.
  intros [_ _ Hl _] Ho. unfold my_read. rewrite lock_ok by done. cbn [mbind outcome_bind].
  rewrite unlock_locked by done. cbn [buffer_size set_lock].
  apply outside_test in Ho as ->. done.
Qed.

Lemma my_write_outside d b count o :
  dev_wf d -> outside d o ->
  my_write (Some d) (Some b) count (Some o) = Ok (mk_transfer 0 (Some d) (Some b) (Some o)).
Proof.
  intros [_ _ Hl _] Ho. unfold my_write. rewrite lock_ok by done. cbn [mbind outcome_bind].
  rewrite unlock_locked by done. cbn [buffer_size set_lock].
  apply outside_test in Ho as ->. done.
Qed.

(** Bytes moved by a transfer at a legal position. *)
Definition moved (d : my_device) (count o : Z) : Z := Z.min count (buffer_size d - o).

Lemma inside_test d o : 0 <= o < buffer_size d -> (o <? 0) || (buffer_size d <=? o) = false.
Proof. intros H. apply orb_false_iff. rewrite Z.ltb_ge, Z.leb_gt. lia. Qed.

Lemma moved_eq d count o : dev_wf d -> 0 <= o < buffer_size d ->
  (if count <? u64 (buffer_size d - o) then count else u64 (buffer_size d - o)) = moved d count o.
Proof.
  intros [_ Hp _ _] Ho. rewrite u64_small by (unfold in_u64; lia). unfold moved.
  zcase (count <? buffer_size d - o).
Qed.

Lemma my_read_inside d b count o :
  dev_wf d -> 0 <= o < buffer_size d -> 0 <= count -> count <= Z.of_nat (length b) ->
  let n := moved d count o in
  my_read (Some d) (Some b) count (Some o)
  = Ok (mk_transfer n (Some d)
          (Some (take (Z.to_nat n) (drop (Z.to_nat o) (buffer d)) ++ drop (Z.to_nat n) b)) (Some (o + n))).
Proof.
  intros Hwf Ho Hc Hb n. pose proof Hwf as [Hs Hp Hl _]. unfold my_read.
  rewrite lock_ok by done. cbn [mbind outcome_bind]. rewrite unlock_locked by done.
  cbn [buffer_size set_lock buffer]. rewrite inside_test, moved_eq by done. fold n. cbv zeta.
  assert (0 <= n <= buffer_size d - o /\ n <= count) as Hn by (unfold n, moved; lia).
  destruct (Z.ltb_spec 0 n).
  - rewrite mem_slice_ok by lia. cbn [mbind outcome_bind].
    rewrite mem_splice_ok by (rewrite ?length_take, ?length_drop; lia). cbn [mbind outcome_bind].
    rewrite !s64_small by lia. rewrite length_take, length_drop.
    replace (Z.to_nat 0 + Z.to_nat n `min` (length (buffer d) - Z.to_nat o))%nat with (Z.to_nat n) by lia. done.
  - replace n with 0 by lia. rewrite Z.add_0_r. reflexivity.
Qed.

Lemma my_write_inside d b count o :
  dev_wf d -> 0 <= o < buffer_size d -> 0 <= count -> count <= Z.of_nat (length b) ->
  let n := moved d count o in
  my_write (Some d) (Some b) count (Some o)
  = Ok (mk_transfer n
          (Some (mk_dev (take (Z.to_nat o) (buffer d) ++ take (Z.to_nat n) b ++ drop (Z.to_nat (o + n)) (buffer d))
                   (buffer_size d) false (open_count d)))
          (Some b) (Some (o + n))).
Proof.
  intros Hwf Ho Hc Hb n. pose proof Hwf as [Hs Hp Hl _]. unfold my_write.
  rewrite lock_ok by done. cbn [mbind outcome_bind]. rewrite unlock_locked by done.
  cbn [buffer_size set_lock buffer open_count]. rewrite inside_test, moved_eq by done. fold n. cbv zeta.
  assert (0 <= n <= buffer_size d - o /\ n <= count) as Hn by (unfold n, moved; lia).
  destruct (Z.ltb_spec 0 n).
  - rewrite mem_slice_ok by lia. cbn [mbind outcome_bind]. change (Z.to_nat 0) with 0%nat. rewrite drop_0.
    rewrite mem_splice_ok by (rewrite ?length_take; lia). cbn [mbind outcome_bind].
    rewrite !s64_small by lia. rewrite length_take.
    replace (Z.to_nat o + Z.to_nat n `min` length b)%nat with (Z.to_nat (o + n)) by lia. reflexivity.
  - replace n with 0 by lia. rewrite Z.add_0_r. change (Z.to_nat 0) with 0%nat.
    rewrite take_0, app_nil_l, take_drop.
    destruct d. cbn in *. by subst.
Qed.

Lemma write_wf d b n o :
  dev_wf d -> 0 <= o -> 0 <= n -> o + n <= buffer_size d -> n <= Z.of_nat (length b) ->
  dev_wf (mk_dev (take (Z.to_nat o) (buffer d) ++ take (Z.to_nat n) b ++ drop (Z.to_nat (o + n)) (buffer d))
            (buffer_size d) false (open_count d)).
Proof.
  intros [Hs Hp Hl Hc] Ho Hn Hon Hb. split; cbn; try done.
  rewrite !length_app, !length_take, length_drop. lia.
Qed.

(** The device is a byte store whose size is its capacity. *)
#[export] Instance my_device_store : ByteStore my_device := {
  wf := dev_wf;
  capacity := buffer_size;
  bytes := buffer;
  read d off count :=
    r ← my_read (Some d) (Some (zeros count)) count (Some off) ;
    Ok (t_ret r, take (Z.to_nat (t_ret r)) (default [] (t_buf r)), default off (t_off r));
  write d off data :=
    r ← my_write (Some d) (Some data) (Z.of_nat (length data)) (Some off) ;
    Ok (t_ret r, default off (t_off r), default d (t_dev r))
}.

#[export] Instance my_device_laws : ByteStoreLaws my_device.
Proof.
  split; cbn [wf capacity bytes read write my_device_store].
  - intros d [Hs Hp _ _]. lia.
  - intros d off count Hwf Ho Hc. pose proof Hwf as [Hs Hp _ _]. cbv zeta.
    rewrite my_read_inside by (rewrite ?zeros_length; (done || lia)). unfold moved.
    cbn [mbind outcome_bind t_ret t_buf t_off default from_option id]. rewrite Hs.
    set (n := Z.min count (buffer_size d - off)). rewrite take_app_length'; [done|].
    rewrite length_take, length_drop. lia.
  - intros d off count Hwf Ho. pose proof Hwf as [Hs Hp _ _].
    rewrite my_read_outside by (done || right; lia). done.
  - intros d off data Hwf Ho Hoc Hd. pose proof Hwf as [Hs Hp _ _]. cbv zeta.
    rewrite my_write_inside by (done || lia). unfold moved. cbn [mbind outcome_bind t_ret t_dev t_off default from_option id].
    eexists. split; [done|]. split; [apply write_wf; (done || lia)|]. done.
Qed.

Lemma s32_range x : - 2 ^ 31 <= s32 x < 2 ^ 31.
Proof.
  unfold s32, signed, wrap. change (32 - 1) with 31.
  pose proof (Z.mod_pos_bound x (2 ^ 32) ltac:(lia)). destruct (Z.ltb_spec (x mod 2 ^ 32) (2 ^ 31)); lia.
Qed.

Lemma page_positive p : 0 < page_size_to_use p.
Proof. unfold page_size_to_use, DEFAULT_PAGE_SIZE. destruct (Z.ltb_spec 0 p); lia. Qed.

Lemma open_wf d c : dev_wf d -> dev_wf (mk_dev (buffer d) (buffer_size d) (lock d) (s32 c)).
Proof. intros [? ? ? ?]. split; try done. apply s32_range. Qed.

Lemma zeros_wf n c : 0 < n < 2 ^ 63 -> - 2 ^ 31 <= c < 2 ^ 31 -> dev_wf (mk_dev (zeros n) n false c).
Proof. intros Hn Hc. split; cbn [buffer buffer_size lock open_count]; try done. apply zeros_length. lia. Qed.

(** [MY_IOCTL_SET_BUFFER_SIZE] on a well-formed device. *)
Lemma ioctl_set_spec d arg page mem :
  dev_wf d -> page_size_to_use page < 2 ^ 59 -> (forall x, arg = Some x -> 0 <= x < 2 ^ 64) ->
  exists ret d', ioctl_set d arg page mem = Ok (ret, d') /\ dev_wf d' /\
    (d' <> d -> ret = 0 /\ exists n, arg = Some n /\ 0 < n <= 10 * page_size_to_use page /\
       d' = mk_dev (zeros n) n false (open_count d)).
Proof.
  intros Hwf Hpage Harg. pose proof Hwf as [Hs Hp Hl Hc]. unfold ioctl_set.
  destruct arg as [n|]; [|by exists (- EINVAL), d]. specialize (Harg n eq_refl). pose proof (page_positive page).
  destruct (Z.eqb_spec n 0); [by exists (- EINVAL), d|]. unfold MAX_BUFFER_SIZE_MULTIPLIER.
  rewrite u64_small by (unfold in_u64; lia). cbv zeta.
  destruct (Z.ltb_spec (10 * page_size_to_use page) n); [by exists (- EINVAL), d|].
  rewrite lock_ok by done. cbn [mbind outcome_bind]. rewrite unlock_locked by done.
  cbn [buffer_size set_lock open_count].
  destruct (n =? buffer_size d); [by exists 0, d|]. destruct mem; [|by exists (- ENOMEM), d]. cbn [negb].
  eexists _, _. split; [done|]. split; [apply (zeros_wf n (open_count d)); [lia|exact Hc]|].
  intros _. split; [done|]. exists n. split; [done|]. split; [lia|done].
Qed.

Lemma clear_spec d :
  dev_wf d -> mem_splice (buffer d) 0 (zeros (buffer_size d)) = Ok (zeros (buffer_size d)).
Proof.
  intros [Hs Hp _ _]. pose proof (zeros_length (buffer_size d) ltac:(lia)).
  rewrite mem_splice_ok by lia. change (Z.to_nat 0) with 0%nat. cbn [take app Nat.add].
  rewrite drop_ge by lia. by rewrite app_nil_r.
Qed.

Lemma my_ioctl_wf d cmd arg page mem :
  dev_wf d -> page_size_to_use page < 2 ^ 59 -> (forall x, arg = Some x -> 0 <= x < 2 ^ 64) ->
  exists ret d' arg', my_ioctl (Some d) cmd arg page mem = Ok (ret, Some d', arg') /\ dev_wf d'.
Proof.
  intros Hwf Hpage Harg. pose proof Hwf as [Hs Hp Hl Hc]. unfold my_ioctl.
  destruct (cmd =? _); [destruct arg; by eauto 10|]. destruct (cmd =? _).
  { destruct (ioctl_set_spec d arg page mem Hwf Hpage Harg) as (ret & d' & -> & Hd & _). cbn. by eauto 10. }
  destruct (cmd =? _).
  { rewrite lock_ok by done. cbn [mbind outcome_bind buffer buffer_size set_lock open_count].
    rewrite clear_spec by done. cbn [mbind outcome_bind]. do 3 eexists. split; [done|]. by apply zeros_wf. }
  destruct (cmd =? _); [destruct arg; by eauto 10|by eauto 10].
Qed.

Lemma run_op_wf page d o :
  dev_wf d -> page_size_to_use page < 2 ^ 59 -> op_ok o ->
  exists d', run_op page d o = Ok (Some d') /\ dev_wf d'.
Proof.
  intros Hwf Hpage Ho. pose proof Hwf as [Hs Hp Hl Hc].
  destruct o as [| |buf count off|buf count off|cmd arg mem]; cbn [run_op op_ok] in *.
  - eexists. split; [done|]. by apply open_wf.
  - eexists. split; [done|]. by apply open_wf.
  - destruct Ho as (Hcount & Hbuf & Hoff). destruct buf as [b|]; [|by eauto]. destruct off as [o|]; [|by eauto].
    specialize (Hbuf b eq_refl). destruct (decide (0 <= o < buffer_size d)).
    + rewrite my_read_inside by (done || lia). by eauto.
    + rewrite my_read_outside by (done || unfold outside; lia). by eauto.
  - destruct Ho as (Hcount & Hbuf & Hoff). destruct buf as [b|]; [|by eauto]. destruct off as [o|]; [|by eauto].
    specialize (Hbuf b eq_refl). destruct (decide (0 <= o < buffer_size d)).
    + rewrite my_write_inside by (done || lia). eexists. split; [done|].
      apply write_wf; try done; unfold moved; lia.
    + rewrite my_write_outside by (done || unfold outside; lia). by eauto.
  - destruct (my_ioctl_wf d cmd arg page mem Hwf Hpage Ho) as (ret & d' & arg' & -> & Hd). by eauto.
Qed.

Lemma run_ops_wf page os : forall d,
  dev_wf d -> page_size_to_use page < 2 ^ 59 -> Forall op_ok os ->
  exists d', run_ops page d os = Ok d' /\ dev_wf d'.
Proof.
  induction os as [|o os IH]; intros d Hwf Hpage Hos; cbn [run_ops]; [by eauto|].
  apply Forall_cons in Hos as [Ho Hos].
  destruct (run_op_wf page d o Hwf Hpage Ho) as (d1 & -> & Hd1). by apply IH.
Qed.

(** ** Theorems *)

(** C29: [my_device_init] either returns 0 and a device with a zeroed buffer of one
    page, a free mutex, no opens, and the two blocks allocated; or it returns a
    nonzero error, sets the pointer to NULL and leaves no block allocated. From
    a created device, any sequence of opens, releases, reads, writes and ioctl
    commands (arbitrary offsets, commands and arguments, NULLs and failing
    allocations included) runs without touching memory outside the buffers,
    never waits on its own mutex, and keeps the buffer's length equal to
    [buffer_size]; clean-up frees exactly what was allocated. *)
Theorem my_device_safe (mem1 mem2 : bool) (page mutex_ret : Z) (os : list dev_op) :
  page_size_to_use page < 2 ^ 59 -> Forall op_ok os ->
  match my_device_init mem1 mem2 page mutex_ret with
  | (Some d, ret, blocks) =>
      ret = 0 /\ buffer d = zeros (page_size_to_use page) /\ open_count d = 0 /\
      blocks = my_device_cleanup (Some d) /\
      exists d', run_ops page d os = Ok d' /\
        Z.of_nat (length (buffer d')) = buffer_size d' /\ lock d' = false
  | (None, ret, blocks) => ret <> 0 /\ blocks = 0
  end.
Proof.
  intros Hpage Hos. unfold my_device_init. destruct mem1; [|done]. destruct mem2; [|done]. cbn [negb].
  destruct (Z.eqb_spec mutex_ret 0); cbn [negb]; [|split; lia].
  split_and!; try done. pose proof (page_positive page).
  destruct (run_ops_wf page os (mk_dev (zeros (page_size_to_use page)) (page_size_to_use page) false 0)
    ltac:(apply zeros_wf; lia) Hpage Hos) as (d' & E & [H1 _ H2 _]). by exists d'.
Qed.

Definition demo_ops : list dev_op :=
  [OpOpen; OpWrite (Some [7; 8; 9]) 3 (Some 14); OpRead (Some [0; 0]) 2 (Some (-5)); OpIoctl 2 (Some 40) true;
   OpIoctl 2 (Some 40000) true; OpIoctl 3 None true; OpRelease].

Lemma my_device_safe_witness :
  exists d', run_ops 16 (mk_dev (zeros 16) 16 false 0) demo_ops = Ok d' /\
    Z.of_nat (length (buffer d')) = buffer_size d' /\ lock d' = false.
Proof.
  assert (Forall op_ok demo_ops) as Hos.
  { unfold demo_ops. repeat apply Forall_cons_2; try apply Forall_nil_2; cbn [op_ok];
      repeat split; intros; simplify_eq; cbn; lia. }
  destruct (my_device_safe true true 16 0 demo_ops ltac:(reflexivity) Hos) as (_ & _ & _ & _ & H). exact H.
Defined.

(** What a run of [my_write] calls stores at a position, a run of [my_read]
    calls from that position delivers, byte for byte and in order, however the
    two runs are cut into transfers; the final file positions agree. *)
Theorem my_device_roundtrip (d : my_device) (off : Z) (chunks : list (list Z)) (reqs : list Z) :
  dev_wf d -> 0 <= off -> Forall (fun c => c <> []) chunks ->
  off + Z.of_nat (length (concat chunks)) <= buffer_size d ->
  Forall (fun r => 0 < r < 2 ^ 63) reqs -> total reqs = Z.of_nat (length (concat chunks)) ->
  exists d' off', write_seq d off chunks = Ok (off', d') /\
    read_seq d' off reqs = Ok (concat chunks, off').
Proof.
  intros Hwf Hoff Hne Hfit Hr Ht. apply write_read_roundtrip; try done.
  pose proof (wf_size _ Hwf). cbn. lia.
Qed.

Lemma my_device_roundtrip_witness :
  exists d' off', write_seq (mk_dev (zeros 8) 8 false 0) 2 [[1; 2]; [3]; [4; 5; 6]] = Ok (off', d') /\
    read_seq d' 2 [4; 2] = Ok ([1; 2; 3; 4; 5; 6], off').
Proof.
  apply (my_device_roundtrip (mk_dev (zeros 8) 8 false 0) 2 [[1; 2]; [3]; [4; 5; 6]] [4; 2]).
  - apply zeros_wf; lia.
  - lia.
  - by repeat constructor.
  - cbn. lia.
  - repeat constructor; lia.
  - reflexivity.
Defined.

(** Resizing the buffer: a size of 0 or more than ten pages is refused; a
    failed allocation or an unchanged size leaves the device as it is; otherwise
    the new buffer has the requested size and is zeroed. Every path leaves the
    mutex free. *)
Theorem my_ioctl_resize (d : my_device) (n page : Z) (mem : bool) :
  dev_wf d -> page_size_to_use page < 2 ^ 59 -> 0 <= n < 2 ^ 64 ->
  my_ioctl (Some d) MY_IOCTL_SET_BUFFER_SIZE (Some n) page mem =
  Ok (if (n =? 0) || (10 * page_size_to_use page <? n) then (- EINVAL, Some d, Some n)
      else if n =? buffer_size d then (0, Some d, Some n)
      else if mem then (0, Some (mk_dev (zeros n) n false (open_count d)), Some n)
      else (- ENOMEM, Some d, Some n)).
Proof.
  intros Hwf Hpage Hn. pose proof (page_positive page). cbn [my_ioctl].
  change (MY_IOCTL_SET_BUFFER_SIZE =? MY_IOCTL_GET_BUFFER_SIZE) with false.
  change (MY_IOCTL_SET_BUFFER_SIZE =? MY_IOCTL_SET_BUFFER_SIZE) with true. cbv iota.
  unfold ioctl_set, MAX_BUFFER_SIZE_MULTIPLIER. rewrite u64_small by (unfold in_u64; lia).
  destruct (n =? 0); [done|]. destruct (_ <? n); [done|]. cbn [orb].
  rewrite lock_ok by apply Hwf. cbn [mbind outcome_bind]. rewrite unlock_locked by apply Hwf.
  cbn [buffer_size set_lock]. destruct (n =? _); [done|]. by destruct mem.
Qed.

Lemma my_ioctl_resize_witness :
  my_ioctl (Some (mk_dev (zeros 8) 8 false 0)) MY_IOCTL_SET_BUFFER_SIZE (Some 12) 4 true
  = Ok (0, Some (mk_dev (zeros 12) 12 false 0), Some 12).
Proof.
  rewrite (my_ioctl_resize (mk_dev (zeros 8) 8 false 0) 12 4 true);
    [reflexivity|apply zeros_wf; lia|reflexivity|lia].
Defined.

End MyDev.
