(* ===== verification/Devfs.v ===== *)
(** In-memory file system of [src/fs/devfs.c]: inodes, reads and writes of the
    buffer file, eviction, and the mount path [devfs_fill_super]. The functions of
    the Linux VFS it calls are inputs of the model. *)
From Stdlib Require Import ZArith Lia.
From stdpp Require Import strings numbers gmap base.
From stdpp Require Import list.
From S2P Require Import Prelude ByteStore.
Open Scope Z_scope.

Module DevFS.

Definition EIO : Z := 5.
Definition EFAULT : Z := 14.
Definition EINVAL : Z := 22.
Definition ENOMEM : Z := 12.
Definition ENOSPC : Z := 28.
Definition S_IFMT : Z := 61440.
Definition S_IFREG : Z := 32768.
Definition S_IFDIR : Z := 16384.
Definition PAGE_SIZE : Z := 4096.
Definition DEVFS_DEFAULT_BUF_SIZE : Z := PAGE_SIZE.

(** [buffer] is [None] for a NULL pointer. *)
Record devfs_inode_info := mk_info { buffer : option (list Z); buffer_size : Z; lock : bool }.

Inductive inode_ops : Type := NoOps | devfs_dir_inode_operations.
Inductive file_ops : Type := NoFops | devfs_file_operations | simple_dir_operations.

(** The fields of an inode that the code reads or that distinguish its inodes;
    owner, block count and the other two time stamps are only ever written. *)
Record inode := mk_inode {
  i_ino : Z; i_mode : Z; i_op : inode_ops; i_fop : file_ops; i_nlink : Z;
  i_size : Z; i_private : option devfs_inode_info; i_mtime : Z
}.

(** [copy_to_user] and [copy_from_user]: from the old contents of the destination
    and the source bytes, the number of bytes not copied and the new contents of
    the destination. *)
Definition user_copy : Type := list Z -> list Z -> Z * list Z.

(** What the kernel documents of them: the destination keeps its length, and a
    result of 0 means that everything was copied. *)
Record copy_laws (f : user_copy) : Prop := mk_laws {
  copy_length : forall old src, length old = length src -> length (f old src).2 = length src;
  copy_done : forall old src, (f old src).1 = 0 -> (f old src).2 = src
}.

Definition set_private (i : inode) (info : devfs_inode_info) (size mtime : Z) : inode :=
  mk_inode (i_ino i) (i_mode i) (i_op i) (i_fop i) (i_nlink i) size (Some info) mtime.
Definition with_lock (i : inode) (info : devfs_inode_info) (b : bool) : inode :=
  set_private i (mk_info (buffer info) (buffer_size info) b) (i_size i) (i_mtime i).

(** What a transfer leaves behind: return value, [*ppos], inode, user buffer. *)
Record transfer := mk_transfer { x_ret : Z; x_pos : Z; x_inode : inode; x_user : list Z }.

(** [devfs_read]. [user] is the user's buffer; [loff_t] values compared with
    [size_t] values are converted to unsigned. *)
Definition devfs_read (ctu : user_copy) (i : inode) (user : list Z) (count ppos : Z) : outcome transfer :=
  match i_private i with
  | Some (mk_info (Some buf) size lk) =>
      lk ← spin_acquire lk ;
      let done := with_lock i (mk_info (Some buf) size lk) false in
      let file_size := u64 (i_size i) in
      if file_size <=? u64 ppos then Ok (mk_transfer 0 ppos done user)
      else
        let count := if u64 (file_size - u64 ppos) <? count then u64 (file_size - u64 ppos) else count in
        bs ← mem_slice buf ppos count ;
        old ← mem_slice user 0 count ;
        let '(rest, window) := ctu old bs in
        user' ← mem_splice user 0 window ;
        if negb (rest =? 0) then Ok (mk_transfer (- EFAULT) ppos done user')
        else Ok (mk_transfer (s64 count) (s64 (u64 ppos + count)) done user')
  | _ => Ok (mk_transfer (- EIO) ppos i user)
  end.

(** [devfs_write]; [now] is the time of the call. *)
Definition devfs_write (cfu : user_copy) (now : Z) (i : inode) (user : list Z) (count ppos : Z)
    : outcome transfer :=
  match i_private i with
  | Some (mk_info (Some buf) size lk) =>
      lk ← spin_acquire lk ;
      if size <=? u64 ppos
      then Ok (mk_transfer (- ENOSPC) ppos (with_lock i (mk_info (Some buf) size lk) false) user)
      else
        let count := if u64 (size - u64 ppos) <? count then u64 (size - u64 ppos) else count in
        old ← mem_slice buf ppos count ;
        bs ← mem_slice user 0 count ;
        let '(rest, window) := cfu old bs in
        buf' ← mem_splice buf ppos window ;
        if negb (rest =? 0)
        then Ok (mk_transfer (- EFAULT) ppos (set_private i (mk_info (Some buf') size false) (i_size i) (i_mtime i)) user)
        else
          let ppos' := s64 (u64 ppos + count) in
          let fsize := if i_size i <? ppos' then ppos' else i_size i in
          Ok (mk_transfer (s64 count) ppos' (set_private i (mk_info (Some buf') size false) fsize now) user)
  | _ => Ok (mk_transfer (- EIO) ppos i user)
  end.

(** [devfs_evict_inode]: the number of blocks freed ([info] and its buffer;
    [kfree] of NULL does nothing). *)
Definition devfs_evict_inode (i : inode) : Z :=
  match i_private i with
  | Some info => match buffer info with Some _ => 2 | None => 1 end
  | None => 0
  end.

(** Pointers as [IS_ERR] sees them. *)
Inductive inode_ptr : Type := PNull | PErr (e : Z) | PInode (i : inode).

(** [devfs_get_inode]; [fresh] is the result of [new_inode]. *)
Definition devfs_get_inode (fresh : option inode) (mode now : Z) : inode_ptr :=
  match fresh with
  | None => PNull
  | Some i =>
      let i := mk_inode (i_ino i) mode (i_op i) (i_fop i) (i_nlink i) (i_size i) (i_private i) now in
      let ty := Z.land mode S_IFMT in
      if ty =? S_IFREG then
        PInode (mk_inode (i_ino i) mode devfs_dir_inode_operations devfs_file_operations (i_nlink i)
                  (i_size i) (i_private i) now)
      else if ty =? S_IFDIR then
        PInode (mk_inode (i_ino i) mode devfs_dir_inode_operations simple_dir_operations (i_nlink i + 1)
                  (i_size i) (i_private i) now)
      else PErr (- EINVAL)
  end.

(** [inode->i_ino = n] through a pointer that passed [IS_ERR]. *)
Definition set_ino (p : inode_ptr) (n : Z) : outcome inode :=
  match p with
  | PInode i => Ok (mk_inode n (i_mode i) (i_op i) (i_fop i) (i_nlink i) (i_size i) (i_private i) (i_mtime i))
  | _ => Undef "null pointer"
  end.

(** Results of the kernel functions called while mounting. *)
Record mount_env := mk_env {
  me_root : option inode; me_make_root : bool; me_file : option inode;
  me_info : bool; me_buffer : bool; me_alloc_name : bool; me_now : Z
}.

(** What is left after a mount: return value, root inode with its reference count
    (held by [s_root] on success), the buffer file if it is linked, and the
    blocks allocated and not freed. *)
Record mounted := mk_mounted {
  mt_err : Z; mt_root : option (inode * Z); mt_file : option inode; mt_blocks : Z
}.

(** [iput]: dropping a reference that does not exist is undefined. *)
Definition iput (refs : Z) : outcome Z :=
  if refs <=? 0 then Undef "inode reference dropped twice" else Ok (refs - 1).

(** [devfs_fill_super]. [d_make_root] takes over the reference to the root inode
    and drops it when it fails. *)
Definition devfs_fill_super (e : mount_env) : outcome mounted :=
  match devfs_get_inode (me_root e) (Z.lor S_IFDIR 493) (me_now e) with
  | PErr err => Ok (mk_mounted err None None 0)
  | root =>
      root ← set_ino root 1 ;
      if negb (me_make_root e) then
        refs ← iput 1 ;      (* inside d_make_root *)
        refs ← iput refs ;   (* failed_iput_root *)
        Ok (mk_mounted (- ENOMEM) (Some (root, refs)) None 0)
      else
        match devfs_get_inode (me_file e) (Z.lor S_IFREG 438) (me_now e) with
        | PErr err => Ok (mk_mounted err (Some (root, 1)) None 0)
        | file =>
            file ← set_ino file 2 ;
            if negb (me_info e) then
              _ ← iput 1 ; Ok (mk_mounted (- ENOMEM) (Some (root, 1)) None (0 - devfs_evict_inode file))
            else if negb (me_buffer e) then
              _ ← iput 1 ; Ok (mk_mounted (- ENOMEM) (Some (root, 1)) None (1 - 1 - devfs_evict_inode file))
            else
              let info := mk_info (Some (replicate (Z.to_nat DEVFS_DEFAULT_BUF_SIZE) 0)) DEVFS_DEFAULT_BUF_SIZE false in
              let file := set_private file info 0 (i_mtime file) in
              if negb (me_alloc_name e) then
                _ ← iput 1 ; Ok (mk_mounted (- ENOMEM) (Some (root, 1)) None (2 - devfs_evict_inode file))
              else Ok (mk_mounted 0 (Some (root, 1)) (Some file) 2)
        end
  end.

(** ** Invariant of the buffer file *)
Record file_wf (i : inode) (buf : list Z) (size : Z) : Prop := mk_wf {
  fw_private : i_private i = Some (mk_info (Some buf) size false);
  fw_length : Z.of_nat (length buf) = size;
  fw_bounds : 0 < size < 2 ^ 63;
  fw_size : 0 <= i_size i <= size
}.

(** ** Lemmas *)

Lemma u64_pos x : 0 <= x < 2 ^ 63 -> u64 x = x.
Proof. intros H. apply u64_small. unfold in_u64. lia. Qed.

(** Reading at a position before the end of the file. *)
Lemma devfs_read_spec ctu i buf size user count ppos :
  copy_laws ctu -> file_wf i buf size -> 0 <= ppos < i_size i -> 0 <= count <= Z.of_nat (length user) ->
  let n := Z.min count (i_size i - ppos) in
  let old := take (Z.to_nat n) user in
  let bs := take (Z.to_nat n) (drop (Z.to_nat ppos) buf) in
  devfs_read ctu i user count ppos =
  Ok (if (ctu old bs).1 =? 0
      then mk_transfer n (ppos + n) (with_lock i (mk_info (Some buf) size true) false) (bs ++ drop (Z.to_nat n) user)
      else mk_transfer (- EFAULT) ppos (with_lock i (mk_info (Some buf) size true) false)
             ((ctu old bs).2 ++ drop (Z.to_nat n) user)).
Proof.
  intros Hcopy [Hp Hl Hb Hs] Hpos Hc n old bs. unfold devfs_read. rewrite Hp. cbn [spin_acquire mbind outcome_bind].
  rewrite !u64_pos by lia. cbv zeta. destruct (Z.leb_spec (i_size i) ppos); [lia|].
  assert ((if i_size i - ppos <? count then i_size i - ppos else count) = n) as ->
    by (unfold n; destruct (Z.ltb_spec (i_size i - ppos) count); lia).
  assert (0 <= n <= count /\ n <= i_size i - ppos) as Hn by (unfold n; lia).
  rewrite (mem_slice_ok buf) by lia. cbn [mbind outcome_bind]. fold bs.
  rewrite (mem_slice_ok user) by lia. cbn [mbind outcome_bind]. change (Z.to_nat 0) with 0%nat. rewrite drop_0. fold old.
  assert (length old = Z.to_nat n /\ length bs = Z.to_nat n) as [Ho Hbs]
    by (unfold old, bs; rewrite !length_take, length_drop; lia).
  pose proof (copy_length _ Hcopy old bs ltac:(congruence)) as Hlen. pose proof (copy_done _ Hcopy old bs) as Hdone.
  destruct (ctu old bs) as [rest window]. cbn [fst snd] in *.
  rewrite mem_splice_ok by (rewrite ?Hlen, ?Hbs; lia). cbn [mbind outcome_bind].
  change (Z.to_nat 0) with 0%nat. rewrite take_0, app_nil_l, Hlen, Hbs. cbn [Nat.add].
  destruct (Z.eqb_spec rest 0) as [E|E]; cbn [negb]; [|done].
  rewrite (Hdone E), !s64_small by lia. done.
Qed.

(** Reading at or after the end of the file. *)
Lemma devfs_read_eof ctu i buf size user count ppos :
  file_wf i buf size -> i_size i <= ppos < 2 ^ 63 ->
  devfs_read ctu i user count ppos =
  Ok (mk_transfer 0 ppos (with_lock i (mk_info (Some buf) size true) false) user).
Proof.
  intros [Hp Hl Hb Hs] Hpos. unfold devfs_read. rewrite Hp. cbn [spin_acquire mbind outcome_bind].
  rewrite !u64_pos by lia. cbv zeta. destruct (Z.leb_spec (i_size i) ppos); [done|lia].
Qed.

(** Writing at a position inside the buffer. *)
Lemma devfs_write_spec cfu now i buf size user count ppos :
  copy_laws cfu -> file_wf i buf size -> 0 <= ppos < size -> 0 <= count <= Z.of_nat (length user) ->
  let n := Z.min count (size - ppos) in
  let old := take (Z.to_nat n) (drop (Z.to_nat ppos) buf) in
  let bs := take (Z.to_nat n) user in
  let put x := take (Z.to_nat ppos) buf ++ x ++ drop (Z.to_nat (ppos + n)) buf in
  devfs_write cfu now i user count ppos =
  Ok (if (cfu old bs).1 =? 0
      then mk_transfer n (ppos + n)
             (set_private i (mk_info (Some (put bs)) size false) (Z.max (i_size i) (ppos + n)) now) user
      else mk_transfer (- EFAULT) ppos
             (set_private i (mk_info (Some (put (cfu old bs).2)) size false) (i_size i) (i_mtime i)) user).
Proof.
  intros Hcopy [Hp Hl Hb Hs] Hpos Hc n old bs put. unfold devfs_write. rewrite Hp. cbn [spin_acquire mbind outcome_bind].
  rewrite !(u64_pos ppos) by lia. rewrite !u64_pos by lia. cbv zeta. destruct (Z.leb_spec size ppos); [lia|].
  assert ((if size - ppos <? count then size - ppos else count) = n) as ->
    by (unfold n; destruct (Z.ltb_spec (size - ppos) count); lia).
  assert (0 <= n <= count /\ n <= size - ppos) as Hn by (unfold n; lia).
  rewrite (mem_slice_ok buf) by lia. cbn [mbind outcome_bind]. fold old.
  rewrite (mem_slice_ok user) by lia. cbn [mbind outcome_bind]. change (Z.to_nat 0) with 0%nat. rewrite drop_0. fold bs.
  assert (length old = Z.to_nat n /\ length bs = Z.to_nat n) as [Ho Hbs]
    by (unfold old, bs; rewrite !length_take, length_drop; lia).
  pose proof (copy_length _ Hcopy old bs ltac:(congruence)) as Hlen. pose proof (copy_done _ Hcopy old bs) as Hdone.
  destruct (cfu old bs) as [rest window]. cbn [fst snd] in *.
  rewrite mem_splice_ok by (rewrite ?Hlen, ?Hbs; lia). cbn [mbind outcome_bind]. rewrite Hlen, Hbs.
  replace (Z.to_nat ppos + Z.to_nat n)%nat with (Z.to_nat (ppos + n)) by lia. fold (put window).
  destruct (Z.eqb_spec rest 0) as [E|E]; cbn [negb]; [|done].
  rewrite (Hdone E), !s64_small by lia. cbv zeta.
  replace (if i_size i <? ppos + n then ppos + n else i_size i) with (Z.max (i_size i) (ppos + n)); [done|].
  destruct (Z.ltb_spec (i_size i) (ppos + n)); lia.
Qed.

Lemma write_file_wf i buf size ppos n bs now sz :
  file_wf i buf size -> 0 <= ppos -> n = Z.of_nat (length bs) -> ppos + n <= size -> 0 <= sz <= size ->
  file_wf (set_private i (mk_info (Some (take (Z.to_nat ppos) buf ++ bs ++ drop (Z.to_nat (ppos + n)) buf))
             size false) sz now)
    (take (Z.to_nat ppos) buf ++ bs ++ drop (Z.to_nat (ppos + n)) buf) size.
Proof.
  intros [Hp Hl Hb Hs] Hpos Hn Hfit Hsz. split; cbn [i_private set_private i_size]; try done.
  rewrite !length_app, length_take, length_drop. lia.
Qed.

(** Contents of the file after a write that leaves no hole. *)
Lemma visible_after_write (buf bs : list Z) (s off : nat) :
  (off <= s <= length buf)%nat -> (off + length bs <= length buf)%nat ->
  take (s `max` (off + length bs)) (take off buf ++ bs ++ drop (off + length bs) buf)
  = take off (take s buf) ++ bs ++ drop (off + length bs) (take s buf).
Proof.
  intros Hs Hb. rewrite take_take, Nat.min_l by lia.
  assert (length (take off buf ++ bs) = (off + length bs)%nat) as Hl by (rewrite length_app, length_take; lia).
  rewrite !app_assoc. destruct (Nat.le_gt_cases s (off + length bs)).
  - rewrite Nat.max_r by lia. rewrite take_app_length' by lia.
    rewrite drop_ge by (rewrite length_take; lia). by rewrite app_nil_r.
  - rewrite Nat.max_l, take_app_ge, Hl by lia. by rewrite skipn_firstn_comm.
Qed.

(** ** The buffer file as a byte store *)
Section Store.
Context (ctu cfu : user_copy) (now : Z).

(** The file's buffer and its size. *)
Definition file_buf (i : inode) : list Z :=
  match i_private i with Some info => default [] (buffer info) | None => [] end.
Definition file_cap (i : inode) : Z :=
  match i_private i with Some info => buffer_size info | None => 0 end.

Definition devfs_store : ByteStore inode := {|
  wf i := file_wf i (file_buf i) (file_cap i);
  capacity := file_cap;
  bytes i := take (Z.to_nat (i_size i)) (file_buf i);
  read i off count :=
    r ← devfs_read ctu i (replicate (Z.to_nat count) 0) count off ;
    Ok (x_ret r, take (Z.to_nat (x_ret r)) (x_user r), x_pos r);
  write i off data :=
    r ← devfs_write cfu now i data (Z.of_nat (length data)) off ;
    Ok (x_ret r, x_pos r, x_inode r)
|}.

(** User memory is accessible: every copy succeeds. *)
Hypothesis ctu_laws : copy_laws ctu.
Hypothesis cfu_laws : copy_laws cfu.
Hypothesis ctu_total : forall old src, (ctu old src).1 = 0.
Hypothesis cfu_total : forall old src, (cfu old src).1 = 0.

Lemma file_bytes_length i :
  file_wf i (file_buf i) (file_cap i) ->
  Z.of_nat (length (take (Z.to_nat (i_size i)) (file_buf i))) = i_size i.
Proof. intros [_ Hl Hb Hs]. rewrite length_take. lia. Qed.

Lemma devfs_store_laws : @ByteStoreLaws inode devfs_store.
Proof.
  split; cbn [wf capacity bytes read write devfs_store].
  - intros i Hwf. rewrite (file_bytes_length i Hwf). destruct Hwf as [_ Hl Hb Hs]. lia.
  - intros i off count Hwf. rewrite (file_bytes_length i Hwf). intros Ho Hc. cbv zeta.
    rewrite (devfs_read_spec ctu i (file_buf i) (file_cap i)) by (try rewrite length_replicate; (done || lia)).
    rewrite ctu_total. cbn [Z.eqb mbind outcome_bind x_ret x_pos x_user].
    set (n := Z.min count (i_size i - off)).
    assert (0 <= n <= i_size i - off) as Hn by (unfold n; lia). destruct Hwf as [_ Hl Hb Hs].
    rewrite take_app_length' by (rewrite length_take, length_drop; lia).
    f_equal. f_equal. f_equal. rewrite skipn_firstn_comm, take_take. f_equal. lia.
  - intros i off count Hwf. rewrite (file_bytes_length i Hwf). intros Ho.
    rewrite (devfs_read_eof ctu i (file_buf i) (file_cap i)) by done. done.
  - intros i off data Hwf. rewrite (file_bytes_length i Hwf). intros Ho Hcap Hd. cbv zeta.
    rewrite (devfs_write_spec cfu now i (file_buf i) (file_cap i)) by (done || lia).
    rewrite cfu_total. cbn [Z.eqb mbind outcome_bind x_ret x_pos x_inode].
    set (n := Z.min (Z.of_nat (length data)) (file_cap i - off)).
    assert (0 <= n <= Z.of_nat (length data) /\ n <= file_cap i - off) as Hn by (unfold n; lia).
    assert (length (take (Z.to_nat n) data) = Z.to_nat n) as Hlt by (rewrite length_take; lia).
    eexists. split; [done|].
    split_and!; [|done|].
    + pose proof (fw_size _ _ _ Hwf).
      apply (write_file_wf i (file_buf i) (file_cap i) off n); (done || lia).
    + destruct Hwf as [_ Hl Hb Hs]. cbn [i_size set_private file_buf i_private buffer default from_option id].
      replace (Z.to_nat (Z.max (i_size i) (off + n)))
        with (Z.to_nat (i_size i) `max` (Z.to_nat off + length (take (Z.to_nat n) data)))%nat by lia.
      replace (Z.to_nat (off + n)) with (Z.to_nat off + length (take (Z.to_nat n) data))%nat by lia.
      apply visible_after_write; lia.
Qed.

End Store.

(** ** Theorems *)

Definition plain_copy : user_copy := fun _ src => (0, src).

Lemma plain_copy_laws : copy_laws plain_copy.
Proof. by split. Qed.

(** An empty file with a buffer of [n] bytes. *)
Definition empty_file (n : Z) : inode :=
  mk_inode 2 33206 devfs_dir_inode_operations devfs_file_operations 1 0
    (Some (mk_info (Some (replicate (Z.to_nat n) 0)) n false)) 0.

Lemma empty_file_wf n : 0 < n < 2 ^ 63 -> file_wf (empty_file n) (replicate (Z.to_nat n) 0) n.
Proof. intros Hn. split; cbn [i_private i_size empty_file]; [done| |lia|lia]. rewrite length_replicate. lia. Qed.

(** C30: A [devfs_write] never leaves the buffer, and the mutex is free afterwards in
    every case. At or past the end of the buffer the call returns [-ENOSPC] and changes
    nothing. Before it, the call copies as many of the user's bytes as were asked for
    and fit, and bytes outside this window keep their values. When the copy reports
    that everything was copied the call returns the number of bytes, the window holds
    the user's bytes, the position moves past it, the file size becomes the larger of
    the old size and the new position, and the modification time is set; when the copy
    reports bytes that were not copied, and only then, the call returns [-EFAULT] with
    position, size and time unchanged and the window as the copy left it. *)
Theorem devfs_write_correct (cfu : user_copy) (now : Z) (i : inode) (buf : list Z) (size : Z)
    (user : list Z) (count ppos : Z) :
  copy_laws cfu -> file_wf i buf size -> 0 <= ppos < 2 ^ 63 -> 0 <= count <= Z.of_nat (length user) ->
  let n := Z.min count (size - ppos) in
  let copied := cfu (take (Z.to_nat n) (drop (Z.to_nat ppos) buf)) (take (Z.to_nat n) user) in
  exists r buf', devfs_write cfu now i user count ppos = Ok r /\ file_wf (x_inode r) buf' size /\
  (size <= ppos -> x_ret r = - ENOSPC /\ x_pos r = ppos /\ buf' = buf /\ i_size (x_inode r) = i_size i /\
     i_mtime (x_inode r) = i_mtime i) /\
  (ppos < size ->
     take (Z.to_nat ppos) buf' = take (Z.to_nat ppos) buf /\
     drop (Z.to_nat (ppos + n)) buf' = drop (Z.to_nat (ppos + n)) buf /\
     (copied.1 = 0 ->
       x_ret r = n /\ x_pos r = ppos + n /\
       take (Z.to_nat n) (drop (Z.to_nat ppos) buf') = take (Z.to_nat n) user /\
       i_size (x_inode r) = Z.max (i_size i) (ppos + n) /\ i_mtime (x_inode r) = now) /\
     (copied.1 <> 0 ->
       x_ret r = - EFAULT /\ x_pos r = ppos /\ take (Z.to_nat n) (drop (Z.to_nat ppos) buf') = copied.2 /\
       i_size (x_inode r) = i_size i /\ i_mtime (x_inode r) = i_mtime i)).
Proof.
  intros Hcopy Hwf Hpos Hc n copied. destruct (Z.le_gt_cases size ppos).
  - eexists _, buf. split; [|split; [|split]].
    + unfold devfs_write. rewrite (fw_private _ _ _ Hwf). cbn [spin_acquire mbind outcome_bind].
      rewrite !u64_pos by lia. destruct (Z.leb_spec size ppos); [reflexivity|lia].
    + destruct Hwf. by split.
    + done.
    + lia.
  - pose proof Hwf as [_ Hl Hb Hs]. assert (0 <= n <= count /\ n <= size - ppos) as Hn by (unfold n; lia).
    rewrite (devfs_write_spec cfu now i buf size) by (done || lia). cbv zeta. fold n.
    set (old := take (Z.to_nat n) (drop (Z.to_nat ppos) buf)). set (bs := take (Z.to_nat n) user).
    assert (length old = Z.to_nat n /\ length bs = Z.to_nat n) as [Ho Hbs]
      by (unfold old, bs; rewrite !length_take, length_drop; lia).
    pose proof (copy_length _ Hcopy old bs ltac:(congruence)) as Hlen.
    assert (forall x, length x = Z.to_nat n ->
      let b' := take (Z.to_nat ppos) buf ++ x ++ drop (Z.to_nat (ppos + n)) buf in
      take (Z.to_nat ppos) b' = take (Z.to_nat ppos) buf /\
      drop (Z.to_nat (ppos + n)) b' = drop (Z.to_nat (ppos + n)) buf /\
      take (Z.to_nat n) (drop (Z.to_nat ppos) b') = x /\
      forall sz t, 0 <= sz <= size -> file_wf (set_private i (mk_info (Some b') size false) sz t) b' size) as Hput.
    { intros x Hx b'. assert (length (take (Z.to_nat ppos) buf) = Z.to_nat ppos) as Hlt by (rewrite length_take; lia).
      unfold b'. split_and!.
      - by rewrite take_app_length'.
      - rewrite app_assoc, drop_app_length'; [done|]. rewrite length_app. lia.
      - rewrite drop_app_length' by lia. by rewrite take_app_length'.
      - intros sz t Hsz. apply write_file_wf; (done || lia). }
    change copied with (cfu old bs). destruct (Z.eqb_spec (cfu old bs).1 0) as [E|E].
    + destruct (Hput bs Hbs) as (H1 & H2 & H3 & H4). eexists _, _.
      split; [reflexivity|]. split; [apply H4; lia|]. split; [lia|]. intros _. split_and!; done.
    + destruct (Hput (cfu old bs).2 ltac:(congruence)) as (H1 & H2 & H3 & H4). eexists _, _.
      split; [reflexivity|]. split; [apply H4; lia|]. split; [lia|]. intros _. split_and!; done.
Qed.

(** A copy that faults on buffers with a byte 0 and copies nothing of them. *)
Definition faulting_copy : user_copy := fun old src =>
  if bool_decide (0 ∈ src) then (Z.of_nat (length src), old) else (0, src).

Lemma faulting_copy_laws : copy_laws faulting_copy.
Proof.
  split; intros old src; unfold faulting_copy; case_bool_decide as H; cbn; try done.
  intros H0. destruct src; [by apply not_elem_of_nil in H|cbn in H0; lia].
Qed.

(** Two bytes fit; a faulting copy leaves everything as it was. *)
Lemma devfs_write_correct_witness :
  (exists r buf', devfs_write faulting_copy 5 (empty_file 8) [1; 2; 3; 4] 4 6 = Ok r /\
    x_ret r = 2 /\ take 2 (drop 6 buf') = [1; 2] /\ i_size (x_inode r) = 8) /\
  (exists r, devfs_write faulting_copy 5 (empty_file 8) [1; 0; 3; 4] 4 6 = Ok r /\ x_ret r = - EFAULT /\ x_pos r = 6).
Proof.
  split.
  - destruct (devfs_write_correct faulting_copy 5 (empty_file 8) (replicate 8 0) 8 [1; 2; 3; 4] 4 6
      faulting_copy_laws (empty_file_wf 8 ltac:(lia)) ltac:(lia) ltac:(cbn; lia)) as (r & buf' & H1 & _ & _ & H).
    destruct (H ltac:(lia)) as (_ & _ & Hok & _). destruct (Hok ltac:(vm_compute; reflexivity)) as (R1 & _ & R3 & R4 & _).
    exists r, buf'. split; [exact H1|]. split; [exact R1|]. split; [exact R3|exact R4].
  - destruct (devfs_write_correct faulting_copy 5 (empty_file 8) (replicate 8 0) 8 [1; 0; 3; 4] 4 6
      faulting_copy_laws (empty_file_wf 8 ltac:(lia)) ltac:(lia) ltac:(cbn; lia)) as (r & buf' & H1 & _ & _ & H).
    destruct (H ltac:(lia)) as (_ & _ & _ & Hbad). destruct (Hbad ltac:(vm_compute; discriminate)) as (R1 & R2 & _).
    exists r. split; [exact H1|]. split; [exact R1|exact R2].
Defined.

(** With accessible user memory, what a run of [devfs_write] calls stores from
    a position inside the file on, a run of [devfs_read] calls from that position
    delivers, however the two runs are cut into transfers. *)
Theorem devfs_roundtrip (ctu cfu : user_copy) (now : Z) (i : inode) (buf : list Z) (size off : Z)
    (chunks : list (list Z)) (reqs : list Z) :
  copy_laws ctu -> copy_laws cfu ->
  (forall old src, (ctu old src).1 = 0) -> (forall old src, (cfu old src).1 = 0) ->
  file_wf i buf size -> 0 <= off <= i_size i -> Forall (fun c => c <> []) chunks ->
  off + Z.of_nat (length (concat chunks)) <= size ->
  Forall (fun r => 0 < r < 2 ^ 63) reqs -> total reqs = Z.of_nat (length (concat chunks)) ->
  exists i' off', @write_seq inode (devfs_store ctu cfu now) i off chunks = Ok (off', i') /\
    @read_seq inode (devfs_store ctu cfu now) i' off reqs = Ok (concat chunks, off').
Proof.
  intros L1 L2 T1 T2 Hwf Hoff Hne Hfit Hr Ht. pose proof Hwf as [Hp Hl Hb Hs].
  assert (file_buf i = buf /\ file_cap i = size) as [E1 E2] by (unfold file_buf, file_cap; by rewrite Hp).
  rewrite <- E1, <- E2 in Hwf.
  apply (@write_read_roundtrip inode (devfs_store ctu cfu now) (devfs_store_laws ctu cfu now L1 L2 T1 T2)); try done.
  - cbn [bytes devfs_store]. rewrite (file_bytes_length i Hwf). lia.
  - cbn [capacity devfs_store]. lia.
Qed.

Lemma devfs_roundtrip_witness :
  exists i' off', @write_seq inode (devfs_store plain_copy plain_copy 0) (empty_file 8) 0 [[1; 2]; [3; 4; 5]] = Ok (off', i') /\
    @read_seq inode (devfs_store plain_copy plain_copy 0) i' 0 [1; 4] = Ok ([1; 2; 3; 4; 5], off').
Proof.
  apply (devfs_roundtrip plain_copy plain_copy 0 (empty_file 8) (replicate 8 0) 8 0 [[1; 2]; [3; 4; 5]] [1; 4]
    plain_copy_laws plain_copy_laws); try reflexivity.
  - apply (empty_file_wf 8). lia.
  - cbn. lia.
  - by repeat constructor.
  - cbn. lia.
  - repeat constructor; lia.
Defined.

(** A mount that ends with [-ENOMEM]: the error decides every conjunct. *)
Ltac failed_mount :=
  eexists _, _; split; [reflexivity|]; cbn [mt_root mt_err mt_blocks mt_file]; split_and!;
  [reflexivity | split; [discriminate | intros (? & ? & ?); discriminate] | discriminate | done].

(** When the root inode, the root dentry and the file inode can be made, a
    mount either succeeds with an empty buffer file over one zeroed page (two
    blocks allocated), or returns [-ENOMEM] with every block of the file freed;
    the root inode keeps the one reference that [s_root] holds. *)
Theorem devfs_fill_super_correct (e : mount_env) (r f : inode) :
  me_root e = Some r -> me_file e = Some f -> i_private f = None -> me_make_root e = true ->
  exists m root, devfs_fill_super e = Ok m /\ mt_root m = Some (root, 1) /\
  (mt_err m = 0 <-> me_info e = true /\ me_buffer e = true /\ me_alloc_name e = true) /\
  (mt_err m = 0 -> mt_blocks m = 2 /\ exists file, mt_file m = Some file /\
     file_wf file (replicate (Z.to_nat PAGE_SIZE) 0) PAGE_SIZE /\ i_size file = 0 /\
     i_ino file = 2 /\ i_fop file = devfs_file_operations) /\
  (mt_err m <> 0 -> mt_err m = - ENOMEM /\ mt_blocks m = 0 /\ mt_file m = None).
Proof.
  intros Hr Hf Hp Hm. unfold devfs_fill_super. rewrite Hr, Hf, Hm. unfold devfs_get_inode.
  change (Z.land (Z.lor S_IFDIR 493) S_IFMT =? S_IFREG) with false.
  change (Z.land (Z.lor S_IFDIR 493) S_IFMT =? S_IFDIR) with true.
  change (Z.land (Z.lor S_IFREG 438) S_IFMT =? S_IFREG) with true. cbv zeta iota.
  cbn [set_ino mbind outcome_bind negb i_private devfs_evict_inode i_mtime]. rewrite Hp.
  destruct (me_info e); cbn [negb]; [|by failed_mount].
  destruct (me_buffer e); cbn [negb]; [|by failed_mount].
  destruct (me_alloc_name e); cbn [negb]; [|by failed_mount].
  eexists _, _. split; [reflexivity|]. cbn [mt_root mt_err mt_blocks mt_file].
  split_and!; [done|done| |done]. intros _. split; [done|]. eexists. split; [done|].
  split_and!; done.
Qed.

Definition fresh_inode : inode := mk_inode 0 0 NoOps NoFops 1 0 None 0.
Definition good_env : mount_env := mk_env (Some fresh_inode) true (Some fresh_inode) true true true 7.

Lemma devfs_fill_super_correct_witness :
  exists m root, devfs_fill_super good_env = Ok m /\ mt_root m = Some (root, 1).
Proof.
  destruct (devfs_fill_super_correct good_env fresh_inode fresh_inode eq_refl eq_refl eq_refl eq_refl)
    as (m & root & H1 & H2 & _). exists m, root. split; [exact H1|exact H2].
Defined.

(** [devfs_get_inode] returns NULL when [new_inode] fails, which [IS_ERR] does not
    catch; and when [d_make_root] fails the root inode is put twice. *)
Example mount_failures :
  devfs_fill_super (mk_env None true (Some fresh_inode) true true true 7) = Undef "null pointer" /\
  devfs_fill_super (mk_env (Some fresh_inode) true None true true true 7) = Undef "null pointer" /\
  devfs_fill_super (mk_env (Some fresh_inode) false (Some fresh_inode) true true true 7)
    = Undef "inode reference dropped twice".
Proof. repeat split. Qed.

End DevFS.
