(* ===== verification/Elf.v ===== *)
(** ELF loader of [src/kernel/startup.c]: mapping the file, validating the header,
    loading the segments. The file image and the loaded segments live in one
    address space, so a fixed mapping placed over the file image is seen. *)
From Stdlib Require Import ZArith Lia.
From stdpp Require Import strings numbers gmap base.
From stdpp Require Import list.
From S2P Require Import Prelude.
Open Scope Z_scope.

Module Elf.

Definition ELFCLASS64 : Z := 2.
Definition ELFDATA2LSB : Z := 1.
Definition ELFDATA2MSB : Z := 2.
Definition EV_CURRENT : Z := 1.
Definition ET_EXEC : Z := 2.
Definition EM_X86_64 : Z := 62.
Definition PT_LOAD : Z := 1.
Definition PF_X : Z := 1.
Definition PF_W : Z := 2.
Definition PF_R : Z := 4.
Definition PROT_READ : Z := 1.
Definition PROT_WRITE : Z := 2.
Definition PROT_EXEC : Z := 4.
Definition sizeof_ehdr : Z := 64.
Definition sizeof_phdr : Z := 56.
Definition INT_MAX : Z := 2 ^ 31 - 1.

(** ** Address space: byte and protection of every mapped address *)
Definition memory : Type := Z -> option (Z * Z).

Definition rd (m : memory) (a : Z) : outcome Z :=
  match m a with Some (b, _) => Ok b | None => Undef "segmentation fault" end.

Definition wr (m : memory) (a b : Z) : outcome memory :=
  match m a with
  | Some (_, prot) =>
      if Z.land prot PROT_WRITE =? 0 then Undef "segmentation fault"
      else Ok (fun x => if x =? a then Some (b, prot) else m x)
  | None => Undef "segmentation fault"
  end.

(** Little-endian number of [n] bytes at [a]. *)
Fixpoint rd_le (m : memory) (a : Z) (n : nat) : outcome Z :=
  match n with
  | O => Ok 0
  | S n' => b ← rd m a ; r ← rd_le m (a + 1) n' ; Ok (b + 256 * r)
  end.

Fixpoint memcpy (m : memory) (dest src : Z) (n : nat) : outcome memory :=
  match n with
  | O => Ok m
  | S n' => b ← rd m src ; m' ← wr m dest b ; memcpy m' (dest + 1) (src + 1) n'
  end.

Definition round_up (x page : Z) : Z := (x + page - 1) / page * page.

(** Anonymous fixed mapping: whole pages, zero-filled, replacing what was there. *)
Definition map_fixed (m : memory) (addr len prot page : Z) : memory :=
  fun a => if (addr <=? a) && (a <? addr + round_up len page) then Some (0, prot) else m a.

Definition mprotect (m : memory) (addr len prot page : Z) : memory :=
  fun a => if (addr <=? a) && (a <? addr + round_up len page)
           then match m a with Some (b, _) => Some (b, prot) | None => None end
           else m a.

(** ** Loader context and file mapping *)
Record BootParams := mk_params {
  magic : Z; entry_point : Z; load_addr : Z; flags : Z; kernel_file_size : Z
}.

(** [kernel_map_base] is [None] for [MAP_FAILED]. *)
Record KernelContext := mk_context {
  kernel_fd : Z; kernel_map_base : option Z; kernel_map_size : Z; boot_params : BootParams
}.

(** [cleanup_fd]: the descriptor afterwards and the descriptors closed. *)
Definition cleanup_fd (fd : Z) : Z * list Z :=
  if 0 <=? fd then (-1, [fd]) else (fd, []).

(** [cleanup_mmap]: base and size afterwards, and the mapping removed. *)
Definition cleanup_mmap (base : option Z) (size : Z) : option Z * Z * option (Z * Z) :=
  match base with
  | Some b => if 0 <? size then (None, 0, Some (b, size)) else (base, size, None)
  | None => (base, size, None)
  end.

(** [map_kernel_file]. Inputs: the size that [stat] reports ([None]: it fails), the
    result of [open], the result of [mmap]. Output: the context and the
    descriptors that were opened and closed. [fail] does not return. *)
Definition map_kernel_file (c : KernelContext) (st : option Z) (fd : Z) (map : option Z)
    : outcome (KernelContext * list Z * list Z) :=
  match st with
  | None => Panic "Failed to stat kernel file"
  | Some size =>
      if size <=? 0 then Panic "Kernel file is empty or invalid size"
      else if UINT64_MAX <? size then Panic "Kernel file size exceeds SIZE_MAX"
      else if fd <? 0 then Panic "Failed to open kernel file"
      else match map with
           | None => Panic "Failed to map kernel file"
           | Some base =>
               let '(fd', closed) := cleanup_fd fd in
               Ok (mk_context fd' (Some base) size (boot_params c), [fd], closed)
           end
  end.

(** ** Headers *)
Record Elf64_Ehdr := mk_ehdr {
  ei_mag : Z; ei_class : Z; ei_data : Z; ei_version : Z;
  e_type : Z; e_machine : Z; e_entry : Z; e_phoff : Z;
  e_ehsize : Z; e_phentsize : Z; e_phnum : Z
}.

Record Elf64_Phdr := mk_phdr {
  p_type : Z; p_flags : Z; p_offset : Z; p_vaddr : Z; p_filesz : Z; p_memsz : Z
}.

(** The four magic bytes, as a little-endian number. *)
Definition ELFMAG : Z := 127 + 256 * 69 + 256 ^ 2 * 76 + 256 ^ 3 * 70.

(** Fields read through a pointer to the header. *)
Definition read_ehdr (m : memory) (a : Z) : outcome Elf64_Ehdr :=
  mag ← rd_le m a 4 ; cls ← rd_le m (a + 4) 1 ; data ← rd_le m (a + 5) 1 ; ver ← rd_le m (a + 6) 1 ;
  ty ← rd_le m (a + 16) 2 ; mach ← rd_le m (a + 18) 2 ; entry ← rd_le m (a + 24) 8 ;
  phoff ← rd_le m (a + 32) 8 ; ehs ← rd_le m (a + 52) 2 ; phs ← rd_le m (a + 54) 2 ; phn ← rd_le m (a + 56) 2 ;
  Ok (mk_ehdr mag cls data ver ty mach entry phoff ehs phs phn).

Definition read_phdr (m : memory) (a : Z) : outcome Elf64_Phdr :=
  ty ← rd_le m a 4 ; fl ← rd_le m (a + 4) 4 ; off ← rd_le m (a + 8) 8 ; va ← rd_le m (a + 16) 8 ;
  fsz ← rd_le m (a + 32) 8 ; msz ← rd_le m (a + 40) 8 ;
  Ok (mk_phdr ty fl off va fsz msz).

(** [fail] unless the condition holds. *)
Definition require (c : bool) (why : string) : outcome () := if c then Ok tt else Panic why.

(** [validate_elf_header]. *)
Definition validate_elf_header (h : Elf64_Ehdr) (file_size : Z) : outcome () :=
  _ ← require (ei_mag h =? ELFMAG) "Invalid ELF magic number" ;
  _ ← require (ei_class h =? ELFCLASS64) "Incorrect ELF class" ;
  _ ← require ((ei_data h =? ELFDATA2LSB) || (ei_data h =? ELFDATA2MSB)) "Invalid ELF data encoding" ;
  _ ← require (ei_version h =? EV_CURRENT) "Invalid ELF version" ;
  _ ← require (e_type h =? ET_EXEC) "ELF file is not an executable type" ;
  _ ← require (e_machine h =? EM_X86_64) "Incorrect ELF machine architecture" ;
  _ ← require (sizeof_ehdr <=? e_ehsize h) "Invalid ELF header size in header" ;
  _ ← require (sizeof_phdr <=? e_phentsize h) "Invalid Program Header entry size in header" ;
  _ ← require (negb (e_phnum h =? 0)) "No program headers found" ;
  _ ← require (negb ((e_phoff h =? 0) || (file_size <? e_phoff h))) "Program header table offset out of bounds" ;
  let ph_table_size := e_phnum h * e_phentsize h in
  _ ← require (ph_table_size <=? UINT64_MAX) "Integer overflow calculating program header table size" ;
  let ph_table_end := e_phoff h + ph_table_size in
  _ ← require (ph_table_end <=? UINT64_MAX) "Integer overflow calculating program header table end offset" ;
  _ ← require (ph_table_end <=? file_size) "Program header table extends beyond file end" ;
  require (negb (e_entry h =? 0)) "ELF entry point is NULL".

Definition has_flag (x f : Z) : bool := negb (Z.land x f =? 0).

(** Protection of a segment, from its flags. *)
Definition segment_prot (fl : Z) : Z :=
  Z.lor (Z.lor (if has_flag fl PF_R then PROT_READ else 0) (if has_flag fl PF_W then PROT_WRITE else 0))
    (if has_flag fl PF_X then PROT_EXEC else 0).

(** Answers of the system while one segment is loaded: what [mmap] returns and
    whether [mprotect] succeeds. *)
Record seg_env := mk_seg_env { se_mmap : option Z; se_mprotect : bool }.

(** The checks on a loadable segment before anything is mapped; [false] means
    that the segment is skipped (zero memory size). *)
Definition check_segment (ph : Elf64_Phdr) (file_size page : Z) : outcome bool :=
  _ ← require (p_offset ph <=? file_size) "Segment offset out of file bounds" ;
  _ ← require (p_offset ph + p_filesz ph <=? UINT64_MAX) "Integer overflow calculating segment file end" ;
  _ ← require (p_offset ph + p_filesz ph <=? file_size) "Segment file data extends beyond file end" ;
  _ ← require (p_filesz ph <=? p_memsz ph) "Segment memory size is less than file size" ;
  if p_memsz ph =? 0 then Ok false
  else
    _ ← require (0 <? page) "Failed to get system page size" ;
    _ ← require (p_vaddr ph mod page =? 0) "Segment virtual address is not page aligned" ;
    _ ← require (p_vaddr ph + p_memsz ph <=? UINT64_MAX) "Integer overflow calculating segment memory end address" ;
    Ok true.

(** Mapping, copying and final protection of one segment; [base] is where the file
    image is mapped. *)
Definition map_segment (m : memory) (base page : Z) (ph : Elf64_Phdr) (e : seg_env) : outcome memory :=
  let prot := segment_prot (p_flags ph) in
  match se_mmap e with
  | None => Panic "Failed to mmap segment"
  | Some addr =>
      if negb (addr =? p_vaddr ph) then Panic "MAP_FIXED returned another address"
      else
        let m := map_fixed m (p_vaddr ph) (p_memsz ph) (Z.lor prot PROT_WRITE) page in
        m ← (if 0 <? p_filesz ph then memcpy m (p_vaddr ph) (base + p_offset ph) (Z.to_nat (p_filesz ph)) else Ok m) ;
        Ok (if negb (has_flag (p_flags ph) PF_W) && se_mprotect e
            then mprotect m (p_vaddr ph) (p_memsz ph) prot page else m)
  end.

Definition load_segment (m : memory) (base file_size page : Z) (ph : Elf64_Phdr) (e : seg_env) : outcome memory :=
  if negb (p_type ph =? PT_LOAD) then Ok m
  else
    go ← check_segment ph file_size page ;
    if (go : bool) then map_segment m base page ph e else Ok m.

(** [i * ehdr->e_phentsize]: both operands are promoted to [int]. *)
Definition entry_offset (i : nat) (h : Elf64_Ehdr) : outcome Z :=
  let x := Z.of_nat i * e_phentsize h in
  if INT_MAX <? x then Undef "signed overflow" else Ok x.

(** [load_kernel_segments]: [n] headers are left, the next one is [i]. The address of
    the header after it is computed too, for a prefetch. *)
Fixpoint load_loop (n i : nat) (m : memory) (base file_size page : Z) (h : Elf64_Ehdr) (env : nat -> seg_env)
    : outcome memory :=
  match n with
  | O => Ok m
  | S n' =>
      off ← entry_offset i h ;
      _ ← (if Z.of_nat i + 1 <? e_phnum h then entry_offset (S i) h else Ok 0) ;
      ph ← read_phdr m (base + e_phoff h + off) ;
      m' ← load_segment m base file_size page ph (env i) ;
      load_loop n' (S i) m' base file_size page h env
  end.

Definition load_kernel_segments (m : memory) (base file_size page : Z) (h : Elf64_Ehdr) (env : nat -> seg_env)
    : outcome memory :=
  load_loop (Z.to_nat (e_phnum h)) 0 m base file_size page h env.

(** The loader up to the jump: read and validate the header, load the segments. *)
Definition load_kernel (m : memory) (base file_size page : Z) (env : nat -> seg_env) : outcome (Elf64_Ehdr * memory) :=
  h ← read_ehdr m base ;
  _ ← validate_elf_header h file_size ;
  m' ← load_kernel_segments m base file_size page h env ;
  Ok (h, m').

(** Boot parameters set up by [start_kernel]. *)
Definition start_params (c : KernelContext) (base : Z) (h : Elf64_Ehdr) : BootParams :=
  mk_params 464367618 (e_entry h) base 0 (kernel_map_size c).

(** ** Specification: the file as a list of bytes *)
Definition fbyte (F : list Z) (k : Z) : Z := default 0 (F !! Z.to_nat k).
Definition flen (F : list Z) : Z := Z.of_nat (length F).

Fixpoint le (F : list Z) (off : Z) (n : nat) : Z :=
  match n with
  | O => 0
  | S n' => fbyte F off + 256 * le F (off + 1) n'
  end.

Definition ehdr_of (F : list Z) : Elf64_Ehdr :=
  mk_ehdr (le F 0 4) (le F 4 1) (le F 5 1) (le F 6 1) (le F 16 2) (le F 18 2) (le F 24 8) (le F 32 8)
    (le F 52 2) (le F 54 2) (le F 56 2).

Definition phdr_of (F : list Z) (i : nat) : Elf64_Phdr :=
  let a := e_phoff (ehdr_of F) + Z.of_nat i * e_phentsize (ehdr_of F) in
  mk_phdr (le F a 4) (le F (a + 4) 4) (le F (a + 8) 8) (le F (a + 16) 8) (le F (a + 32) 8) (le F (a + 40) 8).

(** The program headers of the file. *)
Definition phdrs (F : list Z) : list Elf64_Phdr := phdr_of F <$> seq 0 (Z.to_nat (e_phnum (ehdr_of F))).

(** The file image: read-only pages, zero after the end of the file. *)
Definition file_at (m : memory) (base : Z) (F : list Z) (page : Z) : Prop :=
  forall k, 0 <= k < round_up (flen F) page -> m (base + k) = Some (fbyte F k, PROT_READ).

Definition loaded (ph : Elf64_Phdr) : bool := (p_type ph =? PT_LOAD) && negb (p_memsz ph =? 0).

(** A loaded segment covers whole pages. *)
Definition covers (page : Z) (ph : Elf64_Phdr) (a : Z) : bool :=
  loaded ph && (p_vaddr ph <=? a) && (a <? p_vaddr ph + round_up (p_memsz ph) page).

(** Read, write and execute (1, 2 and 4) as flag bits 2, 1 and 0 of the segment say; a
    read-only segment stays writable if its [mprotect] fails. *)
Definition final_prot (ph : Elf64_Phdr) (e : seg_env) : Z :=
  (if Z.testbit (p_flags ph) 2 then 1 else 0) +
  (if Z.testbit (p_flags ph) 1 || negb (se_mprotect e) then 2 else 0) +
  (if Z.testbit (p_flags ph) 0 then 4 else 0).

(** What a segment puts at [a]: file bytes, then zeros. *)
Definition seg_byte (F : list Z) (ph : Elf64_Phdr) (a : Z) : Z :=
  if a - p_vaddr ph <? p_filesz ph then fbyte F (p_offset ph + (a - p_vaddr ph)) else 0.

Definition seg_view (F : list Z) (page a : Z) (v : option (Z * Z)) (pe : Elf64_Phdr * seg_env) : option (Z * Z) :=
  if covers page pe.1 a then Some (seg_byte F pe.1 a, final_prot pe.1 pe.2) else v.

(** The address space after loading: at each address the last segment that covers
    it, or else what was there. *)
Definition image (F : list Z) (page : Z) (m : memory) (segs : list (Elf64_Phdr * seg_env)) (a : Z)
    : option (Z * Z) :=
  foldl (seg_view F page a) (m a) segs.

(** The files the loader takes, byte by byte: magic, 64 bits, either byte order, version
    1, executable, x86-64; header sizes of at least 64 and 56 bytes; a program header
    table that is not empty, not at offset 0 and ends inside the file; an entry point. *)
Record valid_file (F : list Z) : Prop := {
  vf_magic : fbyte F 0 = 0x7F /\ fbyte F 1 = 0x45 /\ fbyte F 2 = 0x4C /\ fbyte F 3 = 0x46;
  vf_class : fbyte F 4 = 2;
  vf_data : fbyte F 5 = 1 \/ fbyte F 5 = 2;
  vf_version : fbyte F 6 = 1;
  vf_type : le F 16 2 = 2;
  vf_machine : le F 18 2 = 62;
  vf_ehsize : 64 <= le F 52 2;
  vf_phentsize : 56 <= le F 54 2;
  vf_table : le F 56 2 <> 0 /\ le F 32 8 <> 0 /\ le F 32 8 + le F 56 2 * le F 54 2 <= flen F;
  vf_entry : le F 24 8 <> 0
}.

(** A segment it takes: if loadable (type 1), its file part lies inside the file and is no
    longer than its memory; unless that is empty, it starts on a page, ends inside the
    address space, and the system maps it where it asks for. *)
Definition valid_segment (F : list Z) (page : Z) (pe : Elf64_Phdr * seg_env) : Prop :=
  p_type pe.1 = 1 ->
  p_offset pe.1 + p_filesz pe.1 <= flen F /\ p_filesz pe.1 <= p_memsz pe.1 /\
  (p_memsz pe.1 <> 0 ->
     (page | p_vaddr pe.1) /\ p_vaddr pe.1 + p_memsz pe.1 < 2 ^ 64 /\ se_mmap pe.2 = Some (p_vaddr pe.1)).

(** No loaded segment lies over the file image. *)
Definition clear_of_file (base : Z) (F : list Z) (page : Z) (ph : Elf64_Phdr) : Prop :=
  loaded ph = true ->
  p_vaddr ph + round_up (p_memsz ph) page <= base \/ base + round_up (flen F) page <= p_vaddr ph.

(** ** Lemmas *)

Lemma round_up_ge x page : 0 < page -> x <= round_up x page.
Proof.
  intros Hp. unfold round_up. pose proof (Z.div_mod (x + page - 1) page ltac:(lia)).
  pose proof (Z.mod_pos_bound (x + page - 1) page ltac:(lia)). lia.
Qed.

Lemma round_up_page x page : 0 < page -> 0 < x -> page <= round_up x page.
Proof.
  intros Hp Hx. unfold round_up. assert (1 <= (x + page - 1) / page); [|nia].
  apply Z.div_le_lower_bound; lia.
Qed.

Lemma fbyte_range F k : Forall (fun b => 0 <= b < 256) F -> 0 <= fbyte F k < 256.
Proof.
  intros HF. unfold fbyte. destruct (F !! Z.to_nat k) as [b|] eqn:E; cbn; [|lia].
  rewrite Forall_lookup in HF. by apply HF in E.
Qed.

Lemma le_nonneg F n : Forall (fun b => 0 <= b < 256) F -> forall off, 0 <= le F off n.
Proof.
  intros HF. induction n as [|n IH]; intros off; cbn [le]; [lia|].
  pose proof (fbyte_range F off HF). pose proof (IH (off + 1)). lia.
Qed.

Lemma rd_le_spec m base F page n : forall off,
  file_at m base F page -> 0 <= off -> off + Z.of_nat n <= round_up (flen F) page ->
  rd_le m (base + off) n = Ok (le F off n).
Proof.
  induction n as [|n IH]; intros off Hf H0 Hn; [done|]. cbn [rd_le le]. unfold rd.
  rewrite (Hf off) by lia. cbn [mbind outcome_bind].
  replace (base + off + 1) with (base + (off + 1)) by lia. rewrite IH by (done || lia). done.
Qed.

Lemma read_ehdr_spec m base F page :
  file_at m base F page -> 64 <= round_up (flen F) page -> read_ehdr m base = Ok (ehdr_of F).
Proof.
  intros Hf Hp. unfold read_ehdr. rewrite <- (Z.add_0_r base) at 1.
  rewrite !(rd_le_spec m base F page) by (done || lia). done.
Qed.

Lemma read_phdr_spec m base F page a :
  file_at m base F page -> 0 <= a -> a + 56 <= round_up (flen F) page ->
  read_phdr m (base + a) =
  Ok (mk_phdr (le F a 4) (le F (a + 4) 4) (le F (a + 8) 8) (le F (a + 16) 8) (le F (a + 32) 8) (le F (a + 40) 8)).
Proof.
  intros Hf H0 Hp. unfold read_phdr. rewrite <- !Z.add_assoc.
  rewrite !(rd_le_spec m base F page) by (done || lia). done.
Qed.

Lemma writable_lor p : (Z.land (Z.lor p PROT_WRITE) PROT_WRITE =? 0) = false.
Proof.
  apply Z.eqb_neq. intros H. assert (Z.testbit (Z.land (Z.lor p PROT_WRITE) PROT_WRITE) 1 = true) as Hb.
  { by rewrite Z.land_spec, Z.lor_spec, orb_true_r. }
  rewrite H in Hb. done.
Qed.

Lemma has_flag_bit x f k : 0 <= k -> f = 2 ^ k -> has_flag x f = Z.testbit x k.
Proof.
  intros Hk ->. unfold has_flag. destruct (Z.testbit x k) eqn:E.
  - apply negb_true_iff, Z.eqb_neq. intros H0.
    assert (Z.testbit (Z.land x (2 ^ k)) k = true) as Hb by (rewrite Z.land_spec, E, Z.pow2_bits_true; done).
    rewrite H0, Z.bits_0 in Hb. done.
  - apply negb_false_iff, Z.eqb_eq, Z.bits_inj'. intros i Hi. rewrite Z.land_spec, Z.pow2_bits_eqb, Z.bits_0 by lia.
    destruct (Z.eqb_spec k i) as [<-|]; [by rewrite E|apply andb_false_r].
Qed.

Lemma final_prot_code ph e :
  final_prot ph e = if negb (has_flag (p_flags ph) PF_W) && se_mprotect e then segment_prot (p_flags ph)
                    else Z.lor (segment_prot (p_flags ph)) PROT_WRITE.
Proof.
  unfold final_prot, segment_prot. rewrite !(has_flag_bit _ PF_R 2), !(has_flag_bit _ PF_W 1), !(has_flag_bit _ PF_X 0) by done.
  by destruct (Z.testbit (p_flags ph) 2), (Z.testbit (p_flags ph) 1), (Z.testbit (p_flags ph) 0), (se_mprotect e).
Qed.

(** Copying [n] bytes of the file image into a writable range away from it. *)
Lemma memcpy_spec base F page prot n : forall m dest off,
  file_at m base F page -> 0 <= off -> off + Z.of_nat n <= round_up (flen F) page ->
  (dest + Z.of_nat n <= base \/ base + round_up (flen F) page <= dest) ->
  (forall k, 0 <= k < Z.of_nat n -> exists b, m (dest + k) = Some (b, prot)) ->
  (Z.land prot PROT_WRITE =? 0) = false ->
  exists m', memcpy m dest (base + off) n = Ok m' /\ 
    forall a, m' a = if (dest <=? a) && (a <? dest + Z.of_nat n) then Some (fbyte F (off + (a - dest)), prot) else m a.
Proof.
  induction n as [|n IH]; intros m dest off Hf H0 Hn Hd Hw Hp; cbn [memcpy].
  - exists m. split; [done|]. intros a. zcase (dest <=? a). zcase (a <? dest + Z.of_nat 0).
  - unfold rd. rewrite (Hf off) by lia. cbn [mbind outcome_bind].
    destruct (Hw 0 ltac:(lia)) as [b0 Hb0]. rewrite Z.add_0_r in Hb0.
    unfold wr. rewrite Hb0, Hp. cbn [mbind outcome_bind].
    replace (base + off + 1) with (base + (off + 1)) by lia.
    destruct (IH (fun x => if x =? dest then Some (fbyte F off, prot) else m x) (dest + 1) (off + 1))
      as (m' & E & Hm'); try lia; try done.
    + intros k Hk. destruct (Z.eqb_spec (base + k) dest); [lia|]. by apply Hf.
    + intros k Hk. destruct (Z.eqb_spec (dest + 1 + k) dest); [lia|].
      destruct (Hw (k + 1) ltac:(lia)) as [b Hb]. exists b. rewrite <- Hb. f_equal. lia.
    + exists m'. split; [exact E|]. intros a. rewrite Hm'.
      destruct (Z.leb_spec (dest + 1) a), (Z.ltb_spec a (dest + 1 + Z.of_nat n)), (Z.leb_spec dest a),
        (Z.ltb_spec a (dest + Z.of_nat (S n))), (Z.eqb_spec a dest); cbn [andb]; subst; try lia; try done.
      * do 3 f_equal. lia.
      * do 3 f_equal. lia.
Qed.

Lemma require_inv c why : require c why = Ok tt \/ exists w, require c why = Panic w.
Proof. destruct c; cbn; eauto. Qed.

Lemma require_Ok c why u : require c why = Ok u <-> c = true.
Proof. destruct c, u; naive_solver. Qed.

(** Either all checks pass, or the loader exits. *)
Lemma check_segment_total ph size page :
  (exists b, check_segment ph size page = Ok b) \/ exists w, check_segment ph size page = Panic w.
Proof.
  unfold check_segment.
  repeat (match goal with |- context [require ?c ?w] => destruct c; cbn [require mbind outcome_bind]; [|by eauto] end).
  destruct (p_memsz ph =? 0); [by eauto|].
  repeat (match goal with |- context [require ?c ?w] => destruct c; cbn [require mbind outcome_bind]; [|by eauto] end).
  by eauto.
Qed.

Lemma check_segment_ok ph size page b :
  check_segment ph size page = Ok b ->
  p_offset ph + p_filesz ph <= size /\ p_filesz ph <= p_memsz ph /\ b = negb (p_memsz ph =? 0) /\
  (b = true -> 0 < page /\ p_vaddr ph mod page = 0 /\ p_vaddr ph + p_memsz ph <= UINT64_MAX).
Proof.
  unfold check_segment. intros H.
  repeat (let Hr := fresh in apply bind_Ok in H as ([] & Hr & H); apply require_Ok in Hr; zbool).
  destruct (p_memsz ph =? 0) eqn:E; [injection H as <-; split_and!; (done || lia)|].
  repeat (let Hr := fresh in apply bind_Ok in H as ([] & Hr & H); apply require_Ok in Hr; zbool).
  injection H as <-. split_and!; (done || lia).
Qed.

(** One segment that passed its checks: the system refuses it, or the address
    space shows it on its pages and is unchanged elsewhere. *)
Lemma map_segment_spec m base F page ph e :
  file_at m base F page -> p_type ph = PT_LOAD -> p_memsz ph <> 0 -> 0 < page ->
  0 <= p_offset ph -> 0 <= p_filesz ph <= p_memsz ph -> p_offset ph + p_filesz ph <= flen F ->
  clear_of_file base F page ph ->
  if decide (se_mmap e = Some (p_vaddr ph))
  then exists m', map_segment m base page ph e = Ok m' /\ forall a, m' a = seg_view F page a (m a) (ph, e)
  else exists w, map_segment m base page ph e = Panic w.
Proof.
  intros Hf Hty Hsz Hpage Hoff Hfsz Hend Hclear.
  assert (loaded ph = true) as Hl by (unfold loaded; rewrite Hty; by apply Z.eqb_neq in Hsz as ->).
  specialize (Hclear Hl). unfold map_segment.
  destruct (se_mmap e) as [addr|]; [|destruct (decide _); [done|by eauto]].
  destruct (Z.eqb_spec addr (p_vaddr ph)) as [->|Hne]; cbn [negb];
    [rewrite decide_True by done|rewrite decide_False by congruence; by eauto].
  set (prot := segment_prot (p_flags ph)). set (v := p_vaddr ph) in *. set (R := round_up (p_memsz ph) page) in *.
  pose proof (round_up_ge (p_memsz ph) page Hpage) as HR. fold R in HR.
  pose proof (round_up_ge (flen F) page Hpage) as HFl.
  set (m1 := map_fixed m v (p_memsz ph) (Z.lor prot PROT_WRITE) page).
  assert (exists m2, (if 0 <? p_filesz ph then memcpy m1 v (base + p_offset ph) (Z.to_nat (p_filesz ph)) else Ok m1)
    = Ok m2 /\ forall a, m2 a = if (v <=? a) && (a <? v + R)
                          then Some (seg_byte F ph a, Z.lor prot PROT_WRITE) else m a) as (m2 & E & Hm2).
  { destruct (Z.ltb_spec 0 (p_filesz ph)).
    - destruct (memcpy_spec base F page (Z.lor prot PROT_WRITE) (Z.to_nat (p_filesz ph)) m1 v (p_offset ph))
        as (m2 & E & Hm2); try lia.
      + intros k Hk. unfold m1, map_fixed. fold R.
        zcase (v <=? base + k); zcase (base + k <? v + R); by apply Hf.
      + intros k Hk. exists 0. unfold m1, map_fixed. fold R. zcase (v <=? v + k). zcase (v + k <? v + R).
      + apply writable_lor.
      + exists m2. split; [exact E|]. intros a. rewrite Hm2, Z2Nat.id by lia.
        unfold seg_byte, m1, map_fixed. fold R v.
        destruct (Z.leb_spec v a), (Z.ltb_spec a (v + p_filesz ph)), (Z.ltb_spec a (v + R)),
          (Z.ltb_spec (a - v) (p_filesz ph)); cbn [andb]; try lia; done.
    - exists m1. split; [done|]. intros a. unfold seg_byte, m1, map_fixed. fold R v.
      destruct ((v <=? a) && _) eqn:Ea; [|done]. zbool. zcase (a - v <? p_filesz ph). }
  rewrite E. cbn [mbind outcome_bind]. eexists. split; [done|]. intros a.
  unfold seg_view, covers. cbn [fst snd]. rewrite final_prot_code, Hl. cbn [andb]. fold v R prot.
  destruct (_ && se_mprotect e).
  - unfold mprotect. fold R. rewrite Hm2. by destruct ((v <=? a) && _).
  - rewrite Hm2. by destruct ((v <=? a) && _).
Qed.

Lemma skipped_view F page a v ph e : loaded ph = false -> seg_view F page a v (ph, e) = v.
Proof. intros H. unfold seg_view, covers. cbn. by rewrite H. Qed.

(** When a segment is accepted by checks and system. *)
Definition accepted (F : list Z) (page : Z) (pe : Elf64_Phdr * seg_env) : bool :=
  if p_type pe.1 =? PT_LOAD then
    match check_segment pe.1 (flen F) page with
    | Ok true => bool_decide (se_mmap pe.2 = Some (p_vaddr pe.1))
    | Ok false => true
    | _ => false
    end
  else true.

Lemma load_segment_spec m base F page ph e :
  file_at m base F page -> 0 <= p_offset ph -> 0 <= p_filesz ph -> clear_of_file base F page ph ->
  if accepted F page (ph, e)
  then exists m', load_segment m base (flen F) page ph e = Ok m' /\
         forall a, m' a = seg_view F page a (m a) (ph, e)
  else exists w, load_segment m base (flen F) page ph e = Panic w.
Proof.
  intros Hf Hoff Hfsz Hclear. unfold load_segment, accepted. cbn [fst snd].
  destruct (p_type ph =? PT_LOAD) eqn:Ety; cbn [negb];
    [|exists m; split; [done|]; intros a; rewrite skipped_view; [done|unfold loaded; by rewrite Ety]].
  destruct (check_segment_total ph (flen F) page) as [[b E]|[w E]]; rewrite E; cbn [mbind outcome_bind]; [|by eauto].
  destruct (check_segment_ok _ _ _ _ E) as (Hend & Hm & -> & Hb).
  destruct (p_memsz ph =? 0) eqn:Ez; cbn [negb].
  - exists m. split; [done|]. intros a. rewrite skipped_view; [done|]. unfold loaded. rewrite Ez. apply andb_false_r.
  - zbool. pose proof (map_segment_spec m base F page ph e Hf Ety Ez ltac:(apply Hb; done) Hoff ltac:(lia) Hend Hclear) as Hs.
    destruct (decide _); [rewrite bool_decide_true by done|rewrite bool_decide_false by done]; done.
Qed.

(** A segment away from the file image leaves the image in place. *)
Lemma view_keeps_file m m' base F page ph e :
  file_at m base F page -> clear_of_file base F page ph ->
  (forall a, m' a = seg_view F page a (m a) (ph, e)) -> file_at m' base F page.
Proof.
  intros Hf Hc Hm k Hk. rewrite Hm. unfold seg_view, covers. cbn.
  destruct (loaded ph) eqn:El; cbn [andb]; [|by apply Hf]. specialize (Hc El).
  destruct (_ && _) eqn:E; [zbool; lia|by apply Hf].
Qed.

Lemma phdr_nonneg F i : Forall (fun b => 0 <= b < 256) F -> 0 <= p_offset (phdr_of F i) /\ 0 <= p_filesz (phdr_of F i).
Proof. intros HF. split; apply le_nonneg; done. Qed.

(** The headers [i], [i+1], ... with the answers of the system. *)
Definition segments (F : list Z) (env : nat -> seg_env) (i n : nat) : list (Elf64_Phdr * seg_env) :=
  (fun j => (phdr_of F j, env j)) <$> seq i n.

(** Every header of the table lies inside the file. *)
Definition table_inside (F : list Z) : Prop :=
  0 <= e_phoff (ehdr_of F) /\ 56 <= e_phentsize (ehdr_of F) /\
  e_phoff (ehdr_of F) + e_phnum (ehdr_of F) * e_phentsize (ehdr_of F) <= flen F.

Lemma load_loop_spec base F page env n : forall i m,
  file_at m base F page -> Forall (fun b => 0 <= b < 256) F -> 0 < page -> flen F <= 2 ^ 31 ->
  table_inside F -> Z.of_nat (i + n) = e_phnum (ehdr_of F) ->
  Forall (fun pe => clear_of_file base F page pe.1) (segments F env i n) ->
  if forallb (accepted F page) (segments F env i n)
  then exists m', load_loop n i m base (flen F) page (ehdr_of F) env = Ok m' /\
         forall a, m' a = image F page m (segments F env i n) a
  else exists w, load_loop n i m base (flen F) page (ehdr_of F) env = Panic w.
Proof.
  induction n as [|n IH]; intros i m Hf HF Hpage Hlen Hin Hn Hclear; cbn [load_loop segments seq fmap list_fmap forallb].
  - by exists m.
  - pose proof (round_up_ge (flen F) page Hpage) as HR. destruct Hin as (Hin1 & Hin2 & Hin3).
    assert (e_phoff (ehdr_of F) + Z.of_nat i * e_phentsize (ehdr_of F) + 56 <= flen F) as Hfit by nia.
    assert (entry_offset i (ehdr_of F) = Ok (Z.of_nat i * e_phentsize (ehdr_of F))) as ->.
    { unfold entry_offset. destruct (Z.ltb_spec INT_MAX (Z.of_nat i * e_phentsize (ehdr_of F)));
        [unfold INT_MAX in *; lia|done]. }
    cbn [mbind outcome_bind].
    assert (exists x, (if Z.of_nat i + 1 <? e_phnum (ehdr_of F) then entry_offset (S i) (ehdr_of F) else Ok 0) = Ok x)
      as [x ->].
    { destruct (Z.ltb_spec (Z.of_nat i + 1) (e_phnum (ehdr_of F))); [|by eauto]. unfold entry_offset.
      destruct (Z.ltb_spec INT_MAX (Z.of_nat (S i) * e_phentsize (ehdr_of F))); [unfold INT_MAX in *; nia|by eauto]. }
    cbn [mbind outcome_bind]. rewrite <- Z.add_assoc.
    rewrite (read_phdr_spec m base F page) by (done || lia || nia). cbn [mbind outcome_bind].
    fold (phdr_of F i). cbn [segments seq fmap list_fmap] in Hclear.
    apply Forall_cons in Hclear as [Hc Hclear]. cbn [fst] in Hc.
    destruct (phdr_nonneg F i HF) as [Ho Hs].
    pose proof (load_segment_spec m base F page (phdr_of F i) (env i) Hf Ho Hs Hc) as Hseg.
    destruct (accepted F page (phdr_of F i, env i)); cbn [andb].
    + destruct Hseg as (m' & -> & Hm'). cbn [mbind outcome_bind].
      specialize (IH (S i) m' (view_keeps_file _ _ _ _ _ _ _ Hf Hc Hm') HF Hpage Hlen
        (conj Hin1 (conj Hin2 Hin3)) ltac:(lia) Hclear).
      fold (segments F env (S i) n). destruct (forallb _ _); [|exact IH].
      destruct IH as (m'' & E & Hm''). exists m''. split; [exact E|]. intros a. rewrite Hm''.
      unfold image. cbn [foldl]. by rewrite Hm'.
    + destruct Hseg as (w & ->). cbn. by eauto.
Qed.

Lemma validate_total h size :
  validate_elf_header h size = Ok tt \/ exists w, validate_elf_header h size = Panic w.
Proof.
  unfold validate_elf_header.
  repeat (match goal with |- context [require ?c ?w ≫= _] =>
            destruct c; cbn [require mbind outcome_bind]; [|by eauto] end).
  destruct (negb _); cbn; by eauto.
Qed.

Lemma validate_inside F :
  validate_elf_header (ehdr_of F) (flen F) = Ok tt -> Forall (fun b => 0 <= b < 256) F -> table_inside F.
Proof.
  unfold validate_elf_header. intros H HF.
  repeat (let Hr := fresh in apply bind_Ok in H as ([] & Hr & H); apply require_Ok in Hr; zbool).
  split_and!; [apply le_nonneg; done|unfold sizeof_phdr in *; lia|lia].
Qed.

(** All the program headers of the file with the answers of the system. *)
Definition all_segments (F : list Z) (env : nat -> seg_env) : list (Elf64_Phdr * seg_env) :=
  segments F env 0 (Z.to_nat (e_phnum (ehdr_of F))).

Lemma load_kernel_spec m base F page env :
  file_at m base F page -> Forall (fun b => 0 <= b < 256) F -> 64 <= page -> 0 < flen F <= 2 ^ 31 ->
  Forall (fun pe => clear_of_file base F page pe.1) (all_segments F env) ->
  if is_ok (validate_elf_header (ehdr_of F) (flen F)) && forallb (accepted F page) (all_segments F env)
  then exists m', load_kernel m base (flen F) page env = Ok (ehdr_of F, m') /\
         forall a, m' a = image F page m (all_segments F env) a
  else exists w, load_kernel m base (flen F) page env = Panic w.
Proof.
  intros Hf HF Hpage Hlen Hclear. unfold load_kernel.
  pose proof (round_up_page (flen F) page ltac:(lia) ltac:(lia)) as HR.
  rewrite (read_ehdr_spec m base F page) by (done || lia). cbn [mbind outcome_bind].
  destruct (validate_total (ehdr_of F) (flen F)) as [E|[w E]]; rewrite E; cbn [is_ok andb mbind outcome_bind]; [|by eauto].
  pose proof (load_loop_spec base F page env (Z.to_nat (e_phnum (ehdr_of F))) 0 m Hf HF ltac:(lia) ltac:(lia)
    (validate_inside F E HF)) as Hl. unfold all_segments in *. unfold load_kernel_segments.
  destruct (forallb _ _).
  - destruct Hl as (m' & -> & Hm'); [rewrite Nat.add_0_l; apply Z2Nat.id, (le_nonneg F 2 HF)|done|]. cbn. by eauto.
  - destruct Hl as (w & ->); [rewrite Nat.add_0_l; apply Z2Nat.id, (le_nonneg F 2 HF)|done|]. cbn. by eauto.
Qed.

(** Later segments that do not cover an address do not change it. *)
Lemma image_skip F page a segs : forall v,
  Forall (fun pe => covers page pe.1 a = false) segs -> foldl (seg_view F page a) v segs = v.
Proof.
  induction segs as [|pe segs IH]; intros v Hs; [done|]. apply Forall_cons in Hs as [Hp Hs]. cbn [foldl].
  unfold seg_view at 2. by rewrite Hp, IH.
Qed.

(** The protection a segment asks for, bit by bit. *)
Lemma segment_prot_flags fl :
  has_flag (segment_prot fl) PROT_READ = has_flag fl PF_R /\
  has_flag (segment_prot fl) PROT_WRITE = has_flag fl PF_W /\
  has_flag (segment_prot fl) PROT_EXEC = has_flag fl PF_X.
Proof. unfold segment_prot. destruct (has_flag fl PF_R), (has_flag fl PF_W), (has_flag fl PF_X); done. Qed.

(** ** Theorems *)

(** The header checks accept exactly the valid files. *)
Lemma magic_bytes F : Forall (fun b => 0 <= b < 256) F ->
  le F 0 4 = ELFMAG <-> fbyte F 0 = 0x7F /\ fbyte F 1 = 0x45 /\ fbyte F 2 = 0x4C /\ fbyte F 3 = 0x46.
Proof.
  intros HF. cbn [le]. change (0 + 1) with 1. change (1 + 1) with 2. change (2 + 1) with 3. unfold ELFMAG.
  pose proof (fbyte_range F 0 HF). pose proof (fbyte_range F 1 HF). pose proof (fbyte_range F 2 HF).
  pose proof (fbyte_range F 3 HF). lia.
Qed.

Lemma validate_valid F :
  Forall (fun b => 0 <= b < 256) F -> flen F <= 2 ^ 31 ->
  is_ok (validate_elf_header (ehdr_of F) (flen F)) = true <-> valid_file F.
Proof.
  intros HF Hlen. pose proof (magic_bytes F HF) as Hmag. pose proof (le_nonneg F 8 HF 32). pose proof (le_nonneg F 2 HF 54).
  pose proof (le_nonneg F 2 HF 56).
  assert (forall k, le F k 1 = fbyte F k) as Hone by (intros k; cbn [le]; lia).
  assert (0 <= le F 56 2 * le F 54 2) by nia. unfold validate_elf_header. split.
  - destruct (_ ≫= _) as [[]| | |] eqn:E; try done. intros _. cbn [ehdr_of ei_mag ei_class ei_data ei_version e_type e_machine e_ehsize e_phentsize e_phnum e_phoff e_entry] in E.
    repeat (let Hr := fresh in apply bind_Ok in E as ([] & Hr & E); apply require_Ok in Hr; zbool).
    apply require_Ok in E. zbool. rewrite !Hone in *.
    unfold ELFCLASS64, ELFDATA2LSB, ELFDATA2MSB, EV_CURRENT, ET_EXEC, EM_X86_64, sizeof_ehdr, sizeof_phdr in *.
    constructor; try done; try tauto; lia.
  - intros [Hm Hc Hd Hv Ht Hma He Hp (Hn & Ho & Htab) Hen]. apply Hmag in Hm.
    cbn [ehdr_of ei_mag ei_class ei_data ei_version e_type e_machine e_ehsize e_phentsize e_phnum e_phoff e_entry].
    rewrite Hm, !Hone, Hc, Hv, Ht, Hma. unfold sizeof_ehdr, sizeof_phdr, UINT64_MAX.
    rewrite !Z.eqb_refl. cbn [require mbind outcome_bind].
    assert ((fbyte F 5 =? ELFDATA2LSB) || (fbyte F 5 =? ELFDATA2MSB) = true) as -> by (destruct Hd as [->| ->]; done).
    cbn [require mbind outcome_bind]. zcase (64 <=? le F 52 2). cbn [require mbind outcome_bind]. zcase (56 <=? le F 54 2).
    cbn [require mbind outcome_bind]. zcase (le F 56 2 =? 0). cbn [negb require mbind outcome_bind].
    zcase (le F 32 8 =? 0). zcase (flen F <? le F 32 8). cbn [orb negb require mbind outcome_bind].
    zcase (le F 56 2 * le F 54 2 <=? 2 ^ 64 - 1). cbn [require mbind outcome_bind].
    zcase (le F 32 8 + le F 56 2 * le F 54 2 <=? 2 ^ 64 - 1). cbn [require mbind outcome_bind].
    zcase (le F 32 8 + le F 56 2 * le F 54 2 <=? flen F). cbn [require mbind outcome_bind]. zcase (le F 24 8 =? 0).
Qed.

(** The segment checks accept exactly the valid segments. *)
Lemma accepted_valid F page pe :
  0 < page -> flen F <= 2 ^ 31 -> 0 <= p_offset pe.1 -> 0 <= p_filesz pe.1 ->
  accepted F page pe = true <-> valid_segment F page pe.
Proof.
  intros Hpage Hlen Ho Hf. unfold accepted, valid_segment. change PT_LOAD with 1.
  destruct (Z.eqb_spec (p_type pe.1) 1) as [Hty|]; [|by split].
  split.
  - intros H _. destruct (check_segment pe.1 (flen F) page) as [b| | |] eqn:E; try done.
    destruct (check_segment_ok _ _ _ _ E) as (H1 & H2 & -> & H3). split; [done|]. split; [done|]. intros Hm.
    apply Z.eqb_neq in Hm. rewrite Hm in *. cbn [negb] in *. destruct (H3 eq_refl) as (_ & Hal & Hend).
    split; [by apply Z.mod_divide; [lia|]|]. split; [unfold UINT64_MAX in Hend; lia|]. by apply bool_decide_eq_true in H.
  - intros H. destruct (H Hty) as (H1 & H2 & H3). unfold check_segment, UINT64_MAX.
    zcase (p_offset pe.1 <=? flen F). cbn [require mbind outcome_bind].
    zcase (p_offset pe.1 + p_filesz pe.1 <=? 2 ^ 64 - 1). cbn [require mbind outcome_bind].
    zcase (p_offset pe.1 + p_filesz pe.1 <=? flen F). cbn [require mbind outcome_bind].
    zcase (p_filesz pe.1 <=? p_memsz pe.1). cbn [require mbind outcome_bind].
    destruct (Z.eqb_spec (p_memsz pe.1) 0) as [|Hm]; [done|]. destruct (H3 Hm) as (Hal & Hend & Hmm).
    zcase (0 <? page). cbn [require mbind outcome_bind]. apply Z.mod_divide in Hal; [|lia]. rewrite Hal, Z.eqb_refl.
    cbn [require mbind outcome_bind]. zcase (p_vaddr pe.1 + p_memsz pe.1 <=? 2 ^ 64 - 1). cbn [require mbind outcome_bind].
    by apply bool_decide_eq_true.
Qed.

Lemma accepted_all F page env :
  Forall (fun b => 0 <= b < 256) F -> 0 < page -> flen F <= 2 ^ 31 ->
  forallb (accepted F page) (all_segments F env) = true <-> Forall (valid_segment F page) (all_segments F env).
Proof.
  intros HF Hpage Hlen. rewrite forallb_forall, Forall_forall. setoid_rewrite <- list_elem_of_In.
  assert (forall pe, pe ∈ all_segments F env -> accepted F page pe = true <-> valid_segment F page pe) as H.
  { intros pe Hpe. unfold all_segments, segments in Hpe. apply list_elem_of_fmap in Hpe as (j & -> & _).
    destruct (phdr_nonneg F j HF). by apply accepted_valid. }
  split; intros Ha pe Hpe; apply H; auto.
Qed.

(** C13: The loader, on any file of at most 2 GiB mapped read-only with whole pages of at
    least 64 bytes, and for segments that do not lie over the mapped file: it never
    reads or writes an unmapped or protected address. It loads exactly when the file is
    valid ([valid_file]: the magic, class, type, machine, sizes and bounds, byte by
    byte) and every loadable segment is ([valid_segment]: inside the file, aligned, and
    mapped by the system where it asks for); then each address holds what the last
    segment covering it prescribes (file bytes, then zeros, with the protection of its
    flags) and all other addresses are unchanged. Otherwise it exits with an error. *)
Theorem elf_load_correct (m : memory) (base : Z) (F : list Z) (page : Z) (env : nat -> seg_env) :
  file_at m base F page -> Forall (fun b => 0 <= b < 256) F -> 64 <= page -> 0 < flen F <= 2 ^ 31 ->
  Forall (fun pe => clear_of_file base F page pe.1) (all_segments F env) ->
  (valid_file F /\ Forall (valid_segment F page) (all_segments F env) ->
     exists m', load_kernel m base (flen F) page env = Ok (ehdr_of F, m') /\
       forall a, m' a = image F page m (all_segments F env) a) /\
  (~ (valid_file F /\ Forall (valid_segment F page) (all_segments F env)) ->
     exists w, load_kernel m base (flen F) page env = Panic w).
Proof.
  intros Hf HF Hpage Hlen Hclear. pose proof (load_kernel_spec m base F page env Hf HF Hpage Hlen Hclear) as H.
  rewrite <- (validate_valid F HF (proj2 Hlen)), <- (accepted_all F page env HF ltac:(lia) (proj2 Hlen)), <- andb_true_iff.
  by destruct (_ && _).
Qed.

(** [n] little-endian bytes of [x]. *)
Fixpoint enc (n : nat) (x : Z) : list Z :=
  match n with O => [] | S n' => x mod 256 :: enc n' (x / 256) end.

(** A file with one segment: four bytes of code and a zeroed tail, read-execute. *)
Definition demo_file : list Z :=
  [127; 69; 76; 70; 2; 1; 1; 0] ++ replicate 8 0 ++ enc 2 2 ++ enc 2 62 ++ enc 4 1 ++ enc 8 8192 ++ enc 8 64
  ++ enc 8 0 ++ enc 4 0 ++ enc 2 64 ++ enc 2 56 ++ enc 2 1 ++ replicate 6 0
  ++ enc 4 1 ++ enc 4 5 ++ enc 8 120 ++ enc 8 8192 ++ enc 8 0 ++ enc 8 4 ++ enc 8 70 ++ enc 8 64
  ++ [244; 235; 253; 144].

Definition demo_mem : memory :=
  fun a => if (4096 <=? a) && (a <? 4096 + 128) then Some (fbyte demo_file (a - 4096), PROT_READ) else None.

Definition demo_env : nat -> seg_env := fun _ => mk_seg_env (Some 8192) true.

Lemma demo_mapped : file_at demo_mem 4096 demo_file 64.
Proof.
  intros k Hk. change (round_up (flen demo_file) 64) with 128 in Hk. unfold demo_mem.
  zcase (4096 <=? 4096 + k). zcase (4096 + k <? 4096 + 128). cbn [andb]. do 3 f_equal. lia.
Qed.

Lemma demo_bytes : Forall (fun b => 0 <= b < 256) demo_file.
Proof. apply Forall_forall. intros b Hb. vm_compute in Hb. repeat (apply elem_of_cons in Hb as [->|Hb]; [lia|]). by apply not_elem_of_nil in Hb. Qed.

Lemma demo_clear : Forall (fun pe => clear_of_file 4096 demo_file 64 pe.1) (all_segments demo_file demo_env).
Proof.
  change (all_segments demo_file demo_env) with [(mk_phdr 1 5 120 8192 4 70, mk_seg_env (Some 8192) true)].
  apply Forall_singleton. intros _. right. vm_compute. discriminate.
Qed.

Lemma elf_load_correct_witness :
  exists m', load_kernel demo_mem 4096 124 64 demo_env = Ok (ehdr_of demo_file, m') /\
    m' 8193 = Some (235, Z.lor PROT_READ PROT_EXEC) /\ m' 8260 = Some (0, Z.lor PROT_READ PROT_EXEC).
Proof.
  destruct (elf_load_correct demo_mem 4096 demo_file 64 demo_env demo_mapped demo_bytes ltac:(lia)
    ltac:(vm_compute; split; [reflexivity|discriminate]) demo_clear) as [H _].
  destruct H as (m' & H1 & H2).
  - split.
    + constructor; first [reflexivity | left; reflexivity | vm_compute; discriminate | idtac].
      * repeat split.
      * split; [|split]; vm_compute; discriminate.
    + change (all_segments demo_file demo_env) with [(mk_phdr 1 5 120 8192 4 70, mk_seg_env (Some 8192) true)].
      apply Forall_singleton. intros _. cbn [fst snd p_offset p_filesz p_memsz p_vaddr se_mmap].
      split; [vm_compute; discriminate|]. split; [lia|]. intros _. split; [by exists 128|]. split; [lia|reflexivity].
  - exists m'. split; [exact H1|]. rewrite !H2. split; reflexivity.
Defined.

(** After a successful load, a loadable segment whose pages no later segment
    covers is in place: each of its bytes is the corresponding byte of the file,
    or 0 past its file size, and, if its [mprotect] succeeded or it is writable
    anyway, its pages are readable, writable and executable exactly as its flags
    say. *)
Theorem elf_segment_loaded (m : memory) (base : Z) (F : list Z) (page : Z) (env : nat -> seg_env)
    (h : Elf64_Ehdr) (m' : memory) (before after : list (Elf64_Phdr * seg_env)) (ph : Elf64_Phdr) (e : seg_env) (k : Z) :
  file_at m base F page -> Forall (fun b => 0 <= b < 256) F -> 64 <= page -> 0 < flen F <= 2 ^ 31 ->
  Forall (fun pe => clear_of_file base F page pe.1) (all_segments F env) ->
  load_kernel m base (flen F) page env = Ok (h, m') ->
  all_segments F env = before ++ (ph, e) :: after -> p_type ph = PT_LOAD -> 0 <= k < p_memsz ph ->
  Forall (fun pe => covers page pe.1 (p_vaddr ph + k) = false) after ->
  exists prot, m' (p_vaddr ph + k) = Some (if k <? p_filesz ph then fbyte F (p_offset ph + k) else 0, prot) /\
  (se_mprotect e = true \/ has_flag (p_flags ph) PF_W = true ->
     has_flag prot PROT_READ = has_flag (p_flags ph) PF_R /\
     has_flag prot PROT_WRITE = has_flag (p_flags ph) PF_W /\
     has_flag prot PROT_EXEC = has_flag (p_flags ph) PF_X).
Proof.
  intros Hf HF Hpage Hlen Hclear Hload Hsegs Hty Hk Hafter.
  pose proof (load_kernel_spec m base F page env Hf HF Hpage Hlen Hclear) as Hspec.
  destruct (_ && _); [|destruct Hspec as [w Hw]; congruence].
  destruct Hspec as (m1 & E & Hm). rewrite Hload in E. injection E as -> ->.
  exists (final_prot ph e). rewrite Hm, Hsegs. unfold image. rewrite foldl_app. cbn [foldl].
  rewrite image_skip by done. pose proof (round_up_ge (p_memsz ph) page ltac:(lia)).
  assert (covers page ph (p_vaddr ph + k) = true) as Hc.
  { unfold covers, loaded. rewrite Hty. change (PT_LOAD =? PT_LOAD) with true. cbn [andb].
    apply andb_true_iff. split; [apply andb_true_iff; split; [apply negb_true_iff, Z.eqb_neq|apply Z.leb_le]|apply Z.ltb_lt]; lia. }
  unfold seg_view at 1. cbn [fst snd]. rewrite Hc. unfold seg_byte.
  replace (p_vaddr ph + k - p_vaddr ph) with k by lia. split; [done|]. intros Hp.
  rewrite final_prot_code. destruct (segment_prot_flags (p_flags ph)) as (H1 & H2 & H3).
  destruct (has_flag (p_flags ph) PF_W) eqn:Ew; cbn [negb andb].
  - replace (Z.lor (segment_prot (p_flags ph)) PROT_WRITE) with (segment_prot (p_flags ph)); [done|].
    unfold segment_prot. rewrite Ew. by destruct (has_flag _ PF_R), (has_flag _ PF_X).
  - destruct Hp as [->|Hp]; [|done]. done.
Qed.

Lemma elf_segment_loaded_witness :
  exists m' prot, load_kernel demo_mem 4096 124 64 demo_env = Ok (ehdr_of demo_file, m') /\
    m' 8194 = Some (253, prot) /\ has_flag prot PROT_WRITE = false.
Proof.
  pose proof (load_kernel_spec demo_mem 4096 demo_file 64 demo_env demo_mapped demo_bytes ltac:(lia)
    ltac:(vm_compute; split; [reflexivity|discriminate]) demo_clear) as H.
  destruct H as (m' & H1 & _). exists m'.
  destruct (elf_segment_loaded demo_mem 4096 demo_file 64 demo_env (ehdr_of demo_file) m' [] []
    (mk_phdr 1 5 120 8192 4 70) (mk_seg_env (Some 8192) true) 2 demo_mapped demo_bytes ltac:(lia)
    ltac:(vm_compute; split; [reflexivity|discriminate]) demo_clear H1 eq_refl eq_refl ltac:(cbn; lia)
    (Forall_nil_2 _)) as (prot & H2 & H3).
  exists prot. split; [exact H1|]. split; [exact H2|]. apply H3. left. reflexivity.
Defined.

(** The stride [i * e_phentsize] is computed in [int]: for a header table of more
    than 2 GiB, which the validation accepts, it overflows. *)
Example stride_overflow :
  entry_offset (Z.to_nat 32769) (mk_ehdr 0 0 0 0 0 0 0 0 0 65535 65535) = Undef "signed overflow".
Proof. reflexivity. Qed.

(** The file descriptor that [map_kernel_file] opens is closed when it returns. *)
Lemma map_kernel_file_closes c st fd map c' opened closed :
  map_kernel_file c st fd map = Ok (c', opened, closed) ->
  opened = closed /\ kernel_fd c' = -1 /\ kernel_map_base c' = map /\ st = Some (kernel_map_size c').
Proof.
  unfold map_kernel_file. destruct st as [size|]; [|done]. destruct (size <=? 0); [done|].
  destruct (UINT64_MAX <? size); [done|]. unfold cleanup_fd. destruct (Z.ltb_spec fd 0); [done|].
  destruct map; [|done]. zcase (0 <=? fd). by intros [= <- <- <-].
Qed.

End Elf.
