(* ===== verification/KTree.v ===== *)
(** Building blocks of [src/mm/kernel_tree.h]: spin lock with a retry limit, bitmap,
    ring buffer, node pool and tree manager. *)
From Stdlib Require Import ZArith Lia.
From stdpp Require Import strings numbers gmap base.
From stdpp Require Import list fin_sets.
From S2P Require Import Prelude.
Open Scope Z_scope.

Module KTree.

Definition KTREE_MAX_NODES : Z := 4096.
Definition KTREE_MAX_TREES : nat := 32.
Definition KTREE_INVALID_NODE : Z := 65535.

Inductive ktree_error : Type :=
| KTREE_SUCCESS | KTREE_ERR_FULL | KTREE_ERR_INVALID | KTREE_ERR_NOT_FOUND | KTREE_ERR_EXISTS
| KTREE_ERR_EMPTY | KTREE_ERR_LOCK_FAILED | KTREE_ERR_MAX_DEPTH | KTREE_ERR_OOM | KTREE_ERR_CORRUPTED.

#[export] Instance ktree_error_eq_dec : EqDecision ktree_error.
Proof. solve_decision. Defined.

(** [ktree_spinlock_lock]: every try stores 1; when nobody releases the lock all
    tries see the same old value. *)
Definition ktree_spinlock_lock (lock : Z) : ktree_error * Z :=
  if lock =? 0 then (KTREE_SUCCESS, 1) else (KTREE_ERR_LOCK_FAILED, 1).
Definition ktree_spinlock_unlock (lock : Z) : Z := 0.

(** ** Bitmap: an array of 64-bit words *)
Definition ktree_bitmap_init : list Z := replicate (Z.to_nat (KTREE_MAX_NODES / 64)) 0.

Definition ktree_bitmap_set (bm : list Z) (bit : Z) : outcome (list Z) :=
  let idx := Z.shiftr bit 6 in
  let offset := Z.land bit 63 in
  w ← arr_get bm idx ; arr_set bm idx (Z.lor w (shl64 1 offset)).

Definition ktree_bitmap_clear (bm : list Z) (bit : Z) : outcome (list Z) :=
  let idx := Z.shiftr bit 6 in
  let offset := Z.land bit 63 in
  w ← arr_get bm idx ; arr_set bm idx (Z.land w (not64 (shl64 1 offset))).

Definition ktree_bitmap_test (bm : list Z) (bit : Z) : outcome bool :=
  let idx := Z.shiftr bit 6 in
  let offset := Z.land bit 63 in
  w ← arr_get bm idx ; Ok (negb (Z.land w (shl64 1 offset) =? 0)).

Definition ktree_bitmap_test_and_set (bm : list Z) (bit : Z) : outcome (bool * list Z) :=
  let idx := Z.shiftr bit 6 in
  let offset := Z.land bit 63 in
  let mask := shl64 1 offset in
  old ← arr_get bm idx ; bm' ← arr_set bm idx (Z.lor old mask) ;
  Ok (negb (Z.land old mask =? 0), bm').

(** [__builtin_popcountll]. *)
Definition popcount (w : Z) : Z := count_upto (Z.testbit w) 64.

Definition ktree_bitmap_count (bm : list Z) : Z := foldl (fun c w => u32 (c + popcount w)) 0 bm.

(** ** Ring buffer *)
Record ktree_ring := mk_ring { ring_buffer : list Z; head : Z; tail : Z; count : Z }.

Definition ktree_ring_init (buf : list Z) : ktree_ring := mk_ring buf 0 0 0.
Definition ktree_ring_clear (rb : ktree_ring) : ktree_ring := mk_ring (ring_buffer rb) 0 0 0.
Definition ktree_ring_empty (rb : ktree_ring) : bool := count rb =? 0.
Definition ktree_ring_full (rb : ktree_ring) : bool := count rb =? KTREE_MAX_NODES.
Definition ktree_ring_size (rb : ktree_ring) : Z := count rb.

Definition ktree_ring_push (rb : ktree_ring) (idx : Z) : outcome (ktree_error * ktree_ring) :=
  if ktree_ring_full rb then Ok (KTREE_ERR_FULL, rb)
  else
    b ← arr_set (ring_buffer rb) (tail rb) idx ;
    Ok (KTREE_SUCCESS, mk_ring b (head rb) (Z.land (tail rb + 1) (KTREE_MAX_NODES - 1)) (u16 (count rb + 1))).

(** The element is [None] when [*idx] is not written. *)
Definition ktree_ring_pop (rb : ktree_ring) : outcome (ktree_error * option Z * ktree_ring) :=
  if ktree_ring_empty rb then Ok (KTREE_ERR_EMPTY, None, rb)
  else
    x ← arr_get (ring_buffer rb) (head rb) ;
    Ok (KTREE_SUCCESS, Some x,
        mk_ring (ring_buffer rb) (Z.land (head rb + 1) (KTREE_MAX_NODES - 1)) (tail rb) (u16 (count rb - 1))).

(** ** Node pool *)
Record ktree_node := mk_node {
  n_data : Z; n_hash : Z; n_left : Z; n_right : Z; n_parent : Z; n_height : Z; n_flags : Z
}.

Record ktree_node_pool := mk_pool { nodes : list ktree_node; free_list : Z; node_count : Z; pool_lock : Z }.

(** [ktree_pool_init] on nodes that hold anything. *)
Definition init_node (i : nat) (nd : ktree_node) : ktree_node :=
  mk_node (n_data nd) (n_hash nd)
    (if Z.of_nat i =? KTREE_MAX_NODES - 1 then KTREE_INVALID_NODE else Z.of_nat i + 1)
    KTREE_INVALID_NODE KTREE_INVALID_NODE 0 0.

Definition ktree_pool_init (p : ktree_node_pool) : ktree_node_pool :=
  mk_pool (imap init_node (nodes p)) 0 0 0.

Definition ktree_pool_alloc_node (p : ktree_node_pool) : outcome (ktree_error * option Z * ktree_node_pool) :=
  match ktree_spinlock_lock (pool_lock p) with
  | (KTREE_SUCCESS, lk) =>
      if free_list p =? KTREE_INVALID_NODE
      then Ok (KTREE_ERR_FULL, None, mk_pool (nodes p) (free_list p) (node_count p) (ktree_spinlock_unlock lk))
      else
        let new_idx := free_list p in
        nd ← arr_get (nodes p) new_idx ;
        ns ← arr_set (nodes p) new_idx
               (mk_node (n_data nd) (n_hash nd) KTREE_INVALID_NODE KTREE_INVALID_NODE KTREE_INVALID_NODE 1 0) ;
        Ok (KTREE_SUCCESS, Some new_idx,
            mk_pool ns (n_left nd) (u32 (node_count p + 1)) (ktree_spinlock_unlock lk))
  | (_, lk) => Ok (KTREE_ERR_LOCK_FAILED, None, mk_pool (nodes p) (free_list p) (node_count p) lk)
  end.

(** [ktree_node_init]; the hash is the data as an unsigned number. *)
Definition ktree_node_init (p : ktree_node_pool) (idx data : Z) : outcome ktree_node_pool :=
  nd ← arr_get (nodes p) idx ;
  ns ← arr_set (nodes p) idx
         (mk_node data (u32 data) (n_left nd) (n_right nd) (n_parent nd) (n_height nd) (n_flags nd)) ;
  Ok (mk_pool ns (free_list p) (node_count p) (pool_lock p)).

(** [ktree_pool_free_node]: the result of taking the lock is ignored. *)
Definition ktree_pool_free_node (p : ktree_node_pool) (idx : Z) : outcome ktree_node_pool :=
  if idx =? KTREE_INVALID_NODE then Ok p
  else
    let '(_, lk) := ktree_spinlock_lock (pool_lock p) in
    nd ← arr_get (nodes p) idx ;
    ns ← arr_set (nodes p) idx
           (mk_node (n_data nd) (n_hash nd) (free_list p) KTREE_INVALID_NODE KTREE_INVALID_NODE (n_height nd) 0) ;
    Ok (mk_pool ns idx (u32 (node_count p - 1)) (ktree_spinlock_unlock lk)).

(** ** Tree manager *)
Record ktree_tree := mk_tree { root : Z; t_size : Z; tree_lock : Z; t_flags : Z; t_height : Z }.

Definition ktree_init (flags : Z) : ktree_tree := mk_tree KTREE_INVALID_NODE 0 0 flags 0.

Record ktree_manager := mk_manager {
  node_pool : ktree_node_pool; trees : list ktree_tree; tree_count : Z; mgr_lock : Z; m_flags : Z
}.

Definition ktree_manager_init (p : ktree_node_pool) : ktree_manager :=
  mk_manager (ktree_pool_init p) (replicate KTREE_MAX_TREES (ktree_init 0)) 0 0 0.

(** Search for a free slot, from slot [i]. *)
Fixpoint tree_slot (ts : list ktree_tree) (i : nat) : option nat :=
  match ts with
  | [] => None
  | t :: ts' => if (root t =? KTREE_INVALID_NODE) && (t_size t =? 0) then Some i else tree_slot ts' (S i)
  end.

Definition ktree_manager_create_tree (m : ktree_manager) (flags : Z) : ktree_error * option nat * ktree_manager :=
  match ktree_spinlock_lock (mgr_lock m) with
  | (KTREE_SUCCESS, lk) =>
      let unlock ts c := mk_manager (node_pool m) ts c (ktree_spinlock_unlock lk) (m_flags m) in
      if Z.of_nat KTREE_MAX_TREES <=? tree_count m then (KTREE_ERR_FULL, None, unlock (trees m) (tree_count m))
      else
        match tree_slot (trees m) 0 with
        | Some i => (KTREE_SUCCESS, Some i, unlock (<[i := ktree_init flags]> (trees m)) (u32 (tree_count m + 1)))
        | None => (KTREE_ERR_FULL, None, unlock (trees m) (tree_count m))
        end
  | (_, lk) => (KTREE_ERR_LOCK_FAILED, None,
                mk_manager (node_pool m) (trees m) (tree_count m) lk (m_flags m))
  end.

(** ** Ring buffer: refinement of a bounded queue *)

Definition ring_at (rb : ktree_ring) (k : Z) : Z :=
  default 0 (ring_buffer rb !! Z.to_nat ((head rb + k) mod KTREE_MAX_NODES)).

(** The queued elements, oldest first. *)
Definition ring_contents (rb : ktree_ring) : list Z := ring_at rb <$> seqZ 0 (count rb).

Record ring_wf (rb : ktree_ring) : Prop := mk_ring_wf {
  rw_length : Z.of_nat (length (ring_buffer rb)) = KTREE_MAX_NODES;
  rw_head : 0 <= head rb < KTREE_MAX_NODES;
  rw_count : 0 <= count rb <= KTREE_MAX_NODES;
  rw_tail : tail rb = (head rb + count rb) mod KTREE_MAX_NODES
}.

Lemma mask_mod x : Z.land x (KTREE_MAX_NODES - 1) = x mod KTREE_MAX_NODES.
Proof. change (KTREE_MAX_NODES - 1) with (Z.ones 12). apply Z.land_ones. lia. Qed.

Lemma mod_range x : 0 <= x mod KTREE_MAX_NODES < KTREE_MAX_NODES.
Proof. apply Z.mod_pos_bound. done. Qed.

Lemma u16_small x : 0 <= x <= KTREE_MAX_NODES -> u16 x = x.
Proof. unfold KTREE_MAX_NODES, u16, wrap. intros H. apply Z.mod_small. lia. Qed.

(** Distinct positions of the ring are distinct slots. *)
Lemma ring_slot_ne h j k :
  0 <= j < KTREE_MAX_NODES -> 0 <= k < KTREE_MAX_NODES -> j <> k ->
  Z.to_nat ((h + j) mod KTREE_MAX_NODES) <> Z.to_nat ((h + k) mod KTREE_MAX_NODES).
Proof.
  intros Hj Hk Hne E. pose proof (mod_range (h + j)). pose proof (mod_range (h + k)).
  assert ((h + j) mod KTREE_MAX_NODES = (h + k) mod KTREE_MAX_NODES) as E' by lia.
  pose proof (Z.div_mod (h + j) KTREE_MAX_NODES ltac:(done)) as D1.
  pose proof (Z.div_mod (h + k) KTREE_MAX_NODES ltac:(done)) as D2. rewrite E' in D1.
  unfold KTREE_MAX_NODES in *. lia.
Qed.

Lemma ring_push_spec rb x :
  ring_wf rb -> count rb < KTREE_MAX_NODES ->
  exists rb', ktree_ring_push rb x = Ok (KTREE_SUCCESS, rb') /\ ring_wf rb' /\
    ring_contents rb' = ring_contents rb ++ [x].
Proof.
  intros [Hl Hh Hc Ht] Hlt. unfold ktree_ring_push, ktree_ring_full.
  destruct (Z.eqb_spec (count rb) KTREE_MAX_NODES); [lia|].
  pose proof (mod_range (head rb + count rb)) as Hr. rewrite <- Ht in Hr.
  assert (arr_set (ring_buffer rb) (tail rb) x = Ok (<[Z.to_nat (tail rb) := x]> (ring_buffer rb))) as ->
    by (apply arr_set_Ok; split; [lia|done]).
  cbn [mbind outcome_bind]. rewrite mask_mod, u16_small by lia. eexists. split; [done|]. split.
  - split; cbn [ring_buffer head count tail]; [by rewrite length_insert|done|lia|].
    rewrite Ht, Z.add_assoc. apply Zplus_mod_idemp_l.
  - unfold ring_contents. cbn [count]. rewrite seqZ_app, fmap_app by lia. f_equal.
    + apply list_fmap_ext. intros i k Hk. apply lookup_seqZ in Hk as [-> Hi]. unfold ring_at. cbn [ring_buffer head].
      rewrite list_lookup_insert_ne; [done|]. rewrite Ht. apply ring_slot_ne; lia.
    + rewrite Z.add_0_l, (seqZ_cons (count rb) 1), fmap_cons by lia. unfold ring_at at 1. cbn [ring_buffer head].
      rewrite <- Ht, list_lookup_insert_eq; [done|lia].
Qed.

Lemma ring_pop_spec rb :
  ring_wf rb -> 0 < count rb ->
  exists x rb', ktree_ring_pop rb = Ok (KTREE_SUCCESS, Some x, rb') /\ ring_wf rb' /\
    ring_contents rb = x :: ring_contents rb'.
Proof.
  intros [Hl Hh Hc Ht] Hlt. unfold ktree_ring_pop, ktree_ring_empty.
  destruct (Z.eqb_spec (count rb) 0); [lia|].
  destruct (arr_get_total (ring_buffer rb) (head rb) ltac:(lia)) as [x Hx]. rewrite Hx.
  cbn [mbind outcome_bind]. rewrite mask_mod, u16_small by lia. eexists x, _. split; [done|]. split.
  - split; cbn [ring_buffer head count tail]; [done|apply mod_range|lia|].
    rewrite Ht, Zplus_mod_idemp_l. f_equal. lia.
  - unfold ring_contents. cbn [count]. rewrite (seqZ_cons 0) by lia. rewrite fmap_cons. f_equal.
    + unfold ring_at. rewrite Z.add_0_r, Z.mod_small by lia. apply arr_get_Ok in Hx as [_ ->]. done.
    + rewrite <- (fmap_add_seqZ 1 0), <- list_fmap_compose. apply list_fmap_ext. intros i k _.
      unfold ring_at, compose. cbn [ring_buffer head]. rewrite Zplus_mod_idemp_l. do 4 f_equal. lia.
Qed.

(** The abstract queue: at most [KTREE_MAX_NODES] elements. *)
Inductive queue_op : Type := QPush (x : Z) | QPop | QClear.

Definition queue_step (q : list Z) (o : queue_op) : (ktree_error * option Z) * list Z :=
  match o with
  | QPush x => if Z.of_nat (length q) =? KTREE_MAX_NODES then (KTREE_ERR_FULL, None, q)
               else (KTREE_SUCCESS, None, q ++ [x])
  | QPop => match q with [] => (KTREE_ERR_EMPTY, None, q) | x :: q' => (KTREE_SUCCESS, Some x, q') end
  | QClear => (KTREE_SUCCESS, None, [])
  end.

Definition ring_step (rb : ktree_ring) (o : queue_op) : outcome ((ktree_error * option Z) * ktree_ring) :=
  match o with
  | QPush x => '(e, rb') ← ktree_ring_push rb x ; Ok (e, None, rb')
  | QPop => ktree_ring_pop rb
  | QClear => Ok (KTREE_SUCCESS, None, ktree_ring_clear rb)
  end.

Fixpoint queue_run (q : list Z) (os : list queue_op) : list (ktree_error * option Z) * list Z :=
  match os with
  | [] => ([], q)
  | o :: os' => let '(r, q') := queue_step q o in let '(rs, q'') := queue_run q' os' in (r :: rs, q'')
  end.

Fixpoint ring_run (rb : ktree_ring) (os : list queue_op) : outcome (list (ktree_error * option Z) * ktree_ring) :=
  match os with
  | [] => Ok ([], rb)
  | o :: os' => '(r, rb') ← ring_step rb o ; '(rs, rb'') ← ring_run rb' os' ; Ok (r :: rs, rb'')
  end.

Lemma ring_contents_length rb : ring_wf rb -> Z.of_nat (length (ring_contents rb)) = count rb.
Proof. intros [_ _ Hc _]. unfold ring_contents. rewrite length_fmap, length_seqZ. lia. Qed.

Lemma ring_step_refines rb o :
  ring_wf rb ->
  exists rb', ring_step rb o = Ok ((queue_step (ring_contents rb) o).1, rb') /\ ring_wf rb' /\
    ring_contents rb' = (queue_step (ring_contents rb) o).2.
Proof.
  intros Hwf. pose proof (ring_contents_length rb Hwf) as Hlen. destruct o as [x| |]; cbn [ring_step queue_step].
  - rewrite Hlen. destruct (Z.eqb_spec (count rb) KTREE_MAX_NODES) as [E|E].
    + exists rb. unfold ktree_ring_push, ktree_ring_full. apply Z.eqb_eq in E as ->. done.
    + pose proof (rw_count _ Hwf). destruct (ring_push_spec rb x Hwf ltac:(lia)) as (rb' & -> & Hwf' & Hc). by exists rb'.
  - destruct (decide (count rb = 0)) as [E|E].
    + exists rb. unfold ktree_ring_pop, ktree_ring_empty. rewrite (proj2 (Z.eqb_eq _ _) E).
      assert (ring_contents rb = []) as -> by (apply nil_length_inv; lia). done.
    + pose proof (rw_count _ Hwf). destruct (ring_pop_spec rb Hwf ltac:(lia)) as (x & rb' & E' & Hwf' & Hc).
      exists rb'. rewrite Hc. done.
  - exists (ktree_ring_clear rb). split; [done|]. split; [|done]. destruct Hwf. split; cbn; try done. 
Qed.

Lemma ring_run_refines os : forall rb,
  ring_wf rb ->
  exists rb', ring_run rb os = Ok ((queue_run (ring_contents rb) os).1, rb') /\ ring_wf rb' /\
    ring_contents rb' = (queue_run (ring_contents rb) os).2.
Proof.
  induction os as [|o os IH]; intros rb Hwf; cbn [ring_run queue_run]; [by exists rb|].
  destruct (ring_step_refines rb o Hwf) as (rb1 & -> & Hwf1 & Hc1). cbn [mbind outcome_bind].
  destruct (IH rb1 Hwf1) as (rb' & -> & Hwf' & Hc'). rewrite Hc1 in *.
  destruct (queue_step _ o) as [r q]. cbn [fst snd] in *. destruct (queue_run q os). by exists rb'.
Qed.

(** ** Bitmap: refinement of a set of indices *)

Definition bit_at (bm : list Z) (i : Z) : bool :=
  match bm !! Z.to_nat (i / 64) with Some w => Z.testbit w (i mod 64) | None => false end.

Definition bitmap_wf (bm : list Z) : Prop :=
  Z.of_nat (length bm) = KTREE_MAX_NODES / 64 /\ Forall in_u64 bm.

Lemma bit_index b : 0 <= b -> Z.shiftr b 6 = b / 64 /\ Z.land b 63 = b mod 64 /\ 0 <= b mod 64 < 64.
Proof.
  intros Hb. split_and!.
  - by rewrite Z.shiftr_div_pow2 by lia.
  - change 63 with (Z.ones 6). by rewrite Z.land_ones by lia.
  - apply Z.mod_pos_bound. lia.
  - apply Z.mod_pos_bound. lia.
Qed.

Lemma bitmap_word bm b :
  bitmap_wf bm -> 0 <= b < KTREE_MAX_NODES ->
  exists w, arr_get bm (b / 64) = Ok w /\ in_u64 w /\ bm !! Z.to_nat (b / 64) = Some w /\
    0 <= b / 64 < Z.of_nat (length bm).
Proof.
  intros [Hl Hw] Hb. assert (0 <= b / 64 < Z.of_nat (length bm)) as Hi.
  { rewrite Hl. change (KTREE_MAX_NODES / 64) with 64. split; [apply Z.div_pos; lia|]. apply Z.div_lt_upper_bound; [lia|]. unfold KTREE_MAX_NODES in *. lia. }
  destruct (arr_get_total bm (b / 64) Hi) as [w Hx]. exists w. pose proof Hx as Hx'.
  apply arr_get_Ok in Hx' as [_ Hx']. split_and!; try done; try lia.
  - rewrite Forall_lookup in Hw. apply (Hw _ _ Hx').
Qed.

(** Storing a word that differs from the old one in one bit. *)
Lemma bit_at_store bm b w w' (v : bool) i :
  bm !! Z.to_nat (b / 64) = Some w -> 0 <= b -> 0 <= i ->
  (forall j, 0 <= j < 64 -> Z.testbit w' j = if j =? b mod 64 then v else Z.testbit w j) ->
  bit_at (<[Z.to_nat (b / 64) := w']> bm) i = if i =? b then v else bit_at bm i.
Proof.
  intros Hw Hb Hi Hbits. unfold bit_at.
  pose proof (Z.div_mod b 64 ltac:(lia)). pose proof (Z.div_mod i 64 ltac:(lia)).
  pose proof (Z.mod_pos_bound b 64 ltac:(lia)). pose proof (Z.mod_pos_bound i 64 ltac:(lia)).
  pose proof (Z.div_pos b 64 Hb ltac:(lia)). pose proof (Z.div_pos i 64 Hi ltac:(lia)).
  destruct (decide (i / 64 = b / 64)) as [E|E].
  - rewrite E, list_lookup_insert_eq, Hw by (apply lookup_lt_Some in Hw; lia). rewrite Hbits by lia.
    destruct (Z.eqb_spec (i mod 64) (b mod 64)), (Z.eqb_spec i b); try done; lia.
  - rewrite list_lookup_insert_ne by lia. destruct (Z.eqb_spec i b); [subst; lia|done].
Qed.

Lemma store_wf bm k w : bitmap_wf bm -> in_u64 w -> bitmap_wf (<[k := w]> bm).
Proof. intros [Hl Hw] H. split; [by rewrite length_insert|by apply Forall_insert]. Qed.

Lemma bitmap_set_spec bm b :
  bitmap_wf bm -> 0 <= b < KTREE_MAX_NODES ->
  exists bm', ktree_bitmap_set bm b = Ok bm' /\ bitmap_wf bm' /\
    forall i, 0 <= i -> bit_at bm' i = if i =? b then true else bit_at bm i.
Proof.
  intros Hwf Hb. destruct (bit_index b ltac:(lia)) as (E1 & E2 & E3).
  destruct (bitmap_word bm b Hwf Hb) as (w & Hg & Hw & Hl & Hi). unfold ktree_bitmap_set.
  rewrite E1, E2, Hg. cbn [mbind outcome_bind]. eexists. split; [by apply arr_set_Ok|]. split.
  - apply store_wf; [done|]. by apply setbit64_range.
  - intros i Hi0. apply (bit_at_store bm b w); try done; try lia.
    intros j Hj. rewrite setbit64_bits by lia. by destruct (j =? _).
Qed.

Lemma bitmap_clear_spec bm b :
  bitmap_wf bm -> 0 <= b < KTREE_MAX_NODES ->
  exists bm', ktree_bitmap_clear bm b = Ok bm' /\ bitmap_wf bm' /\
    forall i, 0 <= i -> bit_at bm' i = if i =? b then false else bit_at bm i.
Proof.
  intros Hwf Hb. destruct (bit_index b ltac:(lia)) as (E1 & E2 & E3).
  destruct (bitmap_word bm b Hwf Hb) as (w & Hg & Hw & Hl & Hi). unfold ktree_bitmap_clear.
  rewrite E1, E2, Hg. cbn [mbind outcome_bind]. eexists. split; [by apply arr_set_Ok|]. split.
  - apply store_wf; [done|]. by apply clearbit64_range.
  - intros i Hi0. apply (bit_at_store bm b w); try done; try lia.
    intros j Hj. rewrite clearbit64_bits by (done || lia). by destruct (j =? _).
Qed.

Lemma bitmap_test_spec bm b :
  bitmap_wf bm -> 0 <= b < KTREE_MAX_NODES -> ktree_bitmap_test bm b = Ok (bit_at bm b).
Proof.
  intros Hwf Hb. destruct (bit_index b ltac:(lia)) as (E1 & E2 & E3).
  destruct (bitmap_word bm b Hwf Hb) as (w & Hg & Hw & Hl & Hi). unfold ktree_bitmap_test, bit_at.
  rewrite E1, E2, Hg, Hl. cbn [mbind outcome_bind]. rewrite testbit64_land by lia. by rewrite negb_involutive.
Qed.

(** Testing and setting is a test followed by a set. *)
Lemma bitmap_test_and_set_spec bm b :
  ktree_bitmap_test_and_set bm b =
  (t ← ktree_bitmap_test bm b ; bm' ← ktree_bitmap_set bm b ; Ok (t, bm')).
Proof.
  unfold ktree_bitmap_test_and_set, ktree_bitmap_test, ktree_bitmap_set.
  by destruct (arr_get bm (Z.shiftr b 6)); cbn [mbind outcome_bind].
Qed.

Lemma count_upto_app P n k :
  count_upto P (n + k) = count_upto P n + count_upto (fun i => P (Z.of_nat n + i)) k.
Proof.
  induction k as [|k IH]; [rewrite Nat.add_0_r; cbn; lia|].
  rewrite Nat.add_succ_r. cbn [count_upto]. rewrite IH. rewrite Nat2Z.inj_add. lia.
Qed.

Lemma bitmap_count_spec bm :
  Z.of_nat (length bm) <= KTREE_MAX_NODES / 64 ->
  ktree_bitmap_count bm = count_upto (bit_at bm) (64 * length bm).
Proof.
  induction bm as [|w bm IH] using rev_ind; intros Hl; [done|].
  rewrite length_app in *. cbn [length] in *. unfold ktree_bitmap_count in *. rewrite foldl_app. cbn [foldl].
  rewrite IH by lia. replace (64 * (length bm + 1))%nat with (64 * length bm + 64)%nat by lia.
  rewrite count_upto_app.
  rewrite (count_upto_ext (bit_at (bm ++ [w])) (bit_at bm)).
  2: { intros i Hi. unfold bit_at. rewrite lookup_app_l; [done|].
       assert (i / 64 < Z.of_nat (length bm)) by (apply Z.div_lt_upper_bound; lia).
       pose proof (Z.div_pos i 64 ltac:(lia) ltac:(lia)). lia. }
  rewrite (count_upto_ext (fun i => bit_at (bm ++ [w]) (Z.of_nat (64 * length bm) + i)) (Z.testbit w)).
  2: { intros i Hi. unfold bit_at. rewrite Nat2Z.inj_mul. change (Z.of_nat 64) with 64.
       rewrite (Z.mul_comm 64), Z.div_add_l, (Z.div_small i), Z.add_0_r, Nat2Z.id by lia.
       rewrite list_lookup_middle by done. f_equal. rewrite Z.add_comm, Z.mod_add, Z.mod_small by lia. done. }
  unfold popcount, u32, wrap. apply Z.mod_small.
  pose proof (count_upto_range (bit_at bm) (64 * length bm)). pose proof (count_upto_range (Z.testbit w) 64).
  change (KTREE_MAX_NODES / 64) with 64 in Hl. lia.
Qed.

Lemma count_upto_size n : forall (X : gset Z),
  (forall i, i ∈ X -> 0 <= i < Z.of_nat n) -> count_upto (fun i => bool_decide (i ∈ X)) n = Z.of_nat (size X).
Proof.
  induction n as [|n IH]; intros X HX; cbn [count_upto].
  - assert (X ≡ ∅) as ->; [|by rewrite size_empty]. intros i. split; [intros Hi; apply HX in Hi; lia|set_solver].
  - rewrite (count_upto_ext _ (fun i => bool_decide (i ∈ X ∖ {[Z.of_nat n]}))).
    2: { intros i Hi. apply bool_decide_ext. rewrite elem_of_difference, elem_of_singleton. lia || intuition lia. }
    rewrite IH by (intros i Hi; apply elem_of_difference in Hi as [Hi Hne]; rewrite elem_of_singleton in Hne;
                   specialize (HX i Hi); lia).
    case_bool_decide as Hin.
    + pose proof (size_union ({[Z.of_nat n]} : gset Z) (X ∖ {[Z.of_nat n]}) ltac:(set_solver)) as Hsz.
      rewrite <- union_difference_singleton_L, size_singleton in Hsz by done. lia.
    + rewrite difference_disjoint_L by set_solver. lia.
Qed.

(** The bitmap stands for the set [X]. *)
Definition bitmap_set_of (bm : list Z) (X : gset Z) : Prop :=
  bitmap_wf bm /\ (forall i, i ∈ X -> 0 <= i < KTREE_MAX_NODES) /\
  forall i, 0 <= i -> bit_at bm i = bool_decide (i ∈ X).

(** ** Theorems on bitmap and ring *)

(** The bitmap implements a set of indices below [KTREE_MAX_NODES]: setting,
    clearing and testing a bit are insertion, deletion and membership, the
    atomic test-and-set returns the old membership and inserts, and the
    population count is the size of the set. No operation leaves the array. *)
Theorem ktree_bitmap_refines (bm : list Z) (X : gset Z) (b : Z) :
  bitmap_set_of bm X -> 0 <= b < KTREE_MAX_NODES ->
  (exists bm', ktree_bitmap_set bm b = Ok bm' /\ bitmap_set_of bm' ({[b]} ∪ X)) /\
  (exists bm', ktree_bitmap_clear bm b = Ok bm' /\ bitmap_set_of bm' (X ∖ {[b]})) /\
  ktree_bitmap_test bm b = Ok (bool_decide (b ∈ X)) /\
  (exists bm', ktree_bitmap_test_and_set bm b = Ok (bool_decide (b ∈ X), bm') /\ bitmap_set_of bm' ({[b]} ∪ X)) /\
  ktree_bitmap_count bm = Z.of_nat (size X).
Proof.
  intros (Hwf & HX & Hbits) Hb.
  destruct (bitmap_set_spec bm b Hwf Hb) as (bs & Es & Hs & Bs).
  destruct (bitmap_clear_spec bm b Hwf Hb) as (bc & Ec & Hc & Bc).
  assert (ktree_bitmap_test bm b = Ok (bool_decide (b ∈ X))) as Et
    by (rewrite bitmap_test_spec, Hbits by (done || lia); done).
  assert (bitmap_set_of bs ({[b]} ∪ X)) as Hset.
  { split_and!; [done| |].
    - intros i [->%elem_of_singleton|Hi]%elem_of_union; [done|by apply HX].
    - intros i Hi. rewrite Bs, Hbits by done. destruct (Z.eqb_spec i b) as [->|].
      + symmetry. apply bool_decide_eq_true. set_solver.
      + apply bool_decide_ext. set_solver. }
  split_and!.
  - by exists bs.
  - exists bc. split_and!; [done|]. split_and!; [done| |].
    + intros i [Hi _]%elem_of_difference. by apply HX.
    + intros i Hi. rewrite Bc, Hbits by done. destruct (Z.eqb_spec i b) as [->|].
      * symmetry. apply bool_decide_eq_false. set_solver.
      * apply bool_decide_ext. set_solver.
  - done.
  - exists bs. rewrite bitmap_test_and_set_spec, Et. cbn [mbind outcome_bind]. by rewrite Es.
  - destruct Hwf as [Hl _]. rewrite bitmap_count_spec by lia.
    rewrite (count_upto_ext _ (fun i => bool_decide (i ∈ X))) by (intros; apply Hbits; lia).
    apply count_upto_size. intros i Hi. specialize (HX i Hi).
    assert (Z.of_nat (64 * length bm) = KTREE_MAX_NODES); [|lia].
    rewrite Nat2Z.inj_mul, Hl. done.
Qed.

Lemma bitmap_init_empty : bitmap_set_of ktree_bitmap_init ∅.
Proof.
  split_and!.
  - split; [done|]. apply Forall_replicate. done.
  - set_solver.
  - intros i _. unfold bit_at. destruct (_ !! _) as [w|] eqn:E; [|done].
    apply lookup_replicate in E as [-> _]. by rewrite Z.bits_0.
Qed.

Lemma ktree_bitmap_refines_witness :
  exists bm', ktree_bitmap_set ktree_bitmap_init 100 = Ok bm' /\ bitmap_set_of bm' ({[100]} ∪ ∅).
Proof. destruct (ktree_bitmap_refines ktree_bitmap_init ∅ 100 bitmap_init_empty ltac:(done)) as [H _]. exact H. Defined.

(** C33: The ring buffer implements a bounded queue: for every sequence of pushes,
    pops and clears, the results (including the errors on a full and on an empty
    buffer) are those of the queue of the elements pushed and not yet popped,
    oldest first, and no access leaves the array. *)
Theorem ktree_ring_refines (buf : list Z) (os : list queue_op) :
  Z.of_nat (length buf) = KTREE_MAX_NODES ->
  exists rb', ring_run (ktree_ring_init buf) os = Ok ((queue_run [] os).1, rb') /\
    ring_contents rb' = (queue_run [] os).2 /\ ktree_ring_size rb' = Z.of_nat (length (queue_run [] os).2).
Proof.
  intros Hl. assert (ring_wf (ktree_ring_init buf)) as Hwf by (split; done).
  destruct (ring_run_refines os _ Hwf) as (rb' & E & Hwf' & Hc). exists rb'. split_and!; [exact E|exact Hc|].
  unfold ktree_ring_size. rewrite <- (ring_contents_length rb' Hwf'), Hc. done.
Qed.

Lemma ktree_ring_refines_witness :
  exists rb', ring_run (ktree_ring_init (replicate 4096 0)) [QPush 5; QPush 6; QPop; QPop; QPop]
    = Ok ([(KTREE_SUCCESS, None); (KTREE_SUCCESS, None); (KTREE_SUCCESS, Some 5); (KTREE_SUCCESS, Some 6);
           (KTREE_ERR_EMPTY, None)], rb').
Proof.
  destruct (ktree_ring_refines (replicate 4096 0) [QPush 5; QPush 6; QPop; QPop; QPop]
    ltac:(by rewrite length_replicate)) as (rb' & H & _). exists rb'. exact H.
Defined.

(** ** Node pool: the free list *)

(** [fl] are the nodes of the free list that starts at [start]. *)
Fixpoint chain (ns : list ktree_node) (start : Z) (fl : list Z) : Prop :=
  match fl with
  | [] => start = KTREE_INVALID_NODE
  | i :: fl' => start = i /\ 0 <= i < KTREE_MAX_NODES /\
                exists nd, ns !! Z.to_nat i = Some nd /\ chain ns (n_left nd) fl'
  end.

Record pool_inv (p : ktree_node_pool) (fl : list Z) : Prop := mk_pool_inv {
  pi_length : Z.of_nat (length (nodes p)) = KTREE_MAX_NODES;
  pi_chain : chain (nodes p) (free_list p) fl;
  pi_nodup : NoDup fl;
  pi_count : node_count p = KTREE_MAX_NODES - Z.of_nat (length fl);
  pi_lock : pool_lock p = 0
}.

Lemma chain_range ns fl : forall start, chain ns start fl -> Forall (fun i => 0 <= i < KTREE_MAX_NODES) fl.
Proof.
  induction fl as [|i fl IH]; intros start H; [done|]. destruct H as (_ & Hi & nd & _ & H). constructor; eauto.
Qed.

(** Writing a node outside the free list leaves the list alone. *)
Lemma chain_insert ns fl k nd : forall start,
  0 <= k -> k ∉ fl -> chain ns start fl -> chain (<[Z.to_nat k := nd]> ns) start fl.
Proof.
  induction fl as [|i fl IH]; intros start Hk Hnin H; [done|]. destruct H as (-> & Hi & x & Hx & H).
  apply not_elem_of_cons in Hnin as [Hne Hnin]. split_and!; [done|lia|lia|].
  exists x. split; [|by apply IH]. rewrite list_lookup_insert_ne by lia. done.
Qed.

Lemma free_length p fl : pool_inv p fl -> Z.of_nat (length fl) <= KTREE_MAX_NODES.
Proof.
  intros [_ Hc Hn _ _]. apply chain_range in Hc.
  assert (fl ⊆+ seqZ 0 KTREE_MAX_NODES) as Hsub.
  { apply NoDup_submseteq; [done|]. intros i Hi. rewrite Forall_forall in Hc. apply elem_of_seqZ. specialize (Hc i Hi). lia. }
  apply submseteq_length in Hsub. rewrite length_seqZ in Hsub. unfold KTREE_MAX_NODES in *. lia.
Qed.

Lemma u32_pool x : 0 <= x <= KTREE_MAX_NODES -> u32 x = x.
Proof. unfold KTREE_MAX_NODES, u32, wrap. intros H. apply Z.mod_small. lia. Qed.

Lemma alloc_empty p : pool_inv p [] -> ktree_pool_alloc_node p = Ok (KTREE_ERR_FULL, None, p).
Proof.
  intros [_ Hc _ _ Hl]. cbn in Hc. unfold ktree_pool_alloc_node, ktree_spinlock_lock.
  rewrite Hl, Hc. cbn. destruct p. cbn in *. by subst.
Qed.

Lemma alloc_spec p i fl :
  pool_inv p (i :: fl) ->
  exists p', ktree_pool_alloc_node p = Ok (KTREE_SUCCESS, Some i, p') /\ pool_inv p' fl.
Proof.
  intros Hinv. pose proof (free_length _ _ Hinv) as Hlen. destruct Hinv as [Hn Hc Hnd Hcnt Hl].
  destruct Hc as (Hf & Hi & nd & Hx & Hc). apply NoDup_cons in Hnd as [Hnin Hnd].
  unfold ktree_pool_alloc_node, ktree_spinlock_lock. rewrite Hl. cbn [Z.eqb]. rewrite Hf.
  destruct (Z.eqb_spec i KTREE_INVALID_NODE); [unfold KTREE_MAX_NODES, KTREE_INVALID_NODE in *; lia|].
  assert (arr_get (nodes p) i = Ok nd) as -> by (apply arr_get_Ok; split; [lia|done]). cbn [mbind outcome_bind].
  set (nd' := mk_node _ _ _ _ _ _ _).
  assert (arr_set (nodes p) i nd' = Ok (<[Z.to_nat i := nd']> (nodes p))) as ->
    by (apply arr_set_Ok; split; [lia|done]). cbn [mbind outcome_bind].
  cbn [length] in *. eexists. split; [done|]. split; cbn [nodes free_list node_count pool_lock].
  - by rewrite length_insert.
  - apply chain_insert; (done || lia).
  - done.
  - rewrite u32_pool by lia. lia.
  - done.
Qed.

Lemma free_spec p i fl :
  pool_inv p fl -> 0 <= i < KTREE_MAX_NODES -> i ∉ fl ->
  exists p', ktree_pool_free_node p i = Ok p' /\ pool_inv p' (i :: fl).
Proof.
  intros Hinv Hi Hnin. pose proof (free_length _ _ Hinv) as Hlen. pose proof Hinv as [Hn Hc Hnd Hcnt Hl].
  unfold ktree_pool_free_node, ktree_spinlock_lock.
  destruct (Z.eqb_spec i KTREE_INVALID_NODE); [unfold KTREE_MAX_NODES, KTREE_INVALID_NODE in *; lia|].
  rewrite Hl. cbn [Z.eqb]. destruct (arr_get_total (nodes p) i ltac:(lia)) as [nd Hx]. rewrite Hx. cbn [mbind outcome_bind].
  set (nd' := mk_node _ _ _ _ _ _ _).
  assert (arr_set (nodes p) i nd' = Ok (<[Z.to_nat i := nd']> (nodes p))) as ->
    by (apply arr_set_Ok; split; [lia|done]). cbn [mbind outcome_bind].
  assert (Z.of_nat (length (i :: fl)) <= KTREE_MAX_NODES) as Hlen'.
  { pose proof (chain_range _ _ _ Hc) as Hr.
    assert (i :: fl ⊆+ seqZ 0 KTREE_MAX_NODES) as Hsub.
    { apply NoDup_submseteq; [by constructor|]. intros j Hj. apply elem_of_seqZ.
      apply elem_of_cons in Hj as [->|Hj]; [lia|]. rewrite Forall_forall in Hr. specialize (Hr j Hj). lia. }
    apply submseteq_length in Hsub. rewrite length_seqZ in Hsub. unfold KTREE_MAX_NODES in *. lia. }
  cbn [length] in *. eexists. split; [done|]. split; cbn [nodes free_list node_count pool_lock].
  - by rewrite length_insert.
  - cbn [chain]. split_and!; [done|lia|lia|]. exists nd'. rewrite list_lookup_insert_eq by lia.
    split; [done|]. apply chain_insert; (done || lia).
  - by constructor.
  - cbn [length]. rewrite u32_pool by lia. lia.
  - done.
Qed.

Lemma init_chain ns : Z.of_nat (length ns) = KTREE_MAX_NODES -> forall n i,
  Z.of_nat i + Z.of_nat n = KTREE_MAX_NODES -> (0 < n)%nat ->
  chain (imap init_node ns) (Z.of_nat i) (seqZ (Z.of_nat i) (Z.of_nat n)).
Proof.
  intros Hl. induction n as [|n IH]; intros i Hi Hpos; [lia|].
  rewrite seqZ_cons by lia. cbn [chain]. split_and!; [done|lia|lia|].
  destruct (lookup_lt_is_Some_2 ns i ltac:(lia)) as [nd Hnd].
  exists (init_node i nd). rewrite Nat2Z.id, list_lookup_imap, Hnd. split; [done|]. cbn [n_left init_node].
  replace (Z.pred (Z.of_nat (S n))) with (Z.of_nat n) by lia.
  destruct (Z.eqb_spec (Z.of_nat i) (KTREE_MAX_NODES - 1)).
  - assert (n = 0)%nat as -> by lia. done.
  - replace (Z.of_nat i + 1) with (Z.of_nat (S i)) by lia.
    replace (Z.succ (Z.of_nat i)) with (Z.of_nat (S i)) by lia. apply IH; lia.
Qed.

Lemma init_inv p : Z.of_nat (length (nodes p)) = KTREE_MAX_NODES ->
  pool_inv (ktree_pool_init p) (seqZ 0 KTREE_MAX_NODES).
Proof.
  intros Hl. split; cbn [nodes free_list node_count pool_lock ktree_pool_init].
  - by rewrite length_imap.
  - apply (init_chain (nodes p) Hl (Z.to_nat KTREE_MAX_NODES) 0); [done|]. unfold KTREE_MAX_NODES. lia.
  - apply NoDup_seqZ.
  - rewrite length_seqZ. done.
  - done.
Qed.

(** Use of the pool: nodes are allocated, given data, and freed by who holds
    them. [live] are the nodes handed out and not yet freed. *)
Inductive pool_step : ktree_node_pool * list Z -> ktree_node_pool * list Z -> Prop :=
| pool_alloc p live i p' :
    ktree_pool_alloc_node p = Ok (KTREE_SUCCESS, Some i, p') -> pool_step (p, live) (p', i :: live)
| pool_data p live i data p' :
    i ∈ live -> ktree_node_init p i data = Ok p' -> pool_step (p, live) (p', live)
| pool_free p live1 i live2 p' :
    ktree_pool_free_node p i = Ok p' -> pool_step (p, live1 ++ i :: live2) (p', live1 ++ live2).

Definition pool_state (s : ktree_node_pool * list Z) : Prop :=
  exists fl, pool_inv s.1 fl /\ s.2 ++ fl ≡ₚ seqZ 0 KTREE_MAX_NODES.

Lemma chain_left ns ns' fl : (forall k nd, ns !! k = Some nd -> exists nd', ns' !! k = Some nd' /\ n_left nd' = n_left nd) ->
  forall start, chain ns start fl -> chain ns' start fl.
Proof.
  intros H. induction fl as [|i fl IH]; intros start Hc; [done|]. destruct Hc as (-> & Hi & nd & Hnd & Hc).
  destruct (H _ _ Hnd) as (nd' & Hnd' & E). split_and!; try done; try lia. exists nd'. rewrite E. auto.
Qed.

Lemma node_init_inv p fl i data p' :
  pool_inv p fl -> ktree_node_init p i data = Ok p' -> pool_inv p' fl.
Proof.
  intros [Hn Hc Hnd Hcnt Hl] H. unfold ktree_node_init in H. apply bind_Ok in H as (nd & Hg & H).
  apply bind_Ok in H as (ns & Hs & H). injection H as <-. apply arr_get_Ok in Hg as [Hi Hg].
  apply arr_set_Ok in Hs as [Hr ->]. split; cbn [nodes free_list node_count pool_lock]; try done.
  - by rewrite length_insert.
  - revert Hc. apply chain_left. intros k x Hx. destruct (decide (k = Z.to_nat i)) as [->|Hne].
    + rewrite list_lookup_insert_eq by lia. eexists. split; [done|]. rewrite Hg in Hx. by injection Hx as <-.
    + rewrite list_lookup_insert_ne by done. by eauto.
Qed.

Lemma pool_step_state s s' : pool_step s s' -> pool_state s -> pool_state s'.
Proof.
  intros Hstep (fl & Hinv & Hp). destruct Hstep as [p live i p' E|p live i data p' Hin E|p live1 i live2 p' E]; cbn [fst snd] in *.
  - destruct fl as [|j fl]; [rewrite alloc_empty in E by done; discriminate E|].
    destruct (alloc_spec _ _ _ Hinv) as (p1 & E1 & Hinv1). rewrite E1 in E. injection E as -> ->.
    exists fl. cbn [fst snd]. split; [done|]. rewrite <- Hp. apply Permutation_middle.
  - exists fl. split; [by eapply node_init_inv|done].
  - assert (i ∈ seqZ 0 KTREE_MAX_NODES /\ i ∉ fl) as [Hi Hnin].
    { rewrite <- Hp. split; [set_solver|]. pose proof (NoDup_seqZ 0 KTREE_MAX_NODES) as Hnd. rewrite <- Hp in Hnd.
      apply NoDup_app in Hnd as (_ & Hd & _). apply Hd. set_solver. }
    apply elem_of_seqZ in Hi. destruct (free_spec p i fl Hinv ltac:(lia) Hnin) as (p1 & E1 & Hinv1).
    rewrite E1 in E. injection E as ->. exists (i :: fl). cbn [fst snd]. split; [done|].
    rewrite <- Hp. rewrite <- !app_assoc. f_equiv. symmetry. apply Permutation_middle.
Qed.

(** ** Theorems on the node pool and the manager *)

(** C31: However nodes are allocated, filled and freed by their holders from the
    initialised pool: live nodes are distinct indices below [KTREE_MAX_NODES] and
    [node_count] is their number; an allocation fails, with [KTREE_ERR_FULL] and
    without effect, exactly when all nodes are live, and otherwise hands out a
    node that is not live; freeing a live node succeeds. *)
Theorem ktree_pool_correct (p0 p : ktree_node_pool) (live : list Z) :
  Z.of_nat (length (nodes p0)) = KTREE_MAX_NODES ->
  rtc pool_step (ktree_pool_init p0, []) (p, live) ->
  NoDup live /\ Forall (fun i => 0 <= i < KTREE_MAX_NODES) live /\ node_count p = Z.of_nat (length live) /\
  (forall i, i ∈ live -> exists p', ktree_pool_free_node p i = Ok p') /\
  ((Z.of_nat (length live) = KTREE_MAX_NODES /\ ktree_pool_alloc_node p = Ok (KTREE_ERR_FULL, None, p)) \/
   (Z.of_nat (length live) < KTREE_MAX_NODES /\
    exists i p', ktree_pool_alloc_node p = Ok (KTREE_SUCCESS, Some i, p') /\ i ∉ live)).
Proof.
  intros Hl Hrun. assert (pool_state (p, live)) as (fl & Hinv & Hp).
  { remember (p, live) as s eqn:Es. clear Es. assert (pool_state (ktree_pool_init p0, [])) as H0
      by (exists (seqZ 0 KTREE_MAX_NODES); split; [by apply init_inv|done]).
    revert H0. remember (ktree_pool_init p0, []) as s0 eqn:E0. clear E0.
    induction Hrun as [|s1 s2 s3 Hs _ IH]; intros H0; [done|]. apply IH. by eapply pool_step_state. }
  cbn [fst snd] in *. pose proof (NoDup_seqZ 0 KTREE_MAX_NODES) as Hnd. rewrite <- Hp in Hnd.
  apply NoDup_app in Hnd as (Hn1 & Hd & Hn2).
  assert (Z.of_nat (length live) + Z.of_nat (length fl) = KTREE_MAX_NODES) as Hlen.
  { pose proof (Permutation_length Hp) as E. rewrite length_app, length_seqZ in E. unfold KTREE_MAX_NODES in *. lia. }
  assert (forall i, i ∈ live -> 0 <= i < KTREE_MAX_NODES) as Hr.
  { intros i Hi. assert (i ∈ seqZ 0 KTREE_MAX_NODES) as H by (rewrite <- Hp; set_solver). apply elem_of_seqZ in H. lia. }
  split_and!; [done|by apply Forall_forall|rewrite (pi_count _ _ Hinv); lia| |].
  - intros i Hi. destruct (free_spec p i fl Hinv (Hr i Hi) (Hd i Hi)) as (p' & E & _). by exists p'.
  - destruct fl as [|i fl]; [left|right]; cbn [length] in Hlen.
    + split; [lia|by apply alloc_empty].
    + split; [lia|]. destruct (alloc_spec _ _ _ Hinv) as (p' & E & _). exists i, p'. split; [done|].
      intros Hi. apply (Hd i Hi). apply list_elem_of_here.
Qed.

Definition zero_pool : ktree_node_pool := mk_pool (replicate 4096 (mk_node 0 0 0 0 0 0 0)) 0 0 0.

Lemma ktree_pool_correct_witness :
  exists p', rtc pool_step (ktree_pool_init zero_pool, []) (p', [0]) /\ node_count p' = 1.
Proof.
  assert (Z.of_nat (length (nodes zero_pool)) = KTREE_MAX_NODES) as Hl by (unfold zero_pool; cbn [nodes]; by rewrite length_replicate).
  destruct (alloc_spec _ _ _ (init_inv zero_pool Hl)) as (p' & E & _).
  assert (rtc pool_step (ktree_pool_init zero_pool, []) (p', [0])) as Hrun
    by (apply rtc_once; apply (pool_alloc _ _ _ _ E)).
  exists p'. split; [exact Hrun|].
  destruct (ktree_pool_correct zero_pool p' [0] Hl Hrun) as (_ & _ & H & _). exact H.
Defined.

(** Creating trees in a row hands out the same slot every time: a tree that
    nothing was inserted into still looks free, so the second call returns the
    id of the first, overwrites its flags and counts it again; after 32 calls
    the manager reports that it is full with a single tree in use. *)
Theorem ktree_create_reuses_slot (p : ktree_node_pool) (f1 f2 : Z) :
  exists m1 m2,
    ktree_manager_create_tree (ktree_manager_init p) f1 = (KTREE_SUCCESS, Some 0%nat, m1) /\
    ktree_manager_create_tree m1 f2 = (KTREE_SUCCESS, Some 0%nat, m2) /\
    tree_count m2 = 2 /\ trees m2 !! 0%nat = Some (ktree_init f2) /\
    (forall fs m, Z.of_nat (length fs) = 32 ->
       m = foldl (fun m f => (ktree_manager_create_tree m f).2) (ktree_manager_init p) fs ->
       (ktree_manager_create_tree m f1).1 = (KTREE_ERR_FULL, None) /\
       Forall (fun t => t = ktree_init 0) (drop 1 (trees m))).
Proof.
  eexists _, _. split; [reflexivity|]. split; [reflexivity|]. split; [done|]. split; [done|].
  intros fs m Hlen ->.
  assert (forall fs c f0, (c + length fs <= 32)%nat ->
    exists f', foldl (fun m f => (ktree_manager_create_tree m f).2)
      (mk_manager (ktree_pool_init p) (ktree_init f0 :: replicate 31 (ktree_init 0)) (Z.of_nat c) 0 0) fs
    = mk_manager (ktree_pool_init p) (ktree_init f' :: replicate 31 (ktree_init 0)) (Z.of_nat (c + length fs)) 0 0) as Hrun.
  { clear. induction fs as [|f fs IH]; intros c f0 Hc; cbn [foldl length] in *; [exists f0; by rewrite Nat.add_0_r|].
    unfold ktree_manager_create_tree at 2. cbn [mgr_lock ktree_spinlock_lock Z.eqb tree_count trees tree_slot].
    destruct (Z.leb_spec (Z.of_nat KTREE_MAX_TREES) (Z.of_nat c)); [unfold KTREE_MAX_TREES in *; lia|].
    cbn [root t_size ktree_init]. change ((KTREE_INVALID_NODE =? KTREE_INVALID_NODE) && (0 =? 0)) with true. cbv iota.
    cbn [snd insert list_insert node_pool m_flags ktree_spinlock_unlock].
    replace (u32 (Z.of_nat c + 1)) with (Z.of_nat (S c)) by (unfold u32, wrap; rewrite Z.mod_small; lia).
    destruct (IH (S c) f ltac:(lia)) as [f' E]. exists f'. unfold ktree_spinlock_unlock.
    replace (c + S (length fs))%nat with (S c + length fs)%nat by lia. exact E. }
  destruct (Hrun fs 0%nat 0 ltac:(lia)) as [f' E].
  change (ktree_manager_init p) with
    (mk_manager (ktree_pool_init p) (ktree_init 0 :: replicate 31 (ktree_init 0)) (Z.of_nat 0) 0 0).
  rewrite E. cbn [trees drop Nat.add]. split; [|by apply Forall_replicate].
  unfold ktree_manager_create_tree. cbn [mgr_lock ktree_spinlock_lock Z.eqb tree_count trees].
  destruct (Z.leb_spec (Z.of_nat KTREE_MAX_TREES) (Z.of_nat (length fs))); [done|unfold KTREE_MAX_TREES in *; lia].
Qed.

End KTree.
