(* ===== verification/KTreeSync.v ===== *)
(** * The node pool of [src/mm/kernel_tree.h] under concurrent use

    Threads allocate and free nodes of one pool. Each exchange of a spin lock, the reads
    of a critical section, its writes and the release are steps of their own, and the
    steps of all threads interleave. [ktree_spinlock_lock] gives up after
    [KTREE_SPINLOCK_RETRIES] exchanges; [ktree_pool_alloc_node] then returns, and
    [ktree_pool_free_node], which does not look at the result, goes on. *)
From Stdlib Require Import ZArith Lia.
From stdpp Require Import strings numbers gmap base.
From stdpp Require Import list relations.
From S2P Require Import Prelude KTree.
Open Scope Z_scope.

Module KTreeSync.
Import KTree.

(** ** Atomic counters and the lock word *)

Definition KTREE_SPINLOCK_RETRIES : nat := 1000.

(** The new value of the counter, which is also the result. *)
Definition ktree_atomic_inc (counter : Z) : Z := u32 (counter + 1).
Definition ktree_atomic_dec (counter : Z) : Z := u32 (counter - 1).
Definition ktree_atomic_read (counter : Z) : Z := counter.
Definition ktree_atomic_set (counter value : Z) : Z := value.
Definition ktree_atomic_cas (counter expected desired : Z) : bool * Z :=
  if counter =? expected then (true, desired) else (false, counter).

Definition ktree_spinlock_init : Z := 0.
Definition ktree_spinlock_trylock (lock : Z) : bool * Z := (lock =? 0, 1).

Definition ktree_pool_get_node (p : ktree_node_pool) (idx : Z) : outcome (option ktree_node) :=
  if idx =? KTREE_INVALID_NODE then Ok None else nd ← arr_get (nodes p) idx; Ok (Some nd).
Definition ktree_pool_node_count (p : ktree_node_pool) : Z := ktree_atomic_read (node_count p).

(** ** Threads *)

Inductive call := CAlloc | CFree (idx : Z).

Inductive pc :=
| PIdle
| PTry (c : call) (i : nat)        (* [i] exchanges have failed *)
| PIn (c : call)                   (* past [ktree_spinlock_lock] *)
| PTake (new_idx next : Z)         (* the head of the free list and its successor are read *)
| PLink (idx old : Z)              (* the head of the free list is read *)
| PUnlock (r : option Z).

#[export] Instance call_eq_dec : EqDecision call.
Proof. solve_decision. Defined.

Definition with_lock (p : ktree_node_pool) (l : Z) : ktree_node_pool :=
  mk_pool (nodes p) (free_list p) (node_count p) l.

(** The writes of [ktree_pool_alloc_node]. *)
Definition take_node (p : ktree_node_pool) (new_idx next : Z) : outcome ktree_node_pool :=
  nd ← arr_get (nodes p) new_idx;
  ns ← arr_set (nodes p) new_idx
         (mk_node (n_data nd) (n_hash nd) KTREE_INVALID_NODE KTREE_INVALID_NODE KTREE_INVALID_NODE 1 0);
  Ok (mk_pool ns next (ktree_atomic_inc (node_count p)) (pool_lock p)).

(** The writes of [ktree_pool_free_node]. *)
Definition link_node (p : ktree_node_pool) (idx old : Z) : outcome ktree_node_pool :=
  nd ← arr_get (nodes p) idx;
  ns ← arr_set (nodes p) idx
         (mk_node (n_data nd) (n_hash nd) old KTREE_INVALID_NODE KTREE_INVALID_NODE (n_height nd) 0);
  Ok (mk_pool ns idx (ktree_atomic_dec (node_count p)) (pool_lock p)).

(** One step of a thread at [t]; an idle thread makes the call [k]. [live] are the nodes
    that callers hold; a caller frees only such a node, and no longer holds it then.
    [None]: there is no such call. *)
Definition thread_step (k : call) (t : pc) (p : ktree_node_pool) (live : list Z) :
  option (outcome (pc * ktree_node_pool * list Z)) :=
  match t with
  | PIdle =>
      match k with
      | CAlloc => Some (Ok (PTry CAlloc 0, p, live))
      | CFree idx =>
          if idx =? KTREE_INVALID_NODE then Some (Ok (PIdle, p, live))
          else if decide (idx ∈ live) then Some (Ok (PTry (CFree idx) 0, p, list_difference live [idx]))
          else None
      end
  | PTry c i =>
      if (i <? KTREE_SPINLOCK_RETRIES)%nat then
        let '(taken, l) := ktree_spinlock_trylock (pool_lock p) in
        Some (Ok (if taken then PIn c else PTry c (S i), with_lock p l, live))
      else match c with
           | CAlloc => Some (Ok (PIdle, p, live))
           | CFree _ => Some (Ok (PIn c, p, live))
           end
  | PIn CAlloc =>
      if free_list p =? KTREE_INVALID_NODE then Some (Ok (PUnlock None, p, live))
      else Some (nd ← arr_get (nodes p) (free_list p); Ok (PTake (free_list p) (n_left nd), p, live))
  | PIn (CFree idx) => Some (Ok (PLink idx (free_list p), p, live))
  | PTake new_idx next => Some (p ← take_node p new_idx next; Ok (PUnlock (Some new_idx), p, live))
  | PLink idx old => Some (p ← link_node p idx old; Ok (PUnlock None, p, live))
  | PUnlock r =>
      Some (Ok (PIdle, with_lock p (ktree_spinlock_unlock (pool_lock p)), option_list r ++ live))
  end.

Record state := mk_state { pool : ktree_node_pool; live : list Z; threads : list pc }.

(** A release that is about to go on without the lock. *)
Definition gives_up (t : pc) : bool :=
  match t with PTry (CFree _) i => negb (i <? KTREE_SPINLOCK_RETRIES)%nat | _ => false end.

(** With [patient], no release runs out of tries. *)
Inductive step (patient : bool) : state -> state -> Prop :=
| thread_moves i k t p live ts t' p' live' :
    ts !! i = Some t -> (patient = true -> gives_up t = false) ->
    thread_step k t p live = Some (Ok (t', p', live')) ->
    step patient (mk_state p live ts) (mk_state p' live' (<[i := t']> ts)).

Definition start (p0 : ktree_node_pool) (n : nat) : state :=
  mk_state (ktree_pool_init p0) [] (replicate n PIdle).

(** A schedule: which thread moves, and what it calls when it is idle. *)
Fixpoint run (schedule : list (nat * call)) (s : state) : option state :=
  match schedule with
  | [] => Some s
  | (i, k) :: schedule =>
      match threads s !! i ≫= fun t => thread_step k t (pool s) (live s) with
      | Some (Ok (t', p', live')) => run schedule (mk_state p' live' (<[i := t']> (threads s)))
      | _ => None
      end
  end.

(** * Invariant *)

Definition inside (t : pc) : bool :=
  match t with PIn _ | PTake _ _ | PLink _ _ | PUnlock _ => true | _ => false end.

(** The nodes a thread is handing over. *)
Definition owned (t : pc) : list Z :=
  match t with
  | PTry (CFree idx) _ | PIn (CFree idx) | PLink idx _ => [idx]
  | PUnlock r => option_list r
  | _ => []
  end.

(** What the thread inside has read still holds. *)
Definition local_ok (p : ktree_node_pool) (t : pc) : Prop :=
  match t with
  | PTake new_idx next =>
      free_list p = new_idx /\ new_idx <> KTREE_INVALID_NODE /\ exists nd, arr_get (nodes p) new_idx = Ok nd /\ n_left nd = next
  | PLink _ old => free_list p = old
  | _ => True
  end.

Definition others_outside (h : nat) (ts : list pc) : Prop :=
  forall i t, i <> h -> ts !! i = Some t -> inside t = false.

(** The lock word is 1 exactly while one thread is inside. *)
Definition lock_ok (p : ktree_node_pool) (ts : list pc) : Prop :=
  (pool_lock p = 0 /\ forall i t, ts !! i = Some t -> inside t = false) \/
  (pool_lock p = 1 /\ exists h t, ts !! h = Some t /\ inside t = true /\ local_ok p t /\ others_outside h ts).

Record good (s : state) (fl : list Z) : Prop := mk_good {
  g_pool : pool_inv (with_lock (pool s) 0) fl;
  g_nodes : fl ++ live s ++ (threads s ≫= owned) ≡ₚ seqZ 0 KTREE_MAX_NODES;
  g_lock : lock_ok (pool s) (threads s)
}.

(** The nodes the other threads hand over do not change when one thread moves. *)
Lemma owned_insert ts i t : ts !! i = Some t ->
  exists rest, (ts ≫= owned) ≡ₚ owned t ++ rest /\ forall t', (<[i := t']> ts ≫= owned) ≡ₚ owned t' ++ rest.
Proof.
  intros Hi. exists ((take i ts ≫= owned) ++ (drop (S i) ts ≫= owned)). split.
  - rewrite <- (take_drop_middle ts i t Hi) at 1. rewrite bind_app, bind_cons. apply Permutation_app_swap_app.
  - intros t'. rewrite insert_take_drop by (by eapply lookup_lt_Some). rewrite bind_app, bind_cons. apply Permutation_app_swap_app.
Qed.

Lemma others_insert i ts t' : others_outside i ts -> others_outside i (<[i := t']> ts).
Proof. intros H j t Hj Ht. rewrite list_lookup_insert_ne in Ht by done. by eapply H. Qed.

Lemma lock_inside p ts i t : lock_ok p ts -> ts !! i = Some t -> inside t = true ->
  pool_lock p = 1 /\ local_ok p t /\ others_outside i ts.
Proof.
  intros [[_ H]|(Hl & h & u & Hu & Hin & Hok & Ho)] Ht Hi; [by rewrite (H i t Ht) in Hi|].
  destruct (decide (i = h)) as [->|Hne]; [by simplify_eq|]. by rewrite (Ho i t Hne Ht) in Hi.
Qed.

Lemma lock_move p ts i t t' : ts !! i = Some t -> others_outside i ts -> pool_lock p = 1 ->
  inside t' = true -> local_ok p t' -> lock_ok p (<[i := t']> ts).
Proof.
  intros Ht Ho Hl Hi Hok. right. split; [done|]. exists i, t'.
  rewrite list_lookup_insert_eq by (by eapply lookup_lt_Some). by eauto using others_insert.
Qed.

Lemma lock_leave p ts i t t' : ts !! i = Some t -> others_outside i ts -> pool_lock p = 0 ->
  inside t' = false -> lock_ok p (<[i := t']> ts).
Proof.
  intros Ht Ho Hl Hi. left. split; [done|]. intros j u Hu. destruct (decide (i = j)) as [<-|Hne].
  - rewrite list_lookup_insert_eq in Hu by (by eapply lookup_lt_Some). by simplify_eq.
  - rewrite list_lookup_insert_ne in Hu by done. by eapply Ho.
Qed.

Lemma lock_outside p ts i t t' : lock_ok p ts -> ts !! i = Some t -> inside t = false -> inside t' = false ->
  lock_ok p (<[i := t']> ts).
Proof.
  intros [[Hl H]|(Hl & h & u & Hu & Hin & Hok & Ho)] Ht Hi Hi'.
  - eapply lock_leave; [exact Ht| |done|done]. intros j v _. apply H.
  - right. split; [done|]. exists h, u. assert (i <> h) by (intros ->; simplify_eq; congruence).
    rewrite list_lookup_insert_ne by done. split; [done|]. split; [done|]. split; [done|].
    intros j v Hj Hv. destruct (decide (i = j)) as [<-|Hne].
    + rewrite list_lookup_insert_eq in Hv by (by eapply lookup_lt_Some). by simplify_eq.
    + rewrite list_lookup_insert_ne in Hv by done. by eapply Ho.
Qed.

(** The two halves of an allocation are [ktree_pool_alloc_node]. *)
Lemma take_spec p new_idx next fl :
  pool_inv (with_lock p 0) fl -> local_ok p (PTake new_idx next) ->
  exists p' fl', take_node p new_idx next = Ok p' /\ fl = new_idx :: fl' /\ pool_inv (with_lock p' 0) fl' /\
    pool_lock p' = pool_lock p.
Proof.
  intros Hinv (Hf & Hne & nd & Hnd & Hn). destruct fl as [|j fl].
  { destruct (pi_chain _ _ Hinv). cbn in Hne. congruence. }
  destruct (alloc_spec _ _ _ Hinv) as (p1 & E & Hinv1). unfold ktree_pool_alloc_node, ktree_spinlock_lock in E.
  cbn [pool_lock with_lock Z.eqb free_list nodes] in E. rewrite Hf in E.
  rewrite (proj2 (Z.eqb_neq _ _) Hne), Hnd in E. cbn [mbind outcome_bind] in E.
  apply bind_Ok in E as (ns & Hs & E). injection E as <- <-.
  unfold take_node. rewrite Hnd. cbn [mbind outcome_bind]. rewrite Hs. cbn [mbind outcome_bind].
  rewrite Hn in Hinv1. by eexists _, fl.
Qed.

(** The two halves of a release are [ktree_pool_free_node]. *)
Lemma link_spec p idx fl :
  pool_inv (with_lock p 0) fl -> 0 <= idx < KTREE_MAX_NODES -> idx ∉ fl ->
  exists p', link_node p idx (free_list p) = Ok p' /\ pool_inv (with_lock p' 0) (idx :: fl) /\
    pool_lock p' = pool_lock p.
Proof.
  intros Hinv Hr Hni. destruct (free_spec _ _ _ Hinv Hr Hni) as (p1 & E & Hinv1).
  unfold ktree_pool_free_node, ktree_spinlock_lock in E.
  destruct (Z.eqb_spec idx KTREE_INVALID_NODE); [unfold KTREE_MAX_NODES, KTREE_INVALID_NODE in *; lia|].
  cbn [pool_lock with_lock Z.eqb nodes] in E. apply bind_Ok in E as (nd & Hnd & E). apply bind_Ok in E as (ns & Hs & E).
  injection E as <-. unfold link_node. rewrite Hnd. cbn [mbind outcome_bind]. cbn [free_list with_lock] in Hs.
  rewrite Hs. cbn [mbind outcome_bind]. by eexists.
Qed.

(** One thread moves from [t] to [t']: what changes hands is between the free list, the
    callers and that thread. *)
Lemma good_move i t t' p p' lv lv' ts fl fl' :
  good (mk_state p lv ts) fl -> ts !! i = Some t -> pool_inv (with_lock p' 0) fl' ->
  fl' ++ lv' ++ owned t' ≡ₚ fl ++ lv ++ owned t -> lock_ok p' (<[i := t']> ts) ->
  good (mk_state p' lv' (<[i := t']> ts)) fl'.
Proof.
  intros [Hp Hn HL] Ht Hp' Heq HL'. destruct (owned_insert ts i t Ht) as (rest & Ho & Hins).
  split; cbn [pool live threads] in *; [done| |done].
  rewrite Hins, !app_assoc, <- (app_assoc fl'), Heq, <- Hn, Ho, !app_assoc. done.
Qed.

Lemma good_owned s fl i t x : good s fl -> threads s !! i = Some t -> x ∈ owned t ->
  0 <= x < KTREE_MAX_NODES /\ x ∉ fl.
Proof.
  intros HG Ht Hx. assert (x ∈ threads s ≫= owned) as Hin by (apply list_elem_of_bind; exists t; split; [done|by eapply list_elem_of_lookup_2]).
  split.
  - assert (x ∈ seqZ 0 KTREE_MAX_NODES) as H by (rewrite <- (g_nodes _ _ HG); set_solver). apply elem_of_seqZ in H. lia.
  - intros Hf. pose proof (NoDup_seqZ 0 KTREE_MAX_NODES) as Hnd. rewrite <- (g_nodes _ _ HG) in Hnd.
    apply NoDup_app in Hnd as (_ & Hd & _). apply (Hd x Hf). set_solver.
Qed.

Lemma good_live s fl : good s fl -> NoDup (live s ++ (threads s ≫= owned)).
Proof.
  intros HG. pose proof (NoDup_seqZ 0 KTREE_MAX_NODES) as Hnd. rewrite <- (g_nodes _ _ HG) in Hnd.
  by apply NoDup_app in Hnd as (_ & _ & Hnd).
Qed.

Lemma take_live (l : list Z) x : NoDup l -> x ∈ l -> l ≡ₚ x :: list_difference l [x].
Proof.
  intros Hn Hx. apply NoDup_Permutation; [done| |].
  - constructor; [rewrite list_elem_of_difference; set_solver|by apply NoDup_list_difference].
  - intros y. rewrite elem_of_cons, list_elem_of_difference. destruct (decide (y = x)) as [->|]; set_solver.
Qed.

Section Steps.
Context (i : nat) (k : call) (p : ktree_node_pool) (lv : list Z) (ts : list pc) (fl : list Z).
Hypothesis HG : good (mk_state p lv ts) fl.

(** The step is defined and keeps the invariant. *)
Definition moves_well (o : outcome (pc * ktree_node_pool * list Z)) : Prop :=
  exists t' p' lv' fl', o = Ok (t', p', lv') /\ good (mk_state p' lv' (<[i := t']> ts)) fl'.

Lemma idle_good o : ts !! i = Some PIdle -> thread_step k PIdle p lv = Some o -> moves_well o.
Proof.
  intros Ht E. cbn [thread_step] in E. pose proof (good_live _ _ HG) as Hnd. apply NoDup_app in Hnd as (Hnd & _).
  destruct k as [|idx]; [|destruct (idx =? KTREE_INVALID_NODE); [|case_decide as Hin; [|done]]]; injection E as <-;
    eexists _, _, _, fl; (split; [reflexivity|]); (eapply good_move; [exact HG|exact Ht|apply HG| |by eapply lock_outside; [apply HG|..]]); try done.
  cbn [owned]. rewrite app_nil_r. f_equiv. rewrite (take_live lv idx Hnd Hin) at 2. symmetry. apply Permutation_cons_append.
Qed.

Lemma try_good c j o : ts !! i = Some (PTry c j) -> gives_up (PTry c j) = false ->
  thread_step k (PTry c j) p lv = Some o -> moves_well o.
Proof.
  intros Ht Hg E. pose proof (g_lock _ _ HG) as HL. cbn [pool threads] in HL. cbn [thread_step] in E.
  destruct (Nat.ltb_spec j KTREE_SPINLOCK_RETRIES) as [Hj|Hj].
  - unfold ktree_spinlock_trylock in E. injection E as <-. eexists _, _, _, fl. split; [reflexivity|].
    eapply good_move; [exact HG|exact Ht|apply HG|by destruct (pool_lock p =? 0), c|].
    destruct (Z.eqb_spec (pool_lock p) 0) as [H0|H0].
    + eapply lock_move; [exact Ht| |done|done|done]. destruct HL as [[_ H]|[H _]]; [|lia]. intros a u _. apply H.
    + assert (with_lock p 1 = p) as -> by (destruct HL as [[? _]|[H1 _]]; [done|]; destruct p; cbn in *; by subst).
      by eapply lock_outside.
  - destruct c as [|idx]; [|unfold gives_up in Hg; by rewrite (proj2 (Nat.ltb_ge _ _) Hj) in Hg].
    injection E as <-. eexists _, _, _, fl. split; [reflexivity|].
    eapply good_move; [exact HG|exact Ht|apply HG|done|by eapply lock_outside].
Qed.

Lemma in_good c o : ts !! i = Some (PIn c) -> thread_step k (PIn c) p lv = Some o -> moves_well o.
Proof.
  intros Ht E. destruct (lock_inside p ts i _ (g_lock _ _ HG) Ht eq_refl) as (Hl & _ & Hout). cbn [thread_step] in E.
  destruct c as [|idx]; [destruct (Z.eqb_spec (free_list p) KTREE_INVALID_NODE) as [He|He]|]; injection E as <-.
  - eexists _, _, _, fl. split; [reflexivity|]. eapply good_move; [exact HG|exact Ht|apply HG|done|by eapply lock_move].
  - pose proof (pi_chain _ _ (g_pool _ _ HG)) as Hc. cbn [pool with_lock free_list nodes] in Hc.
    destruct fl as [|f fl']; [by destruct He|]. destruct Hc as (Hf & Hfr & nd & Hnd & _).
    assert (arr_get (nodes p) (free_list p) = Ok nd) as Hget by (apply arr_get_Ok; rewrite Hf; split; [lia|done]).
    rewrite Hget. eexists _, _, _, (f :: fl'). split; [reflexivity|].
    eapply good_move; [exact HG|exact Ht|apply HG|done|]. eapply lock_move; [exact Ht|done|done|done|].
    split; [done|]. split; [done|]. by exists nd.
  - eexists _, _, _, fl. split; [reflexivity|]. eapply good_move; [exact HG|exact Ht|apply HG|done|by eapply lock_move].
Qed.

Lemma write_good t o : ts !! i = Some t -> match t with PTake _ _ | PLink _ _ | PUnlock _ => True | _ => False end ->
  thread_step k t p lv = Some o -> moves_well o.
Proof.
  intros Ht Hw E. destruct t as [| | |new_idx next|idx old|r]; try done;
    destruct (lock_inside p ts i _ (g_lock _ _ HG) Ht eq_refl) as (Hl & Hok & Hout); injection E as <-.
  - destruct (take_spec p new_idx next fl (g_pool _ _ HG) Hok) as (p' & fl' & -> & Hfl & Hp' & Hl').
    eexists _, _, _, fl'. split; [reflexivity|]. eapply good_move; [exact HG|exact Ht|done| |].
    + rewrite Hfl. cbn [owned option_list]. rewrite app_nil_r, app_assoc. symmetry. apply Permutation_cons_append.
    + eapply lock_move; [exact Ht|done|cbn in Hl; congruence|done|done].
  - cbn in Hok. subst old. destruct (good_owned _ _ _ _ idx HG Ht) as [Hir Hni]; [cbn; set_solver|].
    destruct (link_spec p idx fl (g_pool _ _ HG) Hir Hni) as (p' & -> & Hp' & Hl').
    eexists _, _, _, (idx :: fl). split; [reflexivity|]. eapply good_move; [exact HG|exact Ht|done| |].
    + cbn [owned option_list]. rewrite app_nil_r, app_assoc. apply Permutation_cons_append.
    + eapply lock_move; [exact Ht|done|cbn in Hl; congruence|done|done].
  - eexists _, _, _, fl. split; [reflexivity|]. eapply good_move; [exact HG|exact Ht|apply HG| |by eapply lock_leave].
    cbn [owned]. rewrite app_nil_r. f_equiv. apply Permutation_app_comm.
Qed.

Lemma thread_good t o : ts !! i = Some t -> gives_up t = false -> thread_step k t p lv = Some o -> moves_well o.
Proof.
  intros Ht Hg E. destruct t as [|c j|c| | |];
    [by apply idle_good|by eapply try_good|by eapply in_good|by eapply write_good..].
Qed.
End Steps.

Lemma good_reachable p0 n s : Z.of_nat (length (nodes p0)) = KTREE_MAX_NODES ->
  rtc (step true) (start p0 n) s -> exists fl, good s fl.
Proof.
  intros Hl Hrun. assert (exists fl, good (start p0 n) fl) as H0.
  { exists (seqZ 0 KTREE_MAX_NODES). split; cbn [pool live threads start].
    - apply (init_inv p0 Hl).
    - assert (replicate n PIdle ≫= owned = []) as -> by (clear; induction n as [|n IH]; [done|exact IH]). by rewrite app_nil_r.
    - left. split; [done|]. intros i t Ht. by apply lookup_replicate in Ht as [-> _]. }
  revert H0. generalize (start p0 n), Hrun. clear Hrun. intros s0 Hrun.
  induction Hrun as [|s1 s2 s3 Hs _ IH]; intros H0; [done|]. apply IH. destruct H0 as [fl HG].
  destruct Hs as [i k t p lv ts t' p' lv' Ht Hg E].
  destruct (thread_good i k p lv ts fl HG t _ Ht (Hg eq_refl) E) as (? & ? & ? & fl' & E' & HG').
  injection E' as <- <- <-. by exists fl'.
Qed.

Lemma inside_one p ts : lock_ok p ts -> forall i j t u,
  ts !! i = Some t -> ts !! j = Some u -> inside t = true -> inside u = true -> i = j.
Proof.
  intros HL i j t u Ht Hu Hi Hj. destruct (lock_inside p ts i t HL Ht Hi) as (_ & _ & Ho).
  destruct (decide (j = i)) as [->|Hne]; [done|]. by rewrite (Ho j u Hne Hu) in Hj.
Qed.

(** * Theorems *)

(** C22: Any number of threads allocate and free nodes of one pool. In every interleaving in
    which no release runs out of tries: no step is undefined; at most one thread is
    between taking and releasing the lock; the nodes held by callers or handed over by a
    thread are distinct indices of the pool, and [node_count] is their number. *)
Theorem ktree_pool_interleavings (p0 : ktree_node_pool) (n : nat) (s : state) :
  Z.of_nat (length (nodes p0)) = KTREE_MAX_NODES -> rtc (step true) (start p0 n) s ->
  let held := live s ++ (threads s ≫= owned) in
  (forall i k t o, threads s !! i = Some t -> gives_up t = false -> thread_step k t (pool s) (live s) = Some o ->
     exists r, o = Ok r) /\
  (forall i j t u, threads s !! i = Some t -> threads s !! j = Some u -> inside t = true -> inside u = true -> i = j) /\
  NoDup held /\ Forall (fun x => 0 <= x < KTREE_MAX_NODES) held /\
  ktree_pool_node_count (pool s) = Z.of_nat (length held).
Proof.
  intros Hl Hrun held. destruct (good_reachable p0 n s Hl Hrun) as [fl HG]. destruct s as [p lv ts]. split_and!.
  - intros i k t o Ht Hg E. destruct (thread_good i k p lv ts fl HG t o Ht Hg E) as (? & ? & ? & ? & -> & _). by eexists.
  - apply (inside_one p ts (g_lock _ _ HG)).
  - apply (good_live _ _ HG).
  - apply Forall_forall. intros x Hx.
    assert (x ∈ seqZ 0 KTREE_MAX_NODES) as H by (rewrite <- (g_nodes _ _ HG); set_solver). apply elem_of_seqZ in H. lia.
  - pose proof (Permutation_length (g_nodes _ _ HG)) as H. rewrite length_app, length_seqZ in H.
    pose proof (pi_count _ _ (g_pool _ _ HG)) as Hc. cbn [node_count with_lock pool] in *.
    unfold ktree_pool_node_count, ktree_atomic_read. rewrite Hc. unfold held, KTREE_MAX_NODES in *. lia.
Qed.

Lemma schedule_steps schedule s s' : run schedule s = Some s' -> rtc (step false) s s'.
Proof.
  revert s. induction schedule as [|[i k] sch IH]; intros s E; cbn [run] in E; [by simplify_eq|].
  destruct (threads s !! i) as [t|] eqn:Ht; cbn [mbind option_bind] in E; [|done].
  destruct (thread_step k t (pool s) (live s)) as [[[[t' p'] lv']| | |]|] eqn:Es; try done.
  eapply rtc_l; [|apply IH, E]. destruct s as [p lv ts]. by apply (thread_moves false i k t).
Qed.

(** The steps of a run in which no release gives up. *)
Fixpoint patient_run (schedule : list (nat * call)) (s : state) : bool :=
  match schedule with
  | [] => true
  | (i, k) :: schedule' =>
      match threads s !! i with Some t => negb (gives_up t) | None => true end &&
      match run [(i, k)] s with Some s' => patient_run schedule' s' | None => true end
  end.

Lemma run_patient schedule s s' : run schedule s = Some s' -> patient_run schedule s = true -> rtc (step true) s s'.
Proof.
  revert s. induction schedule as [|[i k] sch IH]; intros s E Hp; cbn [run patient_run] in E, Hp; [by simplify_eq|].
  apply andb_true_iff in Hp as [Hg Hp].
  destruct (threads s !! i) as [t|] eqn:Ht; cbn [mbind option_bind] in E, Hp; [|done].
  destruct (thread_step k t (pool s) (live s)) as [[[[t' p'] lv']| | |]|] eqn:Es; try done.
  eapply rtc_l; [|apply IH; [exact E|exact Hp]]. destruct s as [p lv ts]. apply (thread_moves true i k t); try done.
  intros _. by apply negb_true_iff.
Qed.

(** Thread [i] allocates without interruption. *)
Definition alloc_alone (i : nat) : list (nat * call) := replicate 5 (i, CAlloc).

Lemma zero_pool_nodes : Z.of_nat (length (nodes zero_pool)) = KTREE_MAX_NODES.
Proof. unfold zero_pool. cbn [nodes]. by rewrite length_replicate. Qed.

(** Two allocations and a release that meets a held lock. *)
Definition demo_schedule : list (nat * call) :=
  alloc_alone 1 ++ [(0, CAlloc); (0, CAlloc); (1, CFree 0); (1, CFree 0); (0, CAlloc); (0, CAlloc); (0, CAlloc)]%nat ++
  [(1, CFree 0); (1, CFree 0); (1, CFree 0)]%nat.

Lemma demo_run : live <$> run demo_schedule (start zero_pool 2) = Some [1].
Proof. vm_compute. reflexivity. Qed.
Lemma demo_patient : patient_run demo_schedule (start zero_pool 2) = true.
Proof. vm_compute. reflexivity. Qed.

Lemma ktree_pool_interleavings_witness :
  exists s, rtc (step true) (start zero_pool 2) s /\ live s = [1] /\ NoDup (live s ++ (threads s ≫= owned)).
Proof.
  destruct (fmap_Some_1 _ _ _ demo_run) as (s & E & Hlive).
  pose proof (run_patient demo_schedule _ _ E demo_patient) as Hrun.
  exists s. split; [exact Hrun|]. split; [exact (eq_sym Hlive)|].
  apply (ktree_pool_interleavings zero_pool 2 s zero_pool_nodes Hrun).
Defined.

(** A release that runs out of tries goes on without the lock. Thread 1 holds node 0 and
    frees it while thread 0 is inside [ktree_pool_alloc_node]: both have read the same head
    of the free list, node 1 is handed out and linked back, and a later allocation hands
    it out again. *)
Definition race_schedule : list (nat * call) :=
  alloc_alone 1 ++ replicate 3 (0%nat, CAlloc) ++ replicate 1003 (1%nat, CFree 0) ++
  replicate 2 (0%nat, CAlloc) ++ replicate 2 (1%nat, CFree 0) ++ alloc_alone 0 ++ alloc_alone 0.

Lemma free_race_run : live <$> run race_schedule (start zero_pool 2) = Some [1; 0; 1].
Proof. vm_compute. reflexivity. Qed.

Lemma free_without_lock : exists s, rtc (step false) (start zero_pool 2) s /\ live s = [1; 0; 1].
Proof.
  destruct (fmap_Some_1 _ _ _ free_race_run) as (s & E & Hl). exists s.
  split; [exact (schedule_steps race_schedule _ _ E)|exact (eq_sym Hl)].
Qed.

(** A call that finds the lock taken every time ends after [KTREE_SPINLOCK_RETRIES] exchanges. *)
Lemma lock_bounded c i p lv : (i <= KTREE_SPINLOCK_RETRIES)%nat ->
  exists k t p', run (replicate k (0%nat, CAlloc)) (mk_state p lv [PTry c i]) = Some (mk_state p' lv [t]) /\
    (k <= S KTREE_SPINLOCK_RETRIES - i)%nat /\ match t with PTry _ _ => False | _ => True end.
Proof.
  intros Hi. remember (KTREE_SPINLOCK_RETRIES - i)%nat as d eqn:Ed. revert i p Hi Ed.
  induction d as [|d IH]; intros i p Hi Ed.
  - assert (i = KTREE_SPINLOCK_RETRIES) as -> by lia.
    exists 1%nat. cbn [replicate run threads pool live]. unfold thread_step. cbn [lookup list_lookup mbind option_bind].
    rewrite (proj2 (Nat.ltb_ge _ _)) by lia. destruct c; eexists _, _; (split; [reflexivity|split; [lia|done]]).
  - destruct (decide (pool_lock p = 0)) as [H0|H0].
    + exists 1%nat, (PIn c), (with_lock p 1). cbn [replicate run threads pool live lookup list_lookup mbind option_bind thread_step].
      rewrite (proj2 (Nat.ltb_lt _ _)) by lia. unfold ktree_spinlock_trylock. rewrite H0. split; [done|split; [lia|done]].
    + destruct (IH (S i) (with_lock p 1)) as (k & t & p' & E & Hk & Ht); [lia|lia|].
      exists (S k), t, p'. cbn [replicate run threads pool live lookup list_lookup mbind option_bind thread_step].
      rewrite (proj2 (Nat.ltb_lt _ _)) by lia. unfold ktree_spinlock_trylock. rewrite (proj2 (Z.eqb_neq _ _) H0).
      split; [exact E|split; [lia|done]].
Qed.
End KTreeSync.
