(* ===== verification/Gates.v ===== *)
(** * Gates of the interrupt descriptor table

    Four files of the kernel describe the same 16-byte gate of the processor with
    four packed structs. This file holds what they share: the memory layout of a
    packed struct ([pack]), the reading of a gate by the processor ([cpu_gate]),
    the meaning of the arguments of [idt_set_gate] ([gate_of]), and the interface
    of a table of gates ([GateTable], [GateTableLaws]) that [Idt] and [Isr]
    implement. Code that sets gates is proved against the interface: [isr_init]
    (boot/cpu/isr.c) here, [Irq] and [Exceptions] elsewhere; all of it calls an
    [idt_set_gate] that boot/cpu/idt.h declares and no file of that directory
    defines. *)
From Stdlib Require Import ZArith Lia.
From stdpp Require Import strings numbers gmap base.
From stdpp Require Import list.
From S2P Require Import Prelude.

Open Scope Z_scope.

(** * Packed structs

    A packed struct is the sequence of its fields, least significant first; a
    field is its width in bits and its value, cut to that width. *)
Fixpoint pack (fields : list (Z * Z)) : Z :=
  match fields with
  | [] => 0
  | (w, v) :: rest => wrap w v + 2 ^ w * pack rest
  end.

(** [n] bits of [x] from bit [lo] on. *)
Definition bits (x lo n : Z) : Z := (x / 2 ^ lo) mod 2 ^ n.

Lemma bits_bound x lo n : 0 <= n -> 0 <= bits x lo n < 2 ^ n.
Proof. intros. unfold bits. apply Z.mod_pos_bound. lia. Qed.

(** Bits beyond the first field lie in the rest of the struct. *)
Lemma bits_pack_skip w v rest lo n :
  0 <= w <= lo -> bits (pack ((w, v) :: rest)) lo n = bits (pack rest) (lo - w) n.
Proof.
  intros H. unfold bits. cbn [pack]. f_equal.
  replace (2 ^ lo) with (2 ^ w * 2 ^ (lo - w)) by (rewrite <- Z.pow_add_r by lia; f_equal; lia).
  rewrite <- Z.div_div by lia. f_equal.
  rewrite Z.add_comm, Z.mul_comm, Z.div_add_l by lia.
  rewrite (Z.div_small (wrap w v)) by (unfold wrap; apply Z.mod_pos_bound; lia). lia.
Qed.

(** Bits inside the first field are bits of its value. *)
Lemma bits_pack_head w v rest lo n :
  0 <= lo -> 0 <= n -> lo + n <= w -> bits (pack ((w, v) :: rest)) lo n = bits v lo n.
Proof.
  intros H Hn Hw. unfold bits. cbn [pack]. unfold wrap.
  apply Z.bits_inj'. intros i Hi.
  assert (Hs : forall y, Z.testbit ((y / 2 ^ lo) mod 2 ^ n) i = if i <? n then Z.testbit y (i + lo) else false).
  { intros y. zcase (i <? n); [|apply Z.mod_pow2_bits_high; lia].
    rewrite Z.mod_pow2_bits_low, Z.div_pow2_bits by lia. reflexivity. }
  rewrite !Hs. zcase (i <? n).
  rewrite <- (Z.mod_pow2_bits_low (_ + _) w) by lia.
  rewrite Z.mul_comm, Z.mod_add by lia. rewrite Z.mod_mod by lia.
  apply Z.mod_pow2_bits_low. lia.
Qed.

Lemma bits_whole v w : bits v 0 w = wrap w v.
Proof. unfold bits, wrap. rewrite Z.pow_0_r, Z.div_1_r. reflexivity. Qed.

(** Reads one field out of a packed struct. *)
Ltac bits_pack :=
  repeat first [ rewrite bits_pack_skip by lia
               | rewrite bits_pack_head by lia ];
  cbn [Z.sub Z.add Z.opp Z.pos_sub].

(** * What the processor reads in a gate *)

Record gate := Gate {
  g_offset : Z;
  g_selector : Z;
  g_ist : Z;
  g_type : Z;
  g_dpl : Z;
  g_present : bool
}.

Definition cpu_gate (x : Z) : gate :=
  {| g_offset := bits x 0 16 + 2 ^ 16 * bits x 48 16 + 2 ^ 32 * bits x 64 32;
     g_selector := bits x 16 16;
     g_ist := bits x 32 3;
     g_type := bits x 40 4;
     g_dpl := bits x 45 2;
     g_present := bits x 47 1 =? 1 |}.

(** The gate that the arguments [base], [sel] and [flags] of [idt_set_gate] ask for. *)
Definition gate_of (base sel flags : Z) : gate :=
  {| g_offset := base;
     g_selector := sel;
     g_ist := 0;
     g_type := bits flags 0 4;
     g_dpl := bits flags 5 2;
     g_present := bits flags 7 1 =? 1 |}.

(** [0x8E], the flags used throughout: a present interrupt gate of ring 0. *)
Lemma gate_of_8E base sel : gate_of base sel 0x8E = Gate base sel 0 0xE 0 true.
Proof. reflexivity. Qed.

(** The three parts of a 64-bit address make up the address. *)
Lemma address_parts a :
  in_u64 a ->
  wrap 16 (Z.land a 0xFFFF) + 2 ^ 16 * wrap 16 (Z.land (Z.shiftr a 16) 0xFFFF)
    + 2 ^ 32 * wrap 32 (Z.shiftr a 32) = a.
Proof.
  intros [H0 H1]. unfold wrap.
  change 0xFFFF with (Z.ones 16). rewrite !Z.land_ones, !Z.shiftr_div_pow2 by lia.
  rewrite !Z.mod_mod by lia.
  rewrite (Z.mod_small (a / 2 ^ 32)) by (split; [apply Z.div_pos|apply Z.div_lt_upper_bound]; lia).
  pose proof (Z.div_mod a (2 ^ 16) ltac:(lia)) as E1.
  pose proof (Z.div_mod (a / 2 ^ 16) (2 ^ 16) ltac:(lia)) as E2.
  rewrite Z.div_div in E2 by lia. change (2 ^ 16 * 2 ^ 16) with (2 ^ 32) in E2. lia.
Qed.

(** The layout that all the structs of gates have in common. *)
Lemma cpu_gate_pack handler sel flags :
  in_u64 handler -> 0 <= sel < 2 ^ 16 -> 0 <= flags < 2 ^ 8 ->
  cpu_gate (pack
    [(16, u16 (Z.land handler 0xFFFF)); (16, u16 sel); (8, 0); (8, u8 flags);
     (16, u16 (Z.land (Z.shiftr handler 16) 0xFFFF));
     (32, u32 (Z.land (Z.shiftr handler 32) 0xFFFFFFFF)); (32, 0)])
  = gate_of handler sel flags.
Proof.
  intros Hh Hs Hf. unfold cpu_gate, gate_of. bits_pack. rewrite !bits_whole.
  unfold u16, u8, u32.
  assert (Hw : forall w x, 0 <= w -> wrap w (wrap w x) = wrap w x)
    by (intros; unfold wrap; apply Z.mod_mod; lia).
  assert (Hf8 : wrap 8 flags = flags) by (apply Z.mod_small; lia).
  rewrite !Hw, !Hf8 by lia. f_equal; [|apply Z.mod_small; lia].
  rewrite <- (address_parts handler Hh) at 4. do 2 f_equal.
  unfold wrap. change 0xFFFFFFFF with (Z.ones 32). rewrite Z.land_ones by lia.
  apply Z.mod_mod. lia.
Qed.

(** Storing one entry changes the gate of one vector. *)
Lemma arr_set_gate {E} (enc : E -> Z) (d e : E) (t : list E) num g :
  length t = 256%nat -> 0 <= num < 256 -> cpu_gate (enc e) = g ->
  exists t', arr_set t num e = Ok t' /\ length t' = 256%nat /\
    cpu_gate (enc (default d (t' !! Z.to_nat num))) = g /\
    forall v, 0 <= v < 256 -> v <> num ->
      cpu_gate (enc (default d (t' !! Z.to_nat v))) = cpu_gate (enc (default d (t !! Z.to_nat v))).
Proof.
  intros Ht Hn He. unfold arr_set. rewrite Ht. change (Z.of_nat 256) with 256.
  rewrite (proj2 (Z.leb_le 0 num)), (proj2 (Z.ltb_lt num 256)) by lia. cbn [andb].
  eexists. split_and!; [reflexivity|by rewrite length_insert| |].
  - rewrite list_lookup_insert_eq by lia. exact He.
  - intros v Hv Hne. rewrite list_lookup_insert_ne by lia. done.
Qed.

(** * The interface of a table of gates *)

Class GateTable (T : Type) := {
  table_ok : T -> Prop;
  gate_at : T -> Z -> gate;
  set_gate : T -> Z -> Z -> Z -> Z -> outcome T
}.

(** What [idt_set_gate(num, base, sel, flags)] promises: inside the table it
    succeeds, the processor sees the gate asked for at [num] and the old gates
    everywhere else. *)
Class GateTableLaws (T : Type) `{GateTable T} := {
  set_gate_spec : forall t num base sel flags,
    table_ok t -> 0 <= num < 256 -> in_u64 base -> 0 <= sel < 2 ^ 16 -> 0 <= flags < 2 ^ 8 ->
    exists t', set_gate t num base sel flags = Ok t' /\ table_ok t' /\
      gate_at t' num = gate_of base sel flags /\
      forall v, 0 <= v < 256 -> v <> num -> gate_at t' v = gate_at t v
}.

Section Clients.
Context {T : Type} `{GateTable T}.

(** [for (i = start; i < start + n; i++) idt_set_gate(i, base i, sel, flags);] *)
Definition set_gates (n : nat) (start : Z) (base : Z -> Z) (sel flags : Z) (t : T) : outcome T :=
  for_range n start (fun i t => set_gate t i (base i) sel flags) t.

(** ** boot/cpu/isr.c *)

Definition isr_init (isr0 isr1 : Z) (t : T) : outcome T :=
  t ← set_gate t 0 isr0 0x08 0x8E;
  set_gate t 1 isr1 0x08 0x8E.

Context `{!GateTableLaws T}.

(** A loop of [idt_set_gate] over a range of vectors sets exactly that range. *)
Lemma set_gates_spec n start base sel flags t :
  table_ok t -> 0 <= start -> start + Z.of_nat n <= 256 ->
  (forall v, in_u64 (base v)) -> 0 <= sel < 2 ^ 16 -> 0 <= flags < 2 ^ 8 ->
  exists t', set_gates n start base sel flags t = Ok t' /\ table_ok t' /\
    forall v, 0 <= v < 256 ->
      gate_at t' v = if (start <=? v) && (v <? start + Z.of_nat n)
                     then gate_of (base v) sel flags else gate_at t v.
Proof.
  intros Ht H0 Hn Hb Hs Hf.
  apply (for_range_spec table_ok gate_at (fun v => gate_of (base v) sel flags) 0 256); auto.
  intros s i Hok Hi. apply set_gate_spec; auto.
Qed.

(** The two gates of [isr_init]. *)
Lemma isr_init_spec isr0 isr1 t :
  table_ok t -> in_u64 isr0 -> in_u64 isr1 ->
  exists t', isr_init isr0 isr1 t = Ok t' /\ table_ok t' /\
    gate_at t' 0 = Gate isr0 0x08 0 0xE 0 true /\ gate_at t' 1 = Gate isr1 0x08 0 0xE 0 true /\
    forall v, 2 <= v < 256 -> gate_at t' v = gate_at t v.
Proof.
  intros Ht H0 H1. unfold isr_init.
  destruct (set_gate_spec t 0 isr0 0x08 0x8E) as (t1 & -> & Ht1 & G1 & K1); [done|lia|done|lia|lia|].
  cbn [mbind outcome_bind].
  destruct (set_gate_spec t1 1 isr1 0x08 0x8E) as (t2 & -> & Ht2 & G2 & K2); [done|lia|done|lia|lia|].
  exists t2. split_and!; [done|done|by rewrite K2, G1 by lia|done|].
  intros v Hv. rewrite K2, K1 by lia. done.
Qed.

End Clients.
