(* ===== verification/Idt.v ===== *)
(** * The table of all 256 vectors (src/arch/x86_64/idt.c)

    One gate per vector, each to its own stub [isrN]. The stubs are assembly code;
    their addresses are the argument [isr]. The table implements the interface
    [GateTable]. *)
From Stdlib Require Import ZArith Lia.
From stdpp Require Import strings numbers gmap base.
From stdpp Require Import list.
From S2P Require Import Prelude Gates.

Open Scope Z_scope.

Module Idt.

Definition IDT_ENTRIES : Z := 256.
Definition KERNEL_CS : Z := 0x08.
Definition IDT_FLAG_PRESENT : Z := 0x80.
Definition IDT_FLAG_INT_GATE : Z := 0x0E.
Definition IDT_FLAG_DPL0 : Z := 0x00.

Definition INT_GATE_KERNEL : Z :=
  Z.lor (Z.lor IDT_FLAG_PRESENT IDT_FLAG_INT_GATE) IDT_FLAG_DPL0.

Record idt_entry_t := {
  offset_low : Z;    (* 16 bits *)
  selector : Z;      (* 16 bits *)
  ist : Z;           (* 8 bits *)
  type_attr : Z;     (* 8 bits *)
  offset_mid : Z;    (* 16 bits *)
  offset_high : Z;   (* 32 bits *)
  zero : Z           (* 32 bits *)
}.

Record idt_ptr_t := { limit : Z; base : Z }.

(** The 16 bytes of an entry in memory. *)
Definition entry_bytes (d : idt_entry_t) : Z :=
  pack [(16, offset_low d); (16, selector d); (8, ist d); (8, type_attr d);
        (16, offset_mid d); (32, offset_high d); (32, zero d)].

Definition blank : idt_entry_t := Build_idt_entry_t 0 0 0 0 0 0 0.

Definition idt_set_gate (idt : list idt_entry_t) (vec handler sel flags : Z) : outcome (list idt_entry_t) :=
  arr_set idt vec
    {| offset_low := u16 (Z.land handler 0xFFFF);
       selector := u16 sel;
       ist := 0;
       type_attr := u8 flags;
       offset_mid := u16 (Z.land (Z.shiftr handler 16) 0xFFFF);
       offset_high := u32 (Z.land (Z.shiftr handler 32) 0xFFFFFFFF);
       zero := 0 |}.

(** [FOR_EACH_VECTOR(INSTALL_GATE)]: one call per vector, in order. *)
Definition install_gates (isr : Z -> Z) (idt : list idt_entry_t) : outcome (list idt_entry_t) :=
  for_range 256 0 (fun n idt => idt_set_gate idt n (isr n) KERNEL_CS INT_GATE_KERNEL) idt.

(** The result is the table and the value loaded into IDTR; [addr] is the address
    of the table. *)
Definition idt_init (isr : Z -> Z) (addr : Z) : outcome (list idt_entry_t * idt_ptr_t) :=
  let idt := replicate (Z.to_nat IDT_ENTRIES) blank in
  idt ← install_gates isr idt;
  Ok (idt, {| limit := u16 (16 * Z.of_nat (length idt) - 1); base := u64 addr |}).

(** * The table implements the interface *)

#[global] Instance idt_gates : GateTable (list idt_entry_t) := {
  table_ok idt := length idt = 256%nat;
  gate_at idt v := cpu_gate (entry_bytes (default blank (idt !! Z.to_nat v)));
  set_gate := idt_set_gate
}.

#[global] Instance idt_gates_laws : GateTableLaws (list idt_entry_t).
Proof.
  split. intros t num base sel flags Ht Hn Hb Hs Hf.
  cbn [table_ok gate_at set_gate idt_gates] in *. unfold idt_set_gate.
  apply (arr_set_gate entry_bytes); [done..|]. apply cpu_gate_pack; done.
Qed.

(** [idt_init] succeeds for every placement of the stubs; the register loaded
    covers the whole table, and the processor finds at each of the 256 vectors a
    present ring-0 interrupt gate in the kernel code segment whose 64-bit target is
    exactly the stub of that vector. *)
Theorem idt_init_correct isr addr :
  (forall v, in_u64 (isr v)) -> in_u64 addr ->
  exists idt, idt_init isr addr = Ok (idt, {| limit := 16 * 256 - 1; base := addr |}) /\
    length idt = 256%nat /\
    forall v, 0 <= v < 256 -> gate_at idt v = Gate (isr v) 0x08 0 0xE 0 true.
Proof.
  intros Hi Ha. unfold idt_init.
  change (install_gates isr) with (set_gates 256 0 isr KERNEL_CS INT_GATE_KERNEL).
  destruct (set_gates_spec 256 0 isr KERNEL_CS INT_GATE_KERNEL (replicate (Z.to_nat IDT_ENTRIES) blank))
    as (t & -> & Ht & Hg); [cbn; by rewrite length_replicate|lia..|done|done|done|].
  cbn in Ht. cbn [mbind outcome_bind]. exists t. rewrite Ht, u64_small by done. split_and!; try done.
  intros v Hv. rewrite Hg by done. cbn [Z.of_nat]. zcases.
Qed.

Lemma idt_init_correct_witness :
  exists idt, idt_init (fun v => 0xFFFFFFFF80100000 + 16 * (v mod 256)) 0xFFFFFFFF80200000
    = Ok (idt, {| limit := 4095; base := 0xFFFFFFFF80200000 |}) /\
    length idt = 256%nat /\
    forall v, 0 <= v < 256 -> gate_at idt v = Gate (0xFFFFFFFF80100000 + 16 * (v mod 256)) 0x08 0 0xE 0 true.
Proof.
  apply (idt_init_correct (fun v => 0xFFFFFFFF80100000 + 16 * (v mod 256)) 0xFFFFFFFF80200000).
  - intros v. pose proof (Z.mod_pos_bound v 256 ltac:(lia)). unfold in_u64. lia.
  - split; lia.
Defined.

End Idt.
