(* ===== verification/Isr.v ===== *)
(** * The table of exceptions (src/arch/x86_64/isr.c, isr.h)

    All 256 gates are cleared, the 32 exceptions share one stub. Its address,
    [isr_common_stub], is assembly code and an argument here. The table implements
    the interface [GateTable]. *)
From Stdlib Require Import ZArith Lia.
From stdpp Require Import strings numbers gmap base.
From stdpp Require Import list.
From S2P Require Import Prelude Gates.

Open Scope Z_scope.

Module Isr.

Definition IDT_ENTRIES : Z := 256.
Definition KERNEL_CODE_SEGMENT : Z := 0x08.
Definition IDT_FLAG_INTERRUPT_GATE : Z := 0x8E.

Record idt_entry_t := {
  base_low : Z;     (* 16 bits *)
  sel : Z;          (* 16 bits *)
  always0 : Z;      (* 8 bits *)
  flags : Z;        (* 8 bits *)
  base_mid : Z;     (* 16 bits *)
  base_high : Z;    (* 32 bits *)
  reserved : Z      (* 32 bits *)
}.

Record idt_ptr_t := { limit : Z; base : Z }.

Definition entry_bytes (d : idt_entry_t) : Z :=
  pack [(16, base_low d); (16, sel d); (8, always0 d); (8, flags d);
        (16, base_mid d); (32, base_high d); (32, reserved d)].

Definition idt_set_gate (idt : list idt_entry_t) (num base sel flags : Z) : outcome (list idt_entry_t) :=
  arr_set idt (u8 num)
    {| base_low := u16 (Z.land base 0xFFFF);
       base_mid := u16 (Z.land (Z.shiftr base 16) 0xFFFF);
       base_high := u32 (Z.land (Z.shiftr base 32) 0xFFFFFFFF);
       sel := u16 sel;
       always0 := 0;
       flags := u8 flags;
       reserved := 0 |}.

Definition blank : idt_entry_t := Build_idt_entry_t 0 0 0 0 0 0 0.

#[global] Instance isr_gates : GateTable (list idt_entry_t) := {
  table_ok idt := length idt = 256%nat;
  gate_at idt v := cpu_gate (entry_bytes (default blank (idt !! Z.to_nat v)));
  set_gate := idt_set_gate
}.

#[global] Instance isr_gates_laws : GateTableLaws (list idt_entry_t).
Proof.
  split. intros t num base sel flags Ht Hn Hb Hs Hf.
  cbn [table_ok gate_at set_gate isr_gates] in *. unfold idt_set_gate.
  replace (u8 num) with num by (symmetry; apply Z.mod_small; lia).
  apply (arr_set_gate entry_bytes); [done..|]. apply cpu_gate_pack; done.
Qed.

(** The two loops over the static table [idt], then the load of IDTR; [addr] is
    the address of the table. *)
Definition idt_init (isr_common_stub addr : Z) (idt : list idt_entry_t) :
  outcome (list idt_entry_t * idt_ptr_t) :=
  let idt_ptr := {| limit := u16 (16 * Z.of_nat (length idt) - 1); base := u64 addr |} in
  idt ← set_gates (Z.to_nat IDT_ENTRIES) 0 (fun _ => 0) 0 0 idt;
  idt ← set_gates 32 0 (fun _ => isr_common_stub) KERNEL_CODE_SEGMENT IDT_FLAG_INTERRUPT_GATE idt;
  Ok (idt, idt_ptr).

(** whatever the static table held, [idt_init] leaves present ring-0 interrupt
    gates to the common stub at the 32 exceptions and no present gate above, and
    the register loaded covers the table. *)
Theorem isr_idt_init_correct isr_common_stub addr idt :
  length idt = 256%nat -> in_u64 isr_common_stub -> in_u64 addr ->
  exists idt', idt_init isr_common_stub addr idt = Ok (idt', {| limit := 16 * 256 - 1; base := addr |}) /\
    length idt' = 256%nat /\
    forall v, 0 <= v < 256 ->
      gate_at idt' v = if v <? 32 then Gate isr_common_stub 0x08 0 0xE 0 true
                       else Gate 0 0 0 0 0 false.
Proof.
  intros Hl Hs Ha. unfold idt_init. rewrite Hl, (u64_small addr) by done.
  destruct (set_gates_spec (Z.to_nat IDT_ENTRIES) 0 (fun _ => 0) 0 0 idt) as (t & -> & Ht & Hg);
    [done|lia|done|done|done|done|].
  cbn [mbind outcome_bind].
  destruct (set_gates_spec 32 0 (fun _ => isr_common_stub) KERNEL_CODE_SEGMENT IDT_FLAG_INTERRUPT_GATE t)
    as (t' & -> & Ht' & Hg'); [done|lia|lia|done|done|done|].
  cbn [mbind outcome_bind]. exists t'. split_and!; try done.
  intros v Hv. rewrite Hg', Hg by done. cbn [Z.of_nat]. unfold IDT_ENTRIES.
  change (Z.of_nat (Z.to_nat 256)) with 256. zcases.
Qed.

Lemma isr_idt_init_correct_witness :
  exists idt', idt_init 0xFFFFFFFF80100000 0x9000 (replicate 256 blank)
      = Ok (idt', {| limit := 4095; base := 0x9000 |}) /\
    length idt' = 256%nat /\
    forall v, 0 <= v < 256 ->
      gate_at idt' v = if v <? 32 then Gate 0xFFFFFFFF80100000 0x08 0 0xE 0 true
                       else Gate 0 0 0 0 0 false.
Proof.
  apply (isr_idt_init_correct 0xFFFFFFFF80100000 0x9000 (replicate 256 blank)); [done| |]; split; lia.
Defined.

(** * The C handler *)

Definition exception_messages : list string :=
  ["Division By Zero"; "Debug"; "Non Maskable Interrupt"; "Breakpoint";
   "Into Detected Overflow"; "Out of Bounds"; "Invalid Opcode"; "No Coprocessor";
   "Double Fault"; "Coprocessor Segment Overrun"; "Bad TSS"; "Segment Not Present";
   "Stack Fault"; "General Protection Fault"; "Page Fault"; "Unknown Interrupt";
   "Coprocessor Fault"; "Alignment Check"; "Machine Check"; "SIMD Floating-Point Exception";
   "Virtualization Exception"; "Control Protection Exception"; "Reserved"; "Reserved";
   "Reserved"; "Reserved"; "Reserved"; "Reserved"; "Reserved"; "Reserved"; "Reserved"; "Reserved"].

(** What [printf] is called with. *)
Inductive printed := PrintedMessage (s : string) | PrintedNumber (n : Z).

Definition isr_handler (isr_number : Z) : outcome printed :=
  if isr_number <? 32 then
    m ← arr_get exception_messages isr_number; Ok (PrintedMessage m)
  else Ok (PrintedNumber isr_number).

(** The table of messages is as long as the test in front of it promises. *)
Lemma isr_handler_total isr_number :
  in_u64 isr_number -> is_ok (isr_handler isr_number) = true.
Proof.
  intros [H0 H1]. unfold isr_handler. zcase (isr_number <? 32).
  destruct (arr_get_total exception_messages isr_number) as [m ->]; [cbn; lia|done].
Qed.

End Isr.
