(* ===== verification/Interrupts.v ===== *)
(** * The interrupt core (src/kernel/interrupts.c)

    The interrupt descriptor table with its bit-field entries ([idt_entry_t],
    [set_idt_entry], [init_idt]), the stubs that the macro [ISR_STUB] generates as
    runs of a small stack machine, the C handler with its APIC acknowledgement, the
    delay loop, the wait for the interrupt command register, and the search that
    [ap_entry_point] makes. The local APIC is a device: writes are recorded in
    order, reads are inputs. The source ends inside [smp_init], which is therefore
    left out. *)
From Stdlib Require Import ZArith Lia.
From stdpp Require Import strings numbers gmap base.
From stdpp Require Import list.
From S2P Require Import Prelude Gates.

Open Scope Z_scope.

Module Intr.

Definition IDT_SIZE : Z := 256.
Definition KERNEL_CS : Z := 0x08.
Definition MAX_PROCESSORS : Z := 8.
Definition SPURIOUS_VECTOR_NUM : Z := 0xFF.

Definition APIC_DEFAULT_BASE : Z := 0xFEE00000.
Definition APIC_REG_ID : Z := 0x0020.
Definition APIC_REG_EOI : Z := 0x00B0.
Definition APIC_REG_SPURIOUS : Z := 0x00F0.
Definition APIC_REG_ICR_LOW : Z := 0x0300.
Definition APIC_SPURIOUS_APIC_ENABLE : Z := 0x0100.
Definition APIC_DELIVERY_STATUS_PENDING : Z := 0x00001000.

(** * Data *)

Record idt_entry_t := {
  offset_low : Z;   (* 16 bits *)
  selector : Z;     (* 16 bits *)
  ist : Z;          (* 3 bits *)
  reserved0 : Z;    (* 5 bits *)
  type : Z;         (* 4 bits *)
  zero : Z;         (* 1 bit *)
  dpl : Z;          (* 2 bits *)
  present : Z;      (* 1 bit *)
  offset_mid : Z;   (* 16 bits *)
  offset_high : Z;  (* 32 bits *)
  reserved1 : Z     (* 32 bits *)
}.

Record idt_pointer_t := { limit : Z; base : Z }.

Definition entry_fields (e : idt_entry_t) : list (Z * Z) :=
  [(16, offset_low e); (16, selector e); (3, ist e); (5, reserved0 e); (4, type e);
   (1, zero e); (2, dpl e); (1, present e); (16, offset_mid e); (32, offset_high e);
   (32, reserved1 e)].

Definition entry_bytes (e : idt_entry_t) : Z := pack (entry_fields e).

(** A struct read back from its 16 bytes. *)
Definition entry_of_bytes (x : Z) : idt_entry_t :=
  {| offset_low := bits x 0 16; selector := bits x 16 16; ist := bits x 32 3;
     reserved0 := bits x 35 5; type := bits x 40 4; zero := bits x 44 1;
     dpl := bits x 45 2; present := bits x 47 1; offset_mid := bits x 48 16;
     offset_high := bits x 64 32; reserved1 := bits x 96 32 |}.

Record processor_info_t := {
  acpi_processor_id : Z;
  apic_id : Z;
  active : bool;
  bsp : bool
}.

(** Saved registers, vector, error code, and the part the processor saves. *)
Record interrupt_frame_t := {
  r15 : Z; r14 : Z; r13 : Z; r12 : Z; r11 : Z; r10 : Z; r9 : Z; r8 : Z;
  rbp : Z; rdi : Z; rsi : Z; rdx : Z; rcx : Z; rbx : Z; rax : Z;
  vector_number : Z; error_code : Z;
  rip : Z; cs : Z; rflags : Z; rsp : Z; ss : Z
}.

(** Console output of the handler, one constructor per message. *)
Inductive message :=
| CpuException (vec err : Z)
| RegisterDump (frame : interrupt_frame_t)
| UnhandledHalting
| SpuriousInterrupt (vec : Z)
| IrqReceived (vec : Z)
| NoProcessorEntry (apic_id : Z).

(** Globals of the file, the register loaded by [lidt], and the devices: APIC
    writes (address, value) and messages, oldest first. *)
Record kernel := {
  idt : list idt_entry_t;
  idtr : option idt_pointer_t;
  global_keep_running : bool;
  processors : list processor_info_t;
  active_processor_count : Z;
  local_apic_base : Z;
  mmio : list (Z * Z);
  console : list message
}.

Definition with_idt (k : kernel) (t : list idt_entry_t) : kernel :=
  {| idt := t; idtr := idtr k; global_keep_running := global_keep_running k;
     processors := processors k; active_processor_count := active_processor_count k;
     local_apic_base := local_apic_base k; mmio := mmio k; console := console k |}.

Definition lidt (k : kernel) (p : idt_pointer_t) : kernel :=
  {| idt := idt k; idtr := Some p; global_keep_running := global_keep_running k;
     processors := processors k; active_processor_count := active_processor_count k;
     local_apic_base := local_apic_base k; mmio := mmio k; console := console k |}.

Definition stop_all (k : kernel) : kernel :=
  {| idt := idt k; idtr := idtr k; global_keep_running := false;
     processors := processors k; active_processor_count := active_processor_count k;
     local_apic_base := local_apic_base k; mmio := mmio k; console := console k |}.

Definition kprintf (k : kernel) (m : message) : kernel :=
  {| idt := idt k; idtr := idtr k; global_keep_running := global_keep_running k;
     processors := processors k; active_processor_count := active_processor_count k;
     local_apic_base := local_apic_base k; mmio := mmio k; console := console k ++ [m] |}.

Definition apic_write (k : kernel) (reg_offset value : Z) : kernel :=
  {| idt := idt k; idtr := idtr k; global_keep_running := global_keep_running k;
     processors := processors k; active_processor_count := active_processor_count k;
     local_apic_base := local_apic_base k;
     mmio := mmio k ++ [(local_apic_base k + reg_offset, u32 value)]; console := console k |}.

Definition apic_send_eoi (k : kernel) : kernel := apic_write k APIC_REG_EOI 0.

(** * The table *)

Definition absent_entry : idt_entry_t := Build_idt_entry_t 0 0 0 0 0 0 0 0 0 0 0.

Definition set_idt_entry (t : list idt_entry_t) (vec handler dpl : Z) : outcome (list idt_entry_t) :=
  if handler =? 0 then arr_set t (u8 vec) absent_entry
  else
    let addr := handler in
    arr_set t (u8 vec)
      {| offset_low := u16 (Z.land addr 0xFFFF);
         selector := KERNEL_CS;
         ist := 0;
         reserved0 := 0;
         type := 0xE;
         zero := 0;
         dpl := wrap 2 dpl;
         present := 1;
         offset_mid := u16 (Z.land (Z.shiftr addr 16) 0xFFFF);
         offset_high := u32 (Z.shiftr addr 32);
         reserved1 := 0 |}.

(** [isr_stubs]: 256 pointers, set for the exceptions and the spurious vector. The
    address of the stub of vector [v] is [stub v]. *)
Definition isr_stubs (stub : Z -> Z) : list Z :=
  map (fun n => let v := Z.of_nat n in
                if (v <? 32) || (v =? SPURIOUS_VECTOR_NUM) then stub v else 0) (seq 0 256).

(** The body of the loop of [init_idt]. *)
Definition fill_entry (stubs : list Z) (i : Z) (t : list idt_entry_t) : outcome (list idt_entry_t) :=
  h ← (if i <? Z.of_nat (length stubs) then arr_get stubs i else Ok 0);
  if negb (h =? 0) then set_idt_entry t i h 0 else set_idt_entry t i 0 0.

(** [addr] is the address of the table. *)
Definition init_idt (stub : Z -> Z) (addr : Z) (k : kernel) : outcome kernel :=
  let p := {| limit := u16 (16 * Z.of_nat (length (idt k)) - 1); base := u64 addr |} in
  t ← for_range (Z.to_nat IDT_SIZE) 0 (fill_entry (isr_stubs stub)) (idt k);
  let k := apic_write (with_idt k t) APIC_REG_SPURIOUS
             (Z.lor SPURIOUS_VECTOR_NUM APIC_SPURIOUS_APIC_ENABLE) in
  Ok (lidt k p).

(** * The C handler *)

(** [Halted]: the endless loop of [cli; hlt]. *)
Inductive run := Returned (k : kernel) | Halted (k : kernel).

Definition generic_interrupt_handler_c (frame : interrupt_frame_t) (k : kernel) : run :=
  let vec := vector_number frame in
  if vec <? 32 then
    let k := kprintf (kprintf k (CpuException vec (error_code frame))) (RegisterDump frame) in
    if negb (vec =? 8) && negb (vec =? 14) then Halted (stop_all (kprintf k UnhandledHalting))
    else Returned (apic_send_eoi k)
  else if vec =? SPURIOUS_VECTOR_NUM then Returned (kprintf k (SpuriousInterrupt vec))
  else Returned (apic_send_eoi (kprintf k (IrqReceived vec))).

(** * Waiting *)

(** The loop of [platform_udelay]; the result counts the [pause] instructions. *)
Fixpoint udelay_loop (fuel : nat) (i bound pauses : Z) : outcome Z :=
  match fuel with
  | O => Hang
  | S fuel' => if i <? bound then udelay_loop fuel' (u64 (i + 1)) bound (pauses + 1) else Ok pauses
  end.

Definition platform_udelay (fuel : nat) (microseconds : Z) : outcome Z :=
  udelay_loop fuel 0 (u64 (microseconds * 100)) 0.

(** [apic_wait_ipi_idle] polls; [reads] are the answers of the device. *)
Fixpoint apic_wait_ipi_idle (reads : list Z) : outcome (list Z) :=
  match reads with
  | [] => Hang
  | x :: rest => if negb (Z.land x APIC_DELIVERY_STATUS_PENDING =? 0) then apic_wait_ipi_idle rest else Ok rest
  end.

(** * Application processors *)

(** The search of [ap_entry_point] from index [i] on, [n] entries left; the
    result is [my_processor_index]. *)
Fixpoint find_processor (procs : list processor_info_t) (my_apic_id : Z) (n : nat) (i : Z) : outcome Z :=
  match n with
  | O => Ok 0xFFFFFFFF
  | S n' => p ← arr_get procs i;
            if apic_id p =? my_apic_id then Ok i else find_processor procs my_apic_id n' (i + 1)
  end.

(** Either [cpu_main(index)] is entered or the processor halts. *)
Inductive ap_result := CpuMain (index : Z) | ApHalted (k : kernel).

Definition ap_entry_point (id_register : Z) (k : kernel) : outcome ap_result :=
  let my_apic_id := Z.shiftr id_register 24 in
  my_processor_index ← find_processor (processors k) my_apic_id (Z.to_nat (active_processor_count k)) 0;
  if my_processor_index =? 0xFFFFFFFF then Ok (ApHalted (kprintf k (NoProcessorEntry my_apic_id)))
  else Ok (CpuMain my_processor_index).

(** * The stubs of [ISR_STUB]

    A stub is a list of instructions on registers and a stack (top first). *)
Inductive reg :=
| RAX | RBX | RCX | RDX | RSI | RDI | RBP | R8 | R9 | R10 | R11 | R12 | R13 | R14 | R15.

#[export] Instance reg_eq_dec : EqDecision reg.
Proof. solve_decision. Defined.

Inductive instr :=
| PushImm (v : Z) | PushReg (r : reg) | PopReg (r : reg)
| CallHandler | AddRsp16 | Iretq.

(** Registers in the order in which the stub saves them. *)
Definition saved_regs : list reg :=
  [RAX; RBX; RCX; RDX; RSI; RDI; RBP; R8; R9; R10; R11; R12; R13; R14; R15].

Definition isr_stub (vector_num : Z) (has_error_code : bool) : list instr :=
  [PushImm 0] ++
  (if negb has_error_code then [PopReg RAX; PushImm 0] else []) ++
  [PushImm vector_num] ++ map PushReg saved_regs ++
  [CallHandler] ++ map PopReg (rev saved_regs) ++ [AddRsp16; Iretq].

(** [ISR_STUB(0, false) ... ISR_STUB(31, false)] and the spurious vector. *)
Definition stub_has_error_code (vec : Z) : bool :=
  match vec with
  | 8 | 10 | 11 | 12 | 13 | 14 | 17 | 21 | 29 | 30 => true
  | _ => false
  end.

(** What [iretq] takes from the stack. *)
Record context := { c_rip : Z; c_cs : Z; c_rflags : Z; c_rsp : Z; c_ss : Z }.

Record machine := { regs : reg -> Z; stack : list Z; kern : kernel }.

Inductive stub_run :=
| Running (m : machine)
| StubHalted (k : kernel)
| Resumed (c : context) (m : machine).

(** The frame the handler is given a pointer to: the words at the stack pointer. *)
Definition frame_of_stack (s : list Z) : option interrupt_frame_t :=
  match s with
  | a15 :: a14 :: a13 :: a12 :: a11 :: a10 :: a9 :: a8 :: abp :: adi :: asi :: adx :: acx :: abx :: aax ::
    vec :: err :: arip :: acs :: afl :: arsp :: ass :: _ =>
      Some (Build_interrupt_frame_t a15 a14 a13 a12 a11 a10 a9 a8 abp adi asi adx acx abx aax
              vec err arip acs afl arsp ass)
  | _ => None
  end.

Section Stubs.

(** The handler may leave any values in the registers. *)
Variable clobber : (reg -> Z) -> reg -> Z.

Definition exec_instr (i : instr) (m : machine) : outcome stub_run :=
  match i, stack m with
  | PushImm v, s => Ok (Running {| regs := regs m; stack := v :: s; kern := kern m |})
  | PushReg r, s => Ok (Running {| regs := regs m; stack := regs m r :: s; kern := kern m |})
  | PopReg r, v :: s =>
      Ok (Running {| regs := fun q => if decide (q = r) then v else regs m q; stack := s; kern := kern m |})
  | CallHandler, s =>
      match frame_of_stack s with
      | None => Undef "stack"
      | Some f =>
          match generic_interrupt_handler_c f (kern m) with
          | Halted k => Ok (StubHalted k)
          | Returned k => Ok (Running {| regs := clobber (regs m); stack := s; kern := k |})
          end
      end
  | AddRsp16, _ :: _ :: s => Ok (Running {| regs := regs m; stack := s; kern := kern m |})
  | Iretq, a :: b :: c :: d :: e :: s =>
      Ok (Resumed {| c_rip := a; c_cs := b; c_rflags := c; c_rsp := d; c_ss := e |}
            {| regs := regs m; stack := s; kern := kern m |})
  | _, _ => Undef "stack"
  end.

Fixpoint exec (p : list instr) (m : machine) : outcome stub_run :=
  match p with
  | [] => Ok (Running m)
  | i :: p' => r ← exec_instr i m;
               match r with Running m' => exec p' m' | _ => Ok r end
  end.

(** Delivery of vector [vec]: the processor pushes the interrupted context and,
    for some vectors, an error code; then the stub runs. *)
Definition context_words (c : context) : list Z := [c_rip c; c_cs c; c_rflags c; c_rsp c; c_ss c].

Definition deliver (vec : Z) (err : option Z) (c : context) (rs : reg -> Z) (s : list Z) (k : kernel) :
  outcome stub_run :=
  exec (isr_stub vec (stub_has_error_code vec))
    {| regs := rs; stack := option_list err ++ context_words c ++ s; kern := k |}.

(** Saving and restoring the registers around the handler. *)
Lemma exec_push l p m :
  exec (map PushReg l ++ p) m =
  exec p {| regs := regs m; stack := map (regs m) (rev l) ++ stack m; kern := kern m |}.
Proof.
  revert m. induction l as [|r l IH]; intros m; cbn [map rev app exec exec_instr]; [by destruct m|].
  cbn [mbind outcome_bind]. rewrite IH. cbn [regs stack kern].
  rewrite map_app, <- app_assoc. done.
Qed.

Lemma exec_pop f l p m s :
  NoDup l -> stack m = map f l ++ s ->
  exists rs', exec (map PopReg l ++ p) m = exec p {| regs := rs'; stack := s; kern := kern m |} /\
    forall r, rs' r = if decide (r ∈ l) then f r else regs m r.
Proof.
  intros Hl. revert m. induction Hl as [|r l Hr Hl IH]; intros m Hs; cbn [map app] in *.
  - exists (regs m). split; [destruct m; cbn in *; by subst|]. intros r. by rewrite decide_False by set_solver.
  - cbn [exec exec_instr]. rewrite Hs. cbn [mbind outcome_bind].
    destruct (IH {| regs := fun q => if decide (q = r) then f r else regs m q; stack := map f l ++ s; kern := kern m |})
      as (rs' & -> & Hrs); [done|].
    exists rs'. split; [done|]. intros q. rewrite Hrs. cbn [regs].
    destruct (decide (q = r)) as [->|Hne].
    + rewrite (decide_False (P := r ∈ l)), (decide_True (P := r ∈ r :: l)) by set_solver. done.
    + destruct (decide (q ∈ l)); [rewrite decide_True by set_solver|rewrite decide_False by set_solver]; done.
Qed.

(** The frame a stub builds when the stack holds the context on top of it. *)
Definition stub_frame (rs : reg -> Z) (vec err : Z) (c : context) : interrupt_frame_t :=
  Build_interrupt_frame_t (rs R15) (rs R14) (rs R13) (rs R12) (rs R11) (rs R10) (rs R9) (rs R8)
    (rs RBP) (rs RDI) (rs RSI) (rs RDX) (rs RCX) (rs RBX) (rs RAX) vec err
    (c_rip c) (c_cs c) (c_rflags c) (c_rsp c) (c_ss c).

Lemma saved_regs_all r : r ∈ rev saved_regs.
Proof. destruct r; cbn; set_solver. Qed.

(** The common part of every stub, for any list [l] of saved registers. *)
Definition stub_tail (vec : Z) (l : list reg) : list instr :=
  PushImm vec :: map PushReg l ++ CallHandler :: map PopReg (rev l) ++ [AddRsp16; Iretq].

Lemma stub_tail_run l f vec err c rs s k :
  NoDup (rev l) -> frame_of_stack (map rs (rev l) ++ vec :: err :: context_words c ++ s) = Some f ->
  let m := {| regs := rs; stack := err :: context_words c ++ s; kern := k |} in
  match generic_interrupt_handler_c f k with
  | Halted k' => exec (stub_tail vec l) m = Ok (StubHalted k')
  | Returned k' => exists rs', exec (stub_tail vec l) m = Ok (Resumed c {| regs := rs'; stack := s; kern := k' |}) /\
                     forall r, r ∈ rev l -> rs' r = rs r
  end.
Proof.
  intros Hl Hf m. subst m. unfold stub_tail. cbn [exec exec_instr mbind outcome_bind stack regs kern].
  rewrite exec_push. cbn [exec exec_instr mbind outcome_bind stack regs kern]. rewrite Hf.
  destruct (generic_interrupt_handler_c f k) as [k'|k']; [|done].
  cbn [mbind outcome_bind].
  edestruct (exec_pop rs (rev l)) as (rs' & -> & Hrs); [exact Hl|reflexivity|].
  exists rs'. split; [by destruct c|]. intros r Hr. by rewrite Hrs, decide_True.
Qed.

Lemma saved_regs_nodup : NoDup (rev saved_regs).
Proof. apply (bool_decide_unpack _). vm_compute. done. Qed.

Lemma stub_body vec err c rs s k :
  match generic_interrupt_handler_c (stub_frame rs vec err c) k with
  | Halted k' => exec (stub_tail vec saved_regs)
      {| regs := rs; stack := err :: context_words c ++ s; kern := k |} = Ok (StubHalted k')
  | Returned k' => exists rs', exec (stub_tail vec saved_regs)
      {| regs := rs; stack := err :: context_words c ++ s; kern := k |} =
                       Ok (Resumed c {| regs := rs'; stack := s; kern := k' |}) /\
                     forall r, rs' r = rs r
  end.
Proof.
  pose proof (stub_tail_run saved_regs (stub_frame rs vec err c) vec err c rs s k
    saved_regs_nodup eq_refl) as H.
  destruct (generic_interrupt_handler_c (stub_frame rs vec err c) k); [|exact H].
  destruct H as (rs' & H & Hr). exists rs'. split; [exact H|]. intros r. apply Hr, saved_regs_all.
Qed.

Lemma stub_no_error p rs s k :
  exec ([PushImm 0; PopReg RAX; PushImm 0] ++ p) {| regs := rs; stack := s; kern := k |} =
  exec p {| regs := fun r => if decide (r = RAX) then 0 else rs r; stack := 0 :: s; kern := k |}.
Proof. reflexivity. Qed.

Lemma stub_error p rs s k :
  exec ([PushImm 0] ++ p) {| regs := rs; stack := s; kern := k |} =
  exec p {| regs := rs; stack := 0 :: s; kern := k |}.
Proof. reflexivity. Qed.

Lemma isr_stub_tail vec has_error_code :
  isr_stub vec has_error_code =
    (if has_error_code then [PushImm 0] else [PushImm 0; PopReg RAX; PushImm 0]) ++ stub_tail vec saved_regs.
Proof. destruct has_error_code; reflexivity. Qed.

(** delivery of a vector without an error code. The handler sees the vector,
    the error code 0, the interrupted context and the interrupted registers except
    that [rax] is already 0. If it returns, execution resumes in the interrupted
    context with the stack as it was and every register restored except [rax],
    which is 0. *)
Theorem interrupt_no_error_code vec c rs s k :
  stub_has_error_code vec = false ->
  let seen := stub_frame (fun r => if decide (r = RAX) then 0 else rs r) vec 0 c in
  match generic_interrupt_handler_c seen k with
  | Halted k' => deliver vec None c rs s k = Ok (StubHalted k')
  | Returned k' =>
      exists rs', deliver vec None c rs s k = Ok (Resumed c {| regs := rs'; stack := s; kern := k' |}) /\
        rs' RAX = 0 /\ forall r, r <> RAX -> rs' r = rs r
  end.
Proof.
  intros Hv seen. unfold deliver. rewrite Hv, isr_stub_tail, stub_no_error.
  pose proof (stub_body vec 0 c (fun r => if decide (r = RAX) then 0 else rs r) s k) as Hb.
  fold seen in Hb. destruct (generic_interrupt_handler_c seen k); [|exact Hb].
  destruct Hb as (rs' & He & Hr). exists rs'. split_and!; [exact He|by rewrite Hr|].
  intros r Hne. by rewrite Hr, decide_False.
Qed.

(** delivery of a vector with an error code. The stub pushes its own zero on
    top of the processor's error code, so the handler sees the error code 0 and the
    context shifted by one word: the error code as [rip], the interrupted [rip] as
    [cs]. A handler that returns resumes in that shifted context. *)
Theorem interrupt_error_code_shifted vec e c rs s k :
  stub_has_error_code vec = true ->
  let shifted := {| c_rip := e; c_cs := c_rip c; c_rflags := c_cs c; c_rsp := c_rflags c; c_ss := c_rsp c |} in
  match generic_interrupt_handler_c (stub_frame rs vec 0 shifted) k with
  | Halted k' => deliver vec (Some e) c rs s k = Ok (StubHalted k')
  | Returned k' =>
      exists rs', deliver vec (Some e) c rs s k =
          Ok (Resumed shifted {| regs := rs'; stack := c_ss c :: s; kern := k' |}) /\
        forall r, rs' r = rs r
  end.
Proof.
  intros Hv shifted. unfold deliver. rewrite Hv, isr_stub_tail, stub_error.
  exact (stub_body vec 0 shifted rs (c_ss c :: s) k).
Qed.

End Stubs.

(** * The table is well formed *)

(** Every field fits its width; the processor's reserved bits are clear. *)
Definition entry_wf (e : idt_entry_t) : bool :=
  forallb (fun '(w, v) => (0 <=? v) && (v <? 2 ^ w)) (entry_fields e) &&
  (reserved0 e =? 0) && (zero e =? 0) && (reserved1 e =? 0).

Definition idt_wf (t : list idt_entry_t) : Prop :=
  length t = 256%nat /\ Forall (fun e => entry_wf e = true) t.

Definition gate_at (t : list idt_entry_t) (v : Z) : gate :=
  cpu_gate (entry_bytes (default absent_entry (t !! Z.to_nat v))).

(** The 16 bytes of a well-formed entry determine it. *)
Lemma entry_roundtrip e : entry_wf e = true -> entry_of_bytes (entry_bytes e) = e.
Proof.
  intros H. unfold entry_wf in H. destruct e. cbn in H. zbool.
  unfold entry_of_bytes, entry_bytes, entry_fields.
  cbn [offset_low selector ist reserved0 type zero dpl present offset_mid offset_high reserved1].
  bits_pack. rewrite !bits_whole. unfold wrap. f_equal; apply Z.mod_small; lia.
Qed.

(** The two kinds of entries [set_idt_entry] stores. *)
Definition handler_entry (addr pl : Z) : idt_entry_t :=
  {| offset_low := u16 (Z.land addr 0xFFFF); selector := KERNEL_CS; ist := 0; reserved0 := 0;
     type := 0xE; zero := 0; dpl := wrap 2 pl; present := 1;
     offset_mid := u16 (Z.land (Z.shiftr addr 16) 0xFFFF);
     offset_high := u32 (Z.shiftr addr 32); reserved1 := 0 |}.

Lemma handler_entry_wf addr pl : entry_wf (handler_entry addr pl) = true.
Proof.
  unfold entry_wf, handler_entry, entry_fields.
  cbn [offset_low selector ist reserved0 type zero dpl present offset_mid offset_high reserved1 forallb].
  unfold u16, u32.
  assert (Hw : forall w x, 0 <= w -> (0 <=? wrap w x) && (wrap w x <? 2 ^ w) = true).
  { intros w x Hw. unfold wrap. pose proof (Z.mod_pos_bound x (2 ^ w) ltac:(lia)).
    apply andb_true_iff. split; [apply Z.leb_le|apply Z.ltb_lt]; lia. }
  rewrite !Hw by lia. reflexivity.
Qed.

Lemma handler_entry_gate addr pl :
  in_u64 addr -> cpu_gate (entry_bytes (handler_entry addr pl)) = Gate addr 0x08 0 0xE (wrap 2 pl) true.
Proof.
  intros Ha. unfold cpu_gate, entry_bytes, entry_fields, handler_entry.
  cbn [offset_low selector ist reserved0 type zero dpl present offset_mid offset_high reserved1].
  bits_pack. rewrite !bits_whole. unfold u16, u32.
  assert (Hw : forall w x, 0 <= w -> wrap w (wrap w x) = wrap w x)
    by (intros; unfold wrap; apply Z.mod_mod; lia).
  rewrite !Hw by lia. f_equal. apply address_parts. exact Ha.
Qed.

(** The gate meant for a handler: none for NULL. *)
Definition gate_for (handler pl : Z) : gate :=
  if handler =? 0 then Gate 0 0 0 0 0 false else Gate handler 0x08 0 0xE (wrap 2 pl) true.

Lemma set_idt_entry_spec t vec handler pl :
  idt_wf t -> 0 <= vec < 256 -> in_u64 handler ->
  exists t', set_idt_entry t vec handler pl = Ok t' /\ idt_wf t' /\
    gate_at t' vec = gate_for handler pl /\
    forall v, 0 <= v < 256 -> v <> vec -> gate_at t' v = gate_at t v.
Proof.
  intros [Hl Hwf] Hv Hh. unfold set_idt_entry, gate_for.
  replace (u8 vec) with vec by (symmetry; apply Z.mod_small; lia).
  set (e := if handler =? 0 then absent_entry else handler_entry handler pl).
  assert (He : entry_wf e = true).
  { subst e. destruct (handler =? 0); [reflexivity|apply handler_entry_wf]. }
  destruct (arr_set_gate entry_bytes absent_entry e t vec _ Hl Hv eq_refl) as (t' & Hs & Hl' & Hg & Hk).
  exists t'. split_and!.
  - rewrite <- Hs. subst e. destruct (handler =? 0); reflexivity.
  - split; [done|]. unfold arr_set in Hs. rewrite Hl in Hs. destruct (_ && _); [|done].
    injection Hs as <-. apply Forall_insert; done.
  - unfold gate_at. rewrite Hg. subst e. destruct (handler =? 0); [reflexivity|].
    apply handler_entry_gate. done.
  - exact Hk.
Qed.

Lemma isr_stubs_get stub i :
  0 <= i < 256 ->
  arr_get (isr_stubs stub) i = Ok (if (i <? 32) || (i =? SPURIOUS_VECTOR_NUM) then stub i else 0).
Proof.
  intros Hi. unfold arr_get, isr_stubs. rewrite (proj2 (Z.ltb_ge i 0)) by lia.
  rewrite list_lookup_fmap, lookup_seq_lt by lia. cbn [fmap option_fmap option_map Nat.add].
  rewrite Z2Nat.id by lia. reflexivity.
Qed.

(** C14: [init_idt] succeeds from any well-formed table. Afterwards every entry is
    well formed; the processor finds a present ring-0 interrupt gate to its own stub
    at each exception and at the spurious vector, and no present gate anywhere else;
    IDTR covers the table; and the APIC has been enabled with the spurious vector by
    exactly one register write. *)
Theorem init_idt_correct stub addr k :
  idt_wf (idt k) -> in_u64 addr -> (forall v, 0 < stub v < 2 ^ 64) ->
  exists k', init_idt stub addr k = Ok k' /\ idt_wf (idt k') /\
    (forall v, 0 <= v < 256 ->
       gate_at (idt k') v = if (v <? 32) || (v =? SPURIOUS_VECTOR_NUM)
                            then Gate (stub v) 0x08 0 0xE 0 true else Gate 0 0 0 0 0 false) /\
    idtr k' = Some {| limit := 16 * 256 - 1; base := addr |} /\
    mmio k' = mmio k ++ [(local_apic_base k + APIC_REG_SPURIOUS, 0x1FF)].
Proof.
  intros Hwf Ha Hs. unfold init_idt.
  destruct (for_range_spec idt_wf gate_at
    (fun v => gate_for (if (v <? 32) || (v =? SPURIOUS_VECTOR_NUM) then stub v else 0) 0) 0 256
    (fill_entry (isr_stubs stub))) with (n := Z.to_nat IDT_SIZE) (start := 0) (s := idt k)
    as (t & -> & Ht & Hg); [|done|lia|done|].
  { intros t i Ht Hi. unfold fill_entry.
    change (Z.of_nat (length (isr_stubs stub))) with 256. rewrite (proj2 (Z.ltb_lt i 256)) by lia.
    rewrite isr_stubs_get by done. cbn [mbind outcome_bind].
    destruct ((i <? 32) || (i =? SPURIOUS_VECTOR_NUM)) eqn:E.
    - pose proof (Hs i). rewrite (proj2 (Z.eqb_neq (stub i) 0)) by lia.
      apply set_idt_entry_spec; [done|lia|unfold in_u64; lia].
    - apply set_idt_entry_spec; [done|lia|unfold in_u64; lia]. }
  cbn [mbind outcome_bind]. eexists. split_and!; [reflexivity|exact Ht| | |done].
  - intros v Hv. cbn [idt lidt apic_write with_idt]. rewrite Hg by done.
    unfold IDT_SIZE. change (Z.of_nat (Z.to_nat 256)) with 256.
    rewrite (proj2 (Z.leb_le 0 v)), (proj2 (Z.ltb_lt v (0 + 256))) by lia. cbn [andb].
    destruct (_ || _); [|done]. unfold gate_for. pose proof (Hs v).
    rewrite (proj2 (Z.eqb_neq (stub v) 0)) by lia. done.
  - cbn [idtr lidt]. destruct Hwf as [-> _]. rewrite u64_small by done. done.
Qed.

(** The state before: a zeroed table, no device traffic. *)
Definition boot_kernel : kernel :=
  {| idt := replicate 256 absent_entry; idtr := None; global_keep_running := true;
     processors := []; active_processor_count := 0; local_apic_base := APIC_DEFAULT_BASE;
     mmio := []; console := [] |}.

Lemma boot_idt_wf : idt_wf (idt boot_kernel).
Proof. split; [reflexivity|]. apply Forall_replicate. reflexivity. Qed.

Lemma init_idt_correct_witness :
  exists k', init_idt (fun v => 0xFFFFFFFF80100000 + 64 * (v mod 256)) 0x5000 boot_kernel = Ok k' /\ idt_wf (idt k') /\
    (forall v, 0 <= v < 256 ->
       gate_at (idt k') v = if (v <? 32) || (v =? SPURIOUS_VECTOR_NUM)
                            then Gate (0xFFFFFFFF80100000 + 64 * (v mod 256)) 0x08 0 0xE 0 true else Gate 0 0 0 0 0 false) /\
    idtr k' = Some {| limit := 4095; base := 0x5000 |} /\
    mmio k' = [(0xFEE000F0, 0x1FF)].
Proof.
  apply (init_idt_correct (fun v => 0xFFFFFFFF80100000 + 64 * (v mod 256)) 0x5000 boot_kernel).
  - exact boot_idt_wf.
  - split; lia.
  - intros v. pose proof (Z.mod_pos_bound v 256 ltac:(lia)). lia.
Defined.

(** Witnesses of the two theorems on stubs: a timer interrupt and a page fault. *)
Definition user_context : context :=
  {| c_rip := 0x401000; c_cs := 0x08; c_rflags := 0x202; c_rsp := 0x7000; c_ss := 0x10 |}.

Lemma interrupt_no_error_code_witness :
  exists rs', deliver (fun r => r) 255 None user_context (fun _ => 7) [1; 2] boot_kernel =
      Ok (Resumed user_context {| regs := rs'; stack := [1; 2];
                                  kern := kprintf boot_kernel (SpuriousInterrupt 255) |}) /\
    rs' RAX = 0 /\ forall r, r <> RAX -> rs' r = 7.
Proof.
  exact (interrupt_no_error_code (fun r => r) 255 user_context (fun _ => 7) [1; 2] boot_kernel eq_refl).
Defined.

Lemma interrupt_error_code_shifted_witness :
  exists rs' k', deliver (fun r => r) 14 (Some 6) user_context (fun _ => 7) [] boot_kernel =
      Ok (Resumed {| c_rip := 6; c_cs := 0x401000; c_rflags := 0x08; c_rsp := 0x202; c_ss := 0x7000 |}
            {| regs := rs'; stack := [0x10]; kern := k' |}) /\
    forall r, rs' r = 7.
Proof.
  destruct (interrupt_error_code_shifted (fun r => r) 14 6 user_context (fun _ => 7) [] boot_kernel eq_refl)
    as (rs' & H & Hr).
  exists rs'. eexists. split; [exact H|exact Hr].
Defined.

(** * The handler *)

(** Number of end-of-interrupt writes among device writes. *)
Definition eoi_count (k : kernel) : nat :=
  length (filter (fun w => w.1 = local_apic_base k + APIC_REG_EOI) (mmio k)).

(** Vectors after which the handler stops the machine. *)
Definition fatal_vector (vec : Z) : bool := (vec <? 32) && negb (vec =? 8) && negb (vec =? 14).

(** the handler acknowledges exactly once every vector it returns from, except
    the spurious one, which it must not acknowledge; it stops the machine, without
    acknowledging, exactly on the exceptions other than 8 and 14; it changes the run
    flag only then and never the table or the processors; and it reports every call. *)
Theorem interrupt_handler_correct frame k :
  let vec := vector_number frame in
  match generic_interrupt_handler_c frame k with
  | Halted k' => fatal_vector vec = true /\ eoi_count k' = eoi_count k /\ global_keep_running k' = false /\
                 idt k' = idt k /\ processors k' = processors k /\ (length (console k) < length (console k'))%nat
  | Returned k' => fatal_vector vec = false /\
                   eoi_count k' = ((if (vec =? SPURIOUS_VECTOR_NUM)%Z then 0 else 1) + eoi_count k)%nat /\
                   global_keep_running k' = global_keep_running k /\
                   idt k' = idt k /\ processors k' = processors k /\ (length (console k) < length (console k'))%nat
  end.
Proof.
  intros vec. unfold generic_interrupt_handler_c, fatal_vector. fold vec.
  unfold eoi_count, apic_send_eoi, SPURIOUS_VECTOR_NUM.
  assert (Hf : forall b w, length (filter (fun x => x.1 = b + APIC_REG_EOI) (w ++ [(b + APIC_REG_EOI, u32 0)]))
    = S (length (filter (fun x : Z * Z => x.1 = b + APIC_REG_EOI) w))).
  { intros b w. rewrite filter_app, length_app. rewrite filter_cons_True by done. cbn. lia. }
  destruct (vec <? 32) eqn:E1; [destruct (vec =? 8) eqn:E2; [|destruct (vec =? 14) eqn:E3]|
    destruct (vec =? 0xFF) eqn:E4]; zbool; cbn [negb andb];
    cbn [apic_write kprintf stop_all mmio idt processors console global_keep_running local_apic_base];
    rewrite ?Hf, ?length_app; cbn [length]; split_and!; try done; try lia;
    destruct (vec =? 255) eqn:E5; zbool; lia.
Qed.

(** * Waiting *)

Lemma udelay_loop_S fuel i bound pauses :
  udelay_loop (S fuel) i bound pauses =
  if i <? bound then udelay_loop fuel (u64 (i + 1)) bound (pauses + 1) else Ok pauses.
Proof. reflexivity. Qed.

Lemma udelay_loop_run n i bound pauses :
  0 <= i -> bound < 2 ^ 64 -> bound - i = Z.of_nat n -> udelay_loop (S n) i bound pauses = Ok (pauses + Z.of_nat n).
Proof.
  revert i pauses. induction n as [|n IH]; intros i pauses Hi Hb Hn; rewrite udelay_loop_S.
  - rewrite (proj2 (Z.ltb_ge i bound)) by lia. f_equal. lia.
  - rewrite (proj2 (Z.ltb_lt i bound)) by lia. rewrite u64_small by (unfold in_u64; lia).
    rewrite IH by lia. f_equal. lia.
Qed.

(** the delay loop terminates for every argument, after exactly a hundred
    [pause] instructions per microsecond, taken modulo 2^64. *)
Theorem platform_udelay_terminates microseconds :
  platform_udelay (S (Z.to_nat (u64 (microseconds * 100)))) microseconds = Ok (u64 (microseconds * 100)).
Proof.
  pose proof (u64_range (microseconds * 100)) as [H0 H1]. unfold platform_udelay.
  rewrite udelay_loop_run by lia. f_equal. lia.
Qed.

(** A delay of about 5850 years returns at once: the product wraps. *)
Lemma platform_udelay_wraps : u64 (184467440737095517 * 100) = 84.
Proof. reflexivity. Qed.

(** The wait ends with the first answer whose pending bit is clear. *)
Lemma apic_wait_ipi_idle_spec busy x rest :
  Forall (fun y => Z.testbit y 12 = true) busy -> Z.testbit x 12 = false ->
  apic_wait_ipi_idle (busy ++ x :: rest) = Ok rest.
Proof.
  assert (Hb : forall y, (Z.land y APIC_DELIVERY_STATUS_PENDING =? 0) = negb (Z.testbit y 12)).
  { intros y. change APIC_DELIVERY_STATUS_PENDING with (2 ^ 12). destruct (Z.testbit y 12) eqn:E; cbn [negb].
    - apply Z.eqb_neq. intros H0. pose proof (Z.land_spec y (2 ^ 12) 12) as Hs.
      rewrite H0, E, Z.pow2_bits_true in Hs by lia. cbn in Hs. done.
    - apply Z.eqb_eq, Z.bits_inj'. intros i Hi. rewrite Z.land_spec, Z.pow2_bits_eqb, Z.bits_0 by lia.
      destruct (12 =? i) eqn:Ei; zbool; [subst; by rewrite E|apply andb_false_r]. }
  intros H Hx. induction H as [|y busy Hy H IH]; cbn [app apic_wait_ipi_idle]; rewrite Hb.
  - rewrite Hx. done.
  - rewrite Hy. exact IH.
Qed.

(** * The search of [ap_entry_point] *)

Lemma find_processor_spec procs id n i :
  0 <= i -> i + Z.of_nat n <= Z.of_nat (length procs) -> Z.of_nat (length procs) < 0xFFFFFFFF ->
  exists r, find_processor procs id n i = Ok r /\
    ((r = 0xFFFFFFFF /\ forall j p, i <= j < i + Z.of_nat n -> procs !! Z.to_nat j = Some p -> apic_id p <> id) \/
     (i <= r < i + Z.of_nat n /\ (exists p, procs !! Z.to_nat r = Some p /\ apic_id p = id) /\
      forall j p, i <= j < r -> procs !! Z.to_nat j = Some p -> apic_id p <> id)).
Proof.
  revert i. induction n as [|n IH]; intros i Hi Hn Hl; cbn [find_processor].
  - exists 0xFFFFFFFF. split; [done|]. left. split; [done|]. intros; lia.
  - destruct (arr_get_total procs i) as [p Hp]; [lia|]. rewrite Hp. cbn [mbind outcome_bind].
    apply arr_get_Ok in Hp as [_ Hp]. destruct (apic_id p =? id) eqn:E; zbool.
    + exists i. split; [done|]. right. split_and!; [lia|lia|by exists p|]. intros; lia.
    + destruct (IH (i + 1)) as (r & -> & Hr); [lia..|]. exists r. split; [done|].
      assert (Hfirst : forall j q, i = j -> procs !! Z.to_nat j = Some q -> apic_id q <> id) by (intros j q <- ?; congruence).
      destruct Hr as [[-> Hr]|(Hr1 & Hr2 & Hr3)].
      * left. split; [done|]. intros j q Hj Hq. destruct (decide (i = j)); [eauto|]. apply (Hr j q); [lia|done].
      * right. split_and!; [lia|lia|done|]. intros j q Hj Hq.
        destruct (decide (i = j)); [eauto|]. apply (Hr3 j q); [lia|done].
Qed.

(** a started processor reads the id in the top byte of its APIC id register;
    it enters [cpu_main] with the first registered processor of that id, and halts,
    with a message, when there is none. The search never leaves the array. *)
Theorem ap_entry_point_correct id_register k :
  0 <= id_register < 2 ^ 32 -> length (processors k) = Z.to_nat MAX_PROCESSORS ->
  0 <= active_processor_count k <= MAX_PROCESSORS ->
  let known i := exists p, processors k !! Z.to_nat i = Some p /\ apic_id p = id_register / 2 ^ 24 in
  match ap_entry_point id_register k with
  | Ok (CpuMain i) => 0 <= i < active_processor_count k /\ known i /\ forall j, 0 <= j < i -> ~ known j
  | Ok (ApHalted k') => (forall j, 0 <= j < active_processor_count k -> ~ known j) /\
                        console k' = console k ++ [NoProcessorEntry (id_register / 2 ^ 24)]
  | _ => False
  end.
Proof.
  intros Hid Hl Hc known. unfold ap_entry_point. rewrite Z.shiftr_div_pow2 by lia.
  unfold MAX_PROCESSORS in *.
  destruct (find_processor_spec (processors k) (id_register / 2 ^ 24) (Z.to_nat (active_processor_count k)) 0)
    as (r & -> & Hr); [lia..|]. cbn [mbind outcome_bind].
  rewrite Z2Nat.id in Hr by lia.
  destruct Hr as [[-> Hr]|(Hr1 & Hr2 & Hr3)].
  - cbn. split; [|done]. intros j Hj (p & Hp & Hq). exact (Hr j p ltac:(lia) Hp Hq).
  - rewrite (proj2 (Z.eqb_neq r 0xFFFFFFFF)) by lia. split_and!; [lia|lia|exact Hr2|].
    intros j Hj (p & Hp & Hq). exact (Hr3 j p ltac:(lia) Hp Hq).
Qed.

Definition two_processors : kernel :=
  {| idt := []; idtr := None; global_keep_running := true;
     processors := Build_processor_info_t 0 0 true true :: Build_processor_info_t 1 2 false false ::
                   replicate 6 (Build_processor_info_t 0 0 false false);
     active_processor_count := 2; local_apic_base := APIC_DEFAULT_BASE; mmio := []; console := [] |}.

Lemma ap_entry_point_correct_witness :
  ap_entry_point 0x02000000 two_processors = Ok (CpuMain 1) /\
  (0 <= 1 < 2 /\ (exists p, processors two_processors !! 1%nat = Some p /\ apic_id p = 2) /\
   forall j, 0 <= j < 1 -> ~ exists p, processors two_processors !! Z.to_nat j = Some p /\ apic_id p = 2).
Proof.
  split; [reflexivity|].
  exact (ap_entry_point_correct 0x02000000 two_processors ltac:(lia) eq_refl ltac:(cbn; unfold MAX_PROCESSORS; lia)).
Defined.

End Intr.
