(* ===== verification/Pic8259.v ===== *)
(** * The interrupt controllers as the drivers see them

    Two 8259A chips behind four I/O ports. [chip] is the part of the data sheet that
    the drivers rely on: the initialisation sequence, the mask register, the vector
    offset and the in-service register with its non-specific end of interrupt. The
    ports themselves ([outb], [inb]) are not in the sources: [PicPorts] is the
    interface the drivers of [Pic] and [Irq] are proved against, [chips_ports] an
    instance of it. *)
From Stdlib Require Import ZArith Lia.
From stdpp Require Import strings numbers gmap base.
From stdpp Require Import list.
From S2P Require Import Prelude.

Open Scope Z_scope.

Definition PIC1_COMMAND : Z := 0x20.
Definition PIC1_DATA : Z := 0x21.
Definition PIC2_COMMAND : Z := 0xA0.
Definition PIC2_DATA : Z := 0xA1.
Definition PIC_EOI : Z := 0x20.

(** Which initialisation word the chip expects next. *)
Inductive stage :=
| Ready
| WantICW2 (single icw4 : bool)
| WantICW3 (icw4 : bool)
| WantICW4.

Record chip := {
  st : stage;
  imr : Z;        (* interrupt mask register *)
  isr : Z;        (* in-service register *)
  offset : Z;     (* vector of line 0 *)
  cascade : Z     (* ICW3 *)
}.

(** Lines in service are acknowledged lowest number first. *)
Definition eoi (c : chip) : chip :=
  {| st := st c; imr := imr c; isr := Z.land (isr c) (isr c - 1); offset := offset c; cascade := cascade c |}.

(** A byte written to the command port. *)
Definition chip_command (c : chip) (v : Z) : chip :=
  if Z.testbit v 4 then
    {| st := WantICW2 (Z.testbit v 1) (Z.testbit v 0); imr := 0; isr := 0;
       offset := offset c; cascade := cascade c |}
  else if v =? 0x20 then eoi c
  else c.

Definition after_icw3 (icw4 : bool) : stage := if icw4 then WantICW4 else Ready.

(** A byte written to the data port. *)
Definition chip_data (c : chip) (v : Z) : chip :=
  match st c with
  | Ready => {| st := Ready; imr := v; isr := isr c; offset := offset c; cascade := cascade c |}
  | WantICW2 single icw4 =>
      {| st := if single then after_icw3 icw4 else WantICW3 icw4; imr := imr c; isr := isr c;
         offset := Z.land v 0xF8; cascade := cascade c |}
  | WantICW3 icw4 =>
      {| st := after_icw3 icw4; imr := imr c; isr := isr c; offset := offset c; cascade := v |}
  | WantICW4 => {| st := Ready; imr := imr c; isr := isr c; offset := offset c; cascade := cascade c |}
  end.

(** The ports: what a write does to each chip, and what a read returns. *)
Class PicPorts (D : Type) := {
  outb : D -> Z -> Z -> D;
  inb : D -> Z -> Z * D;
  master : D -> chip;
  slave : D -> chip;
  master_outb : forall d port v, 0 <= v < 256 ->
    master (outb d port v) =
      if port =? PIC1_COMMAND then chip_command (master d) v
      else if port =? PIC1_DATA then chip_data (master d) v else master d;
  slave_outb : forall d port v, 0 <= v < 256 ->
    slave (outb d port v) =
      if port =? PIC2_COMMAND then chip_command (slave d) v
      else if port =? PIC2_DATA then chip_data (slave d) v else slave d;
  inb_pic1 : forall d, (inb d PIC1_DATA).1 = imr (master d);
  inb_pic2 : forall d, (inb d PIC2_DATA).1 = imr (slave d);
  inb_quiet : forall d port, port = PIC1_DATA \/ port = PIC2_DATA ->
    master (inb d port).2 = master d /\ slave (inb d port).2 = slave d
}.

(** The pair of chips with nothing else on the bus. *)
Record chips := { chip1 : chip; chip2 : chip }.

#[export] Program Instance chips_ports : PicPorts chips := {
  outb d port v :=
    {| chip1 := if port =? PIC1_COMMAND then chip_command (chip1 d) v
                else if port =? PIC1_DATA then chip_data (chip1 d) v else chip1 d;
       chip2 := if port =? PIC2_COMMAND then chip_command (chip2 d) v
                else if port =? PIC2_DATA then chip_data (chip2 d) v else chip2 d |};
  inb d port := (if port =? PIC1_DATA then imr (chip1 d) else if port =? PIC2_DATA then imr (chip2 d) else 0, d);
  master := chip1;
  slave := chip2
}.
Solve All Obligations with naive_solver.

(** Both chips are programmed and their masks are bytes. *)
Definition pics_ready {D} `{PicPorts D} (d : D) : Prop :=
  st (master d) = Ready /\ st (slave d) = Ready /\
  0 <= imr (master d) < 256 /\ 0 <= imr (slave d) < 256.

(** Line [irq] of the sixteen is masked. *)
Definition masked {D} `{PicPorts D} (d : D) (irq : Z) : bool :=
  if irq <? 8 then Z.testbit (imr (master d)) irq else Z.testbit (imr (slave d)) (irq - 8).

(** The vector that line [irq] raises. *)
Definition vector_of {D} `{PicPorts D} (d : D) (irq : Z) : Z :=
  if irq <? 8 then offset (master d) + irq else offset (slave d) + (irq - 8).

Definition ready_chip (mask : Z) : chip := {| st := Ready; imr := mask; isr := 0; offset := 0; cascade := 0 |}.
