(* ===== verification/Pic.v ===== *)
(** * The interrupt controller driver (src/arch/x86_64/pic.c)

    Proved against the ports of [Pic8259]; [io_wait] writes to port 0x80. *)
From Stdlib Require Import ZArith Lia.
From stdpp Require Import strings numbers gmap base.
From stdpp Require Import list.
From S2P Require Import Prelude Pic8259.

Open Scope Z_scope.

Module Pic.

Definition ICW1_INIT : Z := 0x10.
Definition ICW1_ICW4 : Z := 0x01.
Definition ICW4_8086 : Z := 0x01.
Definition PIC_MASTER_OFFSET : Z := 0x20.
Definition PIC_SLAVE_OFFSET : Z := 0x28.

Section Driver.
Context {D : Type} `{PicPorts D}.

Definition io_wait (d : D) : D := outb d 0x80 0.

Definition pic_send_eoi (irq : Z) (d : D) : D :=
  let d := if irq >=? 8 then outb d PIC2_COMMAND PIC_EOI else d in
  outb d PIC1_COMMAND PIC_EOI.

Definition pic_remap (offset1 offset2 : Z) (d : D) : D :=
  let '(a1, d) := inb d PIC1_DATA in
  let '(a2, d) := inb d PIC2_DATA in
  let d := io_wait (outb d PIC1_COMMAND (Z.lor ICW1_INIT ICW1_ICW4)) in
  let d := io_wait (outb d PIC2_COMMAND (Z.lor ICW1_INIT ICW1_ICW4)) in
  let d := io_wait (outb d PIC1_DATA offset1) in
  let d := io_wait (outb d PIC2_DATA offset2) in
  let d := io_wait (outb d PIC1_DATA 4) in
  let d := io_wait (outb d PIC2_DATA 2) in
  let d := io_wait (outb d PIC1_DATA ICW4_8086) in
  let d := io_wait (outb d PIC2_DATA ICW4_8086) in
  let d := outb d PIC1_DATA a1 in
  outb d PIC2_DATA a2.

(** [1 << n] on [int]. *)
Definition int_bit (n : Z) : outcome Z :=
  if n <? 31 then Ok (Z.shiftl 1 n) else Undef "shift".

Definition pic_set_mask (irq : Z) (d : D) : outcome D :=
  let '(port, irq) := if irq <? 8 then (PIC1_DATA, irq) else (PIC2_DATA, irq - 8) in
  let '(a, d) := inb d port in
  b ← int_bit irq;
  let value := u8 (Z.lor a b) in
  Ok (outb d port value).

Definition pic_clear_mask (irq : Z) (d : D) : outcome D :=
  let '(port, irq) := if irq <? 8 then (PIC1_DATA, irq) else (PIC2_DATA, irq - 8) in
  let '(a, d) := inb d port in
  b ← int_bit irq;
  let value := u8 (Z.land a (Z.lnot b)) in
  Ok (outb d port value).

Definition pic_init (d : D) : outcome D :=
  let d := pic_remap PIC_MASTER_OFFSET PIC_SLAVE_OFFSET d in
  let d := outb d PIC1_DATA 0xFF in
  let d := outb d PIC2_DATA 0xFF in
  d ← pic_clear_mask 0 d;
  pic_clear_mask 1 d.

Definition pic_disable (d : D) : D :=
  let d := outb d PIC1_DATA 0xFF in
  outb d PIC2_DATA 0xFF.

(** * Lemmas *)

Lemma u8_bits x i : 0 <= i < 8 -> Z.testbit (u8 x) i = Z.testbit x i.
Proof. intros. unfold u8, wrap. apply Z.mod_pow2_bits_low. lia. Qed.

Lemma u8_range x : 0 <= u8 x < 256.
Proof. unfold u8, wrap. apply Z.mod_pos_bound. lia. Qed.

Lemma set_bit8 m k i :
  0 <= k -> 0 <= i < 8 -> Z.testbit (u8 (Z.lor m (Z.shiftl 1 k))) i = Z.testbit m i || (i =? k).
Proof.
  intros Hk Hi. rewrite u8_bits, Z.lor_spec, Z.shiftl_1_l, Z.pow2_bits_eqb, (Z.eqb_sym i) by lia. done.
Qed.

Lemma clear_bit8 m k i :
  0 <= k -> 0 <= i < 8 -> Z.testbit (u8 (Z.land m (Z.lnot (Z.shiftl 1 k)))) i = Z.testbit m i && negb (i =? k).
Proof.
  intros Hk Hi. rewrite u8_bits, Z.land_spec, Z.lnot_spec, Z.shiftl_1_l, Z.pow2_bits_eqb, (Z.eqb_sym i) by lia. done.
Qed.

(** The masks after a byte is written to one of the data ports. *)
Lemma outb_mask1 d v :
  pics_ready d -> 0 <= v < 256 ->
  pics_ready (outb d PIC1_DATA v) /\ offset (master (outb d PIC1_DATA v)) = offset (master d) /\
  slave (outb d PIC1_DATA v) = slave d /\ imr (master (outb d PIC1_DATA v)) = v.
Proof.
  intros (Hm & Hs & Hb1 & Hb2) Hv. unfold pics_ready. rewrite master_outb, slave_outb by done.
  unfold chip_data. cbn. rewrite Hm. cbn. done.
Qed.

Lemma outb_mask2 d v :
  pics_ready d -> 0 <= v < 256 ->
  pics_ready (outb d PIC2_DATA v) /\ offset (slave (outb d PIC2_DATA v)) = offset (slave d) /\
  master (outb d PIC2_DATA v) = master d /\ imr (slave (outb d PIC2_DATA v)) = v.
Proof.
  intros (Hm & Hs & Hb1 & Hb2) Hv. unfold pics_ready. rewrite master_outb, slave_outb by done.
  unfold chip_data. cbn. rewrite Hs. cbn. done.
Qed.

Lemma inb_ready d port :
  port = PIC1_DATA \/ port = PIC2_DATA -> pics_ready d -> pics_ready (inb d port).2.
Proof. intros Hp. unfold pics_ready. destruct (inb_quiet d port Hp) as [-> ->]. done. Qed.

(** A read-modify-write of the mask register that holds line [irq]. *)
Definition mask_update (f : Z -> Z -> Z) (irq : Z) (d : D) : outcome D :=
  let '(port, irq) := if irq <? 8 then (PIC1_DATA, irq) else (PIC2_DATA, irq - 8) in
  let '(a, d) := inb d port in
  b ← int_bit irq;
  let value := u8 (f a b) in
  Ok (outb d port value).

Lemma mask_update_spec f g irq d :
  (forall m k i, 0 <= k -> 0 <= i < 8 -> Z.testbit (u8 (f m (Z.shiftl 1 k))) i = g (Z.testbit m i) (i =? k)) ->
  (forall b, g b false = b) ->
  pics_ready d -> 0 <= irq < 39 ->
  exists d', mask_update f irq d = Ok d' /\ pics_ready d' /\
    (forall j, 0 <= j < 16 -> masked d' j = g (masked d j) (j =? irq)) /\
    (forall j, 0 <= j < 16 -> vector_of d' j = vector_of d j).
Proof.
  intros Hf Hg Hr Hirq. unfold mask_update, int_bit. destruct (irq <? 8) eqn:E; zbool.
  - pose proof (inb_pic1 d) as Ha. pose proof (inb_quiet d PIC1_DATA (or_introl eq_refl)) as [Hm Hs].
    pose proof (inb_ready d PIC1_DATA (or_introl eq_refl) Hr) as Hr'.
    destruct (inb d PIC1_DATA) as [a d1]. cbn [fst snd] in *. subst a.
    rewrite (proj2 (Z.ltb_lt irq 31)) by lia. cbn [mbind outcome_bind].
    destruct (outb_mask1 d1 (u8 (f (imr (master d)) (Z.shiftl 1 irq))) Hr' (u8_range _)) as (R1 & R2 & R3 & R4).
    eexists. split_and!; [done|done| |]; intros j Hj; unfold masked, vector_of; rewrite ?R2, ?R3, ?R4, ?Hm, ?Hs.
    + zcase (j <? 8); [apply Hf; lia|]. rewrite (proj2 (Z.eqb_neq j irq)), Hg by lia. done.
    + done.
  - pose proof (inb_pic2 d) as Ha. pose proof (inb_quiet d PIC2_DATA (or_intror eq_refl)) as [Hm Hs].
    pose proof (inb_ready d PIC2_DATA (or_intror eq_refl) Hr) as Hr'.
    destruct (inb d PIC2_DATA) as [a d1]. cbn [fst snd] in *. subst a.
    rewrite (proj2 (Z.ltb_lt (irq - 8) 31)) by lia. cbn [mbind outcome_bind].
    destruct (outb_mask2 d1 (u8 (f (imr (slave d)) (Z.shiftl 1 (irq - 8)))) Hr' (u8_range _)) as (R1 & R2 & R3 & R4).
    eexists. split_and!; [done|done| |]; intros j Hj; unfold masked, vector_of; rewrite ?R2, ?R3, ?R4, ?Hm, ?Hs.
    + zcase (j <? 8); [by rewrite (proj2 (Z.eqb_neq j irq)), Hg by lia|].
      rewrite Hf by lia. f_equal. zcase (j - 8 =? irq - 8); zcase (j =? irq).
    + done.
Qed.

(** On programmed controllers [pic_set_mask(irq)] masks exactly line [irq] of
    the sixteen and [pic_clear_mask(irq)] unmasks exactly that line; vectors do not
    move. Lines 16 to 38 do not exist and the calls change no mask. *)
Lemma pic_mask_spec irq d :
  pics_ready d -> 0 <= irq < 39 ->
  (exists d', pic_set_mask irq d = Ok d' /\ pics_ready d' /\
     forall j, 0 <= j < 16 -> masked d' j = masked d j || (j =? irq) /\ vector_of d' j = vector_of d j) /\
  (exists d', pic_clear_mask irq d = Ok d' /\ pics_ready d' /\
     forall j, 0 <= j < 16 -> masked d' j = masked d j && negb (j =? irq) /\ vector_of d' j = vector_of d j).
Proof.
  intros Hr Hirq. split.
  - destruct (mask_update_spec Z.lor orb irq d set_bit8 orb_false_r Hr Hirq) as (d' & E & ? & ? & ?).
    exists d'. split; [exact E|]. split; [done|]. intros; split; auto.
  - destruct (mask_update_spec (fun a b => Z.land a (Z.lnot b)) (fun x y => x && negb y) irq d
      clear_bit8 andb_true_r Hr Hirq) as (d' & E & ? & ? & ?).
    exists d'. split; [exact E|]. split; [done|]. intros; split; auto.
Qed.

(** Numbers from 39 on shift an [int] out of its range. *)
Lemma pic_mask_undefined irq d : 39 <= irq -> is_ok (pic_set_mask irq d) = false.
Proof.
  intros Hi. unfold pic_set_mask, int_bit. rewrite (proj2 (Z.ltb_ge irq 8)) by lia.
  destruct (inb d PIC2_DATA). rewrite (proj2 (Z.ltb_ge (irq - 8) 31)) by lia. done.
Qed.

(** A sequence of writes, as each chip sees it. *)
Lemma io_wait_master d : master (io_wait d) = master d.
Proof. unfold io_wait. rewrite master_outb by lia. done. Qed.

Lemma io_wait_slave d : slave (io_wait d) = slave d.
Proof. unfold io_wait. rewrite slave_outb by lia. done. Qed.

(** Reprogramming. From programmed controllers [pic_remap] leaves both
    programmed, with the vectors of the sixteen lines at the two offsets (which the
    chips round down to multiples of eight), the masks exactly as before and
    nothing in service. *)
Lemma pic_remap_spec offset1 offset2 d :
  pics_ready d -> 0 <= offset1 < 256 -> 0 <= offset2 < 256 ->
  let d' := pic_remap offset1 offset2 d in
  pics_ready d' /\ (forall j, 0 <= j < 16 -> masked d' j = masked d j) /\
  (forall j, 0 <= j < 16 ->
     vector_of d' j = if j <? 8 then Z.land offset1 0xF8 + j else Z.land offset2 0xF8 + (j - 8)) /\
  isr (master d') = 0 /\ isr (slave d') = 0.
Proof.
  intros (Hm & Hs & B1 & B2) H1 H2. unfold pic_remap.
  pose proof (inb_pic1 d) as Ha. pose proof (inb_quiet d PIC1_DATA (or_introl eq_refl)) as [Qm Qs].
  destruct (inb d PIC1_DATA) as [a1 d1]. cbn [fst snd] in *.
  pose proof (inb_pic2 d1) as Hb. pose proof (inb_quiet d1 PIC2_DATA (or_intror eq_refl)) as [Qm' Qs'].
  destruct (inb d1 PIC2_DATA) as [a2 d2]. cbn [fst snd] in *.
  assert (Em : master d2 = master d) by congruence. assert (Es : slave d2 = slave d) by congruence.
  assert (Ea2 : a2 = imr (slave d)) by congruence. clear Hb. subst a1 a2.
  assert (Hi : 0 <= Z.lor ICW1_INIT ICW1_ICW4 < 256) by (split; [discriminate|reflexivity]).
  assert (H4 : 0 <= ICW4_8086 < 256) by (split; [discriminate|reflexivity]).
  cbv zeta beta. match goal with |- pics_ready ?x /\ _ => set (d' := x) end.
  assert (M : master d' = {| st := Ready; imr := imr (master d); isr := 0; offset := Z.land offset1 0xF8; cascade := 4 |}).
  { subst d'. repeat (rewrite master_outb by lia; cbn [Z.eqb Pos.eqb PIC1_COMMAND PIC1_DATA PIC2_COMMAND PIC2_DATA];
      rewrite ?io_wait_master). reflexivity. }
  assert (S : slave d' = {| st := Ready; imr := imr (slave d); isr := 0; offset := Z.land offset2 0xF8; cascade := 2 |}).
  { subst d'. repeat (rewrite slave_outb by lia; cbn [Z.eqb Pos.eqb PIC1_COMMAND PIC1_DATA PIC2_COMMAND PIC2_DATA];
      rewrite ?io_wait_slave). reflexivity. }
  clearbody d'. unfold pics_ready, masked, vector_of. rewrite M, S. cbn. done.
Qed.

(** All sixteen lines masked. *)
Lemma pic_disable_spec d :
  pics_ready d ->
  pics_ready (pic_disable d) /\
  forall j, 0 <= j < 16 -> masked (pic_disable d) j = true /\ vector_of (pic_disable d) j = vector_of d j.
Proof.
  intros Hr. unfold pic_disable.
  destruct (outb_mask1 d 0xFF Hr ltac:(lia)) as (R1 & R2 & R3 & R4).
  destruct (outb_mask2 (outb d PIC1_DATA 0xFF) 0xFF R1 ltac:(lia)) as (T1 & T2 & T3 & T4).
  split; [done|]. intros j Hj. unfold masked, vector_of. rewrite T4, T3, R4, T2, R3, R2.
  assert (Hb : forall i, 0 <= i < 8 -> Z.testbit 0xFF i = true).
  { intros i Hi. change 0xFF with (Z.ones 8). apply Z.ones_spec_low. lia. }
  zcase (j <? 8); split; try done; apply Hb; lia.
Qed.

(** [pic_init] succeeds on programmed controllers; afterwards the sixteen lines
    raise vectors 32 to 47 and exactly the timer (0) and the keyboard (1) are
    unmasked, whatever the masks were. *)
Theorem pic_init_correct d :
  pics_ready d ->
  exists d', pic_init d = Ok d' /\ pics_ready d' /\
    forall j, 0 <= j < 16 -> vector_of d' j = 32 + j /\ masked d' j = negb ((j =? 0) || (j =? 1)).
Proof.
  intros Hr. unfold pic_init.
  destruct (pic_remap_spec PIC_MASTER_OFFSET PIC_SLAVE_OFFSET d Hr ltac:(done) ltac:(done))
    as (Hr1 & _ & Hv1 & _).
  set (d1 := pic_remap _ _ d) in *. clearbody d1.
  change (outb (outb d1 PIC1_DATA 0xFF) PIC2_DATA 0xFF) with (pic_disable d1).
  destruct (pic_disable_spec d1 Hr1) as [Hr2 Hm2].
  destruct (pic_mask_spec 0 (pic_disable d1) Hr2 ltac:(lia)) as [_ (d3 & -> & Hr3 & Hm3)].
  cbn [mbind outcome_bind].
  destruct (pic_mask_spec 1 d3 Hr3 ltac:(lia)) as [_ (d4 & -> & Hr4 & Hm4)].
  exists d4. split_and!; [done|done|]. intros j Hj.
  destruct (Hm4 j Hj) as [-> ->], (Hm3 j Hj) as [-> ->], (Hm2 j Hj) as [-> ->]. rewrite Hv1 by done.
  change (Z.land PIC_MASTER_OFFSET 0xF8) with 32. change (Z.land PIC_SLAVE_OFFSET 0xF8) with 40.
  split; zcases.
Qed.

(** Acknowledging line [irq]: the master always, the slave for its own lines. *)
Lemma pic_send_eoi_spec irq d :
  master (pic_send_eoi irq d) = eoi (master d) /\
  slave (pic_send_eoi irq d) = if irq >=? 8 then eoi (slave d) else slave d.
Proof.
  unfold pic_send_eoi, PIC_EOI. destruct (irq >=? 8); rewrite !master_outb, !slave_outb by lia; done.
Qed.

End Driver.

(** Controllers as the firmware leaves them, masks set. *)
Definition firmware : chips := {| chip1 := ready_chip 0xB8; chip2 := ready_chip 0x8E |}.

Lemma firmware_ready : pics_ready firmware.
Proof. repeat split; vm_compute; congruence. Qed.

Lemma pic_init_correct_witness :
  exists d', pic_init firmware = Ok d' /\ pics_ready d' /\
    forall j, 0 <= j < 16 -> vector_of d' j = 32 + j /\ masked d' j = negb ((j =? 0) || (j =? 1)).
Proof. exact (pic_init_correct firmware firmware_ready). Defined.

End Pic.
