(* ===== verification/Irq.v ===== *)
(** * Hardware interrupts (src/kernel/arch/x86_64/interrupts/pic.c, irq.c)

    A second driver of the interrupt controllers and the dispatch of the sixteen
    lines. The ports are those of [Pic8259], the gates those of [Gates]; handlers
    are code the table only points to, so calling one is the argument [call]. *)
From Stdlib Require Import ZArith Lia.
From stdpp Require Import strings numbers gmap base.
From stdpp Require Import list.
From S2P Require Import Prelude Gates Pic8259 Pic.

Open Scope Z_scope.

Module Irq.

Definition IRQ0 : Z := 32.
Definition IRQ8 : Z := 40.

Section Irq.
Context {D : Type} `{PicPorts D}.

(** ** pic.c *)

Definition pic_send_eoi (irq : Z) (d : D) : D :=
  let d := if irq >=? 8 then outb d PIC2_COMMAND PIC_EOI else d in
  outb d PIC1_COMMAND PIC_EOI.

Definition pic_remap (offset1 offset2 : Z) (d : D) : D :=
  let '(a1, d) := inb d PIC1_DATA in
  let '(a2, d) := inb d PIC2_DATA in
  let d := outb d PIC1_COMMAND 0x11 in
  let d := outb d PIC2_COMMAND 0x11 in
  let d := outb d PIC1_DATA (u8 offset1) in
  let d := outb d PIC2_DATA (u8 offset2) in
  let d := outb d PIC1_DATA 4 in
  let d := outb d PIC2_DATA 2 in
  let d := outb d PIC1_DATA 0x01 in
  let d := outb d PIC2_DATA 0x01 in
  let d := outb d PIC1_DATA a1 in
  outb d PIC2_DATA a2.

Definition pic_set_mask (IRQline : Z) (d : D) : outcome D :=
  let '(port, IRQline) := if IRQline <? 8 then (PIC1_DATA, IRQline) else (PIC2_DATA, IRQline - 8) in
  let '(a, d) := inb d port in
  b ← Pic.int_bit IRQline;
  let value := u8 (Z.lor a b) in
  Ok (outb d port value).

Definition pic_clear_mask (IRQline : Z) (d : D) : outcome D :=
  let '(port, IRQline) := if IRQline <? 8 then (PIC1_DATA, IRQline) else (PIC2_DATA, IRQline - 8) in
  let '(a, d) := inb d port in
  b ← Pic.int_bit IRQline;
  let value := u8 (Z.land a (Z.lnot b)) in
  Ok (outb d port value).

(** ** irq.c *)

(** [irq_routines]: sixteen function pointers, 0 for none. *)
Definition irq_install_handler (routines : list Z) (irq handler : Z) : outcome (list Z) :=
  arr_set routines irq handler.

Definition irq_uninstall_handler (routines : list Z) (irq : Z) : outcome (list Z) :=
  arr_set routines irq 0.

(** [int_no] is the only field of the frame that [irq_handler] reads. *)
Definition irq_handler (call : Z -> Z -> D -> D) (routines : list Z) (int_no : Z) (d : D) : outcome D :=
  handler ← arr_get routines (u64 (int_no - 32));
  let d := if negb (handler =? 0) then call handler int_no d else d in
  let d := if int_no >=? 40 then pic_send_eoi PIC2_COMMAND d else d in
  Ok (pic_send_eoi PIC1_COMMAND d).

Definition irq_init {T} `{GateTable T} (irq_handler_addr : Z) (d : D) (t : T) : outcome (D * T) :=
  let d := pic_remap IRQ0 IRQ8 d in
  t ← for_range 16 0 (fun i t => set_gate t (32 + i) irq_handler_addr 0x08 0x8E) t;
  Ok (d, t).

(** * Theorems *)

(** The mask operations of the two drivers are the same code. *)
Lemma pic_masks_agree irq d :
  pic_set_mask irq d = Pic.pic_set_mask irq d /\ pic_clear_mask irq d = Pic.pic_clear_mask irq d.
Proof. split; reflexivity. Qed.

(** A byte written to two machines with the same chips leaves the same chips,
    whether or not a wait follows the second write. *)
Lemma outb_chips p v (d1 d2 : D) :
  0 <= v < 256 -> master d1 = master d2 /\ slave d1 = slave d2 ->
  master (outb d1 p v) = master (outb d2 p v) /\ slave (outb d1 p v) = slave (outb d2 p v).
Proof. intros Hv [E1 E2]. rewrite !master_outb, !slave_outb, E1, E2 by lia. done. Qed.

Lemma outb_wait_chips p v (d1 d2 : D) :
  0 <= v < 256 -> master d1 = master d2 /\ slave d1 = slave d2 ->
  master (outb d1 p v) = master (Pic.io_wait (outb d2 p v)) /\
  slave (outb d1 p v) = slave (Pic.io_wait (outb d2 p v)).
Proof. rewrite Pic.io_wait_master, Pic.io_wait_slave. apply outb_chips. Qed.

(** Without the waits the chips see the same bytes. *)
Lemma pic_remap_agree offset1 offset2 d :
  pics_ready d -> 0 <= offset1 < 256 -> 0 <= offset2 < 256 ->
  master (pic_remap offset1 offset2 d) = master (Pic.pic_remap offset1 offset2 d) /\
  slave (pic_remap offset1 offset2 d) = slave (Pic.pic_remap offset1 offset2 d).
Proof.
  intros (_ & _ & B1 & B2) H1 H2. unfold pic_remap, Pic.pic_remap.
  pose proof (inb_pic1 d) as Ha. pose proof (inb_quiet d PIC1_DATA (or_introl eq_refl)) as [Qm Qs].
  destruct (inb d PIC1_DATA) as [a1 d1]. cbn [fst snd] in *.
  pose proof (inb_pic2 d1) as Hb. destruct (inb d1 PIC2_DATA) as [a2 d2]. cbn [fst snd] in *.
  rewrite Qs in Hb. unfold u8, wrap. rewrite !Z.mod_small by (cbn; lia).
  change 0x11 with (Z.lor Pic.ICW1_INIT Pic.ICW1_ICW4).
  assert (Hi : 0 <= Z.lor Pic.ICW1_INIT Pic.ICW1_ICW4 < 256) by (split; [discriminate|reflexivity]).
  assert (H4 : 0 <= Pic.ICW4_8086 < 256) by (split; [discriminate|reflexivity]).
  repeat first [apply outb_chips; [lia|] | apply outb_wait_chips; [lia|]]. done.
Qed.

(** Observations of the controllers depend only on the two chips. *)
Lemma chips_observed {d1 d2 : D} :
  master d1 = master d2 -> slave d1 = slave d2 ->
  (pics_ready d1 <-> pics_ready d2) /\ (forall j, masked d1 j = masked d2 j) /\
  (forall j, vector_of d1 j = vector_of d2 j).
Proof. intros E1 E2. unfold pics_ready, masked, vector_of. rewrite E1, E2. done. Qed.

(** [irq_init] composes the controllers with the table: it succeeds, keeps the
    masks, and afterwards the vector that each of the sixteen lines raises has a
    present ring-0 interrupt gate to the handler; all gates outside 32 to 47 are
    unchanged. *)
Lemma irq_init_spec {T} `{GateTableLaws T} irq_handler_addr d t :
  pics_ready d -> table_ok t -> in_u64 irq_handler_addr ->
  exists d' t', irq_init irq_handler_addr d t = Ok (d', t') /\ pics_ready d' /\ table_ok t' /\
    (forall j, 0 <= j < 16 -> masked d' j = masked d j /\
       gate_at t' (vector_of d' j) = Gate irq_handler_addr 0x08 0 0xE 0 true) /\
    (forall v, 0 <= v < 32 \/ 48 <= v < 256 -> gate_at t' v = gate_at t v).
Proof.
  intros Hr Ht Ha.
  destruct (pic_remap_agree IRQ0 IRQ8 d Hr) as [Em Es]; [done..|].
  destruct (chips_observed Em Es) as (Or & Om & Ov).
  destruct (Pic.pic_remap_spec IRQ0 IRQ8 d Hr) as (Hr' & Hm & Hv & _); [done..|].
  destruct (for_range_spec table_ok (fun t i => gate_at t (32 + i))
    (fun _ => gate_of irq_handler_addr 0x08 0x8E) (-32) 224
    (fun i t => set_gate t (32 + i) irq_handler_addr 0x08 0x8E)) with (n := 16%nat) (start := 0) (s := t)
    as (t' & E & Ht' & Hg); [|done|lia|lia|].
  { intros s i Hs Hi. destruct (set_gate_spec s (32 + i) irq_handler_addr 0x08 0x8E)
      as (s' & Es' & Hok & Hgi & Hgo); [done|lia|done|lia|lia|].
    exists s'. split_and!; try done. intros j Hj Hne. apply Hgo; lia. }
  exists (pic_remap IRQ0 IRQ8 d), t'. unfold irq_init. rewrite E. split_and!; [done|by apply Or|done| |].
  - intros j Hj. rewrite Om, Hm, Ov, Hv by done. split; [done|].
    change (Z.land IRQ0 0xF8) with 32. change (Z.land IRQ8 0xF8) with 40.
    replace (if j <? 8 then 32 + j else 40 + (j - 8)) with (32 + j) by zcases.
    rewrite Hg by lia. zcases.
  - intros v Hv'. replace v with (32 + (v - 32)) by lia. rewrite Hg by lia. zcases.
Qed.

(** dispatch. For the sixteen vectors [irq_handler] runs exactly the installed
    routine, if any, and then acknowledges. Because it passes port numbers instead
    of lines to [pic_send_eoi], both controllers get an acknowledgement for every
    interrupt - twice each for lines 8 to 15 - also when only the master raised it. *)
Theorem irq_handler_correct call routines int_no d :
  length routines = 16%nat -> 32 <= int_no < 48 ->
  exists h d', routines !! Z.to_nat (int_no - 32) = Some h /\
    irq_handler call routines int_no d = Ok d' /\
    let d1 := if h =? 0 then d else call h int_no d in
    let ack c := if int_no <? 40 then eoi c else eoi (eoi c) in
    master d' = ack (master d1) /\ slave d' = ack (slave d1).
Proof.
  intros Hl Hi. destruct (arr_get_total routines (int_no - 32)) as [h Hh]; [lia|].
  unfold irq_handler. rewrite u64_small by (unfold in_u64; lia). rewrite Hh. cbn [mbind outcome_bind].
  apply arr_get_Ok in Hh as [_ Hh]. exists h. eexists. split; [exact Hh|]. split; [reflexivity|].
  replace (if negb (h =? 0) then call h int_no d else d) with (if h =? 0 then d else call h int_no d)
    by (destruct (h =? 0); done).
  set (d1 := if h =? 0 then d else call h int_no d). clearbody d1. cbv zeta.
  assert (He : forall p d, p = PIC1_COMMAND \/ p = PIC2_COMMAND ->
    master (pic_send_eoi p d) = eoi (master d) /\ slave (pic_send_eoi p d) = eoi (slave d)).
  { intros p d0 Hp. destruct (Pic.pic_send_eoi_spec p d0) as [E1 E2].
    split; [exact E1|]. rewrite (E2 : slave (pic_send_eoi p d0) = _). destruct Hp as [-> | ->]; done. }
  destruct (He PIC1_COMMAND (if int_no >=? 40 then pic_send_eoi PIC2_COMMAND d1 else d1) (or_introl eq_refl)) as [-> ->].
  destruct (He PIC2_COMMAND d1 (or_intror eq_refl)) as [E1 E2].
  rewrite Z.geb_leb. zcase (40 <=? int_no); zcase (int_no <? 40); rewrite ?E1, ?E2; done.
Qed.

(** Other vectors index outside the table of routines. *)
Lemma irq_handler_out_of_range call routines int_no d :
  length routines = 16%nat -> in_u64 int_no -> int_no < 32 \/ 48 <= int_no ->
  is_ok (irq_handler call routines int_no d) = false.
Proof.
  intros Hl Hi Ho. unfold irq_handler.
  destruct (arr_get routines (u64 (int_no - 32))) eqn:E; try done.
  apply arr_get_Ok in E as [_ E]. apply lookup_lt_Some in E.
  exfalso. unfold u64, wrap in E. destruct Ho as [Ho|Ho].
  - rewrite <- (Z.mod_unique (int_no - 32) (2 ^ 64) (-1) (int_no - 32 + 2 ^ 64)) in E
      by (unfold in_u64 in *; lia).
    unfold in_u64 in *. lia.
  - rewrite Z.mod_small in E by (unfold in_u64 in *; lia). lia.
Qed.

(** Installing and removing routines. *)
Lemma irq_install_uninstall routines irq handler :
  length routines = 16%nat -> 0 <= irq < 16 ->
  exists r1 r2, irq_install_handler routines irq handler = Ok r1 /\ r1 !! Z.to_nat irq = Some handler /\
    irq_uninstall_handler r1 irq = Ok r2 /\ r2 !! Z.to_nat irq = Some 0 /\
    forall j, j <> Z.to_nat irq -> r2 !! j = routines !! j.
Proof.
  intros Hl Hi. unfold irq_install_handler, irq_uninstall_handler, arr_set.
  rewrite Hl. change (Z.of_nat 16) with 16. rewrite (proj2 (Z.leb_le 0 irq)), (proj2 (Z.ltb_lt irq 16)) by lia.
  eexists _, _. split; [reflexivity|]. rewrite length_insert, Hl. change (Z.of_nat 16) with 16.
  rewrite (proj2 (Z.ltb_lt irq 16)) by lia. cbn [andb].
  split_and!; [apply list_lookup_insert_eq; lia|reflexivity|apply list_lookup_insert_eq; rewrite length_insert; lia|].
  intros j Hj. rewrite !list_lookup_insert_ne by done. done.
Qed.

End Irq.

(** A line of the slave (10) is in service when the keyboard interrupt (33) is
    handled: the handler acknowledges it as well. *)
Definition nested : chips :=
  {| chip1 := {| st := Ready; imr := 0; isr := 6; offset := 32; cascade := 4 |};
     chip2 := {| st := Ready; imr := 0; isr := 4; offset := 40; cascade := 2 |} |}.

Lemma irq_handler_correct_witness :
  exists d', irq_handler (fun _ _ d => d) (replicate 16 0) 33 nested = Ok d' /\
    isr (master d') = 4 /\ isr (slave d') = 0.
Proof.
  destruct (irq_handler_correct (fun _ _ d => d) (replicate 16 0) 33 nested eq_refl ltac:(lia))
    as (h & d' & Hh & E & Em & Es).
  exists d'. split; [exact E|]. injection Hh as <-. rewrite Em, Es. split; reflexivity.
Defined.

End Irq.
