(* ===== verification/Exceptions.v ===== *)
(** * Exceptions (src/kernel/arch/x86_64/interrupts/exceptions.c)

    Which exceptions carry an error code, the gates they get, and the handler that
    reports and stops. The composition with [Irq] gives the table the kernel runs
    with. *)
From Stdlib Require Import ZArith Lia.
From stdpp Require Import strings numbers gmap base.
From stdpp Require Import list.
From S2P Require Import Prelude Gates Isr Pic8259 Pic Irq Interrupts.

Open Scope Z_scope.

Module Exn.

Definition NUM_EXCEPTIONS : Z := 32.

(** [exception_t]: the enumerators the code refers to by name. *)
Definition DOUBLE_FAULT : Z := 8.
Definition INVALID_TSS : Z := 10.
Definition SEGMENT_NOT_PRESENT : Z := 11.
Definition STACK_SEGMENT_FAULT : Z := 12.
Definition GENERAL_PROTECTION_FAULT : Z := 13.
Definition PAGE_FAULT : Z := 14.
Definition ALIGNMENT_CHECK : Z := 17.
Definition CONTROL_PROTECTION_EXCEPTION : Z := 21.
Definition SECURITY_EXCEPTION : Z := 30.

Definition exception_messages : list string :=
  ["Division By Zero"; "Debug Exception"; "Non-Maskable Interrupt"; "Breakpoint"; "Overflow";
   "Bound Range Exceeded"; "Invalid Opcode"; "Device Not Available"; "Double Fault";
   "Coprocessor Segment Overrun"; "Invalid TSS"; "Segment Not Present"; "Stack-Segment Fault";
   "General Protection Fault"; "Page Fault"; "Reserved"; "x87 Floating-Point Exception";
   "Alignment Check"; "Machine Check"; "SIMD Floating-Point Exception";
   "Virtualization Exception"; "Control Protection Exception"; "Reserved"; "Reserved";
   "Reserved"; "Reserved"; "Reserved"; "Reserved"; "Hypervisor Injection Exception";
   "VMM Communication Exception"; "Security Exception"; "Reserved"].

Definition exception_has_error_code (int_no : Z) : bool :=
  existsb (Z.eqb (u8 int_no))
    [DOUBLE_FAULT; INVALID_TSS; SEGMENT_NOT_PRESENT; STACK_SEGMENT_FAULT; GENERAL_PROTECTION_FAULT;
     PAGE_FAULT; ALIGNMENT_CHECK; CONTROL_PROTECTION_EXCEPTION; SECURITY_EXCEPTION].

(** What the handler prints before it loops for ever. *)
Inductive text := Str (s : string) | Hex (n : Z).

Definition exception_handler (int_no error_code : Z) : outcome (list text) :=
  if int_no <? NUM_EXCEPTIONS then
    m ← arr_get exception_messages int_no;
    Ok ([Str "Exception: "; Str m; Str "\n"] ++
        (if exception_has_error_code int_no
         then [Str "Error Code: "; Hex error_code; Str "\n"] else []) ++
        [Str "System Halted!\n"])
  else Ok [Str "Unknown Exception!\n"].

Section Gates.
Context {T : Type} `{GateTable T}.

(** The address chosen for exception [i]. *)
Definition exception_gate (exception_handler_with_error exception_handler_no_error i : Z) : Z :=
  if exception_has_error_code i then exception_handler_with_error else exception_handler_no_error.

Definition init_exception_handlers (with_error no_error : Z) (t : T) : outcome T :=
  set_gates (Z.to_nat NUM_EXCEPTIONS) 0 (exception_gate with_error no_error) 0x08 0x8E t.

Context `{!GateTableLaws T}.

Lemma init_exception_handlers_spec with_error no_error t :
  table_ok t -> in_u64 with_error -> in_u64 no_error ->
  exists t', init_exception_handlers with_error no_error t = Ok t' /\ table_ok t' /\
    forall v, 0 <= v < 256 ->
      gate_at t' v = if v <? 32 then Gate (exception_gate with_error no_error v) 0x08 0 0xE 0 true
                     else gate_at t v.
Proof.
  intros Ht Hw Hn.
  destruct (set_gates_spec 32 0 (exception_gate with_error no_error) 0x08 0x8E t) as (t1 & E1 & Ht1 & G1);
    [done|lia|lia| |lia|lia|].
  { intros v. unfold exception_gate. destruct (exception_has_error_code v); done. }
  exists t1. split_and!; [exact E1|done|]. intros v Hv. rewrite G1 by done. cbn [Z.of_nat]. zcases.
Qed.

End Gates.

(** Every exception number has a message, and the error code is printed exactly for
    the exceptions whose stub is the one for error codes. *)
Lemma exception_handler_total int_no error_code :
  0 <= int_no -> exists out, exception_handler int_no error_code = Ok out /\
    (Hex error_code ∈ out <-> int_no < 32 /\ exception_has_error_code int_no = true).
Proof.
  intros H0. unfold exception_handler, NUM_EXCEPTIONS. zcase (int_no <? 32).
  - destruct (arr_get_total exception_messages int_no) as [m ->]; [cbn; lia|]. cbn [mbind outcome_bind].
    eexists. split; [done|]. destruct (exception_has_error_code int_no); set_solver.
  - eexists. split; [done|]. set_solver by lia.
Qed.

(** The two lists of exceptions with an error code differ exactly in vector 29. *)
Lemma error_code_lists_differ v :
  0 <= v < 32 -> exception_has_error_code v <> Intr.stub_has_error_code v <-> v = 29.
Proof.
  intros Hv.
  assert (Hall : forallb (fun v => Bool.eqb (negb (Bool.eqb (exception_has_error_code v) (Intr.stub_has_error_code v)))
                                     (v =? 29)) (seqZ 0 32) = true) by reflexivity.
  rewrite forallb_forall in Hall. specialize (Hall v).
  rewrite <- list_elem_of_In, elem_of_seqZ in Hall. specialize (Hall ltac:(lia)).
  apply Bool.eqb_prop in Hall.
  destruct (exception_has_error_code v), (Intr.stub_has_error_code v), (Z.eqb_spec v 29); cbn in Hall; naive_solver.
Qed.

(** the table the kernel runs with. On any table that satisfies the interface,
    [init_exception_handlers] followed by [irq_init] succeeds; every exception has a
    present ring-0 gate, to the stub for error codes exactly for the nine exceptions
    of [exception_has_error_code]; the vector of each hardware line has one to the
    IRQ handler; the rest of the table is unchanged. *)
Theorem interrupt_setup_correct {D T} `{PicPorts D} `{GateTableLaws T} d t with_error no_error irq_handler_addr :
  pics_ready d -> table_ok t -> in_u64 with_error -> in_u64 no_error -> in_u64 irq_handler_addr ->
  exists d' t', (t1 ← init_exception_handlers with_error no_error t; Irq.irq_init irq_handler_addr d t1) = Ok (d', t') /\
    (forall v, 0 <= v < 32 -> gate_at t' v = Gate (exception_gate with_error no_error v) 0x08 0 0xE 0 true) /\
    (forall j, 0 <= j < 16 -> gate_at t' (vector_of d' j) = Gate irq_handler_addr 0x08 0 0xE 0 true) /\
    (forall v, 48 <= v < 256 -> gate_at t' v = gate_at t v).
Proof.
  intros Hd Ht Hw Hn Hi.
  destruct (init_exception_handlers_spec with_error no_error t Ht Hw Hn) as (t1 & -> & Ht1 & G1).
  cbn [mbind outcome_bind].
  destruct (Irq.irq_init_spec irq_handler_addr d t1 Hd Ht1 Hi) as (d' & t' & -> & _ & _ & Gi & Go).
  exists d', t'. split_and!; [done| | |].
  - intros v Hv. rewrite Go, G1 by lia. zcases.
  - intros j Hj. apply Gi. done.
  - intros v Hv. rewrite Go, G1 by lia. zcases.
Qed.

Lemma interrupt_setup_correct_witness :
  exists d' t', (t1 ← init_exception_handlers 0x1000 0x2000 (replicate 256 Isr.blank);
                 Irq.irq_init 0x3000 Pic.firmware t1) = Ok (d', t') /\
    (forall v, 0 <= v < 32 -> gate_at t' v = Gate (exception_gate 0x1000 0x2000 v) 0x08 0 0xE 0 true) /\
    (forall j, 0 <= j < 16 -> gate_at t' (vector_of d' j) = Gate 0x3000 0x08 0 0xE 0 true) /\
    (forall v, 48 <= v < 256 -> gate_at t' v = gate_at (replicate 256 Isr.blank) v).
Proof.
  apply (interrupt_setup_correct Pic.firmware (replicate 256 Isr.blank) 0x1000 0x2000 0x3000 Pic.firmware_ready);
    [done| | |]; split; lia.
Defined.

End Exn.
