(* ===== verification/Segments.v ===== *)
(** * Segment descriptors as the processor reads them

    Shared by [Gdt] (boot/cpu/gdt.c, tss.c) and [PgTable] (arch/x86_64/pgtable.c). *)
From Stdlib Require Import ZArith Lia.
From stdpp Require Import strings numbers gmap base.
From stdpp Require Import list.
From S2P Require Import Prelude Gates.

Open Scope Z_scope.

(** * What the processor reads in a descriptor of 8 bytes *)

Record segment := Segment {
  s_base : Z;     (* 32 bits *)
  s_limit : Z;    (* 20 bits *)
  s_access : Z;   (* type, S, DPL, P *)
  s_flags : Z     (* AVL, L, D/B, G *)
}.

Definition cpu_segment (x : Z) : segment :=
  {| s_base := bits x 16 16 + 2 ^ 16 * bits x 32 8 + 2 ^ 24 * bits x 56 8;
     s_limit := bits x 0 16 + 2 ^ 16 * bits x 48 4;
     s_access := bits x 40 8;
     s_flags := bits x 52 4 |}.

(** In 64-bit mode the descriptor of a task state segment has 16 bytes; loading
    selector [sel] needs all of them inside the limit of the table. *)
Definition tss_descriptor_fits (limit sel : Z) : bool := sel + 15 <=? limit.
