(* ===== verification/Gdt.v ===== *)
(** * Segment descriptors and the task state segment
    (src/kernel/arch/x86_64/boot/cpu/gdt.c, gdt.h, tss.c, tss.h)

    Assembly routines that load registers appear as the value loaded. *)
From Stdlib Require Import ZArith Lia.
From stdpp Require Import strings numbers gmap base.
From stdpp Require Import list.
From S2P Require Import Prelude Gates Segments.

Open Scope Z_scope.

Module Gdt.

Definition GDT_ENTRIES : Z := 5.

Record gdt_entry := {
  limit_low : Z;     (* 16 bits *)
  base_low : Z;      (* 16 bits *)
  base_middle : Z;   (* 8 bits *)
  access : Z;        (* 8 bits *)
  granularity : Z;   (* 8 bits *)
  base_high : Z      (* 8 bits *)
}.

Record gdt_ptr := { limit : Z; base : Z }.

Definition entry_bytes (e : gdt_entry) : Z :=
  pack [(16, limit_low e); (16, base_low e); (8, base_middle e); (8, access e);
        (8, granularity e); (8, base_high e)].

Definition null_entry : gdt_entry := Build_gdt_entry 0 0 0 0 0 0.

Definition gdt_set_gate (gdt : list gdt_entry) (num base limit access gran : Z) : outcome (list gdt_entry) :=
  arr_set gdt num
    {| base_low := u16 (Z.land base 0xFFFF);
       base_middle := u8 (Z.land (Z.shiftr base 16) 0xFF);
       base_high := u8 (Z.land (Z.shiftr base 24) 0xFF);
       limit_low := u16 (Z.land limit 0xFFFF);
       granularity := u8 (Z.lor (Z.land (Z.shiftr limit 16) 0x0F) (Z.land gran 0xF0));
       access := u8 access |}.

(** The table and the pointer given to [gdt_flush]; [addr] is the table's address. *)
Definition gdt_init (addr : Z) (gdt : list gdt_entry) : outcome (list gdt_entry * gdt_ptr) :=
  let gp := {| limit := u16 (8 * GDT_ENTRIES - 1); base := u64 addr |} in
  gdt ← gdt_set_gate gdt 0 0 0 0 0;
  gdt ← gdt_set_gate gdt 1 0 0xFFFFFFFF 0x9A 0xA0;
  gdt ← gdt_set_gate gdt 2 0 0xFFFFFFFF 0x92 0xA0;
  gdt ← gdt_set_gate gdt 3 0 0xFFFFFFFF 0xFA 0xA0;
  gdt ← gdt_set_gate gdt 4 0 0xFFFFFFFF 0xF2 0xA0;
  Ok (gdt, gp).

(** [struct tss_entry]: the fields [tss_init] touches; 104 bytes in all. *)
Record tss_entry := { rsp0 : Z; iopb_offset : Z }.
Definition tss_size : Z := 4 + 3 * 8 + 8 + 7 * 8 + 8 + 2 + 2.

(** The result: tables and the selector loaded by [ltr]. *)
Definition tss_init (kernel_stack tss_addr : Z) (gdt : list gdt_entry) :
  outcome (tss_entry * list gdt_entry * Z) :=
  let tss := {| rsp0 := kernel_stack; iopb_offset := u16 tss_size |} in
  gdt ← gdt_set_gate gdt 5 tss_addr tss_size 0x89 0x00;
  Ok (tss, gdt, 0x28).

Definition segment_at (gdt : list gdt_entry) (i : Z) : segment :=
  cpu_segment (entry_bytes (default null_entry (gdt !! Z.to_nat i))).

(** The descriptor [gdt_set_gate] builds is the one its arguments ask for: base and
    limit cut to the 32 and 20 bits the descriptor has. *)
Lemma set_gate_segment b l a g :
  0 <= b -> 0 <= l -> 0 <= a < 256 -> 0 <= g < 256 ->
  cpu_segment (entry_bytes
    {| base_low := u16 (Z.land b 0xFFFF);
       base_middle := u8 (Z.land (Z.shiftr b 16) 0xFF);
       base_high := u8 (Z.land (Z.shiftr b 24) 0xFF);
       limit_low := u16 (Z.land l 0xFFFF);
       granularity := u8 (Z.lor (Z.land (Z.shiftr l 16) 0x0F) (Z.land g 0xF0));
       access := u8 a |}) =
  Segment (b mod 2 ^ 32) (l mod 2 ^ 20) a (g / 16).
Proof.
  intros Hb Hl Ha Hg. unfold cpu_segment, entry_bytes.
  cbn [limit_low base_low base_middle access granularity base_high]. bits_pack. rewrite !bits_whole.
  unfold u16, u8. assert (Hw : forall w x, 0 <= w -> wrap w (wrap w x) = wrap w x)
    by (intros; unfold wrap; apply Z.mod_mod; lia).
  rewrite !Hw by lia.
  assert (Hland : forall x n, 0 <= n -> wrap n (Z.land x (Z.ones n)) = x mod 2 ^ n).
  { intros x n Hn. rewrite Z.land_ones by lia. unfold wrap. apply Z.mod_mod. lia. }
  change 0xFFFF with (Z.ones 16). change 0xFF with (Z.ones 8). change 0x0F with (Z.ones 4).
  rewrite !Hland, !Z.shiftr_div_pow2 by lia.
  set (gr := Z.lor _ _).
  assert (Hgr : forall i, 0 <= i < 8 -> Z.testbit gr i = if i <? 4 then Z.testbit l (16 + i) else Z.testbit g i).
  { intros i Hi. subst gr. rewrite Z.lor_spec, !Z.land_spec, Z.div_pow2_bits, Z.testbit_ones by lia.
    change 0xF0 with (Z.shiftl (Z.ones 4) 4). rewrite Z.shiftl_spec, Z.testbit_ones by lia.
    rewrite (Z.add_comm 16 i).
    zcases; rewrite ?andb_true_r, ?andb_false_r, ?orb_false_r; reflexivity. }
  f_equal.
  - rewrite (Z.mul_comm (2 ^ 16)), (Z.mul_comm (2 ^ 24)).
    pose proof (Z.rem_mul_r b (2 ^ 16) (2 ^ 16) ltac:(lia) ltac:(lia)) as E1.
    pose proof (Z.rem_mul_r (b / 2 ^ 16) (2 ^ 8) (2 ^ 8) ltac:(lia) ltac:(lia)) as E2.
    rewrite Z.div_div in E2 by lia.
    change (2 ^ 16 * 2 ^ 16) with (2 ^ 32) in E1. change (2 ^ 8 * 2 ^ 8) with (2 ^ 16) in E2.
    change (2 ^ 16 * 2 ^ 8) with (2 ^ 24) in E2. lia.
  - pose proof (Z.rem_mul_r l (2 ^ 16) (2 ^ 4) ltac:(lia) ltac:(lia)) as E1.
    change (2 ^ 16 * 2 ^ 4) with (2 ^ 20) in E1. rewrite E1. f_equal. f_equal.
    apply Z.bits_inj'. intros i Hi. unfold wrap.
    destruct (decide (i < 4)).
    + rewrite !Z.mod_pow2_bits_low, Hgr, Z.div_pow2_bits, (Z.add_comm 16) by lia. zcases.
    + rewrite !Z.mod_pow2_bits_high by lia. done.
  - unfold wrap. apply Z.mod_small. lia.
  - apply Z.bits_inj'. intros i Hi. unfold bits, wrap. change 16 with (2 ^ 4).
    rewrite (Z.div_pow2_bits g) by lia. destruct (decide (i < 4)).
    + rewrite Z.mod_pow2_bits_low, Z.div_pow2_bits, Z.mod_pow2_bits_low, Hgr by lia. zcases.
    + rewrite Z.mod_pow2_bits_high by lia. symmetry. apply (testbit_high g 8); lia.
Qed.

(** [gdt_init] succeeds whatever the table held. The processor then sees the
    null descriptor, flat kernel code and data of ring 0 and flat user code and data
    of ring 3 (64-bit code, whole address space), and the pointer covers exactly
    these five descriptors. *)
Theorem gdt_init_correct addr gdt :
  length gdt = 5%nat -> in_u64 addr ->
  exists gdt', gdt_init addr gdt = Ok (gdt', {| limit := 39; base := addr |}) /\ length gdt' = 5%nat /\
    map (fun e => cpu_segment (entry_bytes e)) gdt' =
      [Segment 0 0 0 0; Segment 0 0xFFFFF 0x9A 0xA; Segment 0 0xFFFFF 0x92 0xA;
       Segment 0 0xFFFFF 0xFA 0xA; Segment 0 0xFFFFF 0xF2 0xA].
Proof.
  intros Hl Ha. destruct gdt as [|a [|b [|c [|d [|e [|? ?]]]]]]; try discriminate.
  unfold gdt_init. rewrite (u64_small addr Ha). eexists. split_and!; reflexivity.
Qed.

Lemma gdt_init_correct_witness :
  exists gdt', gdt_init 0x9000 (replicate 5 null_entry) = Ok (gdt', {| limit := 39; base := 0x9000 |}) /\
    length gdt' = 5%nat /\
    map (fun e => cpu_segment (entry_bytes e)) gdt' =
      [Segment 0 0 0 0; Segment 0 0xFFFFF 0x9A 0xA; Segment 0 0xFFFFF 0x92 0xA;
       Segment 0 0xFFFFF 0xFA 0xA; Segment 0 0xFFFFF 0xF2 0xA].
Proof. apply (gdt_init_correct 0x9000 (replicate 5 null_entry)); [done|split; lia]. Defined.

(** [tss_init] writes the sixth descriptor of a table of five. *)
Lemma tss_init_out_of_bounds kernel_stack tss_addr gdt :
  length gdt = 5%nat -> tss_init kernel_stack tss_addr gdt = Undef "array index".
Proof. intros Hl. unfold tss_init, gdt_set_gate, arr_set. rewrite Hl. reflexivity. Qed.

End Gdt.
