(* ===== verification/PgTable.v ===== *)
(** * The second set of descriptor tables (src/arch/x86_64/pgtable.c, pgtable.h) *)
From Stdlib Require Import ZArith Lia.
From stdpp Require Import strings numbers gmap base.
From stdpp Require Import list.
From S2P Require Import Prelude Gates Segments.

Open Scope Z_scope.

Module PgTable.

Definition GDT_ENTRIES : Z := 5.
Definition IDT_ENTRIES : Z := 256.

Record gdt_entry := {
  limit_low : Z;    (* 16 bits *)
  base_low : Z;     (* 16 bits *)
  base_mid : Z;     (* 8 bits *)
  access : Z;       (* 8 bits *)
  limit_high : Z;   (* 4 bits *)
  flags : Z;        (* 4 bits *)
  base_high : Z     (* 8 bits *)
}.

(** [tss_entry]: packed, 88 bytes, without the reserved words of the hardware. *)
Record tss_entry := { rsp : list Z; ist : list Z; iomap_base : Z }.

Definition tss_size : Z := 4 + 3 * 8 + 7 * 8 + 4.

Definition entry_bytes (e : gdt_entry) : Z :=
  pack [(16, limit_low e); (16, base_low e); (8, base_mid e); (8, access e);
        (4, limit_high e); (4, flags e); (8, base_high e)].

Definition zero_entry : gdt_entry := Build_gdt_entry 0 0 0 0 0 0 0.

(** A descriptor given by its access byte and flags, everything else 0. *)
Definition plain (a f : Z) : gdt_entry :=
  {| limit_low := 0; base_low := 0; base_mid := 0; access := a; limit_high := 0; flags := f; base_high := 0 |}.

(** The table and the limit loaded by [lgdt]. *)
Definition gdt_init (gdt : list gdt_entry) : outcome (list gdt_entry * Z) :=
  gdt ← arr_set gdt 0 zero_entry;
  gdt ← arr_set gdt 1 (plain 0x9A 0xA);
  gdt ← arr_set gdt 2 (plain 0x92 0);
  gdt ← arr_set gdt 3 (plain 0xFA 0xA);
  gdt ← arr_set gdt 4 (plain 0xF2 0);
  Ok (gdt, 8 * GDT_ENTRIES - 1).

(** [idt_init]: the packed entries are zeroed; the limit loaded by [lidt]. *)
Definition idt_init : list Z * Z := (replicate (Z.to_nat IDT_ENTRIES) 0, 16 * IDT_ENTRIES - 1).

(** The result: the segment, the table, the selector loaded by [ltr]. *)
Definition tss_init (stack_top tss_addr : Z) (gdt : list gdt_entry) : outcome (tss_entry * list gdt_entry * Z) :=
  let tss := {| rsp := [stack_top; 0; 0]; ist := replicate 7 0; iomap_base := tss_size |} in
  gdt ← arr_set gdt (GDT_ENTRIES - 1)
    {| limit_low := u16 tss_size;
       base_low := u16 tss_addr;
       base_mid := u8 (Z.shiftr tss_addr 16);
       access := 0x89;
       limit_high := 0;
       flags := 0;
       base_high := u8 (Z.shiftr tss_addr 24) |};
  Ok (tss, gdt, Z.shiftl (GDT_ENTRIES - 1) 3).

Definition segments (gdt : list gdt_entry) : list segment := map (fun e => cpu_segment (entry_bytes e)) gdt.

Lemma tss_descriptor_base a :
  0 <= a ->
  cpu_segment (entry_bytes
    {| limit_low := u16 tss_size; base_low := u16 a; base_mid := u8 (Z.shiftr a 16); access := 0x89;
       limit_high := 0; flags := 0; base_high := u8 (Z.shiftr a 24) |}) =
  Segment (a mod 2 ^ 32) 88 0x89 0.
Proof.
  intros Ha. unfold cpu_segment, entry_bytes.
  cbn [limit_low base_low base_mid access limit_high flags base_high]. bits_pack. rewrite !bits_whole.
  unfold u16, u8. assert (Hw : forall w x, 0 <= w -> wrap w (wrap w x) = wrap w x)
    by (intros; unfold wrap; apply Z.mod_mod; lia).
  rewrite !Hw, !Z.shiftr_div_pow2 by lia. f_equal. unfold wrap.
  pose proof (Z.rem_mul_r a (2 ^ 16) (2 ^ 16) ltac:(lia) ltac:(lia)) as E1.
  pose proof (Z.rem_mul_r (a / 2 ^ 16) (2 ^ 8) (2 ^ 8) ltac:(lia) ltac:(lia)) as E2.
  rewrite Z.div_div in E2 by lia.
  change (2 ^ 16 * 2 ^ 16) with (2 ^ 32) in E1. change (2 ^ 8 * 2 ^ 8) with (2 ^ 16) in E2.
  change (2 ^ 16 * 2 ^ 8) with (2 ^ 24) in E2. lia.
Qed.

(** [gdt_init] and then [tss_init]. The first four descriptors are those of
    [gdt_init]; the fifth, which [gdt_init] had made user data, is replaced by the
    first 8 bytes of a descriptor of the task state segment, with its address cut to
    32 bits; and the selector that is then loaded does not leave room in the table
    for the 16 bytes the processor needs. *)
Theorem tss_init_replaces_user_data stack_top tss_addr gdt :
  length gdt = 5%nat -> 0 <= tss_addr ->
  exists gdt1 gdt2 tss lim sel,
    gdt_init gdt = Ok (gdt1, lim) /\ tss_init stack_top tss_addr gdt1 = Ok (tss, gdt2, sel) /\
    segments gdt1 = [Segment 0 0 0 0; Segment 0 0 0x9A 0xA; Segment 0 0 0x92 0;
                     Segment 0 0 0xFA 0xA; Segment 0 0 0xF2 0] /\
    segments gdt2 = [Segment 0 0 0 0; Segment 0 0 0x9A 0xA; Segment 0 0 0x92 0;
                     Segment 0 0 0xFA 0xA; Segment (tss_addr mod 2 ^ 32) 88 0x89 0] /\
    tss_descriptor_fits lim sel = false /\ rsp tss !! 0%nat = Some stack_top.
Proof.
  intros Hl Ha. destruct gdt as [|a [|b [|c [|d [|e [|? ?]]]]]]; try discriminate.
  eexists _, _, _, _, _. split; [reflexivity|]. split; [reflexivity|]. split_and!; try reflexivity.
  rewrite <- (tss_descriptor_base tss_addr Ha). reflexivity.
Qed.

Lemma tss_init_replaces_user_data_witness :
  exists gdt1 gdt2 tss lim sel,
    gdt_init (replicate 5 zero_entry) = Ok (gdt1, lim) /\ tss_init 0x7000 0x12345678 gdt1 = Ok (tss, gdt2, sel) /\
    segments gdt1 = [Segment 0 0 0 0; Segment 0 0 0x9A 0xA; Segment 0 0 0x92 0;
                     Segment 0 0 0xFA 0xA; Segment 0 0 0xF2 0] /\
    segments gdt2 = [Segment 0 0 0 0; Segment 0 0 0x9A 0xA; Segment 0 0 0x92 0;
                     Segment 0 0 0xFA 0xA; Segment 0x12345678 88 0x89 0] /\
    tss_descriptor_fits lim sel = false /\ rsp tss !! 0%nat = Some 0x7000.
Proof. apply (tss_init_replaces_user_data 0x7000 0x12345678 (replicate 5 zero_entry)); [done|lia]. Defined.

End PgTable.
