(* ===== verification/EarlyPaging.v ===== *)
(** * Early page tables (src/arch/x86_64/paging.c, paging.h)

    Four static tables, an identity map and [map_memory]. Memory is word-addressed;
    the code may only touch its four arrays, any other address is a wild pointer.
    [walk] is the translation that the processor makes. *)
From Stdlib Require Import ZArith Lia.
From stdpp Require Import strings numbers gmap base.
From stdpp Require Import list.
From S2P Require Import Prelude.

Open Scope Z_scope.

(** Bits of a bitwise expression: the goal's [testbit] of constants become tests on
    the index. *)
Lemma testbit_range v lo hi i :
  0 <= lo -> lo <= hi -> v = Z.shiftl (Z.ones (hi - lo)) lo -> 0 <= i -> Z.testbit v i = (lo <=? i) && (i <? hi).
Proof.
  intros H0 H1 -> Hi. rewrite Z.shiftl_spec by lia. destruct (Z.leb_spec lo i).
  - rewrite Z.testbit_ones by lia. zcases.
  - apply Z.testbit_neg_r. lia.
Qed.

(** A multiple of [2^k] has no bits below [k]. *)
Lemma testbit_multiple v k i : 0 <= i < k -> (2 ^ k | v) -> Z.testbit v i = false.
Proof.
  intros Hi [q ->]. rewrite <- Z.shiftl_mul_pow2 by lia. rewrite Z.shiftl_spec by lia.
  apply Z.testbit_neg_r. lia.
Qed.

Module Early.

Definition PAGE_SIZE_2MB : Z := 2 * 1024 * 1024.
Definition PAGE_NX : Z := 2 ^ 63.
Definition PAGE_PRESENT : Z := 1.
Definition PAGE_RW : Z := 2.
Definition PAGE_USER : Z := 4.

(** [PageFlags]. *)
Definition PAGE_MAP_KERNEL_RW : Z := Z.lor PAGE_PRESENT PAGE_RW.
Definition PAGE_MAP_KERNEL_RX : Z := PAGE_PRESENT.
Definition PAGE_MAP_USER_RW : Z := Z.lor (Z.lor PAGE_PRESENT PAGE_RW) PAGE_USER.
Definition PAGE_MAP_USER_RX : Z := Z.lor PAGE_PRESENT PAGE_USER.

(** Addresses of the static arrays. *)
Record layout := { pml4 : Z; pdpt : Z; pd : Z; pt : Z }.

Definition in_table (base a : Z) : bool := (base <=? a) && (a <? base + 4096).

Definition in_arrays (L : layout) (a : Z) : bool :=
  in_table (pml4 L) a || in_table (pdpt L) a || in_table (pd L) a || in_table (pt L) a.

Definition load (L : layout) (m : Z -> Z) (a : Z) : outcome Z :=
  if in_arrays L a then Ok (m a) else Undef "wild pointer".

Definition store (L : layout) (m : Z -> Z) (a v : Z) : outcome (Z -> Z) :=
  if in_arrays L a then Ok (upd m a v) else Undef "wild pointer".

(** [table[index]] of a [uint64_t] pointer. *)
Definition slot (table index : Z) : Z := u64 (table + 8 * index).

(** [~0xFFF], an [int] extended to 64 bits. *)
Definition page_mask : Z := not64 0xFFF.

(** NULL is [None]. *)
Definition get_next_table (L : layout) (m : Z -> Z) (table index : Z) (create : bool) :
  outcome (option Z * (Z -> Z)) :=
  e ← load L m (slot table index);
  if Z.land e PAGE_PRESENT =? 0 then
    if negb create then Ok (None, m)
    else
      let new_table := u64 (pd L + 4096 * index) in
      m ← (if in_arrays L new_table then Ok (zero_range m new_table 4096) else Undef "wild pointer");
      m ← store L m (slot table index) (Z.lor (Z.lor new_table PAGE_PRESENT) PAGE_RW);
      e ← load L m (slot table index);
      Ok (Some (Z.land e page_mask), m)
  else Ok (Some (Z.land e page_mask), m).

(** The loop of [paging_init] over the page directory. *)
Definition fill_pd (L : layout) (m : Z -> Z) : outcome (Z -> Z) :=
  for_range 512 0 (fun i m =>
    store L m (slot (pd L) i) (Z.lor (Z.lor (Z.lor (u64 (i * PAGE_SIZE_2MB)) PAGE_PRESENT) PAGE_RW) PAGE_NX)) m.

(** Memory and the value loaded into CR3. *)
Definition paging_init (L : layout) (m : Z -> Z) : outcome ((Z -> Z) * Z) :=
  let m := zero_range m (pml4 L) 4096 in
  let m := zero_range m (pdpt L) 4096 in
  let m := zero_range m (pd L) 4096 in
  let m := zero_range m (pt L) 4096 in
  m ← fill_pd L m;
  m ← store L m (slot (pdpt L) 0) (Z.lor (Z.lor (pd L) PAGE_PRESENT) PAGE_RW);
  m ← store L m (slot (pml4 L) 0) (Z.lor (Z.lor (pdpt L) PAGE_PRESENT) PAGE_RW);
  m ← store L m (slot (pml4 L) 511) (Z.lor (Z.lor (pml4 L) PAGE_PRESENT) PAGE_RW);
  Ok (m, pml4 L).

(** Index of level [shift]. *)
Definition index (vaddr shift : Z) : Z := Z.land (Z.shiftr vaddr shift) 0x1FF.

(** The result of a lookup that must not be NULL before it is dereferenced. *)
Definition deref (p : option Z) : outcome Z :=
  match p with Some a => Ok a | None => Undef "null pointer" end.

(** The loop of [map_memory]: memory, and the addresses given to [invlpg], in order. *)
Fixpoint map_loop (fuel : nat) (L : layout) (m : Z -> Z) (vaddr paddr size end_ flags : Z) : outcome ((Z -> Z) * list Z) :=
  match fuel with
  | O => Hang
  | S fuel' =>
      if vaddr <? end_ then
        '(t3, m) ← get_next_table L m (pml4 L) (index vaddr 39) true;
        pdpt_table ← deref t3;
        '(t2, m) ← get_next_table L m pdpt_table (index vaddr 30) true;
        pd_table ← deref t2;
        if (size >=? PAGE_SIZE_2MB) && (Z.land vaddr (PAGE_SIZE_2MB - 1) =? 0) then
          m ← store L m (slot pd_table (index vaddr 21)) (Z.lor (Z.lor (Z.lor paddr flags) PAGE_NX) 0x80);
          '(m, inv) ← map_loop fuel' L m (u64 (vaddr + PAGE_SIZE_2MB)) (u64 (paddr + PAGE_SIZE_2MB))
            (u64 (size - PAGE_SIZE_2MB)) end_ flags;
          Ok (m, vaddr :: inv)
        else
          '(t1, m) ← get_next_table L m pd_table (index vaddr 21) true;
          pt_table ← deref t1;
          m ← store L m (slot pt_table (index vaddr 12)) (Z.lor (Z.lor paddr flags) PAGE_NX);
          '(m, inv) ← map_loop fuel' L m (u64 (vaddr + 4096)) (u64 (paddr + 4096)) (u64 (size - 4096)) end_ flags;
          Ok (m, vaddr :: inv)
      else Ok (m, [])
  end.

Definition map_memory (fuel : nat) (L : layout) (m : Z -> Z) (vaddr paddr size flags : Z) : outcome (bool * (Z -> Z) * list Z) :=
  '(m, inv) ← map_loop fuel L m vaddr paddr size (u64 (vaddr + size)) flags;
  Ok (true, m, inv).

(** * The processor's translation *)

(** Address fields of entries: bits 12 to 51, and 21 to 51 for a large page. *)
Definition addr_of (e : Z) : Z := Z.land e (2 ^ 52 - 2 ^ 12).
Definition large_addr_of (e : Z) : Z := Z.land e (2 ^ 52 - 2 ^ 21).

Definition walk (m : Z -> Z) (cr3 v : Z) : option Z :=
  let e4 := m (addr_of cr3 + 8 * index v 39) in
  if negb (Z.testbit e4 0) then None else
  let e3 := m (addr_of e4 + 8 * index v 30) in
  if negb (Z.testbit e3 0) then None else
  let e2 := m (addr_of e3 + 8 * index v 21) in
  if negb (Z.testbit e2 0) then None else
  if Z.testbit e2 7 then Some (large_addr_of e2 + v mod 2 ^ 21) else
  let e1 := m (addr_of e2 + 8 * index v 12) in
  if negb (Z.testbit e1 0) then None else Some (addr_of e1 + v mod 2 ^ 12).

(** * Entries *)

Lemma present_test e : (Z.land e PAGE_PRESENT =? 0) = negb (Z.testbit e 0).
Proof.
  unfold PAGE_PRESENT. change 1 with (Z.ones 1). rewrite Z.land_ones by lia. change (2 ^ 1) with 2.
  rewrite <- Z.bit0_mod. destruct (Z.testbit e 0); reflexivity.
Qed.

Lemma testbit_page_mask i : 0 <= i -> Z.testbit page_mask i = (12 <=? i) && (i <? 64).
Proof. intros. apply testbit_range; [lia|lia|reflexivity|done]. Qed.

Lemma testbit_addr_mask i : 0 <= i -> Z.testbit (2 ^ 52 - 2 ^ 12) i = (12 <=? i) && (i <? 52).
Proof. intros. apply testbit_range; [lia|lia|reflexivity|done]. Qed.

Lemma testbit_large_mask i : 0 <= i -> Z.testbit (2 ^ 52 - 2 ^ 21) i = (21 <=? i) && (i <? 52).
Proof. intros. apply testbit_range; [lia|lia|reflexivity|done]. Qed.

(** A pointer to a table: its address with the bits present and writable. *)
Definition table_entry (t : Z) : Z := Z.lor (Z.lor t PAGE_PRESENT) PAGE_RW.

Lemma early_table_entry_bits t i : 0 <= i -> Z.testbit (table_entry t) i = Z.testbit t i || (i <? 2).
Proof.
  intros Hi. unfold table_entry. rewrite <- Z.lor_assoc, Z.lor_spec. f_equal.
  rewrite (testbit_range _ 0 2) by (try reflexivity; lia). zcases.
Qed.

Lemma early_table_entry_spec t :
  (2 ^ 12 | t) -> 0 <= t < 2 ^ 52 ->
  Z.testbit (table_entry t) 0 = true /\ Z.land (table_entry t) page_mask = t /\ addr_of (table_entry t) = t.
Proof.
  intros Hd Ht.
  assert (Hlow : forall i, 0 <= i < 12 -> Z.testbit t i = false) by (intros; by apply (testbit_multiple t 12)).
  assert (Hhigh : forall i, 52 <= i -> Z.testbit t i = false) by (intros; apply (testbit_high t 52); lia).
  split_and!.
  - rewrite early_table_entry_bits by lia. apply orb_true_r.
  - apply Z.bits_inj'. intros i Hi. rewrite Z.land_spec, early_table_entry_bits, testbit_page_mask by lia.
    destruct (decide (i < 12)); [rewrite Hlow by lia|destruct (decide (52 <= i)); [rewrite Hhigh by lia|]];
      zcases; rewrite ?orb_false_r, ?andb_true_r, ?andb_false_r; done.
  - unfold addr_of. apply Z.bits_inj'. intros i Hi. rewrite Z.land_spec, early_table_entry_bits, testbit_addr_mask by lia.
    destruct (decide (i < 12)); [rewrite Hlow by lia|destruct (decide (52 <= i)); [rewrite Hhigh by lia|]];
      zcases; rewrite ?orb_false_r, ?andb_true_r, ?andb_false_r; done.
Qed.

(** A large page: its address, flags of three bits, no execution. *)
Definition large_entry (p flags : Z) : Z := Z.lor (Z.lor (Z.lor p flags) PAGE_NX) 0x80.

Lemma large_entry_spec p flags :
  (2 ^ 21 | p) -> 0 <= p < 2 ^ 52 -> 0 <= flags < 8 -> Z.testbit flags 0 = true ->
  Z.testbit (large_entry p flags) 0 = true /\ Z.testbit (large_entry p flags) 7 = true /\
  Z.testbit (large_entry p flags) 63 = true /\ large_addr_of (large_entry p flags) = p.
Proof.
  intros Hd Hp Hf H0. unfold large_entry, PAGE_NX. split_and!.
  - rewrite !Z.lor_spec, H0. by rewrite orb_true_r.
  - rewrite Z.lor_spec. apply orb_true_r.
  - rewrite !Z.lor_spec, (Z.pow2_bits_true 63) by lia. by rewrite orb_true_r.
  - unfold large_addr_of. apply Z.bits_inj'. intros i Hi.
    rewrite Z.land_spec, !Z.lor_spec, testbit_large_mask, Z.pow2_bits_eqb by lia.
    change 0x80 with (2 ^ 7). rewrite Z.pow2_bits_eqb by lia.
    destruct (decide (i < 21)); [|destruct (decide (52 <= i))].
    + rewrite (testbit_multiple p 21) by (lia || done). zcases; rewrite ?andb_false_r; done.
    + rewrite (testbit_high p 52) by lia. zcases; rewrite ?andb_false_r; done.
    + rewrite (testbit_high flags 3) by lia. zcases; rewrite ?orb_false_r, ?andb_true_r; done.
Qed.

(** * Layout *)

Record layout_ok (L : layout) : Prop := {
  lo_pml4 : (2 ^ 12 | pml4 L) /\ 0 <= pml4 L < 2 ^ 47;
  lo_pdpt : (2 ^ 12 | pdpt L) /\ 0 <= pdpt L < 2 ^ 47;
  lo_pd : (2 ^ 12 | pd L) /\ 0 <= pd L < 2 ^ 47;
  lo_pt : (2 ^ 12 | pt L) /\ 0 <= pt L < 2 ^ 47;
  lo_distinct : NoDup [pml4 L; pdpt L; pd L; pt L]
}.

Lemma page_apart a b x y :
  (2 ^ 12 | a) -> (2 ^ 12 | b) -> a <> b -> a <= x < a + 4096 -> b <= y < b + 4096 -> x <> y.
Proof. intros [i ->] [j ->]. change (2 ^ 12) with 4096. lia. Qed.

Lemma in_arrays_slot L t i :
  t = pml4 L \/ t = pdpt L \/ t = pd L \/ t = pt L -> 0 <= t < 2 ^ 47 -> 0 <= i < 512 ->
  slot t i = t + 8 * i /\ in_arrays L (t + 8 * i) = true.
Proof.
  intros Ht Hr Hi. unfold slot. rewrite u64_small by (unfold in_u64; lia). split; [done|].
  unfold in_arrays, in_table.
  assert (H : (t <=? t + 8 * i) && (t + 8 * i <? t + 4096) = true)
    by (apply andb_true_iff; split; [apply Z.leb_le|apply Z.ltb_lt]; lia).
  destruct Ht as [<-|[<-|[<-|<-]]]; rewrite H, ?orb_true_r; done.
Qed.

Lemma index_range v s : 0 <= index v s < 512.
Proof.
  unfold index. change 0x1FF with (Z.ones 9). rewrite Z.land_ones by lia.
  change (2 ^ 9) with 512. apply Z.mod_pos_bound. lia.
Qed.

Lemma index_small v s : 0 <= s -> 0 <= v -> v < 2 ^ s * 512 -> index v s = v / 2 ^ s.
Proof.
  intros Hs H0 H1. unfold index. change 0x1FF with (Z.ones 9). rewrite Z.land_ones, Z.shiftr_div_pow2 by lia.
  apply Z.mod_small. split; [apply Z.div_pos; lia|]. apply Z.div_lt_upper_bound; lia.
Qed.

(** The two upper levels as [paging_init] leaves them for the first gigabyte. *)
Definition tables_ok (L : layout) (m : Z -> Z) : Prop :=
  m (pml4 L) = table_entry (pdpt L) /\ m (pdpt L) = table_entry (pd L).

(** Following a present table pointer. *)
Lemma get_next_table_present L m t i p create :
  layout_ok L -> t = pml4 L \/ t = pdpt L \/ t = pd L \/ t = pt L -> 0 <= i < 512 ->
  (2 ^ 12 | p) -> 0 <= p < 2 ^ 52 -> m (t + 8 * i) = table_entry p ->
  get_next_table L m t i create = Ok (Some p, m).
Proof.
  intros HL Ht Hi Hd Hp Hm.
  assert (Hr : 0 <= t < 2 ^ 47) by (destruct HL; destruct Ht as [->|[->|[->| ->]]]; tauto).
  destruct (in_arrays_slot L t i Ht Hr Hi) as [Hs Ha].
  destruct (early_table_entry_spec p Hd Hp) as (E1 & E2 & _).
  unfold get_next_table, load. rewrite Hs, Ha. cbn [mbind outcome_bind].
  rewrite Hm, present_test, E1, E2. done.
Qed.

(** * Large pages in the first gigabyte *)

Lemma map_loop_S fuel L m vaddr paddr size end_ flags :
  map_loop (S fuel) L m vaddr paddr size end_ flags =
  if vaddr <? end_ then
    '(t3, m) ← get_next_table L m (pml4 L) (index vaddr 39) true;
    pdpt_table ← deref t3;
    '(t2, m) ← get_next_table L m pdpt_table (index vaddr 30) true;
    pd_table ← deref t2;
    if (size >=? PAGE_SIZE_2MB) && (Z.land vaddr (PAGE_SIZE_2MB - 1) =? 0) then
      m ← store L m (slot pd_table (index vaddr 21)) (Z.lor (Z.lor (Z.lor paddr flags) PAGE_NX) 0x80);
      '(m, inv) ← map_loop fuel L m (u64 (vaddr + PAGE_SIZE_2MB)) (u64 (paddr + PAGE_SIZE_2MB))
        (u64 (size - PAGE_SIZE_2MB)) end_ flags;
      Ok (m, vaddr :: inv)
    else
      '(t1, m) ← get_next_table L m pd_table (index vaddr 21) true;
      pt_table ← deref t1;
      m ← store L m (slot pt_table (index vaddr 12)) (Z.lor (Z.lor paddr flags) PAGE_NX);
      '(m, inv) ← map_loop fuel L m (u64 (vaddr + 4096)) (u64 (paddr + 4096)) (u64 (size - 4096)) end_ flags;
      Ok (m, vaddr :: inv)
  else Ok (m, []).
Proof. reflexivity. Qed.

Lemma map_loop_large L flags n : forall m k p,
  layout_ok L -> tables_ok L m -> 0 <= flags < 8 -> 0 <= k -> k + Z.of_nat n <= 512 ->
  0 <= p -> p + Z.of_nat n * PAGE_SIZE_2MB <= 2 ^ 52 ->
  exists m', map_loop (S n) L m (k * PAGE_SIZE_2MB) p (Z.of_nat n * PAGE_SIZE_2MB)
               ((k + Z.of_nat n) * PAGE_SIZE_2MB) flags = Ok (m', (fun j => (k + Z.of_nat j) * PAGE_SIZE_2MB) <$> seq 0 n) /\
    (forall j, k <= j < k + Z.of_nat n -> m' (pd L + 8 * j) = large_entry (p + (j - k) * PAGE_SIZE_2MB) flags) /\
    (forall a, (forall j, k <= j < k + Z.of_nat n -> a <> pd L + 8 * j) -> m' a = m a).
Proof.
  unfold PAGE_SIZE_2MB. induction n as [|n IH]; intros m k p HL Htab Hf Hk Hn Hp Hlim; rewrite map_loop_S.
  - rewrite (proj2 (Z.ltb_ge _ _)) by lia. exists m. split_and!; [done|lia|done].
  - rewrite (proj2 (Z.ltb_lt _ _)) by lia. destruct Htab as [T4 T3].
    pose proof (lo_pdpt L HL) as [D3 R3]. pose proof (lo_pd L HL) as [D2 R2].
    change (2 * 1024 * 1024) with (2 ^ 21) in *.
    rewrite (index_small _ 39), (index_small _ 30), (index_small _ 21) by lia.
    rewrite (Z.div_small _ (2 ^ 39)), (Z.div_small _ (2 ^ 30)), Z.div_mul by lia.
    rewrite (get_next_table_present L m (pml4 L) 0 (pdpt L)) by (auto; try lia; by rewrite Z.add_0_r).
    cbn [mbind outcome_bind deref].
    rewrite (get_next_table_present L m (pdpt L) 0 (pd L)) by (auto; try lia; by rewrite Z.add_0_r).
    cbn [mbind outcome_bind deref].
    unfold PAGE_SIZE_2MB. change (2 * 1024 * 1024) with (2 ^ 21).
    rewrite Z.geb_leb, (proj2 (Z.leb_le (2 ^ 21) _)) by lia.
    replace (Z.land (k * 2 ^ 21) (2 ^ 21 - 1)) with 0
      by (change (2 ^ 21 - 1) with (Z.ones 21); rewrite Z.land_ones, Z.mod_mul by lia; done).
    cbn [andb Z.eqb]. unfold store.
    destruct (in_arrays_slot L (pd L) k) as [Hs Ha]; [auto|lia|lia|]. rewrite Hs, Ha. cbn [mbind outcome_bind].
    rewrite !u64_small by (unfold in_u64; lia).
    destruct (IH (upd m (pd L + 8 * k) (large_entry p flags)) (k + 1) (p + 2 ^ 21)) as (m' & E & H1 & H2);
      [done| |done|lia|lia|lia|lia|].
    { destruct HL as [[D4 R4] _ _ _ Hnd]. split; rewrite upd_ne; try done.
      - apply (page_apart (pml4 L) (pd L)); auto; try lia. intros Heq. rewrite Heq in Hnd. inversion Hnd; set_solver.
      - apply (page_apart (pdpt L) (pd L)); auto; try lia. intros Heq. rewrite Heq in Hnd.
        inversion Hnd as [|? ? ? Hnd']; subst. inversion Hnd'; set_solver. }
    exists m'. split_and!.
    + replace (k * 2 ^ 21 + 2 ^ 21) with ((k + 1) * 2 ^ 21) by lia.
      replace (Z.of_nat (S n) * 2 ^ 21 - 2 ^ 21) with (Z.of_nat n * 2 ^ 21) by lia.
      replace ((k + Z.of_nat (S n)) * 2 ^ 21) with ((k + 1 + Z.of_nat n) * 2 ^ 21) by lia. fold (large_entry p flags). rewrite E. cbn [mbind outcome_bind seq fmap list_fmap].
      f_equal. f_equal. f_equal; [lia|]. rewrite <- fmap_S_seq, <- list_fmap_compose. apply list_fmap_ext. intros ? j _. cbn. lia.
    + intros j Hj. destruct (decide (j = k)) as [->|Hne].
      * rewrite H2 by lia. rewrite upd_eq. f_equal. lia.
      * rewrite H1 by lia. f_equal. lia.
    + intros a Ha'. rewrite H2 by (intros j Hj; apply Ha'; lia). apply upd_ne. apply Ha'. lia.
Qed.

(** mapping large pages. After the two upper levels are set up, [map_memory] on a
    2 MiB-aligned range of the first gigabyte terminates and succeeds; a walk of the
    tables then leads from every address of the range to the physical range asked
    for, no other word changes, and one [invlpg] was made per large page. Entries for
    4 KiB pages that the processor still holds from an earlier mapping of the range are
    not all dropped by that; and the tables are reached at their own addresses, so the
    range must not move them. *)
Theorem map_memory_large_correct L m k p n flags :
  layout_ok L -> tables_ok L m -> 0 <= k -> k + Z.of_nat n <= 512 ->
  (2 ^ 21 | p) -> 0 <= p -> p + Z.of_nat n * 2 ^ 21 <= 2 ^ 52 ->
  flags ∈ [PAGE_MAP_KERNEL_RW; PAGE_MAP_KERNEL_RX; PAGE_MAP_USER_RW; PAGE_MAP_USER_RX] ->
  exists m', map_memory (S n) L m (k * 2 ^ 21) p (Z.of_nat n * 2 ^ 21) flags = Ok (true, m', (fun j => (k + Z.of_nat j) * 2 ^ 21) <$> seq 0 n) /\ tables_ok L m' /\
    (forall off, 0 <= off < Z.of_nat n * 2 ^ 21 -> walk m' (pml4 L) (k * 2 ^ 21 + off) = Some (p + off)) /\
    (forall a, (forall j, k <= j < k + Z.of_nat n -> a <> pd L + 8 * j) -> m' a = m a).
Proof.
  intros HL Htab Hk Hn Hd Hp Hlim Hfl.
  assert (Hf : 0 <= flags < 8 /\ Z.testbit flags 0 = true).
  { repeat (apply elem_of_cons in Hfl as [->|Hfl]; [done|]). set_solver. }
  destruct Hf as [Hf Hf0].
  destruct (map_loop_large L flags n m k p HL Htab Hf Hk Hn Hp) as (m' & E & H1 & H2); [exact Hlim|].
  exists m'. unfold map_memory. unfold PAGE_SIZE_2MB in *. change (2 * 1024 * 1024) with (2 ^ 21) in *.
  rewrite u64_small by (unfold in_u64; lia).
  replace (k * 2 ^ 21 + Z.of_nat n * 2 ^ 21) with ((k + Z.of_nat n) * 2 ^ 21) by lia. rewrite E.
  pose proof HL as [[D4 R4] [D3 R3] [D2 R2] _ Hnd].
  assert (Htab' : tables_ok L m').
  { destruct Htab as [T4 T3]. split; (rewrite H2; [done|]); intros j Hj.
    - apply (page_apart (pml4 L) (pd L)); auto; try lia. intros Heq. rewrite Heq in Hnd. inversion Hnd; set_solver.
    - apply (page_apart (pdpt L) (pd L)); auto; try lia. intros Heq. rewrite Heq in Hnd.
      inversion Hnd as [|? ? ? Hnd']; subst. inversion Hnd'; set_solver. }
  split_and!; [done|done| |done]. intros off Hoff. destruct Htab' as [T4 T3]. unfold walk.
  assert (Hc : addr_of (pml4 L) = pml4 L).
  { unfold addr_of. apply Z.bits_inj'. intros i Hi. rewrite Z.land_spec, testbit_addr_mask by lia.
    destruct (decide (i < 12)); [rewrite (testbit_multiple (pml4 L) 12) by (lia || done); done|].
    destruct (decide (52 <= i)); [rewrite (testbit_high (pml4 L) 52) by lia; done|].
    zcases; apply andb_true_r. }
  set (j := (k * 2 ^ 21 + off) / 2 ^ 21).
  assert (Hj : k * 2 ^ 21 + off = j * 2 ^ 21 + off mod 2 ^ 21 /\ k <= j < k + Z.of_nat n).
  { subst j. rewrite Z.add_comm, Z.div_add by lia. pose proof (Z.div_mod off (2 ^ 21) ltac:(lia)).
    pose proof (Z.mod_pos_bound off (2 ^ 21) ltac:(lia)).
    split; [lia|]. split; [pose proof (Z.div_pos off (2 ^ 21)); lia|].
    assert (off / 2 ^ 21 < Z.of_nat n) by (apply Z.div_lt_upper_bound; lia). lia. }
  destruct Hj as [Hv Hj].
  rewrite (index_small _ 39), (index_small _ 30), (index_small _ 21) by lia.
  rewrite (Z.div_small _ (2 ^ 39)), (Z.div_small _ (2 ^ 30)) by lia. fold j.
  rewrite Hc, Z.mul_0_r, Z.add_0_r, T4.
  destruct (early_table_entry_spec (pdpt L)) as (-> & _ & ->); [done|lia|].
  destruct (early_table_entry_spec (pd L) D2 ltac:(lia)) as (F1 & _ & F2).
  cbn [negb]. rewrite Z.add_0_r, T3, F1, F2. cbn [negb]. rewrite H1 by done.
  destruct (large_entry_spec (p + (j - k) * 2 ^ 21) flags) as (-> & -> & _ & ->); [|lia|done|done|].
  { apply Z.divide_add_r; [done|]. by exists (j - k). }
  cbn [negb]. f_equal.
  replace ((k * 2 ^ 21 + off) mod 2 ^ 21) with (off mod 2 ^ 21) by (rewrite Z.add_comm, Z.mod_add by lia; done).
  lia.
Qed.

Definition low_layout : layout := {| pml4 := 0x1000; pdpt := 0x2000; pd := 0x3000; pt := 0x4000 |}.

Lemma low_layout_ok : layout_ok low_layout.
Proof.
  split; cbn [pml4 pdpt pd pt low_layout]; try (split; [|lia]).
  - by exists 1.
  - by exists 2.
  - by exists 3.
  - by exists 4.
  - apply (bool_decide_unpack _). vm_compute. done.
Qed.

Lemma map_memory_large_correct_witness :
  exists m', map_memory 3 low_layout (upd (upd (fun _ => 0) 0x1000 0x2003) 0x2000 0x3003) (4 * 2 ^ 21) (2 ^ 32)
      (Z.of_nat 2 * 2 ^ 21) PAGE_MAP_KERNEL_RW = Ok (true, m', [4 * 2 ^ 21; 5 * 2 ^ 21]) /\
    forall off, 0 <= off < Z.of_nat 2 * 2 ^ 21 -> walk m' 0x1000 (4 * 2 ^ 21 + off) = Some (2 ^ 32 + off).
Proof.
  destruct (map_memory_large_correct low_layout (upd (upd (fun _ => 0) 0x1000 0x2003) 0x2000 0x3003) 4 (2 ^ 32) 2
    PAGE_MAP_KERNEL_RW low_layout_ok) as (m' & E & _ & Hw & _); try lia; try done.
  - by exists (2 ^ 11).
  - by apply list_elem_of_here.
  - exists m'. split; [exact E|exact Hw].
Defined.

(** * What [paging_init] leaves *)

Lemma distinct_apart L : layout_ok L ->
  forall x y a b, In (x, y) [(pml4 L, pdpt L); (pml4 L, pd L); (pml4 L, pt L); (pdpt L, pd L); (pdpt L, pt L); (pd L, pt L)] ->
  x <= a < x + 4096 -> y <= b < y + 4096 -> a <> b.
Proof.
  intros [[D4 _] [D3 _] [D2 _] [D1 _] Hnd] x y a b Hin Ha Hb.
  inversion Hnd as [|? ? N4 Hnd3]; subst. inversion Hnd3 as [|? ? N3 Hnd2]; subst. inversion Hnd2 as [|? ? N2 _]; subst.
  apply (page_apart x y); auto.
  1, 2: repeat (destruct Hin as [[= <- <-]|Hin]; [done|]); done.
  repeat (destruct Hin as [[= <- <-]|Hin]; [set_solver|]). done.
Qed.

(** The entry that [paging_init] writes for the [i]-th 2 MiB. *)
Definition init_entry (i : Z) : Z := Z.lor (Z.lor (Z.lor (u64 (i * PAGE_SIZE_2MB)) PAGE_PRESENT) PAGE_RW) PAGE_NX.

Lemma store_slot L m t i v :
  layout_ok L -> t = pml4 L \/ t = pdpt L \/ t = pd L \/ t = pt L -> 0 <= i < 512 ->
  store L m (slot t i) v = Ok (upd m (t + 8 * i) v).
Proof.
  intros HL Ht Hi. assert (Hr : 0 <= t < 2 ^ 47) by (destruct HL; destruct Ht as [->|[->|[->| ->]]]; tauto).
  unfold store. destruct (in_arrays_slot L t i Ht Hr Hi) as [-> ->]. done.
Qed.

Lemma fill_pd_spec L m :
  layout_ok L ->
  exists m', fill_pd L m = Ok m' /\ (forall a, ~ pd L <= a < pd L + 4096 -> m' a = m a) /\
    forall i, 0 <= i < 512 -> m' (pd L + 8 * i) = init_entry i.
Proof.
  intros HL. unfold fill_pd.
  destruct (for_range_spec (fun m' => forall a, ~ pd L <= a < pd L + 4096 -> m' a = m a)
    (fun m' i => m' (pd L + 8 * i)) init_entry 0 512
    (fun i m => store L m (slot (pd L) i) (init_entry i))) with (n := 512%nat) (start := 0) (s := m)
    as (m' & E & Hok & Hv); [|done|lia|lia|].
  - intros s j Hs Hj. rewrite store_slot by (auto; lia). eexists. split_and!; [reflexivity| |apply upd_eq|].
    + intros a Ha. rewrite upd_ne by lia. by apply Hs.
    + intros k Hk Hne. apply upd_ne. lia.
  - exists m'. split_and!; [exact E|done|]. intros j Hj. rewrite Hv by done. zcases.
Qed.

(** [paging_init] succeeds for every placement of the four arrays and touches
    nothing else. The upper levels lead to the page directory, the last entry of the
    top level maps the top level itself; but the 512 directory entries do not carry
    the large-page bit: the processor takes each for a page table at its own
    address, so an address of the first gigabyte is translated through the word
    found there and not to itself. *)
Theorem paging_init_correct L m :
  layout_ok L ->
  exists m', paging_init L m = Ok (m', pml4 L) /\ tables_ok L m' /\
    m' (pml4 L + 8 * 511) = table_entry (pml4 L) /\
    (forall i, 0 <= i < 512 -> m' (pd L + 8 * i) = init_entry i /\ Z.testbit (init_entry i) 7 = false) /\
    (forall a, in_arrays L a = false -> m' a = m a).
Proof.
  intros HL. unfold paging_init.
  set (m0 := zero_range (zero_range (zero_range (zero_range m (pml4 L) 4096) (pdpt L) 4096) (pd L) 4096) (pt L) 4096).
  destruct (fill_pd_spec L m0 HL) as (m1 & -> & Hout & Hpd). cbn [mbind outcome_bind].
  pose proof (distinct_apart L HL) as Hap.
  do 3 (rewrite store_slot by (auto; lia); cbn [mbind outcome_bind]).
  eexists. split; [reflexivity|]. rewrite !Z.mul_0_r, !Z.add_0_r.
  assert (Hne : forall x y a b, In (x, y) [(pml4 L, pdpt L); (pml4 L, pd L); (pml4 L, pt L); (pdpt L, pd L); (pdpt L, pt L); (pd L, pt L)] ->
    0 <= a < 4096 -> 0 <= b < 4096 -> x + a <> y + b) by (intros x y a b Hin Ha Hb; apply (Hap x y); [done|lia|lia]).
  split_and!.
  - split.
    + rewrite upd_ne by lia. apply upd_eq.
    + rewrite (upd_ne _ (pml4 L + 8 * 511)), (upd_ne _ (pml4 L)); [apply upd_eq|..].
      * pose proof (Hne (pml4 L) (pdpt L) 0 0 ltac:(cbn; tauto) ltac:(lia) ltac:(lia)); lia.
      * pose proof (Hne (pml4 L) (pdpt L) 4088 0 ltac:(cbn; tauto) ltac:(lia) ltac:(lia)); lia.
  - apply upd_eq.
  - intros i Hi. split.
    + rewrite !upd_ne; [by apply Hpd|..].
      * pose proof (Hne (pdpt L) (pd L) 0 (8 * i) ltac:(cbn; tauto) ltac:(lia) ltac:(lia)); lia.
      * pose proof (Hne (pml4 L) (pd L) 0 (8 * i) ltac:(cbn; tauto) ltac:(lia) ltac:(lia)); lia.
      * pose proof (Hne (pml4 L) (pd L) 4088 (8 * i) ltac:(cbn; tauto) ltac:(lia) ltac:(lia)); lia.
    + unfold init_entry, PAGE_NX, PAGE_SIZE_2MB. rewrite u64_small by (unfold in_u64; lia).
      rewrite !Z.lor_spec, (testbit_multiple _ 21), Z.pow2_bits_false by (try lia; by exists i). done.
  - intros a Ha. unfold in_arrays, in_table in Ha. zbool.
    assert (Hno : forall t, (t <=? a) && (a <? t + 4096) = false -> forall k, 0 <= k < 4096 -> a <> t + k).
    { intros t Ht k Hk ->. apply andb_false_iff in Ht as [Ht|Ht]; zbool; lia. }
    assert (Hz : forall t, (t <=? a) && (a <? t + 4096) = false -> a < t \/ t + 4096 <= a).
    { intros t Ht. apply andb_false_iff in Ht as [Ht|Ht]; zbool; lia. }
    repeat match goal with H : (_ <=? a) && _ = false |- _ =>
      let N := fresh in pose proof (Hno _ H) as N; pose proof (N 0 ltac:(lia)); pose proof (N 4088 ltac:(lia)); apply Hz in H; clear N end.
    rewrite !upd_ne by lia. rewrite Hout by lia. subst m0. rewrite !zero_range_out by done. done.
Qed.

Lemma paging_init_correct_witness :
  exists m', paging_init low_layout (fun _ => 7) = Ok (m', 0x1000) /\ tables_ok low_layout m'.
Proof.
  destruct (paging_init_correct low_layout (fun _ => 7) low_layout_ok) as (m' & E & Ht & _).
  exists m'. split; [exact E|exact Ht].
Defined.

(** The entries of [paging_init] keep the no-execute bit, and [get_next_table] does
    not remove it from the pointer: mapping a single 4 KiB page of the first gigabyte
    writes through a non-canonical pointer. *)
Lemma init_entry_pointer i :
  0 <= i < 512 -> Z.land (init_entry i) page_mask = 2 ^ 63 + i * 2 ^ 21.
Proof.
  intros Hi. unfold init_entry, PAGE_NX, PAGE_SIZE_2MB. rewrite u64_small by (unfold in_u64; lia).
  change (2 * 1024 * 1024) with (2 ^ 21).
  assert (Hs : Z.lor (i * 2 ^ 21) (2 ^ 63) = 2 ^ 63 + i * 2 ^ 21).
  { assert (Hl : Z.land (2 ^ 63) (i * 2 ^ 21) = 0).
    { apply Z.bits_inj'. intros j Hj. rewrite Z.land_spec, Z.pow2_bits_eqb, Z.bits_0 by lia.
      destruct (63 =? j) eqn:E; zbool; [subst j; rewrite (testbit_high _ 62) by lia; done|done]. }
    rewrite Z.add_nocarry_lxor, Z.lxor_lor by done. apply Z.lor_comm. }
  rewrite <- Hs. apply Z.bits_inj'. intros j Hj.
  rewrite Z.land_spec, !Z.lor_spec, testbit_page_mask by lia.
  destruct (decide (j < 12)).
  - rewrite (testbit_multiple _ 21), Z.pow2_bits_false by (try lia; by exists i). zcases; by rewrite ?andb_false_r.
  - unfold PAGE_PRESENT, PAGE_RW. rewrite (testbit_high 1 1), (testbit_high 2 2) by lia.
    rewrite !orb_false_r. destruct (decide (j < 64)); [zcases; by rewrite ?andb_true_r|].
    rewrite (testbit_high _ 62), Z.pow2_bits_false by lia. done.
Qed.

Lemma map_small_page_faults L m vaddr paddr flags fuel :
  layout_ok L -> tables_ok L m -> (forall i, 0 <= i < 512 -> m (pd L + 8 * i) = init_entry i) ->
  0 <= vaddr < 2 ^ 30 ->
  map_memory (S fuel) L m vaddr paddr 4096 flags = Undef "wild pointer".
Proof.
  intros HL [T4 T3] Hpd Hv. unfold map_memory. rewrite map_loop_S, u64_small by (unfold in_u64; lia).
  rewrite (proj2 (Z.ltb_lt _ _)) by lia.
  pose proof (lo_pdpt L HL) as [D3 R3]. pose proof (lo_pd L HL) as [D2 R2].
  assert (Hi : index vaddr 39 = 0 /\ index vaddr 30 = 0).
  { rewrite !index_small, !Z.div_small by lia. done. }
  destruct Hi as [-> ->].
  rewrite (get_next_table_present L m (pml4 L) 0 (pdpt L)) by (auto; try lia; by rewrite Z.add_0_r).
  cbn [mbind outcome_bind deref].
  rewrite (get_next_table_present L m (pdpt L) 0 (pd L)) by (auto; try lia; by rewrite Z.add_0_r).
  cbn [mbind outcome_bind deref]. change (4096 >=? PAGE_SIZE_2MB) with false. cbn [andb].
  pose proof (index_range vaddr 21) as Hir.
  unfold get_next_table, load. destruct (in_arrays_slot L (pd L) (index vaddr 21)) as [-> ->]; [auto|lia|lia|].
  cbn [mbind outcome_bind]. rewrite Hpd, present_test, init_entry_pointer by lia.
  replace (Z.testbit (init_entry (index vaddr 21)) 0) with true.
  2: { symmetry. unfold init_entry. rewrite !Z.lor_spec. rewrite orb_true_r. done. }
  cbn [negb mbind outcome_bind deref]. unfold store, slot.
  pose proof (index_range vaddr 12).
  rewrite (u64_small (2 ^ 63 + index vaddr 21 * 2 ^ 21 + 8 * index vaddr 12)) by (unfold in_u64; lia).
  assert (Hw : in_arrays L (2 ^ 63 + index vaddr 21 * 2 ^ 21 + 8 * index vaddr 12) = false).
  { destruct HL as [[_ ?] [_ ?] [_ ?] [_ ?] _]. unfold in_arrays, in_table.
    rewrite !(proj2 (Z.ltb_ge _ _)) by lia. rewrite !andb_false_r. done. }
  rewrite Hw. done.
Qed.

(** The table that a missing entry of the top level gets and the one that the same
    index of the next level gets are the same page. *)
Lemma new_tables_alias L m index :
  layout_ok L -> 0 <= index < 512 -> m (pml4 L + 8 * index) = 0 -> m (pdpt L + 8 * index) = 0 ->
  in_arrays L (pd L + 4096 * index) = true ->
  exists m1 m2, get_next_table L m (pml4 L) index true = Ok (Some (pd L + 4096 * index), m1) /\
                get_next_table L m (pdpt L) index true = Ok (Some (pd L + 4096 * index), m2).
Proof.
  intros HL Hi H4 H3 Ha. pose proof (lo_pd L HL) as [D2 R2].
  assert (Hnew : forall t, t = pml4 L \/ t = pdpt L \/ t = pd L \/ t = pt L -> m (t + 8 * index) = 0 ->
    exists m', get_next_table L m t index true = Ok (Some (pd L + 4096 * index), m')).
  { intros t Ht Hm.
    assert (Hr : 0 <= t < 2 ^ 47) by (destruct HL; destruct Ht as [->|[->|[->| ->]]]; tauto).
    destruct (in_arrays_slot L t index Ht Hr Hi) as [Hs Hin].
    unfold get_next_table, load, store. rewrite Hs, Hin. cbn [mbind outcome_bind]. rewrite Hm. cbn [Z.land Z.eqb negb].
    rewrite u64_small, Ha by (unfold in_u64; lia). cbn [mbind outcome_bind]. rewrite upd_eq.
    destruct (early_table_entry_spec (pd L + 4096 * index)) as (_ & He & _);
      [apply Z.divide_add_r; [done|exists index; lia]|lia|].
    unfold table_entry in He. rewrite He. eauto. }
  destruct (Hnew (pml4 L)) as [m1 E1]; [auto|done|]. destruct (Hnew (pdpt L)) as [m2 E2]; [auto|done|].
  eauto.
Qed.

End Early.
