(* ===== verification/EarlyPaging32.v ===== *)
(** * The two-level identity map ([init_paging] of src/arch/x86_64/kernel.c) *)
From Stdlib Require Import ZArith Lia.
From stdpp Require Import strings numbers gmap base.
From stdpp Require Import list.
From S2P Require Import Prelude EarlyPaging.

Open Scope Z_scope.

Module Early32.

Definition PAGE_PRESENT : Z := 0x1.
Definition PAGE_RW : Z := 0x2.

(** [kernel_page_table] and [kernel_page_directory]. *)
Record tables := { page_table : list Z; page_directory : list Z }.

Definition fill_table (t : list Z) : outcome (list Z) :=
  for_range 1024 0 (fun i t => arr_set t i (u32 (Z.lor (Z.lor (i * 0x1000) PAGE_PRESENT) PAGE_RW))) t.

Definition clear_directory (d : list Z) : outcome (list Z) :=
  for_range 1023 1 (fun i d => arr_set d i 0) d.

(** [pt_addr] is the address of the page table. *)
Definition init_paging (pt_addr : Z) (k : tables) : outcome tables :=
  t ← fill_table (page_table k);
  d ← arr_set (page_directory k) 0 (Z.lor (Z.lor (u32 pt_addr) PAGE_PRESENT) PAGE_RW);
  d ← clear_directory d;
  Ok {| page_table := t; page_directory := d |}.

(** Two-level translation of a 32-bit address; only directory entry 0 leads to the
    table, which sits at its address. *)
Definition walk32 (k : tables) (pt_addr v : Z) : option Z :=
  match page_directory k !! Z.to_nat (v / 2 ^ 22) with
  | Some d =>
      if Z.testbit d 0 && (Z.land d 0xFFFFF000 =? pt_addr) then
        match page_table k !! Z.to_nat (v / 2 ^ 12 mod 1024) with
        | Some e => if Z.testbit e 0 then Some (Z.land e 0xFFFFF000 + v mod 2 ^ 12) else None
        | None => None
        end
      else None
  | None => None
  end.

Lemma arr_loop_spec (f : Z -> Z) n start t :
  length t = 1024%nat -> 0 <= start -> start + Z.of_nat n <= 1024 ->
  exists t', for_range n start (fun i t => arr_set t i (f i)) t = Ok t' /\ length t' = 1024%nat /\
    forall j, 0 <= j < 1024 -> t' !! Z.to_nat j =
      if (start <=? j) && (j <? start + Z.of_nat n) then Some (f j) else t !! Z.to_nat j.
Proof.
  intros Hl H0 Hn.
  apply (for_range_spec (fun t => length t = 1024%nat) (fun t j => t !! Z.to_nat j) (fun j => Some (f j)) 0 1024);
    try done.
  intros s j Hs Hj. unfold arr_set. rewrite Hs, (proj2 (Z.leb_le 0 j)), (proj2 (Z.ltb_lt j _)) by lia.
  eexists. split_and!; [reflexivity|by rewrite length_insert|apply list_lookup_insert_eq; lia|].
  intros i Hi Hne. apply list_lookup_insert_ne. lia.
Qed.

(** An entry holds its page's address. *)
Lemma page_entry a : (2 ^ 12 | a) -> 0 <= a < 2 ^ 32 ->
  let e := Z.lor (Z.lor a PAGE_PRESENT) PAGE_RW in
  Z.testbit e 0 = true /\ Z.land e 0xFFFFF000 = a /\ u32 e = e.
Proof.
  intros Hd Ha e.
  assert (Hb : forall i, 0 <= i -> Z.testbit e i = Z.testbit a i || (i <? 2)).
  { intros i Hi. subst e. rewrite <- Z.lor_assoc, Z.lor_spec. f_equal.
    rewrite (testbit_range _ 0 2) by (try reflexivity; lia). zcases. }
  split_and!.
  - rewrite Hb by lia. apply orb_true_r.
  - apply Z.bits_inj'. intros i Hi. rewrite Z.land_spec, Hb, (testbit_range 0xFFFFF000 12 32) by (try reflexivity; lia).
    destruct (decide (i < 12)); [rewrite (testbit_multiple a 12) by (lia || done)|
      destruct (decide (32 <= i)); [rewrite (testbit_high a 32) by lia|]];
      zcases; rewrite ?orb_false_r, ?andb_true_r, ?andb_false_r; done.
  - apply Z.mod_small.
    assert (H0 : 0 <= e) by (subst e; rewrite !Z.lor_nonneg; unfold PAGE_PRESENT, PAGE_RW; lia).
    split; [done|]. apply bits_range; [lia|done|].
    intros i Hi. rewrite Hb, (testbit_high a 32) by lia. zcases.
Qed.

(** after [init_paging], whatever the tables held, every address of the first
    4 MiB is translated to itself and no other 32-bit address is mapped. *)
Theorem init_paging_identity pt_addr k :
  length (page_table k) = 1024%nat -> length (page_directory k) = 1024%nat ->
  (2 ^ 12 | pt_addr) -> 0 <= pt_addr < 2 ^ 32 ->
  exists k', init_paging pt_addr k = Ok k' /\
    forall v, 0 <= v < 2 ^ 32 -> walk32 k' pt_addr v = if v <? 2 ^ 22 then Some v else None.
Proof.
  intros Ht Hd Ha Hr. unfold init_paging, fill_table, clear_directory.
  destruct (arr_loop_spec (fun i => u32 (Z.lor (Z.lor (i * 0x1000) PAGE_PRESENT) PAGE_RW)) 1024 0 (page_table k))
    as (t & -> & Hlt & Hget); [done|lia|lia|]. cbn [mbind outcome_bind].
  replace (u32 pt_addr) with pt_addr by (symmetry; apply Z.mod_small; lia).
  destruct (page_entry pt_addr Ha Hr) as (P1 & P2 & _).
  set (e0 := Z.lor (Z.lor pt_addr PAGE_PRESENT) PAGE_RW) in *.
  assert (Hs : arr_set (page_directory k) 0 e0 = Ok (<[0%nat := e0]> (page_directory k)))
    by (unfold arr_set; rewrite Hd; done).
  rewrite Hs. cbn [mbind outcome_bind].
  destruct (arr_loop_spec (fun _ => 0) 1023 1 (<[0%nat := e0]> (page_directory k)))
    as (d & -> & Hld & Hgd); [by rewrite length_insert|lia|lia|]. cbn [mbind outcome_bind].
  eexists. split; [reflexivity|]. intros v Hv. unfold walk32. cbn [page_directory page_table].
  assert (Hq : 0 <= v / 2 ^ 22 < 1024) by (split; [apply Z.div_pos; lia|apply Z.div_lt_upper_bound; lia]).
  rewrite Hgd by done. change (1 + Z.of_nat 1023) with 1024.
  destruct (v <? 2 ^ 22) eqn:Ev; zbool.
  - rewrite (Z.div_small v (2 ^ 22)) by lia. cbn [Z.leb andb Z.compare].
    change (Z.to_nat 0) with 0%nat. rewrite list_lookup_insert_eq by lia. rewrite P1, P2, Z.eqb_refl. cbn [andb].
    assert (Hp : 0 <= v / 2 ^ 12 < 1024) by (split; [apply Z.div_pos; lia|apply Z.div_lt_upper_bound; lia]).
    rewrite Z.mod_small, Hget by lia. change (0 + Z.of_nat 1024) with 1024.
    rewrite (proj2 (Z.leb_le 0 _)), (proj2 (Z.ltb_lt (v / 2 ^ 12) 1024)) by lia. cbn [andb].
    destruct (page_entry (v / 2 ^ 12 * 0x1000)) as (Q0 & Q1 & Q2); [by exists (v / 2 ^ 12)|lia| ].
    rewrite Q2, Q0, Q1. pose proof (Z.div_mod v (2 ^ 12) ltac:(lia)). f_equal. lia.
  - assert (Hk : 1 <= v / 2 ^ 22) by (apply Z.div_le_lower_bound; lia).
    rewrite (proj2 (Z.leb_le 1 _)), (proj2 (Z.ltb_lt (v / 2 ^ 22) 1024)) by lia. done.
Qed.

Lemma init_paging_identity_witness :
  exists k', init_paging 0x5000 {| page_table := replicate 1024 7; page_directory := replicate 1024 7 |} = Ok k' /\
    forall v, 0 <= v < 2 ^ 32 -> walk32 k' 0x5000 v = if v <? 2 ^ 22 then Some v else None.
Proof.
  apply (init_paging_identity 0x5000 {| page_table := replicate 1024 7; page_directory := replicate 1024 7 |});
    [done|done|by exists 5|lia].
Defined.

End Early32.
