(* ===== verification/Multiboot2.v ===== *)
(** * The Multiboot2 parser
    (src/kernel/bootloader/src/core/multiboot2_parser.c, multiboot2_parser.h)

    The information block is a region of bytes; reading outside it is undefined. The
    tag walk has no bound of its own: it stops at the end tag, so fuel stands for
    the number of tags inspected and [Hang] for a walk that is still going. The
    structs [multiboot2_tag_mmap], [multiboot2_tag_string] and
    [multiboot2_tag_basic_meminfo] and one tag number are used but not declared in
    the sources; their offsets are the parameters of Section [Structs]. *)
From Stdlib Require Import ZArith Lia.
From stdpp Require Import strings numbers gmap base.
From stdpp Require Import list.
From S2P Require Import Prelude.

Open Scope Z_scope.

Module Mb2.

Definition MULTIBOOT2_BOOTLOADER_MAGIC : Z := 0x36d76289.
Definition TAG_TYPE_END : Z := 0.
Definition TAG_TYPE_CMDLINE : Z := 1.
Definition TAG_TYPE_BOOT_LOADER_NAME : Z := 2.
Definition TAG_TYPE_MMAP : Z := 6.

(** [ALIGN(x, a)] on [uintptr_t]. *)
Definition ALIGN (x a : Z) : Z := Z.land (u64 (x + (a - 1))) (not64 (a - 1)).

(** The header the image carries. *)
Record multiboot2_header := { magic : Z; architecture : Z; header_length : Z; checksum : Z }.

Definition header : multiboot2_header :=
  {| magic := MULTIBOOT2_BOOTLOADER_MAGIC; architecture := 0; header_length := 16;
     checksum := u32 (- (MULTIBOOT2_BOOTLOADER_MAGIC + 0 + 16)) |}.

(** * Memory *)

Record region := { r_base : Z; r_bytes : list Z }.

(** Little-endian value of a list of bytes. *)
Fixpoint le_val (bs : list Z) : Z :=
  match bs with [] => 0 | b :: r => b + 256 * le_val r end.

Definition rd (n : nat) (r : region) (addr : Z) : outcome Z :=
  let off := addr - r_base r in
  if (0 <=? off) && (off + Z.of_nat n <=? Z.of_nat (length (r_bytes r)))
  then Ok (le_val (take n (drop (Z.to_nat off) (r_bytes r))))
  else Undef "read outside the information block".

(** A C string: the bytes up to the first 0. *)
Fixpoint c_string (bs : list Z) : outcome (list Z) :=
  match bs with
  | [] => Undef "read outside the information block"
  | b :: r => if b =? 0 then Ok [] else s ← c_string r; Ok (b :: s)
  end.

Definition rd_string (r : region) (addr : Z) : outcome (list Z) :=
  let off := addr - r_base r in
  if 0 <=? off then c_string (drop (Z.to_nat off) (r_bytes r))
  else Undef "read outside the information block".

(** * The tag walk *)

(** The loop of [find_multiboot2_tag]; [None] is NULL. *)
Fixpoint tag_loop (fuel : nat) (r : region) (type tag : Z) : outcome (option Z) :=
  match fuel with
  | O => Hang
  | S fuel' =>
      ty ← rd 4 r tag;
      if ty =? TAG_TYPE_END then Ok None
      else if ty =? type then Ok (Some tag)
      else size ← rd 4 r (tag + 4);
           tag_loop fuel' r type (ALIGN (u64 (tag + size)) 8)
  end.

(** A null pointer is [None]. *)
Definition find_multiboot2_tag (fuel : nat) (type : Z) (info : option region) : outcome (option Z) :=
  match info with
  | None => Ok None
  | Some r => tag_loop fuel r type (r_base r + 8)
  end.

(** * Printing *)

Definition get_memory_type_string (type : Z) : string :=
  match type with
  | 1 => "Available"
  | 2 => "Reserved"
  | 3 => "ACPI Reclaimable"
  | 4 => "NVS"
  | 5 => "Bad RAM"
  | _ => "Unknown"
  end.

Inductive log :=
| InvalidInfo
| InvalidMagic (magic : Z)
| Magic (magic : Z)
| TotalSize (n : Z)
| NoMemoryMap
| MemoryMapTitle
| MapLine (base length : Z) (type : string)
| Bootloader (name : list Z)
| NoBootloader
| Cmdline (text : list Z)
| NoCmdline
| LowerMemory (kb : Z)
| UpperMemory (kb : Z)
| NoMeminfo.

Section Structs.

Variables entries_off entry_size_off string_off lower_off upper_off TAG_TYPE_BASIC_MEMINFO : Z.

(** The loop of [print_memory_map]. *)
Fixpoint map_loop (fuel : nat) (r : region) (entry end_ entry_size : Z) : outcome (list log) :=
  match fuel with
  | O => Hang
  | S fuel' =>
      if entry <? end_ then
        base_addr ← rd 8 r entry;
        length ← rd 8 r (entry + 8);
        type ← rd 4 r (entry + 16);
        rest ← map_loop fuel' r (entry + entry_size) end_ entry_size;
        Ok (MapLine base_addr length (get_memory_type_string type) :: rest)
      else Ok []
  end.

Definition print_memory_map (fuel : nat) (info : option region) : outcome (list log) :=
  found ← find_multiboot2_tag fuel TAG_TYPE_MMAP info;
  match found, info with
  | Some tag, Some r =>
      size ← rd 4 r (tag + 4);
      entry_size ← rd 4 r (tag + entry_size_off);
      lines ← map_loop fuel r (tag + entries_off) (tag + size) entry_size;
      Ok (MemoryMapTitle :: lines)
  | _, _ => Ok [NoMemoryMap]
  end.

Definition print_bootloader_info (fuel : nat) (info : option region) : outcome (list log) :=
  found ← find_multiboot2_tag fuel TAG_TYPE_BOOT_LOADER_NAME info;
  match found, info with
  | Some tag, Some r => s ← rd_string r (tag + string_off); Ok [Bootloader s]
  | _, _ => Ok [NoBootloader]
  end.

Definition print_kernel_cmdline (fuel : nat) (info : option region) : outcome (list log) :=
  found ← find_multiboot2_tag fuel TAG_TYPE_CMDLINE info;
  match found, info with
  | Some tag, Some r => s ← rd_string r (tag + string_off); Ok [Cmdline s]
  | _, _ => Ok [NoCmdline]
  end.

Definition parse_multiboot2_info (fuel : nat) (info : option region) : outcome (list log) :=
  match info with
  | None => Ok [InvalidInfo]
  | Some r =>
      total_size ← rd 4 r (r_base r);
      l1 ← print_memory_map fuel info;
      l2 ← print_bootloader_info fuel info;
      l3 ← print_kernel_cmdline fuel info;
      Ok ([TotalSize total_size] ++ l1 ++ l2 ++ l3)
  end.

Definition print_system_info (fuel : nat) (info : option region) : outcome (list log) :=
  found ← find_multiboot2_tag fuel TAG_TYPE_BASIC_MEMINFO info;
  match found, info with
  | Some tag, Some r =>
      lower ← rd 4 r (tag + lower_off);
      upper ← rd 4 r (tag + upper_off);
      Ok [LowerMemory lower; UpperMemory upper]
  | _, _ => Ok [NoMeminfo]
  end.

Definition multiboot2_entry (fuel : nat) (m : Z) (info : option region) : outcome (list log) :=
  if negb (m =? MULTIBOOT2_BOOTLOADER_MAGIC) then Ok [InvalidMagic m]
  else
    l1 ← parse_multiboot2_info fuel info;
    l2 ← print_system_info fuel info;
    Ok ([Magic m] ++ l1 ++ l2).

End Structs.

(** * Encoding: what a boot loader writes *)

Fixpoint le (n : nat) (v : Z) : list Z :=
  match n with O => [] | S n' => v mod 256 :: le n' (v / 256) end.

(** A tag is its type and its content after the two header words. *)
Definition tag := (Z * list Z)%type.

Definition tag_size (t : tag) : Z := 8 + Z.of_nat (length t.2).

(** Bytes up to the next multiple of eight. *)
Definition padding (n : Z) : Z := (- n) mod 8.

Definition encode_tag (t : tag) : list Z :=
  le 4 t.1 ++ le 4 (tag_size t) ++ t.2 ++ replicate (Z.to_nat (padding (tag_size t))) 0.

Definition encode_tags (ts : list tag) : list Z := concat (map encode_tag ts) ++ le 4 0 ++ le 4 8.

Definition encode_info (base : Z) (ts : list tag) : region :=
  {| r_base := base;
     r_bytes := le 4 (16 + Z.of_nat (length (concat (map encode_tag ts)))) ++ le 4 0 ++ encode_tags ts |}.

(** A tag the specification allows: a type of 32 bits other than the end, a content
    whose size fits, and bytes. *)
Definition tag_wf (t : tag) : Prop :=
  0 < t.1 < 2 ^ 32 /\ tag_size t < 2 ^ 32 /\ Forall (fun b => 0 <= b < 256) t.2.

(** Address of the first tag of a type, by counting. *)
Fixpoint locate (type : Z) (ts : list tag) (addr : Z) : option Z :=
  match ts with
  | [] => None
  | t :: ts' => if t.1 =? type then Some addr
                else locate type ts' (addr + tag_size t + padding (tag_size t))
  end.

(** * Lemmas on bytes *)

Lemma length_le n v : length (le n v) = n.
Proof. revert v. induction n; intros; cbn; auto. Qed.

Lemma le_val_le n v : 0 <= v < 256 ^ Z.of_nat n -> le_val (le n v) = v.
Proof.
  revert v. induction n as [|n IH]; intros v Hv; cbn [le le_val].
  - change (256 ^ Z.of_nat 0) with 1 in Hv. lia.
  - rewrite Nat2Z.inj_succ, Z.pow_succ_r in Hv by lia. rewrite IH.
    + pose proof (Z.div_mod v 256 ltac:(lia)). lia.
    + split; [apply Z.div_pos; lia|apply Z.div_lt_upper_bound; lia].
Qed.

(** A field is read back where it was written. *)
Lemma rd_at n r pre v post addr :
  r_bytes r = pre ++ le n v ++ post -> addr = r_base r + Z.of_nat (length pre) ->
  0 <= v < 256 ^ Z.of_nat n -> rd n r addr = Ok v.
Proof.
  intros Hb -> Hv. unfold rd. rewrite Hb, !length_app, length_le.
  rewrite Z.add_simpl_l.
  rewrite (proj2 (Z.leb_le 0 _)), (proj2 (Z.leb_le (Z.of_nat (length pre) + Z.of_nat n) _)) by lia. cbn [andb].
  rewrite Nat2Z.id, drop_app_length, take_app_length' by (by rewrite length_le).
  by rewrite le_val_le.
Qed.

(** A read that succeeds lies inside the block. *)
Lemma rd_inside n r addr v :
  rd n r addr = Ok v -> r_base r <= addr /\ addr + Z.of_nat n <= r_base r + Z.of_nat (length (r_bytes r)).
Proof. unfold rd. destruct (_ && _) eqn:E; [|done]. zbool. intros _. lia. Qed.

Lemma ALIGN_8 x : 0 <= x -> x + 7 < 2 ^ 64 -> ALIGN x 8 = x + padding x.
Proof.
  intros H0 H1. unfold ALIGN, padding. rewrite u64_small by (unfold in_u64; lia).
  change (8 - 1) with (2 ^ 3 - 1). rewrite land_not64_pow2 by (unfold in_u64; lia).
  change (2 ^ 3) with 8. pose proof (Z.div_mod (x + (8 - 1)) 8 ltac:(lia)).
  pose proof (Z.mod_pos_bound (x + (8 - 1)) 8 ltac:(lia)).
  pose proof (Z.div_mod (- x) 8 ltac:(lia)). pose proof (Z.mod_pos_bound (- x) 8 ltac:(lia)). lia.
Qed.

Lemma padding_add a n : (8 | a) -> padding (a + n) = padding n.
Proof.
  intros [k ->]. unfold padding. replace (- (k * 8 + n)) with (- n + - k * 8) by lia.
  apply Z.mod_add. lia.
Qed.

Lemma padding_range n : 0 <= padding n < 8.
Proof. apply Z.mod_pos_bound. lia. Qed.

Lemma padding_aligned n : (8 | n + padding n).
Proof.
  unfold padding. exists (- (- n / 8)). pose proof (Z.div_mod (- n) 8 ltac:(lia)). lia.
Qed.

Lemma length_encode_tag t : Z.of_nat (length (encode_tag t)) = tag_size t + padding (tag_size t).
Proof.
  unfold encode_tag, tag_size. rewrite !length_app, !length_le, length_replicate.
  pose proof (padding_range (8 + Z.of_nat (length t.2))). lia.
Qed.

(** * The walk over an encoded block *)

Lemma tag_loop_S fuel r type tag :
  tag_loop (S fuel) r type tag =
    ty ← rd 4 r tag;
    if ty =? TAG_TYPE_END then Ok None
    else if ty =? type then Ok (Some tag)
    else size ← rd 4 r (tag + 4); tag_loop fuel r type (ALIGN (u64 (tag + size)) 8).
Proof. reflexivity. Qed.

Lemma tag_loop_encoded type ts r pre tail fuel :
  (length ts < fuel)%nat ->
  r_bytes r = pre ++ encode_tags ts ++ tail -> 0 <= r_base r -> (8 | r_base r) -> (8 | Z.of_nat (length pre)) ->
  r_base r + Z.of_nat (length (r_bytes r)) < 2 ^ 63 -> Forall tag_wf ts ->
  tag_loop fuel r type (r_base r + Z.of_nat (length pre)) =
    Ok (locate type ts (r_base r + Z.of_nat (length pre))).
Proof.
  intros Hf Hb H0 Ha Hp Hlim Hwf. revert pre fuel Hf Hb Hp.
  induction Hwf as [|t ts (Ht & Hsz & _) Hwf IH]; intros pre fuel Hf Hb Hp;
    (destruct fuel as [|fuel]; [lia|]); rewrite tag_loop_S; unfold encode_tags in Hb; cbn [map concat locate app] in *.
  - rewrite (rd_at 4 r pre 0 (le 4 8 ++ tail) (r_base r + Z.of_nat (length pre))); [reflexivity|by rewrite Hb, <- !app_assoc|done|done].
  - assert (Hb' : r_bytes r = pre ++ le 4 t.1 ++ (le 4 (tag_size t) ++ t.2 ++
        replicate (Z.to_nat (padding (tag_size t))) 0) ++ encode_tags ts ++ tail).
    { rewrite Hb. unfold encode_tags, encode_tag. rewrite <- !app_assoc. reflexivity. }
    assert (0 <= tag_size t) by (unfold tag_size; lia).
    rewrite (rd_at 4 r pre t.1 _ (r_base r + Z.of_nat (length pre)) Hb') by (done || lia). cbn [mbind outcome_bind].
    rewrite (proj2 (Z.eqb_neq t.1 TAG_TYPE_END)) by (unfold TAG_TYPE_END; lia).
    destruct (t.1 =? type); [done|].
    rewrite (rd_at 4 r (pre ++ le 4 t.1) (tag_size t)
      (t.2 ++ replicate (Z.to_nat (padding (tag_size t))) 0 ++ encode_tags ts ++ tail))
      by (rewrite ?length_app, ?length_le, ?Hb', <- ?app_assoc; cbn; lia || done).
    cbn [mbind outcome_bind].
    pose proof (padding_range (tag_size t)). pose proof (length_encode_tag t) as Hlen.
    assert (Hfit : Z.of_nat (length (pre ++ encode_tag t)) <= Z.of_nat (length (r_bytes r))).
    { rewrite Hb', !length_app. unfold encode_tag. rewrite !length_app, length_le. lia. }
    rewrite length_app in Hfit.
    rewrite u64_small, ALIGN_8 by (unfold in_u64; lia).
    rewrite padding_add by (apply Z.divide_add_r; done).
    replace (r_base r + Z.of_nat (length pre) + tag_size t + padding (tag_size t))
      with (r_base r + Z.of_nat (length (pre ++ encode_tag t))) by (rewrite length_app; lia).
    apply IH; [cbn in Hf; lia| |].
    + rewrite Hb'. unfold encode_tag. rewrite <- !app_assoc. reflexivity.
    + rewrite length_app, Nat2Z.inj_add, Hlen. apply Z.divide_add_r; [done|apply padding_aligned].
Qed.

(** on the block a boot loader writes for any list of tags, at any aligned
    address, the search terminates after at most one step per tag and returns the
    address of the first tag of the wanted type, or NULL when there is none. *)
Theorem find_tag_correct base ts type fuel :
  0 <= base -> (8 | base) -> Forall tag_wf ts ->
  base + Z.of_nat (length (r_bytes (encode_info base ts))) < 2 ^ 63 -> (length ts < fuel)%nat ->
  find_multiboot2_tag fuel type (Some (encode_info base ts)) = Ok (locate type ts (base + 8)).
Proof.
  intros H0 Ha Hwf Hlim Hf. unfold find_multiboot2_tag.
  pose proof (tag_loop_encoded type ts (encode_info base ts)
    (le 4 (16 + Z.of_nat (length (concat (map encode_tag ts)))) ++ le 4 0) [] fuel) as H.
  rewrite length_app, !length_le in H. apply H; try done.
  cbn [encode_info r_bytes]. rewrite app_nil_r, <- app_assoc. done.
Qed.

Definition example_tags : list tag :=
  [(1, [99; 0]); (6, le 4 24 ++ le 4 0 ++ le 8 0 ++ le 8 0x9FC00 ++ le 4 1 ++ le 4 0); (2, [71; 0])].

Lemma example_tags_wf : Forall tag_wf example_tags.
Proof.
  repeat (apply Forall_cons; split); [..|apply Forall_nil; done];
    (split; [cbn; lia|split; [vm_compute; done|apply (bool_decide_unpack _); vm_compute; done]]).
Qed.

Lemma find_tag_correct_witness :
  find_multiboot2_tag 5 6 (Some (encode_info 0x10000 example_tags)) = Ok (Some 0x10018).
Proof.
  apply (find_tag_correct 0x10000 example_tags 6 5); [lia|by exists 0x2000|exact example_tags_wf|vm_compute; done|cbn; lia].
Defined.

(** * Termination on any block *)

(** The addresses the walk inspects, from the first one behind the header of the block:
    from a tag that is neither the end nor wanted, on to the next multiple of eight
    behind it. *)
Inductive visits (r : region) (type : Z) : Z -> Prop :=
| visit_first : visits r type (r_base r + 8)
| visit_next a ty size :
    visits r type a -> rd 4 r a = Ok ty -> ty <> TAG_TYPE_END -> ty <> type -> rd 4 r (a + 4) = Ok size ->
    visits r type (a + size + padding (a + size)).

(** A tag the walk cannot leave: not the end, not the wanted type, and size 0. *)
Definition stuck_tag (r : region) (type a : Z) : Prop :=
  exists ty, rd 4 r a = Ok ty /\ ty <> TAG_TYPE_END /\ ty <> type /\ rd 4 r (a + 4) = Ok 0.

(** Some word of the tag's header lies outside the block. *)
Definition cut_off (r : region) (a : Z) : Prop :=
  a < r_base r \/ r_base r + Z.of_nat (length (r_bytes r)) < a + 8.

Lemma le_val_range bs : Forall (fun b => 0 <= b < 256) bs -> 0 <= le_val bs < 256 ^ Z.of_nat (length bs).
Proof.
  induction 1 as [|b bs Hb H IH]; cbn [le_val length]; [done|].
  rewrite Nat2Z.inj_succ, Z.pow_succ_r by lia. lia.
Qed.

Lemma rd_range n r a v :
  Forall (fun b => 0 <= b < 256) (r_bytes r) -> rd n r a = Ok v -> 0 <= v < 256 ^ Z.of_nat n.
Proof.
  intros Hb. unfold rd. destruct (_ && _) eqn:E; [|done]. zbool. intros [= <-].
  assert (Hl : length (take n (drop (Z.to_nat (a - r_base r)) (r_bytes r))) = n)
    by (rewrite length_take, length_drop; lia).
  rewrite <- Hl at 3. apply le_val_range. apply Forall_take, Forall_drop. done.
Qed.

Lemma rd_cases r a :
  (exists v, rd 4 r a = Ok v) \/
  (rd 4 r a = Undef "read outside the information block" /\
   (a < r_base r \/ r_base r + Z.of_nat (length (r_bytes r)) < a + 4)).
Proof.
  unfold rd. destruct (_ && _) eqn:E; [left; eauto|right; split; [done|]].
  destruct (Z.leb_spec 0 (a - r_base r)); cbn [andb] in E; [|lia]. zbool. change (Z.of_nat 4) with 4 in E. lia.
Qed.

Section Walk.

Variables (r : region) (type : Z).
Hypothesis Hbytes : Forall (fun b => 0 <= b < 256) (r_bytes r).
Hypothesis Hbase : 0 <= r_base r.
Hypothesis Haligned : (8 | r_base r).
Hypothesis Hlim : r_base r + Z.of_nat (length (r_bytes r)) < 2 ^ 63.

(** One turn of the loop that goes on. *)
Lemma tag_loop_next fuel a ty size :
  0 <= a -> rd 4 r a = Ok ty -> ty <> TAG_TYPE_END -> ty <> type -> rd 4 r (a + 4) = Ok size ->
  0 <= size /\ tag_loop (S fuel) r type a = tag_loop fuel r type (a + size + padding (a + size)).
Proof.
  intros Ha Ety N1 N2 Esz. pose proof (rd_range 4 r _ _ Hbytes Esz) as Hsz. change (256 ^ Z.of_nat 4) with (2 ^ 32) in Hsz.
  pose proof (rd_inside 4 r _ _ Esz) as Hin. change (Z.of_nat 4) with 4 in Hin. split; [lia|].
  rewrite tag_loop_S, Ety. cbn [mbind outcome_bind].
  rewrite (proj2 (Z.eqb_neq ty TAG_TYPE_END)), (proj2 (Z.eqb_neq ty type)), Esz by done. cbn [mbind outcome_bind].
  by rewrite u64_small, ALIGN_8 by (unfold in_u64; lia).
Qed.

Lemma visits_aligned a : visits r type a -> (8 | a) /\ 0 <= a.
Proof.
  induction 1 as [|a ty size Hv [Hd H0] Ety N1 N2 Esz].
  - split; [apply Z.divide_add_r; [done|by exists 1]|lia].
  - destruct (tag_loop_next 0 a ty size H0 Ety N1 N2 Esz) as [Hs _]. pose proof (padding_range (a + size)).
    split; [apply padding_aligned|lia].
Qed.

Lemma tag_loop_stuck a : visits r type a -> stuck_tag r type a -> forall fuel, tag_loop fuel r type a = Hang.
Proof.
  intros Hv (ty & Ety & N1 & N2 & Esz). destruct (visits_aligned a Hv) as [Hd H0].
  induction fuel as [|fuel IH]; [done|]. destruct (tag_loop_next fuel a ty 0 H0 Ety N1 N2 Esz) as [_ ->].
  rewrite padding_add, !Z.add_0_r by done. exact IH.
Qed.

(** From a visited tag on, the loop does what it does from the start. *)
Lemma tag_loop_back a :
  visits r type a -> (forall fuel, tag_loop fuel r type a = Hang) -> forall fuel, tag_loop fuel r type (r_base r + 8) = Hang.
Proof.
  induction 1 as [|a ty size Hv IH Ety N1 N2 Esz]; intros Hh; [done|]. apply IH. intros [|fuel]; [done|].
  destruct (tag_loop_next fuel a ty size (proj2 (visits_aligned a Hv)) Ety N1 N2 Esz) as [_ ->]. apply Hh.
Qed.

(** With one turn per eight bytes left, the loop ends at a tag it visits, or it visits
    a stuck one. *)
Lemma tag_loop_ends fuel a :
  visits r type a -> r_base r + Z.of_nat (length (r_bytes r)) < a + 8 * Z.of_nat fuel -> (0 < fuel)%nat ->
  match tag_loop fuel r type a with
  | Ok (Some b) => visits r type b /\ rd 4 r b = Ok type /\ type <> TAG_TYPE_END
  | Ok None => exists b, visits r type b /\ rd 4 r b = Ok TAG_TYPE_END
  | Undef _ => exists b, visits r type b /\ cut_off r b
  | Hang => exists b, visits r type b /\ stuck_tag r type b
  | Panic _ => False
  end.
Proof.
  revert a. induction fuel as [|fuel IH]; intros a Hv Hf Hpos; [lia|].
  destruct (visits_aligned a Hv) as [Hd H0].
  destruct (rd_cases r a) as [[ty Ety]|[Ety Hcut]].
  2: { rewrite tag_loop_S, Ety. cbn [mbind outcome_bind]. exists a. split; [done|]. unfold cut_off. lia. }
  destruct (decide (ty = TAG_TYPE_END)) as [->|N1].
  { rewrite tag_loop_S, Ety. cbn. by exists a. }
  destruct (decide (ty = type)) as [->|N2].
  { rewrite tag_loop_S, Ety. cbn [mbind outcome_bind]. rewrite (proj2 (Z.eqb_neq _ _)), Z.eqb_refl by done. done. }
  destruct (rd_cases r (a + 4)) as [[size Esz]|[Esz Hcut]].
  2: { rewrite tag_loop_S, Ety. cbn [mbind outcome_bind]. rewrite !(proj2 (Z.eqb_neq _ _)), Esz by done.
       cbn [mbind outcome_bind]. exists a. split; [done|]. pose proof (rd_inside 4 r _ _ Ety). unfold cut_off. lia. }
  destruct (tag_loop_next fuel a ty size H0 Ety N1 N2 Esz) as [Hs ->].
  pose proof (rd_inside 4 r _ _ Esz) as Hin. change (Z.of_nat 4) with 4 in Hin.
  destruct (decide (size = 0)) as [->|Hne].
  - assert (Hst : stuck_tag r type a) by (exists ty; done).
    rewrite Z.add_0_r, <- (Z.add_0_r a), padding_add, Z.add_0_r by done. change (padding 0) with 0.
    rewrite Z.add_0_r, tag_loop_stuck by done. by exists a.
  - pose proof (padding_range (a + size)). pose proof (padding_aligned (a + size)) as Hal.
    assert (a + 8 <= a + size + padding (a + size)) by (destruct Hd as [x Hx], Hal as [y Hy]; lia).
    apply IH; [by eapply visit_next|lia|lia].
Qed.

End Walk.

(** C19: on any block of bytes at an aligned address, however the tags are laid
    out, the search visits the tags one behind the other. It runs for ever exactly when
    one of the tags it visits has size 0 and is neither the end nor of the wanted type;
    otherwise it stops within one turn per eight bytes, and then it returns a visited
    tag of the wanted type, or NULL at a visited end tag, or it has followed the sizes
    to a tag that does not lie inside the block. *)
Theorem find_tag_terminates r type :
  Forall (fun b => 0 <= b < 256) (r_bytes r) -> 0 <= r_base r -> (8 | r_base r) ->
  r_base r + Z.of_nat (length (r_bytes r)) < 2 ^ 63 ->
  ((exists a, visits r type a /\ stuck_tag r type a) <->
   (forall fuel, find_multiboot2_tag fuel type (Some r) = Hang)) /\
  match find_multiboot2_tag (S (length (r_bytes r) / 8)) type (Some r) with
  | Ok (Some a) => visits r type a /\ rd 4 r a = Ok type /\ type <> TAG_TYPE_END
  | Ok None => exists a, visits r type a /\ rd 4 r a = Ok TAG_TYPE_END
  | Undef _ => exists a, visits r type a /\ cut_off r a
  | Hang => exists a, visits r type a /\ stuck_tag r type a
  | Panic _ => False
  end.
Proof.
  intros Hbytes H0 Ha Hlim. unfold find_multiboot2_tag.
  assert (Hend := tag_loop_ends r type Hbytes H0 Ha Hlim (S (length (r_bytes r) / 8)) (r_base r + 8) (visit_first r type)).
  assert (Hfuel : r_base r + Z.of_nat (length (r_bytes r)) < r_base r + 8 + 8 * Z.of_nat (S (length (r_bytes r) / 8))).
  { pose proof (Nat.div_mod (length (r_bytes r)) 8 ltac:(lia)).
    pose proof (Nat.mod_upper_bound (length (r_bytes r)) 8 ltac:(lia)). lia. }
  specialize (Hend Hfuel ltac:(lia)). split; [|exact Hend]. split.
  - intros (a & Hv & Hst). apply (tag_loop_back r type Hbytes H0 Ha Hlim a Hv). by apply tag_loop_stuck.
  - intros Hh. by rewrite Hh in Hend.
Qed.

(** Both halves: a block written by a boot loader is searched to the end, and a tag of
    size 0 behind a proper one keeps the walk for ever. *)
Definition stuck_info : region :=
  {| r_base := 0x1000; r_bytes := le 4 40 ++ le 4 0 ++ le 4 1 ++ le 4 9 ++ [0; 0; 0; 0; 0; 0; 0; 0] ++ le 4 9 ++ le 4 0 ++ le 4 0 ++ le 4 8 |}.

Lemma find_tag_terminates_witness :
  (exists a, visits (encode_info 0x10000 example_tags) 9 a /\ rd 4 (encode_info 0x10000 example_tags) a = Ok TAG_TYPE_END) /\
  (visits (encode_info 0x10000 example_tags) 6 0x10018) /\
  forall fuel, find_multiboot2_tag fuel 6 (Some stuck_info) = Hang.
Proof.
  assert (Hb : Forall (fun b => 0 <= b < 256) (r_bytes (encode_info 0x10000 example_tags)))
    by (apply (bool_decide_unpack _); vm_compute; done).
  destruct (find_tag_terminates (encode_info 0x10000 example_tags) 9) as [_ H9];
    [exact Hb|cbn; lia|by exists 0x2000|vm_compute; done|].
  destruct (find_tag_terminates (encode_info 0x10000 example_tags) 6) as [_ H6];
    [exact Hb|cbn; lia|by exists 0x2000|vm_compute; done|].
  replace (find_multiboot2_tag _ 9 _) with (Ok (A := option Z) None) in H9 by (vm_compute; reflexivity).
  replace (find_multiboot2_tag _ 6 _) with (Ok (Some 0x10018)) in H6 by (vm_compute; reflexivity).
  split; [exact H9|]. split; [exact (proj1 H6)|].
  refine (proj1 (proj1 (find_tag_terminates stuck_info 6 _ _ _ _)) _).
  - apply (bool_decide_unpack _). vm_compute. done.
  - cbn. lia.
  - by exists 0x200.
  - vm_compute. done.
  - exists 0x1018. split; [|exists 9; split_and!; done].
    apply (visit_next stuck_info 6 0x1008 1 9); [apply visit_first|done..].
Defined.

(** * The memory map *)

Record mmap_entry := { base_addr : Z; length_ : Z; type_ : Z }.

Definition entry_wf (e : mmap_entry) : Prop :=
  0 <= base_addr e < 2 ^ 64 /\ 0 <= length_ e < 2 ^ 64 /\ 0 <= type_ e < 2 ^ 32.

(** An entry of [entry_size] bytes, at least 24. *)
Definition encode_entry (entry_size : Z) (e : mmap_entry) : list Z :=
  le 8 (base_addr e) ++ le 8 (length_ e) ++ le 4 (type_ e) ++ le 4 0 ++
  replicate (Z.to_nat (entry_size - 24)) 0.

Definition mmap_tag (entry_size : Z) (es : list mmap_entry) : tag :=
  (TAG_TYPE_MMAP, le 4 entry_size ++ le 4 0 ++ concat (map (encode_entry entry_size) es)).

Definition map_line (e : mmap_entry) : log :=
  MapLine (base_addr e) (length_ e) (get_memory_type_string (type_ e)).

Lemma length_encode_entry sz e : 24 <= sz -> Z.of_nat (length (encode_entry sz e)) = sz.
Proof. intros H. unfold encode_entry. rewrite !length_app, !length_le, length_replicate. lia. Qed.

Lemma map_loop_encoded sz es r pre post fuel :
  24 <= sz -> (length es < fuel)%nat -> Forall entry_wf es ->
  r_bytes r = pre ++ concat (map (encode_entry sz) es) ++ post ->
  map_loop fuel r (r_base r + Z.of_nat (length pre))
    (r_base r + Z.of_nat (length pre) + sz * Z.of_nat (length es)) sz = Ok (map map_line es).
Proof.
  intros Hsz Hf Hwf. revert pre fuel Hf. induction Hwf as [|e es (W1 & W2 & W3) Hwf IH]; intros pre fuel Hf Hb;
    (destruct fuel as [|fuel]; [lia|]); cbn [map_loop map].
  - rewrite (proj2 (Z.ltb_ge _ _)) by (cbn; lia). done.
  - rewrite (proj2 (Z.ltb_lt _ _)) by (cbn [length]; lia). cbn [map concat] in Hb.
    unfold encode_entry in Hb at 1. rewrite <- !app_assoc in Hb.
    set (a := r_base r + Z.of_nat (length pre)) in *.
    rewrite (rd_at 8 r pre (base_addr e) _ a Hb) by (done || lia). cbn [mbind outcome_bind].
    erewrite (rd_at 8 r (pre ++ le 8 (base_addr e)) (length_ e) _ (a + 8)); cycle 1;
      [by rewrite Hb, <- !app_assoc|subst a; rewrite length_app, length_le; lia|done|].
    cbn [mbind outcome_bind].
    erewrite (rd_at 4 r (pre ++ le 8 (base_addr e) ++ le 8 (length_ e)) (type_ e) _ (a + 16)); cycle 1;
      [by rewrite Hb, <- !app_assoc|subst a; rewrite !length_app, !length_le; lia|done|].
    cbn [mbind outcome_bind].
    pose proof (length_encode_entry sz e Hsz) as Hl.
    replace (a + sz) with (r_base r + Z.of_nat (length (pre ++ encode_entry sz e)))
      by (subst a; rewrite length_app; lia).
    replace (a + sz * Z.of_nat (length (e :: es)))
      with (r_base r + Z.of_nat (length (pre ++ encode_entry sz e)) + sz * Z.of_nat (length es))
      by (subst a; rewrite length_app; cbn [length]; lia).
    rewrite IH; [done|cbn in Hf; lia|].
    rewrite Hb. unfold encode_entry at 3. rewrite <- !app_assoc. done.
Qed.

Lemma locate_app type before t after a :
  Forall (fun t => t.1 <> type) before -> t.1 = type ->
  locate type (before ++ t :: after) a = Some (a + Z.of_nat (length (concat (map encode_tag before)))).
Proof.
  intros Hb Ht. revert a. induction Hb as [|u before Hu Hb IH]; intros a; cbn [app locate map concat].
  - rewrite Ht, Z.eqb_refl. f_equal. cbn. lia.
  - rewrite (proj2 (Z.eqb_neq _ _)) by done. rewrite IH, length_app. f_equal.
    pose proof (length_encode_tag u). lia.
Qed.

Lemma encode_mmap_tag sz es :
  encode_tag (mmap_tag sz es) =
    le 4 6 ++ le 4 (tag_size (mmap_tag sz es)) ++ le 4 sz ++ le 4 0 ++
    concat (map (encode_entry sz) es) ++ replicate (Z.to_nat (padding (tag_size (mmap_tag sz es)))) 0.
Proof. unfold encode_tag. cbn [mmap_tag fst snd]. rewrite <- !app_assoc. reflexivity. Qed.

(** with the layout of the Multiboot2 specification (entries at 16, entry size
    at 8), the memory map that the boot loader wrote is printed completely and in
    order, one line per entry with its base, length and kind, whatever entry size of
    at least 24 it used and whatever other tags surround it. *)
Theorem print_memory_map_correct base before after sz es fuel :
  let ts := before ++ mmap_tag sz es :: after in
  0 <= base -> (8 | base) -> Forall tag_wf ts -> Forall (fun t => t.1 <> TAG_TYPE_MMAP) before ->
  24 <= sz < 2 ^ 32 -> Forall entry_wf es ->
  base + Z.of_nat (length (r_bytes (encode_info base ts))) < 2 ^ 63 ->
  (length ts < fuel)%nat -> (length es < fuel)%nat ->
  print_memory_map 16 8 fuel (Some (encode_info base ts)) = Ok (MemoryMapTitle :: map map_line es).
Proof.
  intros ts H0 Ha Hwf Hbefore Hsz Hes Hlim Hf Hfe. unfold print_memory_map.
  set (r := encode_info base ts) in *.
  assert (Hfind : find_multiboot2_tag fuel TAG_TYPE_MMAP (Some r) = Ok (locate TAG_TYPE_MMAP ts (base + 8))).
  { pose proof (tag_loop_encoded TAG_TYPE_MMAP ts r
      (le 4 (16 + Z.of_nat (length (concat (map encode_tag ts)))) ++ le 4 0) [] fuel) as H.
    rewrite length_app, !length_le in H. apply H; try done.
    subst r. cbn [encode_info r_bytes]. rewrite app_nil_r, <- app_assoc. done. }
  rewrite Hfind. subst ts. rewrite locate_app by done. cbn [mbind outcome_bind].
  set (pre := le 4 (16 + Z.of_nat (length (concat (map encode_tag (before ++ mmap_tag sz es :: after))))) ++ le 4 0 ++
              concat (map encode_tag before)).
  set (t := base + 8 + Z.of_nat (length (concat (map encode_tag before)))).
  assert (Ht : t = r_base r + Z.of_nat (length pre)).
  { subst t pre r. rewrite !length_app, !length_le. cbn [r_base encode_info]. lia. }
  assert (Hb : exists post, r_bytes r = pre ++ le 4 6 ++ le 4 (tag_size (mmap_tag sz es)) ++ le 4 sz ++ le 4 0 ++
     concat (map (encode_entry sz) es) ++ post).
  { eexists. subst r pre. cbn [encode_info r_bytes].
    set (n := 16 + _). unfold encode_tags. rewrite map_app, concat_app. cbn [map concat].
    rewrite encode_mmap_tag, <- !app_assoc. reflexivity. }
  destruct Hb as [post Hb].
  assert (Hts : tag_size (mmap_tag sz es) = 16 + sz * Z.of_nat (length es)).
  { unfold tag_size, mmap_tag. cbn [snd]. rewrite !length_app, !length_le.
    assert (He : Z.of_nat (length (concat (map (encode_entry sz) es))) = sz * Z.of_nat (length es)).
    { clear -Hsz. induction es as [|e es IH]; cbn [map concat length]; [cbn; lia|].
      rewrite length_app, Nat2Z.inj_add, IH, length_encode_entry by lia. lia. }
    lia. }
  apply Forall_app in Hwf as [_ Hwf]. apply Forall_cons in Hwf as [(_ & Hsize & _) _].
  erewrite (rd_at 4 r (pre ++ le 4 6) _ _ (t + 4)); cycle 1;
    [by rewrite Hb, <- !app_assoc|rewrite length_app, length_le; lia|cbn; lia|]. cbn [mbind outcome_bind].
  erewrite (rd_at 4 r (pre ++ le 4 6 ++ le 4 (tag_size (mmap_tag sz es))) sz _ (t + 8)); cycle 1;
    [by rewrite Hb, <- !app_assoc|rewrite !length_app, !length_le; lia|cbn; lia|]. cbn [mbind outcome_bind].
  pose proof (map_loop_encoded sz es r
    (pre ++ le 4 6 ++ le 4 (tag_size (mmap_tag sz es)) ++ le 4 sz ++ le 4 0) post fuel ltac:(lia) Hfe Hes) as Hm.
  rewrite !length_app, !length_le in Hm.
  replace (t + 16) with (r_base r + Z.of_nat (length pre + (4 + (4 + (4 + 4))))) by lia.
  replace (t + tag_size (mmap_tag sz es)) with
    (r_base r + Z.of_nat (length pre + (4 + (4 + (4 + 4)))) + sz * Z.of_nat (length es)) by lia.
  rewrite Hm; [done|]. by rewrite Hb, <- !app_assoc.
Qed.

Lemma print_memory_map_correct_witness :
  print_memory_map 16 8 9 (Some (encode_info 0x8000 ([(1, [99; 0])] ++
    mmap_tag 24 [Build_mmap_entry 0 0x9FC00 1; Build_mmap_entry 0x100000 0x7EE0000 2] :: [(2, [71; 0])])))
  = Ok [MemoryMapTitle; MapLine 0 0x9FC00 "Available"; MapLine 0x100000 0x7EE0000 "Reserved"].
Proof.
  apply (print_memory_map_correct 0x8000 [(1, [99; 0])] [(2, [71; 0])] 24
    [Build_mmap_entry 0 0x9FC00 1; Build_mmap_entry 0x100000 0x7EE0000 2] 9).
  - lia.
  - by exists 0x1000.
  - repeat (apply Forall_cons; split); [..|apply Forall_nil; done];
      (split; [cbn; unfold TAG_TYPE_MMAP; lia|split; [vm_compute; done|apply (bool_decide_unpack _); vm_compute; done]]).
  - repeat (apply Forall_cons; split); [done|by apply Forall_nil].
  - lia.
  - repeat (apply Forall_cons; split); [repeat split; cbn; lia..|by apply Forall_nil].
  - vm_compute. done.
  - cbn. lia.
  - cbn. lia.
Defined.

(** The four words of the image header add up to 0 modulo 2^32. *)
Lemma header_checksum : u32 (magic header + architecture header + header_length header + checksum header) = 0.
Proof. reflexivity. Qed.

(** A wrong magic number is reported and nothing is read. *)
Lemma multiboot2_entry_bad_magic eo so st lo uo bm fuel m info :
  m <> MULTIBOOT2_BOOTLOADER_MAGIC -> multiboot2_entry eo so st lo uo bm fuel m info = Ok [InvalidMagic m].
Proof. intros H. unfold multiboot2_entry. rewrite (proj2 (Z.eqb_neq _ _)) by done. done. Qed.

End Mb2.
