(* ===== verification/Syscalls.v ===== *)
(** * System calls (src/kernel/syscall.c, syscalls.h)

    A table indexed by the call number, handlers that narrow their arguments and
    execute the [syscall] instruction, and counters. What the instruction returns is
    an argument. *)
From Stdlib Require Import ZArith Lia.
From stdpp Require Import strings numbers gmap base.
From stdpp Require Import list.
From S2P Require Import Prelude.

Open Scope Z_scope.

Definition ENOSYS : Z := 38.

Module Sys.

Definition SYS_WRITE : Z := 1.
Definition SYS_READ : Z := 2.
Definition SYS_OPEN : Z := 3.
Definition SYS_CLOSE : Z := 4.
Definition SYS_LSEEK : Z := 5.
Definition SYS_FSTAT : Z := 6.
Definition SYS_EXIT : Z := 60.
Definition SYS_MAX : Z := 61.

(** [syscall_args_t] of syscall.c: six words. *)
Record syscall_args_t := { arg0 : Z; arg1 : Z; arg2 : Z; arg3 : Z; arg4 : Z; arg5 : Z }.

(** A handler either returns a word or never returns. *)
Inductive reply := Ret (v : Z) | NoReturn (status : Z).

Section Handlers.

(** The [syscall] instruction: number and arguments to the word in [rax]. *)
Variable syscall : Z -> list Z -> Z.

Definition sys_write (a : syscall_args_t) : reply :=
  Ret (u64 (syscall SYS_WRITE [s32 (arg0 a); arg1 a; arg2 a])).

Definition sys_read (a : syscall_args_t) : reply :=
  Ret (u64 (syscall SYS_READ [s32 (arg0 a); arg1 a; arg2 a])).

Definition sys_open (a : syscall_args_t) : reply :=
  Ret (u64 (syscall SYS_OPEN [arg0 a; s32 (arg1 a); u32 (arg2 a)])).

Definition sys_close (a : syscall_args_t) : reply :=
  Ret (u64 (syscall SYS_CLOSE [s32 (arg0 a)])).

Definition sys_lseek (a : syscall_args_t) : reply :=
  Ret (u64 (syscall SYS_LSEEK [s32 (arg0 a); s64 (arg1 a); s32 (arg2 a)])).

Definition sys_fstat (a : syscall_args_t) : reply :=
  Ret (u64 (syscall SYS_FSTAT [s32 (arg0 a); arg1 a])).

Definition sys_exit (a : syscall_args_t) : reply := NoReturn (s32 (arg0 a)).

(** Designated initialisers over an array of NULL. *)
Definition syscall_table : list (option (syscall_args_t -> reply)) :=
  <[Z.to_nat SYS_WRITE := Some sys_write]> (<[Z.to_nat SYS_READ := Some sys_read]>
  (<[Z.to_nat SYS_OPEN := Some sys_open]> (<[Z.to_nat SYS_CLOSE := Some sys_close]>
  (<[Z.to_nat SYS_LSEEK := Some sys_lseek]> (<[Z.to_nat SYS_FSTAT := Some sys_fstat]>
  (<[Z.to_nat SYS_EXIT := Some sys_exit]> (replicate (Z.to_nat SYS_MAX) None))))))).

Definition syscall_entry (num : Z) (args : syscall_args_t) : outcome reply :=
  if num >=? SYS_MAX then Ok (Ret (u64 (- ENOSYS)))
  else
    handler ← arr_get syscall_table num;
    match handler with
    | None => Ok (Ret (u64 (- ENOSYS)))
    | Some h => Ok (h args)
    end.

(** [syscall_stats]: count and errors per call number. *)
Record stat := { count : Z; errors : Z }.

(** The result is the reply and the counters; a call that does not return leaves
    the counters alone. *)
Definition syscall_entry_with_stats (num : Z) (args : syscall_args_t) (stats : list stat) :
  outcome (reply * list stat) :=
  result ← syscall_entry num args;
  match result with
  | NoReturn s => Ok (NoReturn s, stats)
  | Ret v =>
      if num <? SYS_MAX then
        c ← arr_get stats num;
        stats ← arr_set stats num {| count := u64 (count c + 1); errors := errors c |};
        if s64 v <? 0 then
          c ← arr_get stats num;
          stats ← arr_set stats num {| count := count c; errors := u64 (errors c + 1) |};
          Ok (Ret v, stats)
        else Ok (Ret v, stats)
      else Ok (Ret v, stats)
  end.

(** * Dispatch *)

(** The handler of each number, by name. *)
Definition handler_of (num : Z) : option (syscall_args_t -> reply) :=
  match num with
  | 1 => Some sys_write | 2 => Some sys_read | 3 => Some sys_open | 4 => Some sys_close
  | 5 => Some sys_lseek | 6 => Some sys_fstat | 60 => Some sys_exit
  | _ => None
  end.

Lemma syscall_table_get num : 0 <= num < SYS_MAX -> arr_get syscall_table num = Ok (handler_of num).
Proof.
  intros Hn. unfold SYS_MAX in Hn.
  assert (Hin : num ∈ seqZ 0 61) by (apply elem_of_seqZ; lia). clear Hn.
  revert num Hin. apply Forall_forall. repeat constructor.
Qed.

(** every 64-bit number is dispatched without leaving the table: the seven
    defined numbers run their own handler with the arguments given, and every other
    number - in the gap from 7 to 59, 0, or past the end - returns [-ENOSYS]. *)
Theorem syscall_entry_correct num args :
  in_u64 num ->
  syscall_entry num args =
    match handler_of num with Some h => Ok (h args) | None => Ok (Ret (2 ^ 64 - 38)) end.
Proof.
  intros [H0 H1]. unfold syscall_entry. rewrite Z.geb_leb. zcase (SYS_MAX <=? num).
  - replace (handler_of num) with (@None (syscall_args_t -> reply)); [done|].
    unfold SYS_MAX, handler_of in *. destruct num as [|p|p]; [lia| |lia].
    repeat (destruct p as [p|p|]; try lia; try reflexivity).
  - rewrite syscall_table_get by lia. done.
Qed.

(** * Counters *)

Definition stats_ok (stats : list stat) : Prop :=
  length stats = Z.to_nat SYS_MAX /\ Forall (fun c => 0 <= errors c <= count c) stats.

Definition stat_total (stats : list stat) : Z := foldr (fun c n => count c + n) 0 stats.

Lemma stat_total_insert stats i c c' :
  stats !! i = Some c -> stat_total (<[i := c']> stats) = stat_total stats - count c + count c'.
Proof.
  unfold stat_total. revert i. induction stats as [|d stats IH]; intros [|i] H; try done.
  - injection H as ->. change (<[0%nat := c']> (c :: stats)) with (c' :: stats). cbn [foldr]. lia.
  - change (<[S i := c']> (d :: stats)) with (d :: <[i := c']> stats). cbn [foldr]. rewrite (IH i H). lia.
Qed.

(** the counting entry point returns what the plain one returns; a call that
    returns a defined or undefined number below [SYS_MAX] is counted once, and as an
    error exactly when the word is negative; nothing else changes a counter, errors
    never exceed calls, and no counter is read or written out of bounds. *)
Theorem syscall_stats_correct num args stats :
  in_u64 num -> stats_ok stats -> Forall (fun c => count c < 2 ^ 64 - 1) stats ->
  exists r stats', syscall_entry num args = Ok r /\
    syscall_entry_with_stats num args stats = Ok (r, stats') /\ stats_ok stats' /\
    (forall j, Z.of_nat j <> num -> stats' !! j = stats !! j) /\
    match r with
    | NoReturn _ => stats' = stats
    | Ret v => stat_total stats' = stat_total stats + (if num <? SYS_MAX then 1 else 0) /\
               (num < SYS_MAX -> exists c c', stats !! Z.to_nat num = Some c /\ stats' !! Z.to_nat num = Some c' /\
                  count c' = count c + 1 /\ errors c' = errors c + if s64 v <? 0 then 1 else 0)
    end.
Proof.
  intros Hn [Hl Hok] Hlt. pose proof Hn as [H0 H1].
  assert (Hr : exists r, syscall_entry num args = Ok r).
  { unfold syscall_entry. rewrite Z.geb_leb. zcase (SYS_MAX <=? num); [eauto|].
    rewrite syscall_table_get by lia. destruct (handler_of num); eauto. }
  destruct Hr as [r Hr]. unfold syscall_entry_with_stats. rewrite Hr. cbn [mbind outcome_bind].
  destruct r as [v|st]; [|exists (NoReturn st), stats; by split_and!].
  destruct (num <? SYS_MAX) eqn:E; zbool; [|exists (Ret v), stats; split_and!; try done; lia].
  assert (Hlen : num < Z.of_nat (length stats)) by (rewrite Hl; unfold SYS_MAX in *; lia).
  destruct (arr_get_total stats num) as [c Hc]; [lia|]. rewrite Hc. cbn [mbind outcome_bind].
  apply arr_get_Ok in Hc as [_ Hc].
  pose proof (proj1 (Forall_lookup _ _) Hok _ _ Hc) as Hce. pose proof (proj1 (Forall_lookup _ _) Hlt _ _ Hc) as Hcl.
  cbn in Hce, Hcl. rewrite (u64_small (count c + 1)) by (unfold in_u64; lia).
  assert (Hset : forall (l : list stat) d, length l = length stats -> arr_set l num d = Ok (<[Z.to_nat num := d]> l)).
  { intros l d Hll. unfold arr_set. rewrite Hll, (proj2 (Z.leb_le 0 num)), (proj2 (Z.ltb_lt num _)) by lia. done. }
  rewrite Hset by done. cbn [mbind outcome_bind].
  assert (Hget : arr_get (<[Z.to_nat num := {| count := count c + 1; errors := errors c |}]> stats) num
                 = Ok {| count := count c + 1; errors := errors c |}).
  { unfold arr_get. rewrite (proj2 (Z.ltb_ge num 0)) by lia. rewrite list_lookup_insert_eq by lia. done. }
  rewrite Hget. cbn [mbind outcome_bind count errors].
  rewrite Hset, list_insert_insert_eq by (by rewrite length_insert). cbn [mbind outcome_bind].
  rewrite (u64_small (errors c + 1)) by (unfold in_u64; lia).
  set (e := if s64 v <? 0 then 1 else 0). set (c' := {| count := count c + 1; errors := errors c + e |}).
  assert (He : 0 <= e <= 1) by (subst e; destruct (_ <? _); lia).
  exists (Ret v), (<[Z.to_nat num := c']> stats). split; [done|]. split.
  { subst c' e. destruct (s64 v <? 0); [done|]. by rewrite Z.add_0_r. }
  split_and!.
  - split; [by rewrite length_insert|]. apply Forall_insert; [done|]. subst c'. cbn. lia.
  - intros j Hj. apply list_lookup_insert_ne. lia.
  - rewrite (stat_total_insert _ _ c) by done. subst c'. cbn [count]. lia.
  - intros _. exists c, c'. rewrite list_lookup_insert_eq by lia. done.
Qed.

End Handlers.

Lemma syscall_entry_correct_witness :
  syscall_entry (fun _ _ => 13) 1 (Build_syscall_args_t 3 0x7000 13 0 0 0) = Ok (Ret 13).
Proof. apply (syscall_entry_correct (fun _ _ => 13) 1 (Build_syscall_args_t 3 0x7000 13 0 0 0)). split; lia. Defined.

Lemma syscall_stats_correct_witness :
  exists stats', syscall_entry_with_stats (fun _ _ => -9) 4 (Build_syscall_args_t 3 0 0 0 0 0)
      (replicate 61 (Build_stat 0 0)) = Ok (Ret (2 ^ 64 - 9), stats') /\ stats_ok stats'.
Proof.
  destruct (syscall_stats_correct (fun _ _ => -9) 4 (Build_syscall_args_t 3 0 0 0 0 0) (replicate 61 (Build_stat 0 0)))
    as (r & stats' & E1 & E2 & Hok & _).
  - split; lia.
  - split; [done|]. apply Forall_replicate. cbn. lia.
  - apply Forall_replicate. cbn. lia.
  - exists stats'. injection E1 as <-. split; [exact E2|exact Hok].
Defined.

End Sys.
