(* ===== verification/SyscallTable.v ===== *)
(** * The older system-call dispatcher (src/arch/x86_64/kernel.c)

    Twelve table entries; the handlers wrap functions of the C library, whose
    results are arguments here. *)
From Stdlib Require Import ZArith Lia.
From stdpp Require Import strings numbers gmap base.
From stdpp Require Import list.
From S2P Require Import Prelude.

Open Scope Z_scope.

Definition ENOSYS : Z := 38.

Module Sys0.

Definition SYS_EXIT : Z := 60.

Inductive handler := sys_write | sys_read | sys_open | sys_close | sys_lseek | sys_fstat | sys_exit.

(** Twelve entries. *)
Definition syscall_table : list (option handler) :=
  [None; Some sys_write; Some sys_read; Some sys_open; Some sys_close; Some sys_lseek; Some sys_fstat;
   None; None; None; None; Some sys_exit].

(** Either an error word with [errno], or the call of a handler with its arguments. *)
Inductive dispatch := Error (errno v : Z) | Call (h : handler) (args : list Z).

Definition syscall_entry (syscall_num arg1 arg2 arg3 arg4 : Z) : outcome dispatch :=
  if syscall_num >=? Z.of_nat (length syscall_table) then Ok (Error ENOSYS (u64 (-1)))
  else
    h ← arr_get syscall_table syscall_num;
    match h with
    | None => Ok (Error ENOSYS (u64 (-1)))
    | Some f => Ok (Call f [arg1; arg2; arg3; arg4; 0])
    end.

(** The handlers, given what the library function they wrap returned. *)
Definition sys_write_result (result : Z) : Z := if result <? 0 then u64 (-1) else u64 result.
Definition sys_read_result (result : Z) : Z := if result <? 0 then u64 (-1) else u64 result.
Definition sys_open_result (fd : Z) : Z := if fd <? 0 then -1 else fd.
Definition sys_close_result (result : Z) : Z := if result <? 0 then -1 else 0.
Definition sys_lseek_result (result : Z) : Z := if result =? -1 then -1 else result.
Definition sys_fstat_result (result : Z) : Z := if result <? 0 then -1 else 0.

(** Every number is dispatched inside the table, and the number the file defines
    for [exit] is not one of those served: [sys_exit] answers to 11. *)
Lemma syscall_entry_total n a b c d : in_u64 n -> is_ok (syscall_entry n a b c d) = true.
Proof.
  intros [H0 H1]. unfold syscall_entry. rewrite Z.geb_leb. zcase (Z.of_nat (length syscall_table) <=? n).
  destruct (arr_get_total syscall_table n) as [h ->]; [cbn in *; lia|]. cbn [mbind outcome_bind].
  destruct h; done.
Qed.

Lemma sys_exit_unreachable_by_name a b c d :
  syscall_entry SYS_EXIT a b c d = Ok (Error ENOSYS (2 ^ 64 - 1)) /\
  syscall_entry 11 a b c d = Ok (Call sys_exit [a; b; c; d; 0]).
Proof. split; reflexivity. Qed.

(** ** The test program: reading a file into twenty bytes

    What [read] delivered ([None] when it failed) is put at the start of [buffer], and a
    zero behind it, at the index that [sys_read] returned; the result is the buffer. *)
Definition read_terminated (delivered : option (list Z)) (buffer : list Z) : outcome (list Z) :=
  let data := default [] delivered in
  let bytes_read := sys_read_result (match delivered with Some d => Z.of_nat (length d) | None => -1 end) in
  arr_set (data ++ drop (length data) buffer) bytes_read 0.

(** A read of at most nineteen bytes leaves them with a zero behind them; a failed read is
    reported as 2^64 - 1 and the zero is written outside the buffer. *)
Lemma read_terminated_spec delivered buffer :
  length buffer = 20%nat ->
  match delivered with
  | Some d => (length d <= 19)%nat -> exists rest, read_terminated (Some d) buffer = Ok (d ++ 0 :: rest) /\
                length (d ++ 0 :: rest) = 20%nat
  | None => is_ok (read_terminated None buffer) = false
  end.
Proof.
  intros Hb. destruct delivered as [d|].
  - intros Hd. unfold read_terminated, sys_read_result. change (default [] (Some d)) with d. zcase (Z.of_nat (length d) <? 0).
    rewrite u64_small by (unfold in_u64; lia). exists (drop (S (length d)) buffer).
    assert (exists x, drop (length d) buffer = x :: drop (S (length d)) buffer) as [x Hx].
    { destruct (lookup_lt_is_Some_2 buffer (length d) ltac:(lia)) as [x Hx]. exists x. by apply drop_S. }
    split.
    + apply arr_set_Ok. rewrite length_app, length_drop. split; [lia|]. rewrite Nat2Z.id, Hx.
      by rewrite insert_app_r_alt, Nat.sub_diag by lia.
    + rewrite length_app. cbn [length]. rewrite length_drop. lia.
  - unfold read_terminated, sys_read_result, arr_set. change (default [] None) with (@nil Z). cbn [Z.ltb Z.compare app length]. rewrite drop_0, Hb. done.
Qed.

End Sys0.
