(* ===== verification/FirstFit.v ===== *)
(** * The first-fit heap and the identity map of src/arch/x86_64/kernel.c

    The heap keeps its free blocks in an unsorted singly linked list inside the heap
    itself: at the address of a block lie its size and the next pointer. Memory is
    word-addressed. [ff_alloc] is the abstract allocator on a list of blocks that
    [kmalloc] implements; [heap_inv] says that free and allocated blocks tile the
    heap. *)
From Stdlib Require Import ZArith Lia.
From stdpp Require Import strings numbers gmap base.
From stdpp Require Import list.
From S2P Require Import Prelude.

Open Scope Z_scope.

Module FirstFit.

Definition HEAP_START : Z := 0x100000.
Definition HEAP_SIZE : Z := 0x100000.
Definition HEADER : Z := 16.  (* sizeof(free_block_t) *)

Definition memory := Z -> Z.

(** [b->size] and [b->next]. *)
Definition size_of (m : memory) (b : Z) : Z := m b.
Definition next_of (m : memory) (b : Z) : Z := m (b + 8).

Record heap := { mem : memory; free_list : Z }.

Definition init_heap (m : memory) : heap :=
  let fl := HEAP_START in
  {| mem := upd (upd m fl (HEAP_SIZE - HEADER)) (fl + 8) 0; free_list := fl |}.

(** Splitting [current] when the rest can hold a header and more. *)
Definition split_block (m : memory) (current size : Z) : memory :=
  if size_of m current >? u64 (size + HEADER) then
    let new_block := u64 (current + HEADER + size) in
    let m := upd m new_block (u64 (size_of m current - size - HEADER)) in
    let m := upd m (new_block + 8) (next_of m current) in
    let m := upd m current size in
    upd m (current + 8) new_block
  else m.

(** The loop of [kmalloc]; 0 is NULL. *)
Fixpoint kmalloc_loop (fuel : nat) (h : heap) (previous current size : Z) : outcome (Z * heap) :=
  match fuel with
  | O => Hang
  | S fuel' =>
      if current =? 0 then Ok (0, h)
      else if size_of (mem h) current >=? size then
        let m := split_block (mem h) current size in
        let h := if negb (previous =? 0)
                 then {| mem := upd m (previous + 8) (next_of m current); free_list := free_list h |}
                 else {| mem := m; free_list := next_of m current |} in
        Ok (u64 (current + HEADER), h)
      else kmalloc_loop fuel' h current (next_of (mem h) current) size
  end.

Definition round8 (size : Z) : Z := Z.land (u64 (size + 7)) (not64 7).

Definition kmalloc (fuel : nat) (size : Z) (h : heap) : outcome (Z * heap) :=
  kmalloc_loop fuel h 0 (free_list h) (round8 size).

Definition kfree (ptr : Z) (h : heap) : heap :=
  let block := u64 (ptr - HEADER) in
  {| mem := upd (mem h) (block + 8) (free_list h); free_list := block |}.

(** * Abstract view *)

(** A block is its address and its payload size. *)
Definition block := (Z * Z)%type.

(** First fit on a list of blocks: the address taken, its final size, the rest. *)
Fixpoint ff_alloc (bs : list block) (size : Z) : option (block * list block) :=
  match bs with
  | [] => None
  | (a, s) :: bs' =>
      if size <=? s then
        if size + HEADER <? s
        then Some ((a, size), (a + HEADER + size, s - size - HEADER) :: bs')
        else Some ((a, s), bs')
      else match ff_alloc bs' size with
           | Some (b, rest) => Some (b, (a, s) :: rest)
           | None => None
           end
  end.

(** [seg m p bs q]: following the list from [p] meets the blocks [bs] and arrives at [q]. *)
Fixpoint seg (m : memory) (p : Z) (bs : list block) (q : Z) : Prop :=
  match bs with
  | [] => p = q
  | (a, s) :: bs' => p = a /\ size_of m a = s /\ seg m (next_of m a) bs' q
  end.

(** Tiles cover [a, e) without gaps, in address order. *)
Fixpoint tiled (a : Z) (ts : list block) (e : Z) : Prop :=
  match ts with
  | [] => a = e
  | (b, s) :: ts' => b = a /\ 0 <= s /\ (8 | s) /\ tiled (a + HEADER + s) ts' e
  end.

(** Free blocks [bs] in list order and allocated blocks [al] tile the heap; the
    size of an allocated block is still in its header. *)
Definition heap_inv (h : heap) (bs al : list block) : Prop :=
  seg (mem h) (free_list h) bs 0 /\
  (forall a s, (a, s) ∈ al -> size_of (mem h) a = s) /\
  exists ts, tiled HEAP_START ts (HEAP_START + HEAP_SIZE) /\ bs ++ al ≡ₚ ts.

(** Programs write the payload of blocks they own, so only header words are fixed. *)
Definition header_word (bs : list block) (x : Z) : Prop := exists a s, (a, s) ∈ bs /\ (x = a \/ x = a + 8).

(** * Lists in memory *)

Lemma ff_seg_frame m m' p bs q :
  (forall x, header_word bs x -> m' x = m x) -> seg m p bs q -> seg m' p bs q.
Proof.
  revert p. induction bs as [|[a s] bs IH]; intros p Hf; cbn [seg]; [done|].
  intros (-> & Hs & H). unfold size_of, next_of in *.
  rewrite (Hf a), (Hf (a + 8)) by (exists a, s; set_solver). split_and!; try done.
  apply IH; [|done]. intros x (b & t & Hb & Hx). apply Hf. exists b, t. set_solver.
Qed.

Lemma ff_seg_app m p bs cs q : seg m p (bs ++ cs) q <-> exists r, seg m p bs r /\ seg m r cs q.
Proof.
  revert p. induction bs as [|[a s] bs IH]; intros p; cbn [seg app].
  - split; [intros H; by exists p|intros (r & -> & H); done].
  - rewrite IH. naive_solver.
Qed.

(** * Tiles *)

Lemma tiled_app a ts us e : tiled a (ts ++ us) e <-> exists x, tiled a ts x /\ tiled x us e.
Proof.
  revert a. induction ts as [|[b s] ts IH]; intros a; cbn [tiled app].
  - split; [intros H; by exists a|intros (x & -> & H); done].
  - rewrite IH. naive_solver.
Qed.

Lemma tiled_range a ts e b s :
  tiled a ts e -> (b, s) ∈ ts -> a <= b /\ 0 <= s /\ (8 | s) /\ (8 | b - a) /\ b + HEADER + s <= e.
Proof.
  unfold HEADER. revert a. induction ts as [|[c t] ts IH]; intros a Ht Hin; [set_solver|].
  cbn [tiled] in Ht. destruct Ht as (-> & H0 & H8 & Ht).
  assert (Hle : a + 16 + t <= e).
  { clear -Ht. unfold HEADER in Ht. revert Ht. generalize (a + 16 + t). induction ts as [|[d u] ts IH]; intros x Hx; cbn in Hx; [lia|].
    destruct Hx as (_ & ? & _ & Hx). apply IH in Hx. unfold HEADER in Hx. lia. }
  apply elem_of_cons in Hin as [[= -> ->]|Hin].
  - split_and!; try done; try lia. exists 0. lia.
  - unfold HEADER in Ht. destruct (IH _ Ht Hin) as (? & ? & ? & [k Hk] & ?). destruct H8 as [j Hj].
    split_and!; try done; try lia. exists (k + 2 + j). lia.
Qed.

(** Two different tiles do not overlap. *)
Lemma tiled_disjoint a ts e b s c t :
  tiled a ts e -> (b, s) ∈ ts -> (c, t) ∈ ts -> (b, s) <> (c, t) -> b + HEADER + s <= c \/ c + HEADER + t <= b.
Proof.
  revert a. induction ts as [|[d u] ts IH]; intros a Ht Hb Hc Hne; [set_solver|].
  cbn [tiled] in Ht. destruct Ht as (-> & H0 & H8 & Ht).
  apply elem_of_cons in Hb as [[= -> ->]|Hb]; apply elem_of_cons in Hc as [[= -> ->]|Hc]; try done.
  - left. destruct (tiled_range _ _ _ _ _ Ht Hc). done.
  - right. destruct (tiled_range _ _ _ _ _ Ht Hb). done.
  - eapply IH; eauto.
Qed.

Lemma tiled_nodup a ts e : tiled a ts e -> NoDup ts.
Proof.
  revert a. induction ts as [|[b s] ts IH]; intros a Ht; [constructor|]. cbn [tiled] in Ht.
  destruct Ht as (-> & H0 & _ & Ht). constructor; [|eauto].
  intros Hin. destruct (tiled_range _ _ _ _ _ Ht Hin) as [H _]. unfold HEADER in H. lia.
Qed.

(** Splitting a tile in place. *)
Lemma tiled_split e a s n x ts1 ts2 :
  tiled x (ts1 ++ (a, s) :: ts2) e -> 0 <= n -> (8 | n) -> n + HEADER <= s ->
  tiled x (ts1 ++ (a, n) :: (a + HEADER + n, s - n - HEADER) :: ts2) e.
Proof.
  intros Ht Hn H8 Hs. apply tiled_app in Ht as (y & H1 & H2). apply tiled_app. exists y. split; [done|].
  cbn [tiled] in *. destruct H2 as (-> & H0 & [k Hk] & H2). destruct H8 as [j Hj].
  unfold HEADER in *. split_and!; try done; try lia.
  - by exists j.
  - exists (k - j - 2). lia.
  - replace (y + 16 + n + 16 + (s - n - 16)) with (y + 16 + s) by lia. done.
Qed.

(** * Headers do not overlap *)

Definition sep (bs : list block) : Prop :=
  NoDup bs /\
  forall a s b t, (a, s) ∈ bs -> (b, t) ∈ bs -> (a, s) <> (b, t) -> a + 16 <= b \/ b + 16 <= a.

Lemma tiled_sep a ts e : tiled a ts e -> sep ts.
Proof.
  intros Ht. split; [by eapply tiled_nodup|]. intros b s c t Hb Hc Hne.
  destruct (tiled_range _ _ _ _ _ Ht Hb) as (_ & ? & _), (tiled_range _ _ _ _ _ Ht Hc) as (_ & ? & _).
  pose proof (tiled_disjoint _ _ _ _ _ _ _ Ht Hb Hc Hne) as H1. unfold HEADER in H1. lia.
Qed.

Lemma sep_perm bs cs : bs ≡ₚ cs -> sep cs -> sep bs.
Proof. intros Hp [H1 H2]. split; [by rewrite Hp|]. intros a s b t. rewrite Hp. apply H2. Qed.

Lemma sep_app_l bs cs : sep (bs ++ cs) -> sep bs.
Proof. intros [H1 H2]. apply NoDup_app in H1 as (H1 & _). split; [done|]. intros. eapply H2; set_solver. Qed.

(** Writing a header word of [b] leaves the headers of other blocks alone. *)
Lemma sep_frame bs cs b t x y :
  sep (bs ++ cs) -> (b, t) ∈ bs -> (x = b \/ x = b + 8) -> header_word cs y -> y <> x.
Proof.
  intros [Hn Hs] Hb Hx (c & u & Hc & Hy). apply NoDup_app in Hn as (_ & Hn & _).
  assert (Hne : (b, t) <> (c, u)) by (intros [= -> ->]; by apply (Hn _ Hb)).
  destruct (Hs b t c u) as [H|H]; [set_solver..|done| |]; lia.
Qed.

(** * Unlinking *)

(** Which block precedes the rest of the list. *)
Definition last_addr (dn : list block) (previous : Z) : Prop :=
  (dn = [] /\ previous = 0) \/ (exists dn' s, dn = dn' ++ [(previous, s)] /\ previous <> 0).

Definition unlink (h : heap) (m : memory) (previous x : Z) : heap :=
  if negb (previous =? 0) then {| mem := upd m (previous + 8) x; free_list := free_list h |}
  else {| mem := m; free_list := x |}.

Lemma ff_unlink_spec h m dn cur x rs previous :
  seg m (free_list h) dn cur -> seg m x rs 0 -> sep (dn ++ rs) -> last_addr dn previous ->
  let h' := unlink h m previous x in
  seg (mem h') (free_list h') (dn ++ rs) 0 /\
  forall y, ~ header_word dn y -> mem h' y = m y.
Proof.
  intros Hd Hr Hsep Hp. unfold unlink. destruct Hp as [[-> ->]|(dn' & s & -> & Hp)]; cbn zeta.
  - cbn. split; done.
  - rewrite (proj2 (Z.eqb_neq previous 0)) by done. cbn [negb mem free_list].
    assert (Hs' : sep (dn' ++ [(previous, s)])) by (by eapply sep_app_l).
    split.
    + apply ff_seg_app. exists x. apply ff_seg_app in Hd as (r & Hd1 & Hd2). cbn [seg] in Hd2.
      destruct Hd2 as (-> & Hsz & _). split.
      * apply ff_seg_app. exists previous. split.
        -- eapply ff_seg_frame; [|exact Hd1]. intros y Hy. apply upd_ne.
           eapply (sep_frame [(previous, s)] dn' previous s); [|set_solver|by right|done].
           eapply sep_perm; [|exact Hs']. solve_Permutation.
        -- cbn [seg]. unfold size_of, next_of in *. rewrite upd_ne, upd_eq by lia. done.
      * eapply ff_seg_frame; [|exact Hr]. intros y Hy. apply upd_ne.
        eapply (sep_frame (dn' ++ [(previous, s)]) rs previous s); [done|set_solver|by right|done].
    + intros y Hy. apply upd_ne. intros ->. apply Hy. exists previous, s. split; [set_solver|by right].
Qed.

(** * Splitting *)

Lemma split_block_spec m a s n :
  size_of m a = s -> 0 <= n -> n + HEADER < s -> s < 2 ^ 32 -> 0 <= a < 2 ^ 32 ->
  let m' := split_block m a n in let new := a + HEADER + n in
  size_of m' a = n /\ next_of m' a = new /\ size_of m' new = s - n - HEADER /\ next_of m' new = next_of m a /\
  forall y, ~ header_word [(a, n); (new, 0)] y -> m' y = m y.
Proof.
  intros Hs Hn Hlt Hs32 Ha. unfold split_block, HEADER in *. rewrite Hs.
  rewrite !u64_small by (unfold in_u64; lia). rewrite Z.gtb_ltb, (proj2 (Z.ltb_lt _ _)) by lia.
  unfold size_of, next_of in *. cbn zeta. split_and!.
  - rewrite upd_ne, upd_eq by lia. done.
  - rewrite upd_eq. done.
  - rewrite !upd_ne, upd_eq by lia. done.
  - rewrite !upd_ne by lia. rewrite upd_eq. rewrite upd_ne by lia. done.
  - intros y Hy. assert (Hne : forall b t, (b, t) ∈ [(a, n); (a + 16 + n, 0)] -> y <> b /\ y <> b + 8).
    { intros b t Hb. split; intros ->; apply Hy; exists b, t; auto. }
    destruct (Hne a n), (Hne (a + 16 + n) 0); [set_solver..|]. rewrite !upd_ne by done. done.
Qed.

(** * The search *)

(** Taking the block [(a, s)] whole. *)
Lemma take_block h al ts dn a s rs previous :
  tiled HEAP_START ts (HEAP_START + HEAP_SIZE) -> (dn ++ (a, s) :: rs) ++ al ≡ₚ ts ->
  seg (mem h) (free_list h) dn a -> seg (mem h) a ((a, s) :: rs) 0 -> last_addr dn previous ->
  (forall b t, (b, t) ∈ al -> size_of (mem h) b = t) ->
  heap_inv (unlink h (mem h) previous (next_of (mem h) a)) (dn ++ rs) ((a, s) :: al).
Proof.
  intros Ht Hp Hd (_ & Hsz & Hr) Hl Hal.
  assert (Hsep : sep ((dn ++ rs) ++ (a, s) :: al)).
  { eapply sep_perm; [|by eapply tiled_sep]. rewrite <- Hp. solve_Permutation. }
  destruct (ff_unlink_spec h (mem h) dn a (next_of (mem h) a) rs previous Hd Hr) as [H1 H2];
    [by eapply sep_app_l|done|].
  split; [done|]. split; [|exists ts; split; [done|rewrite <- Hp; solve_Permutation]].
  assert (Hsep' : sep (dn ++ (a, s) :: al)).
  { apply (sep_app_l _ rs). eapply sep_perm; [|exact Hsep]. solve_Permutation. }
  intros b t Hb. unfold size_of. rewrite H2.
  - apply elem_of_cons in Hb as [[= -> ->]|Hb]; [done|by apply Hal].
  - intros (c & u & Hc & Hx). eapply (sep_frame dn ((a, s) :: al) c u b b Hsep' Hc Hx); [|done].
    exists b, t. auto.
Qed.

(** Taking the front of the block [(a, s)]. *)
Lemma take_front h al ts dn a s n rs previous :
  tiled HEAP_START ts (HEAP_START + HEAP_SIZE) -> (dn ++ (a, s) :: rs) ++ al ≡ₚ ts ->
  seg (mem h) (free_list h) dn a -> seg (mem h) a ((a, s) :: rs) 0 -> last_addr dn previous ->
  (forall b t, (b, t) ∈ al -> size_of (mem h) b = t) ->
  0 <= n -> (8 | n) -> n + HEADER < s ->
  let m := split_block (mem h) a n in
  heap_inv (unlink h m previous (next_of m a)) (dn ++ (a + HEADER + n, s - n - HEADER) :: rs) ((a, n) :: al).
Proof.
  intros Ht Hp Hd (_ & Hsz & Hr) Hl Hal Hn H8 Hlt m. set (new := (a + HEADER + n, s - n - HEADER)).
  assert (Hin : (a, s) ∈ ts) by (rewrite <- Hp; set_solver).
  destruct (tiled_range _ _ _ _ _ Ht Hin) as (R1 & R2 & _ & _ & R3). unfold HEAP_START, HEAP_SIZE, HEADER in R1, R3.
  apply list_elem_of_split in Hin as (t1 & t2 & ->).
  pose proof (tiled_split _ _ _ n _ _ _ Ht Hn H8 ltac:(lia)) as Ht'. fold new in Ht'.
  assert (Hp' : (dn ++ new :: rs) ++ (a, n) :: al ≡ₚ t1 ++ (a, n) :: new :: t2).
  { assert (H0 : (a, s) :: dn ++ rs ++ al ≡ₚ (a, s) :: t1 ++ t2)
      by (etrans; [|etrans; [exact Hp|]]; solve_Permutation).
    apply Permutation_cons_inv in H0. trans ((a, n) :: new :: dn ++ rs ++ al); [solve_Permutation|].
    rewrite H0. solve_Permutation. }
  assert (Hsep : sep ((dn ++ new :: rs) ++ (a, n) :: al)) by (eapply sep_perm; [exact Hp'|by eapply tiled_sep]).
  destruct (split_block_spec (mem h) a s n) as (S1 & S2 & S3 & S4 & S5); [done|done|done|lia|lia|].
  fold m in S1, S2, S3, S4, S5.
  assert (Hfr : forall bs, sep ([(a, n); new] ++ bs) -> forall y, header_word bs y -> m y = mem h y).
  { intros bs Hbs y Hy. apply S5. intros (b & t & Hb & Hx).
    assert (Hb' : exists t', (b, t') ∈ [(a, n); new]).
    { apply elem_of_cons in Hb as [[= -> ->]|Hb]; [exists n; set_solver|].
      apply list_elem_of_singleton in Hb as [= -> ->]. exists (s - n - HEADER). set_solver. }
    destruct Hb' as [t' Hb']. by apply (sep_frame _ _ _ _ _ _ Hbs Hb' Hx Hy). }
  assert (Hsub : forall bs cs, (dn ++ new :: rs) ++ (a, n) :: al ≡ₚ ([(a, n); new] ++ bs) ++ cs ->
            sep ([(a, n); new] ++ bs)).
  { intros bs cs Hperm. eapply sep_app_l, sep_perm; [symmetry; exact Hperm|exact Hsep]. }
  rewrite S2. destruct (ff_unlink_spec h m dn a (a + HEADER + n) (new :: rs) previous) as [H1 H2].
  - eapply ff_seg_frame; [|exact Hd]. apply (Hfr dn). apply (Hsub dn (rs ++ al)). solve_Permutation.
  - cbn [seg new]. rewrite S4. split_and!; try done.
    eapply ff_seg_frame; [|exact Hr]. apply (Hfr rs). apply (Hsub rs (dn ++ al)). solve_Permutation.
  - by eapply sep_app_l.
  - done.
  - split; [done|]. split; [|exists (t1 ++ (a, n) :: new :: t2); split; done].
    intros b t Hb. unfold size_of. rewrite H2.
    + apply elem_of_cons in Hb as [[= -> ->]|Hb]; [done|]. rewrite (Hfr al); [by apply Hal| |exists b, t; auto].
      apply (Hsub al (dn ++ rs)). solve_Permutation.
    + intros (c & u & Hc & Hx). eapply (sep_frame dn ((a, n) :: al) c u b b); [|exact Hc|exact Hx|exists b, t; auto|done].
      apply (sep_app_l _ (new :: rs)). eapply sep_perm; [|exact Hsep]. solve_Permutation.
Qed.

Lemma kmalloc_loop_spec h n al ts :
  tiled HEAP_START ts (HEAP_START + HEAP_SIZE) -> (forall b t, (b, t) ∈ al -> size_of (mem h) b = t) ->
  0 <= n < 2 ^ 64 -> (8 | n) ->
  forall rest dn cur previous fuel,
  (length rest < fuel)%nat -> (dn ++ rest) ++ al ≡ₚ ts ->
  seg (mem h) (free_list h) dn cur -> seg (mem h) cur rest 0 -> last_addr dn previous ->
  match ff_alloc rest n with
  | None => kmalloc_loop fuel h previous cur n = Ok (0, h)
  | Some ((a, s), rest') =>
      exists h', kmalloc_loop fuel h previous cur n = Ok (a + HEADER, h') /\ heap_inv h' (dn ++ rest') ((a, s) :: al)
  end.
Proof.
  intros Ht Hal Hn H8. induction rest as [|[a s] rs IH]; intros dn cur previous fuel Hf Hp Hd Hr Hl;
    (destruct fuel as [|fuel]; [cbn in Hf; lia|]); cbn [ff_alloc kmalloc_loop].
  - cbn in Hr. subst cur. done.
  - pose proof Hr as (-> & Hsz & Hr').
    destruct (tiled_range _ _ _ a s Ht) as (R1 & R2 & _ & _ & R3); [rewrite <- Hp; set_solver|].
    unfold HEAP_START, HEAP_SIZE, HEADER in R1, R3.
    rewrite (proj2 (Z.eqb_neq a 0)) by lia. rewrite Hsz, Z.geb_leb.
    destruct (n <=? s) eqn:E; zbool.
    + assert (Hu : u64 (a + HEADER) = a + HEADER) by (apply u64_small; unfold in_u64, HEADER; lia).
      rewrite Hu. destruct (n + HEADER <? s) eqn:E2; zbool.
      * eexists. split; [reflexivity|]. apply (take_front h al ts dn a s n rs previous); auto. lia.
      * eexists. split; [reflexivity|].
        assert (Hns : split_block (mem h) a n = mem h).
        { unfold split_block. rewrite Hsz, u64_small, Z.gtb_ltb, (proj2 (Z.ltb_ge _ _))
            by (unfold in_u64, HEADER in *; lia). done. }
        rewrite Hns. apply (take_block h al ts dn a s rs previous); auto.
    + specialize (IH (dn ++ [(a, s)]) (next_of (mem h) a) a fuel).
      destruct (ff_alloc rs n) as [[[b t] rest']|].
      * destruct IH as (h' & E1 & E2); [cbn in Hf; lia|by rewrite <- (app_assoc dn)| |done| |].
        { apply ff_seg_app. exists a. cbn [seg]. auto. }
        { right. exists dn, s. split; [done|lia]. }
        exists h'. split; [exact E1|]. by rewrite <- app_assoc in E2.
      * apply IH; [cbn in Hf; lia|by rewrite <- (app_assoc dn)| |done|].
        { apply ff_seg_app. exists a. cbn [seg]. auto. }
        { right. exists dn, s. split; [done|lia]. }
Qed.

Lemma round8_spec size :
  0 <= size -> size + 7 < 2 ^ 64 -> size <= round8 size < size + 8 /\ (8 | round8 size).
Proof.
  intros H0 H1. unfold round8. rewrite u64_small by (unfold in_u64; lia).
  change (not64 7) with (not64 (2 ^ 3 - 1)). rewrite land_not64_pow2 by (unfold in_u64; lia). change (2 ^ 3) with 8.
  pose proof (Z.div_mod (size + 7) 8 ltac:(lia)). pose proof (Z.mod_pos_bound (size + 7) 8 ltac:(lia)).
  split; [lia|]. by exists ((size + 7) / 8).
Qed.

(** The search from the head of the list, on the abstract blocks. *)
Lemma kmalloc_spec fuel size h bs al :
  heap_inv h bs al -> (length bs < fuel)%nat -> 0 <= size -> size + 7 < 2 ^ 64 ->
  match ff_alloc bs (round8 size) with
  | None => kmalloc fuel size h = Ok (0, h) /\ Forall (fun b => b.2 < size + 8) bs
  | Some ((a, s), bs') =>
      exists h', kmalloc fuel size h = Ok (a + HEADER, h') /\ heap_inv h' bs' ((a, s) :: al) /\ size <= s
  end.
Proof.
  intros (Hseg & Hal & ts & Ht & Hp) Hf H0 H1. destruct (round8_spec size H0 H1) as [Hr H8].
  pose proof (kmalloc_loop_spec h (round8 size) al ts Ht Hal) as Hk.
  specialize (Hk ltac:(unfold round8; rewrite land_not64 by (try apply u64_range; split; lia);
    pose proof (u64_range (size + 7)) as HR; unfold in_u64 in HR; unfold round8 in Hr;
    rewrite u64_small in * by (unfold in_u64; lia); rewrite land_not64 in Hr by (unfold in_u64; lia); lia) H8).
  specialize (Hk bs [] (free_list h) 0 fuel Hf Hp eq_refl Hseg (or_introl (conj eq_refl eq_refl))).
  destruct (ff_alloc bs (round8 size)) as [[[a s] bs']|] eqn:E.
  - destruct Hk as (h' & E1 & E2). exists h'. split_and!; [exact E1|exact E2|].
    assert (Hs : forall bs a s bs', ff_alloc bs (round8 size) = Some ((a, s), bs') -> round8 size <= s).
    { clear. induction bs as [|[b t] bs IH]; intros a s bs' E; cbn in E; [done|].
      destruct (round8 size <=? t) eqn:E1; zbool; [destruct (round8 size + HEADER <? t); by simplify_eq|].
      destruct (ff_alloc bs (round8 size)) as [[[c u] rest]|] eqn:E2; simplify_eq. eauto. }
    apply Hs in E. lia.
  - split; [exact Hk|]. clear -E Hr. induction bs as [|[b t] bs IH]; [constructor|].
    cbn in E. destruct (round8 size <=? t) eqn:E1; zbool; [destruct (round8 size + HEADER <? t); done|].
    destruct (ff_alloc bs (round8 size)) as [[? ?]|]; [done|]. constructor; [cbn; lia|auto].
Qed.

(** C17: [kmalloc] implements first fit. With fuel for the free list it terminates;
    it returns NULL and changes nothing when no free block is large enough, and
    otherwise the payload of the first that is, cut to the rounded size when the rest
    can hold another block; free and allocated blocks still tile the heap, and the
    block returned holds the bytes asked for. *)
Theorem first_fit_kmalloc_correct fuel size h bs al :
  heap_inv h bs al -> (length bs < fuel)%nat -> 0 <= size -> size + 7 < 2 ^ 64 ->
  match ff_alloc bs (round8 size) with
  | None => kmalloc fuel size h = Ok (0, h) /\ Forall (fun b => b.2 < size + 8) bs
  | Some ((a, s), bs') =>
      exists h', kmalloc fuel size h = Ok (a + HEADER, h') /\ heap_inv h' bs' ((a, s) :: al) /\ size <= s
  end.
Proof. apply kmalloc_spec. Qed.

(** The heap as [init_heap] leaves it: one free block. *)
Lemma init_heap_inv m : heap_inv (init_heap m) [(HEAP_START, HEAP_SIZE - HEADER)] [].
Proof.
  split; [|split].
  - cbn [seg init_heap mem free_list]. unfold size_of, next_of. rewrite upd_ne, upd_eq, upd_eq by (unfold HEAP_START; lia). done.
  - intros a s Hin. set_solver.
  - exists [(HEAP_START, HEAP_SIZE - HEADER)]. split; [|done]. cbn. unfold HEAP_START, HEAP_SIZE, HEADER.
    split_and!; try lia. by exists 0x1FFFE.
Qed.

Lemma first_fit_kmalloc_correct_witness :
  exists h', kmalloc 2 100 (init_heap (fun _ => 0)) = Ok (HEAP_START + HEADER, h') /\
    heap_inv h' [(HEAP_START + 120, HEAP_SIZE - 136)] [(HEAP_START, 104)] /\ 100 <= 104.
Proof.
  exact (first_fit_kmalloc_correct 2 100 (init_heap (fun _ => 0)) [(HEAP_START, HEAP_SIZE - HEADER)] []
    (init_heap_inv _) ltac:(cbn; lia) ltac:(lia) ltac:(lia)).
Defined.

Lemma kfree_inv h bs al al' a s :
  heap_inv h bs al -> al ≡ₚ (a, s) :: al' -> heap_inv (kfree (a + HEADER) h) ((a, s) :: bs) al'.
Proof.
  intros (Hseg & Hal & ts & Ht & Hp) Hperm. unfold kfree.
  destruct (tiled_range _ _ _ a s Ht) as (R1 & R2 & _ & _ & R3); [rewrite <- Hp, Hperm; set_solver|].
  unfold HEAP_START, HEAP_SIZE, HEADER in R1, R3.
  rewrite Z.add_simpl_r, u64_small by (unfold in_u64; lia).
  assert (Hp' : ((a, s) :: bs) ++ al' ≡ₚ ts) by (rewrite <- Hp, Hperm; solve_Permutation).
  assert (Hsep : sep ([(a, s)] ++ (bs ++ al'))) by (eapply sep_perm; [exact Hp'|by eapply tiled_sep]).
  split; [|split; [|by exists ts]].
  - cbn [seg mem free_list]. unfold size_of at 1, next_of at 1. rewrite upd_ne, upd_eq by lia. split_and!; [done| |].
    + apply Hal. rewrite Hperm. set_solver.
    + eapply ff_seg_frame; [|exact Hseg]. intros y Hy. apply upd_ne.
      eapply (sep_frame [(a, s)] bs a s); [|set_solver|by right|done].
      apply (sep_app_l _ al'). by rewrite <- app_assoc.
  - intros b t Hb. cbn [mem]. unfold size_of. rewrite upd_ne.
    + apply Hal. rewrite Hperm. set_solver.
    + eapply (sep_frame [(a, s)] al' a s); [|set_solver|by right|exists b, t; auto].
      apply (sep_app_l _ bs). eapply sep_perm; [|exact Hsep]. solve_Permutation.
Qed.

(** Writing a word inside the payload of an allocated block. *)
Lemma payload_write_inv h bs al a s x v :
  heap_inv h bs al -> (a, s) ∈ al -> a + HEADER <= x -> x + 8 <= a + HEADER + s ->
  heap_inv {| mem := upd (mem h) x v; free_list := free_list h |} bs al.
Proof.
  intros (Hseg & Hal & ts & Ht & Hp) Hin H1 H2.
  assert (Hx : forall b t, (b, t) ∈ bs ++ al -> b <> x /\ b + 8 <> x).
  { intros b t Hb. rewrite Hp in Hb. assert (Ha : (a, s) ∈ ts) by (rewrite <- Hp; set_solver).
    destruct (tiled_range _ _ _ _ _ Ht Hb) as (_ & Rb & _).
    destruct (decide ((a, s) = (b, t))) as [[= <- <-]|Hne]; [unfold HEADER in *; lia|].
    pose proof (tiled_disjoint _ _ _ _ _ _ _ Ht Ha Hb Hne). unfold HEADER in *. lia. }
  split; [|split; [|by exists ts]].
  - eapply ff_seg_frame; [|exact Hseg]. intros y (b & t & Hb & Hy). apply upd_ne.
    destruct (Hx b t); [set_solver|]. naive_solver.
  - intros b t Hb. cbn [mem]. unfold size_of. rewrite upd_ne; [by apply Hal|]. apply (Hx b t). set_solver.
Qed.

(** * Histories

    A client allocates, frees what it was given and writes into what it holds; the
    second component lists the blocks it holds. *)
Inductive heap_step : heap * list block -> heap * list block -> Prop :=
| step_kmalloc fuel size h al p h' :
    0 <= size -> size + 7 < 2 ^ 64 -> kmalloc fuel size h = Ok (p, h') -> p <> 0 ->
    heap_step (h, al) (h', (p - HEADER, size_of (mem h') (p - HEADER)) :: al)
| step_kmalloc_null fuel size h al h' :
    0 <= size -> size + 7 < 2 ^ 64 -> kmalloc fuel size h = Ok (0, h') -> heap_step (h, al) (h', al)
| step_kfree h al al' a s :
    al ≡ₚ (a, s) :: al' -> heap_step (h, al) (kfree (a + HEADER) h, al')
| step_write h al a s x v :
    (a, s) ∈ al -> a + HEADER <= x -> x + 8 <= a + HEADER + s ->
    heap_step (h, al) ({| mem := upd (mem h) x v; free_list := free_list h |}, al).

(** More fuel does not change a result. *)
Lemma kmalloc_loop_mono fuel fuel' h p c n r :
  (fuel <= fuel')%nat -> kmalloc_loop fuel h p c n = Ok r -> kmalloc_loop fuel' h p c n = Ok r.
Proof.
  revert fuel' p c. induction fuel as [|fuel IH]; intros fuel' p c Hle E; [done|].
  destruct fuel' as [|fuel']; [lia|]. cbn [kmalloc_loop] in *.
  destruct (c =? 0); [done|]. destruct (_ >=? _); [done|]. apply IH; [lia|done].
Qed.

(** Any call that returns does what first fit does. *)
Lemma kmalloc_result fuel size h bs al p h' :
  heap_inv h bs al -> 0 <= size -> size + 7 < 2 ^ 64 -> kmalloc fuel size h = Ok (p, h') ->
  (p = 0 /\ h' = h) \/
  exists a s bs', p = a + HEADER /\ p <> 0 /\ size_of (mem h') a = s /\ size <= s /\ heap_inv h' bs' ((a, s) :: al).
Proof.
  intros Hinv H0 H1 E.
  pose proof (kmalloc_spec (Nat.max fuel (S (length bs))) size h bs al Hinv ltac:(lia) H0 H1) as Hs.
  unfold kmalloc in *. apply (kmalloc_loop_mono _ (Nat.max fuel (S (length bs)))) in E; [|lia].
  destruct (ff_alloc bs (round8 size)) as [[[a s] bs']|].
  - destruct Hs as (h1 & E1 & Hi & Hle). rewrite E in E1. simplify_eq. right. exists a, s, bs'.
    pose proof Hi as (_ & Hal & ts & Ht & Hp).
    destruct (tiled_range _ _ _ a s Ht) as (R1 & _); [rewrite <- Hp; set_solver|].
    unfold HEAP_START, HEADER in *. split_and!; try done; try lia. apply Hal. set_solver.
  - destruct Hs as [E1 _]. rewrite E in E1. simplify_eq. by left.
Qed.

Lemma heap_step_inv x y :
  heap_step x y -> forall bs, heap_inv x.1 bs x.2 -> exists bs', heap_inv y.1 bs' y.2.
Proof.
  destruct 1 as [fuel size h al p h' H0 H1 E Hp|fuel size h al h' H0 H1 E|h al al' a s Hp|h al a s x v Hin H1 H2];
    intros bs Hinv; cbn [fst snd] in *.
  - destruct (kmalloc_result _ _ _ _ _ _ _ Hinv H0 H1 E) as [[? ?]|(a & s & bs' & -> & _ & Hs & _ & Hi)]; [done|].
    exists bs'. rewrite Z.add_simpl_r, Hs. done.
  - destruct (kmalloc_result _ _ _ _ _ _ _ Hinv H0 H1 E) as [[_ ->]|(a & s & bs' & _ & ? & _)]; [by exists bs|done].
  - eauto using kfree_inv.
  - eauto using payload_write_inv.
Qed.

(** Bytes of a list of blocks, headers included. *)
Definition total (bs : list block) : Z := foldr (fun b n => HEADER + b.2 + n) 0 bs.

Lemma total_tiled a ts e : tiled a ts e -> total ts = e - a.
Proof.
  revert a. induction ts as [|[b s] ts IH]; intros a Ht; cbn [tiled total foldr] in *; [lia|].
  destruct Ht as (_ & _ & _ & Ht). apply IH in Ht. unfold total in Ht. cbn [snd]. lia.
Qed.

Lemma total_perm bs cs : bs ≡ₚ cs -> total bs = total cs.
Proof. unfold total. induction 1; cbn [foldr] in *; lia. Qed.

(** C18: after any history of allocations, releases and writes by a client that
    stays inside what it holds, the blocks held lie inside the heap, do not overlap,
    and the free blocks account for every other byte: nothing is lost. *)
Theorem first_fit_history m h al :
  rtc heap_step (init_heap m, []) (h, al) ->
  (forall a s, (a, s) ∈ al -> HEAP_START <= a /\ a + HEADER + s <= HEAP_START + HEAP_SIZE) /\
  (forall a s b t, (a, s) ∈ al -> (b, t) ∈ al -> (a, s) <> (b, t) -> a + HEADER + s <= b \/ b + HEADER + t <= a) /\
  NoDup al /\ exists bs, heap_inv h bs al /\ total bs + total al = HEAP_SIZE.
Proof.
  intros Hr. assert (Hinv : exists bs, heap_inv h bs al).
  { change (exists bs, heap_inv (h, al).1 bs (h, al).2). revert Hr. generalize (h, al). intros y.
    apply (rtc_ind_r (fun y => exists bs, heap_inv y.1 bs y.2)).
    - eexists. apply init_heap_inv.
    - intros y' z _ Hs [bs Hi]. by eapply heap_step_inv. }
  destruct Hinv as [bs Hi]. pose proof Hi as (_ & _ & ts & Ht & Hp).
  assert (Hin : forall b, b ∈ al -> b ∈ ts) by (intros b Hb; rewrite <- Hp; set_solver).
  split_and!.
  - intros a s Ha. destruct (tiled_range _ _ _ _ _ Ht (Hin _ Ha)) as (? & _ & _ & _ & ?). done.
  - intros a s b t Ha Hb. apply (tiled_disjoint _ _ _ _ _ _ _ Ht); auto.
  - pose proof (tiled_nodup _ _ _ Ht) as Hn. rewrite <- Hp in Hn. by apply NoDup_app in Hn as (_ & _ & ?).
  - exists bs. split; [done|]. assert (Ha : total (bs ++ al) = total bs + total al).
    { clear. unfold total. induction bs as [|b bs IH]; cbn [app foldr] in *; lia. }
    rewrite <- Ha, (total_perm _ _ Hp), (total_tiled _ _ _ Ht). lia.
Qed.

Lemma first_fit_history_witness :
  exists h al, rtc heap_step (init_heap (fun _ => 0), []) (h, al) /\ al = [(HEAP_START, 104)] /\
    exists bs, heap_inv h bs al /\ total bs + total al = HEAP_SIZE.
Proof.
  destruct (kmalloc 2 100 (init_heap (fun _ => 0))) as [[p h]| | |] eqn:E; [|vm_compute in E; discriminate E..].
  assert (Hp : p = 0x100010) by (vm_compute in E; by injection E as <- _).
  assert (Hs : size_of (mem h) (p - HEADER) = 104) by (vm_compute in E; injection E as <- <-; reflexivity).
  assert (Hr : rtc heap_step (init_heap (fun _ => 0), []) (h, [(HEAP_START, 104)])).
  { eapply rtc_l; [|apply rtc_refl]. rewrite <- Hs. replace HEAP_START with (p - HEADER) by (subst p; reflexivity).
    apply (step_kmalloc 2 100); [lia|lia|exact E|subst p; lia]. }
  exists h, [(HEAP_START, 104)]. split; [exact Hr|]. split; [reflexivity|].
  apply (first_fit_history (fun _ => 0) h [(HEAP_START, 104)] Hr).
Defined.

(** A request near 2^64 wraps to a small one and is granted. *)
Lemma kmalloc_wraps : round8 (2 ^ 64 - 1) = 0.
Proof. reflexivity. Qed.

(** Released blocks are never merged: after one allocation and its release the heap
    is all free, and still the request that the fresh heap could serve fails. *)
Lemma kfree_does_not_merge :
  exists p1 h1 h2, kmalloc 2 100 (init_heap (fun _ => 0)) = Ok (p1, h1) /\
    kmalloc 4 (HEAP_SIZE - HEADER) (kfree p1 h1) = Ok (0, h2) /\
    exists p3 h3, kmalloc 2 (HEAP_SIZE - HEADER) (init_heap (fun _ => 0)) = Ok (p3, h3) /\ p3 <> 0.
Proof.
  eexists _, _, _. split; [vm_compute; reflexivity|]. split; [vm_compute; reflexivity|].
  eexists _, _. split; [vm_compute; reflexivity|]. lia.
Qed.

(** The heap part of [kernel_main]: two allocations that are released again. *)
Definition kernel_main_heap (fuel : nat) (m : memory) : outcome (Z * Z * heap) :=
  let h := init_heap m in
  '(ptr1, h) ← kmalloc fuel 100 h;
  '(ptr2, h) ← kmalloc fuel 200 h;
  Ok (ptr1, ptr2, kfree ptr2 (kfree ptr1 h)).

(** Whatever the memory holds, both requests are served from the start of the heap, and
    at the end the whole heap is free, in three blocks, the last released first. *)
Lemma kernel_main_heap_spec m fuel : (2 <= fuel)%nat ->
  exists h, kernel_main_heap fuel m = Ok (HEAP_START + HEADER, HEAP_START + HEADER + 104 + HEADER, h) /\
    heap_inv h [(HEAP_START + HEADER + 104, 200); (HEAP_START, 104);
                (HEAP_START + 2 * HEADER + 304, HEAP_SIZE - 3 * HEADER - 304)] [].
Proof.
  intros Hf. unfold kernel_main_heap.
  destruct (kmalloc_spec fuel 100 (init_heap m) _ [] (init_heap_inv m)) as (h1 & -> & I1 & _); [cbn; lia|lia|lia|].
  cbn [mbind outcome_bind].
  destruct (kmalloc_spec fuel 200 h1 _ _ I1) as (h2 & -> & I2 & _); [cbn; lia|lia|lia|].
  cbn [mbind outcome_bind]. eexists. split; [reflexivity|].
  change (heap_inv h2 [(HEAP_START + 2 * HEADER + 304, HEAP_SIZE - 3 * HEADER - 304)]
    [(HEAP_START + HEADER + 104, 200); (HEAP_START, 104)]) in I2.
  eapply (kfree_inv _ _ _ []); [|reflexivity]. eapply kfree_inv; [exact I2|]. apply Permutation_swap.
Qed.

End FirstFit.
