(* ===== verification/FileTask.v ===== *)
(** * The file task program (src/fs/read_write.c)

    One thread per file writes its data with retries, seeks back, reads the file and
    copies it to the output; a common exit closes the descriptor and frees the
    buffer. What the system calls answer is given as streams: a positive count, an
    interruption or an error. A count is cut to what the call can transfer, as the
    system does; reading 0 bytes means the end of the file. A loop whose stream is
    used up is still running ([Hang]). *)
From Stdlib Require Import ZArith Lia.
From stdpp Require Import strings numbers gmap base.
From stdpp Require Import list.
From S2P Require Import Prelude.

Open Scope Z_scope.

Module FileTask.

Definition DEFAULT_BUFFER_SIZE : Z := 1024.
Definition MAX_RETRIES : Z := 3.

Record file_task_t := { filename : string; data : list Z; buffer_size : nat }.

(** One answer of [write] or [read]. *)
Inductive answer := Count (n : nat) | Interrupted | Failed.

(** How a loop ended: complete, or with a jump to [cleanup]. *)
Inductive ended := Complete | ToCleanup.

(** The write loop: [total] bytes of the data are in the file. *)
Fixpoint write_loop (ws : list answer) (d : list Z) (total : nat) (retries : Z) (file : list Z) :
  outcome (ended * list Z) :=
  if (total <? length d)%nat then
    match ws with
    | [] => Hang
    | Interrupted :: ws => write_loop ws d total retries file
    | Failed :: ws =>
        if retries <? MAX_RETRIES then write_loop ws d total (retries + 1) file
        else Ok (ToCleanup, file)
    | Count n :: ws =>
        let bytes_op := Nat.min n (length d - total) in
        match bytes_op with
        | O => Ok (ToCleanup, file)
        | _ => write_loop ws d (total + bytes_op) 0 (file ++ take bytes_op (drop total d))
        end
    end
  else Ok (Complete, file).

(** The read loop: [pos] bytes of the file have been copied to [out]. *)
Fixpoint read_loop (rs : list answer) (size pos : nat) (retries : Z) (file out : list Z) :
  outcome (ended * list Z) :=
  match rs with
  | [] => Hang
  | Interrupted :: rs => read_loop rs size pos retries file out
  | Failed :: rs =>
      if retries <? MAX_RETRIES then read_loop rs size pos (retries + 1) file out
      else Ok (ToCleanup, out)
  | Count n :: rs =>
      let bytes_op := Nat.min n (Nat.min size (length file - pos)) in
      match bytes_op with
      | O => Ok (Complete, out)
      | _ => read_loop rs size (pos + bytes_op) 0 file (out ++ take bytes_op (drop pos file))
      end
  end.

(** What the environment answers to the calls of one thread. *)
Record world := {
  calloc_ok : bool;
  open_ok : bool;
  writes : list answer;
  lseek_ok : bool;
  reads : list answer
}.

(** What a thread did. *)
Record effects := {
  file : option (list Z);   (* contents left on disk, if it was opened *)
  printed : list Z;         (* bytes copied to the output *)
  complete : bool;          (* the end-of-content line was printed *)
  closes : nat;
  frees : nat
}.

(** The code after the label [cleanup]. *)
Definition cleanup (opened : option (list Z)) (out : list Z) (done : bool) : effects :=
  {| file := opened; printed := out; complete := done;
     closes := match opened with Some _ => 1 | None => 0 end; frees := 1 |}.

Definition process_file (task : file_task_t) (w : world) : outcome effects :=
  if negb (calloc_ok w) then Panic "exit"
  else if negb (open_ok w) then Ok (cleanup None [] false)
  else
    '(e, contents) ← write_loop (writes w) (data task) 0 0 [];
    match e with
    | ToCleanup => Ok (cleanup (Some contents) [] false)
    | Complete =>
        if negb (lseek_ok w) then Ok (cleanup (Some contents) [] false)
        else
          '(e, out) ← read_loop (reads w) (buffer_size task) 0 0 contents [];
          Ok (cleanup (Some contents) out (match e with Complete => true | ToCleanup => false end))
    end.

(** * [main] *)

(** The option [-b]: the value [strtol] returned, whether it consumed the whole
    non-empty argument, and whether it set [ERANGE]. *)
Definition parse_buffer_size (whole : bool) (conv : Z) (erange : bool) : option Z :=
  if negb whole then None
  else if erange && ((conv =? 2 ^ 63 - 1) || (conv =? - 2 ^ 63)) || (erange && (conv =? 0)) then None
  else if conv <=? 0 then None
  else Some conv.

(** The loop that fills [tasks]; the arguments after the options. *)
Fixpoint make_tasks (args : list (string * list Z)) (size : nat) : list file_task_t :=
  match args with
  | (f, _) :: (_, d) :: rest => {| filename := f; data := d; buffer_size := size |} :: make_tasks rest size
  | _ => []
  end.

(** An argument as a file name and as bytes. *)
Definition tasks_of (args : list (string * list Z)) (size : nat) : outcome (list file_task_t) :=
  if (length args <? 2)%nat || negb (Nat.even (length args)) then Panic "exit"
  else Ok (make_tasks args size).

(** * Theorems *)

(** Answers after which a loop goes on: at most three failures between two counts,
    no count of 0. [k] failures have just been seen. *)
Fixpoint steady (k : Z) (ws : list answer) : Prop :=
  match ws with
  | [] => True
  | Interrupted :: ws => steady k ws
  | Failed :: ws => k < MAX_RETRIES /\ steady (k + 1) ws
  | Count n :: ws => (0 < n)%nat /\ steady 0 ws
  end.

(** Number of counts in a stream. *)
Fixpoint counts (ws : list answer) : nat :=
  match ws with
  | [] => 0
  | Count _ :: ws => S (counts ws)
  | _ :: ws => counts ws
  end.

Lemma take_drop_next (d : list Z) total n :
  take total d ++ take n (drop total d) = take (total + n) d.
Proof. symmetry. rewrite <- (take_drop total d) at 1. rewrite take_app. rewrite take_take, length_take.
  destruct (decide (total <= length d)%nat).
  - f_equal; f_equal; lia.
  - rewrite !drop_ge by lia. rewrite !take_nil. f_equal. f_equal. lia.
Qed.

Lemma write_loop_steady ws d total retries :
  steady retries ws -> (total <= length d)%nat -> (length d - total <= counts ws)%nat ->
  write_loop ws d total retries (take total d) = Ok (Complete, d).
Proof.
  revert total retries. induction ws as [|[n| |] ws IH]; intros total retries Hs Ht Hc; cbn [write_loop counts steady] in *.
  - rewrite (proj2 (Nat.ltb_ge _ _)) by lia. rewrite take_ge by lia. done.
  - destruct (total <? length d)%nat eqn:E; [|apply Nat.ltb_ge in E; by rewrite take_ge].
    apply Nat.ltb_lt in E. destruct Hs as [Hn Hs].
    destruct (Nat.min n (length d - total)) as [|k] eqn:Em; [lia|].
    rewrite take_drop_next. apply IH; [done|lia|lia].
  - destruct (total <? length d)%nat eqn:E; [|apply Nat.ltb_ge in E; by rewrite take_ge]. apply IH; done.
  - destruct (total <? length d)%nat eqn:E; [|apply Nat.ltb_ge in E; by rewrite take_ge].
    destruct Hs as [Hk Hs]. rewrite (proj2 (Z.ltb_lt _ _)) by done. apply IH; done.
Qed.

Lemma read_loop_steady rs size pos retries f :
  steady retries rs -> (0 < size)%nat -> (pos <= length f)%nat -> (length f - pos < counts rs)%nat ->
  read_loop rs size pos retries f (take pos f) = Ok (Complete, f).
Proof.
  revert pos retries. induction rs as [|[n| |] rs IH]; intros pos retries Hs Hz Hp Hc; cbn [read_loop counts steady] in *.
  - lia.
  - destruct Hs as [Hn Hs]. destruct (Nat.min n (Nat.min size (length f - pos))) as [|k] eqn:Em.
    + rewrite take_ge by lia. done.
    + rewrite take_drop_next. apply IH; [done|done|lia|lia].
  - apply IH; done.
  - destruct Hs as [Hk Hs]. rewrite (proj2 (Z.ltb_lt _ _)) by done. apply IH; done.
Qed.

(** The round trip. However the system splits the transfers and interrupts them,
    with at most three failures in a row, a thread terminates, leaves exactly its
    data in the file, prints exactly that, and closes and frees once. *)
Theorem process_file_roundtrip task w :
  calloc_ok w = true -> open_ok w = true -> lseek_ok w = true -> (0 < buffer_size task)%nat ->
  steady 0 (writes w) -> (length (data task) <= counts (writes w))%nat ->
  steady 0 (reads w) -> (length (data task) < counts (reads w))%nat ->
  process_file task w =
    Ok {| file := Some (data task); printed := data task; complete := true; closes := 1; frees := 1 |}.
Proof.
  intros Hc Ho Hl Hb Hw Hwc Hr Hrc. unfold process_file. rewrite Hc, Ho. cbn [negb].
  pose proof (write_loop_steady (writes w) (data task) 0 0 Hw ltac:(lia) ltac:(lia)) as E1.
  rewrite take_0 in E1. rewrite E1. cbn [mbind outcome_bind]. rewrite Hl. cbn [negb].
  pose proof (read_loop_steady (reads w) (buffer_size task) 0 0 (data task) Hr Hb ltac:(lia) ltac:(lia)) as E2.
  rewrite take_0 in E2. rewrite E2. done.
Qed.

Lemma process_file_roundtrip_witness :
  process_file {| filename := "a"; data := [72; 105; 33]; buffer_size := 2 |}
    {| calloc_ok := true; open_ok := true; writes := [Failed; Interrupted; Count 1; Failed; Failed; Failed; Count 1; Count 9];
       lseek_ok := true; reads := [Count 5; Interrupted; Count 1; Failed; Count 1; Count 1] |}
  = Ok {| file := Some [72; 105; 33]; printed := [72; 105; 33]; complete := true; closes := 1; frees := 1 |}.
Proof.
  apply (process_file_roundtrip {| filename := "a"; data := [72; 105; 33]; buffer_size := 2 |}); cbn; unfold MAX_RETRIES; lia || done.
Defined.

(** A loop that ends leaves a prefix of the data. *)
Lemma write_loop_prefix ws d total retries e f :
  (total <= length d)%nat -> write_loop ws d total retries (take total d) = Ok (e, f) ->
  f `prefix_of` d /\ (e = Complete -> f = d).
Proof.
  revert total retries. induction ws as [|[n| |] ws IH]; intros total retries Ht E; cbn [write_loop] in E;
    (destruct (total <? length d)%nat eqn:El;
     [apply Nat.ltb_lt in El|apply Nat.ltb_ge in El; injection E as <- <-; rewrite take_ge by lia; done]).
  - done.
  - destruct (Nat.min n (length d - total)) as [|k] eqn:Em.
    + injection E as <- <-. split; [apply prefix_take|done].
    + rewrite take_drop_next in E. apply (IH (total + S k)%nat 0); [lia|done].
  - eauto.
  - destruct (retries <? MAX_RETRIES); [eauto|]. injection E as <- <-. split; [apply prefix_take|done].
Qed.

Lemma read_loop_prefix rs size pos retries f e out :
  read_loop rs size pos retries f (take pos f) = Ok (e, out) -> out `prefix_of` f.
Proof.
  revert pos retries. induction rs as [|[n| |] rs IH]; intros pos retries E; cbn [read_loop] in E; [done| |eauto|].
  - destruct (Nat.min n _) as [|k]; [injection E as <- <-; apply prefix_take|].
    rewrite take_drop_next in E. eauto.
  - destruct (retries <? MAX_RETRIES); [eauto|]. injection E as <- <-. apply prefix_take.
Qed.

(** Every exit. Whatever the system answers, a thread that ends has freed its
    buffer once and closed its descriptor exactly once if the file was opened and
    never otherwise; the file holds a prefix of the data and the output is a prefix
    of the file. *)
Theorem process_file_cleanup task w eff :
  process_file task w = Ok eff ->
  frees eff = 1%nat /\ closes eff = (if open_ok w then 1 else 0)%nat /\
  match file eff with
  | None => open_ok w = false /\ printed eff = []
  | Some f => open_ok w = true /\ f `prefix_of` data task /\ printed eff `prefix_of` f
  end.
Proof.
  unfold process_file. destruct (calloc_ok w); [|done]. destruct (open_ok w); cbn [negb].
  2: { intros [= <-]. done. }
  destruct (write_loop _ _ _ _ _) as [[e f]| | |] eqn:Ew; cbn [mbind outcome_bind]; try done.
  destruct (write_loop_prefix (writes w) (data task) 0 0 e f) as [Hp _]; [lia|exact Ew|].
  destruct e.
  - destruct (lseek_ok w); cbn [negb].
    + destruct (read_loop _ _ _ _ _ _) as [[e' out]| | |] eqn:Er; cbn [mbind outcome_bind]; try done.
      intros [= <-]. cbn. split_and!; try done. eapply (read_loop_prefix _ _ 0 0); exact Er.
    + intros [= <-]. cbn. split_and!; try done. apply prefix_nil.
  - intros [= <-]. cbn. split_and!; try done. apply prefix_nil.
Qed.

Lemma process_file_cleanup_witness :
  exists eff, process_file {| filename := "a"; data := [1; 2; 3]; buffer_size := 8 |}
      {| calloc_ok := true; open_ok := true; writes := [Count 2; Failed; Failed; Failed; Failed]; lseek_ok := true; reads := [] |}
    = Ok eff /\ frees eff = 1%nat /\ closes eff = 1%nat /\ file eff = Some [1; 2].
Proof.
  eexists. split; [reflexivity|].
  destruct (process_file_cleanup {| filename := "a"; data := [1; 2; 3]; buffer_size := 8 |}
    {| calloc_ok := true; open_ok := true; writes := [Count 2; Failed; Failed; Failed; Failed]; lseek_ok := true; reads := [] |}
    _ eq_refl) as (H1 & H2 & _).
  split; [exact H1|]. split; [exact H2|reflexivity].
Defined.

(** The pairs of arguments, in order. *)
Lemma make_tasks_spec args size ts :
  tasks_of args size = Ok ts ->
  length args = (2 * length ts)%nat /\
  forall i t, ts !! i = Some t -> exists f d x y, args !! (2 * i)%nat = Some (f, x) /\ args !! (2 * i + 1)%nat = Some (y, d) /\
    t = {| filename := f; data := d; buffer_size := size |}.
Proof.
  unfold tasks_of. destruct (length args <? 2)%nat; [done|]. destruct (Nat.even (length args)) eqn:E; [|done].
  cbn [orb negb]. intros [= <-]. apply Nat.even_spec in E as [n Hn]. revert args Hn.
  induction n as [|n IH]; intros args Hn.
  - destruct args; [|done]. split; [done|]. intros [|] ? ?; done.
  - destruct args as [|[f x] [|[y d] args]]; [done|cbn in Hn; lia|].
    destruct (IH args) as [Hl Hi]; [cbn in Hn; lia|]. cbn [make_tasks length]. split; [lia|].
    intros [|i] t Ht; cbn in Ht; [simplify_eq; cbn; eauto 10|].
    destruct (Hi i t Ht) as (f' & d' & x' & y' & H1 & H2 & ->). exists f', d', x', y'.
    replace (2 * S i)%nat with (S (S (2 * i))) by lia. split_and!; done.
Qed.

End FileTask.
