(* ===== verification/FileTasks.v ===== *)
(** * The threads of the file task program ([main] of src/fs/read_write.c)

    [main] reads its options, makes one task per pair of arguments, starts a thread
    per task and joins them. Here the threads run one system call at a time over a
    disk they share, in any order; [FileTask.process_file] is what one thread does
    alone. The state keeps whether the array [tasks], which every thread reads, is
    still allocated. *)
From Stdlib Require Import ZArith Lia.
From stdpp Require Import strings numbers gmap base.
From stdpp Require Import list.
From S2P Require Import Prelude.
From S2P Require Import FileTask.

Open Scope Z_scope.

Module FileTasks.
Import FileTask.

(** * Before the threads start *)

(** What [getopt] returned: the option [-b] with what [strtol] made of its argument,
    or an unknown option. *)
Inductive opt := OptB (whole : bool) (conv : Z) (erange : bool) | OptUnknown.

Fixpoint parse_options (opts : list opt) (buffer_size : Z) : outcome Z :=
  match opts with
  | [] => Ok buffer_size
  | OptB whole conv erange :: opts =>
      match parse_buffer_size whole conv erange with
      | None => Panic "exit"
      | Some n => parse_options opts n
      end
  | OptUnknown :: _ => Panic "exit"
  end.

(** From the arguments to the tasks; [threads_ok] and [tasks_ok] are the answers of
    the two [malloc]s. *)
Definition main_prologue (opts : list opt) (args : list (string * list Z))
  (threads_ok tasks_ok : bool) : outcome (list file_task_t) :=
  size ← parse_options opts DEFAULT_BUFFER_SIZE;
  ts ← tasks_of args (Z.to_nat size);
  if negb threads_ok || negb tasks_ok then Panic "exit" else Ok ts.

(** * Threads *)

(** Where a thread is. [Writing] has the answers to come, the bytes written, which is
    also the offset of its descriptor, and the failures in a row. *)
Inductive tpc :=
| NotCreated
| Ready
| Writing (ws : list answer) (total : nat) (retries : Z)
| Seeking
| Reading (rs : list answer) (pos : nat) (retries : Z) (out : list Z)
| Closing (out : list Z) (done : bool)
| Ended (eff : effects).

(** [write] at an offset: it overwrites, and fills a gap with zeros. *)
Definition write_at (f : list Z) (off : nat) (bs : list Z) : list Z :=
  take off f ++ replicate (off - length f) 0 ++ bs ++ drop (off + length bs) f.

Definition contents (task : file_task_t) (disk : gmap string (list Z)) : list Z := default [] (disk !! filename task).

(** What else the system answers to a thread: whether [close] succeeds, and what
    [log_error] appends for a message at a point of the thread, the text of [errno]
    included; [None]: the log cannot be opened. *)
Record io := { close_ok : bool; log_text : tpc -> string -> option (list Z) }.

Definition LOG_FILE : string := "error.log".

(** [log_error]: a line at the end of the log, one file for all threads. *)
Definition log_error (x : io) (t : tpc) (msg : string) (disk : gmap string (list Z)) : gmap string (list Z) :=
  match log_text x t msg with
  | Some line => <[LOG_FILE := default [] (disk !! LOG_FILE) ++ line]> disk
  | None => disk
  end.

(** One system call of a thread on its file, with the branch that follows it. [None]:
    the thread waits for an answer, or does not exist. *)
Definition thread_step (task : file_task_t) (w : world) (x : io) (t : tpc) (disk : gmap string (list Z)) :
  option (outcome (tpc * gmap string (list Z))) :=
  let f := contents task disk in
  match t with
  | NotCreated | Ended _ => None
  | Ready =>
      Some (if negb (calloc_ok w) then Panic "exit"
            else if negb (open_ok w) then Ok (Ended (cleanup None [] false), log_error x t "Error opening file" disk)
            else Ok (Writing (writes w) 0 0, <[filename task := []]> disk))
  | Writing ws total retries =>
      if (total <? length (data task))%nat then
        match ws with
        | [] => None
        | Interrupted :: ws => Some (Ok (Writing ws total retries, disk))
        | Failed :: ws =>
            Some (Ok (if retries <? MAX_RETRIES
                      then (Writing ws total (retries + 1), log_error x t "Retry writing to file" disk)
                      else (Closing [] false, log_error x t "Error writing to file after retries" disk)))
        | Count n :: ws =>
            let bytes_op := Nat.min n (length (data task) - total) in
            match bytes_op with
            | O => Some (Ok (Closing [] false, log_error x t "Wrote 0 bytes unexpectedly" disk))
            | _ => Some (Ok (Writing ws (total + bytes_op) 0,
                       <[filename task := write_at f total (take bytes_op (drop total (data task)))]> disk))
            end
        end
      else Some (Ok (Seeking, disk))
  | Seeking =>
      Some (Ok (if negb (lseek_ok w) then (Closing [] false, log_error x t "Error seeking in file" disk)
                else (Reading (reads w) 0 0 [], disk)))
  | Reading rs pos retries out =>
      match rs with
      | [] => None
      | Interrupted :: rs => Some (Ok (Reading rs pos retries out, disk))
      | Failed :: rs =>
          Some (Ok (if retries <? MAX_RETRIES
                    then (Reading rs pos (retries + 1) out, log_error x t "Retry reading from file" disk)
                    else (Closing out false, log_error x t "Error reading from file after retries" disk)))
      | Count n :: rs =>
          let bytes_op := Nat.min n (Nat.min (buffer_size task) (length f - pos)) in
          match bytes_op with
          | O => Some (Ok (Closing out true, disk))
          | _ => Some (Ok (Reading rs (pos + bytes_op) 0 (out ++ take bytes_op (drop pos f)), disk))
          end
      end
  | Closing out done =>
      let disk := if close_ok x then disk else log_error x t "Error closing file" disk in
      Some (Ok (Ended (cleanup (Some (contents task disk)) out done), disk))
  end.

(** Every call reads the task but an [lseek] that fails and the [close]. *)
Definition reads_task (w : world) (t : tpc) : bool :=
  match t with Seeking => lseek_ok w | Closing _ _ => false | _ => true end.

(** * [main] after the prologue *)

Inductive mpc :=
| MCreate (i : nat)                       (* the loop of [pthread_create] *)
| MJoin (i : nat) (all_joined_ok : bool)  (* the loop of [pthread_join] *)
| MFreed (code : Z)                       (* both arrays are freed *)
| MExited (code : Z).

Record state := mk_state { main : mpc; threads : list tpc; disk : gmap string (list Z); tasks_live : bool }.

(** The program's tasks with what the system answers to each, and the answers of
    [pthread_create] and [pthread_join]. *)
Record env := { jobs : list (file_task_t * world); ios : nat -> io; create_ok : nat -> bool; join_ok : nat -> bool }.

Definition main_thread_step (e : env) (s : state) : option (outcome state) :=
  let pairs := length (jobs e) in
  match main s with
  | MCreate i =>
      Some (Ok (
        if (i <? pairs)%nat then
          if create_ok e i then mk_state (MCreate (S i)) (<[i := Ready]> (threads s)) (disk s) (tasks_live s)
          else mk_state (MFreed 1) (threads s) (disk s) false
        else mk_state (MJoin 0 true) (threads s) (disk s) (tasks_live s)))
  | MJoin i ok =>
      if (i <? pairs)%nat then
        if join_ok e i then
          match threads s !! i with
          | Some (Ended _) => Some (Ok (mk_state (MJoin (S i) ok) (threads s) (disk s) (tasks_live s)))
          | _ => None
          end
        else Some (Ok (mk_state (MJoin (S i) false) (threads s) (disk s) (tasks_live s)))
      else Some (Ok (mk_state (MFreed (if ok then 0 else 1)) (threads s) (disk s) false))
  | MFreed code => Some (Ok (mk_state (MExited code) (threads s) (disk s) (tasks_live s)))
  | MExited _ => None
  end.

(** A step of [main] ([None]) or of a thread. A thread reads its task; [exit] in a
    thread ends the program. *)
Definition step (e : env) (who : option nat) (s : state) : option (outcome state) :=
  match who with
  | None => main_thread_step e s
  | Some i =>
      match main s, jobs e !! i, threads s !! i with
      | MExited _, _, _ => None
      | _, Some (task, w), Some t =>
          match thread_step task w (ios e i) t (disk s) with
          | None => None
          | Some r =>
              if reads_task w t && negb (tasks_live s) then Some (Undef "use after free")
              else match r with
                   | Ok (t', d') => Some (Ok (mk_state (main s) (<[i := t']> (threads s)) d' (tasks_live s)))
                   | _ => Some (Ok (mk_state (MExited 1) (threads s) (disk s) (tasks_live s)))
                   end
          end
      | _, _, _ => None
      end
  end.

Definition initial (e : env) (d : gmap string (list Z)) : state :=
  mk_state (MCreate 0) (replicate (length (jobs e)) NotCreated) d true.

Inductive reachable (e : env) (d : gmap string (list Z)) : state -> Prop :=
| reach_initial : reachable e d (initial e d)
| reach_step s who s' : reachable e d s -> step e who s = Some (Ok s') -> reachable e d s'.

(** A schedule: who moves next. *)
Fixpoint run (e : env) (sched : list (option nat)) (s : state) : option (outcome state) :=
  match sched with
  | [] => Some (Ok s)
  | who :: sched =>
      match step e who s with
      | Some (Ok s') => run e sched s'
      | r => r
      end
  end.

(** * Theorems *)

(** What is left of [process_file] at a point of a thread, with [f] in its file. *)
Definition rest (task : file_task_t) (w : world) (t : tpc) (f : list Z) : outcome effects :=
  let reading rs pos retries out :=
    '(e, out) ← read_loop rs (buffer_size task) pos retries f out;
    Ok (cleanup (Some f) out (match e with Complete => true | ToCleanup => false end)) in
  match t with
  | NotCreated | Ready => process_file task w
  | Writing ws total retries =>
      '(e, f) ← write_loop ws (data task) total retries f;
      match e with
      | ToCleanup => Ok (cleanup (Some f) [] false)
      | Complete =>
          if negb (lseek_ok w) then Ok (cleanup (Some f) [] false)
          else
            '(e, out) ← read_loop (reads w) (buffer_size task) 0 0 f [];
            Ok (cleanup (Some f) out (match e with Complete => true | ToCleanup => false end))
      end
  | Seeking => if negb (lseek_ok w) then Ok (cleanup (Some f) [] false) else reading (reads w) 0%nat 0 []
  | Reading rs pos retries out => reading rs pos retries out
  | Closing out done => Ok (cleanup (Some f) out done)
  | Ended eff => Ok eff
  end.

(** A thread on its way: what is left completes [process_file], and the file it has
    open, or has left behind, is on the disk. *)
Definition thread_inv (task : file_task_t) (w : world) (t : tpc) (d : gmap string (list Z)) : Prop :=
  rest task w t (contents task d) = process_file task w /\
  match t with
  | NotCreated | Ready => True
  | Writing _ total _ => exists f, d !! filename task = Some f /\ length f = total
  | Seeking | Reading _ _ _ _ | Closing _ _ => is_Some (d !! filename task)
  | Ended eff => forall f, file eff = Some f -> d !! filename task = Some f
  end.

Lemma contents_lookup task d f : d !! filename task = Some f -> contents task d = f.
Proof. unfold contents. by intros ->. Qed.

Lemma contents_insert task d f : contents task (<[filename task := f]> d) = f.
Proof. apply contents_lookup, lookup_insert_eq. Qed.

Lemma write_at_end f bs : write_at f (length f) bs = f ++ bs.
Proof.
  unfold write_at. rewrite firstn_all, Nat.sub_diag, drop_ge by lia. cbn. by rewrite app_nil_r.
Qed.

(** Another file's contents are not touched by the log. *)
Lemma log_error_other x t msg d n : n <> LOG_FILE -> log_error x t msg d !! n = d !! n.
Proof. intros H. unfold log_error. destruct (log_text x t msg); [by rewrite lookup_insert_ne|done]. Qed.

Lemma log_error_contents x t msg d task : filename task <> LOG_FILE -> contents task (log_error x t msg d) = contents task d.
Proof. intros H. unfold contents. by rewrite log_error_other. Qed.

(** The log only grows. *)
Definition log_grown (d d' : gmap string (list Z)) : Prop :=
  exists l, default [] (d' !! LOG_FILE) = default [] (d !! LOG_FILE) ++ l.

Lemma log_grown_refl d : log_grown d d.
Proof. exists []. by rewrite app_nil_r. Qed.

Lemma log_grown_trans d1 d2 d3 : log_grown d1 d2 -> log_grown d2 d3 -> log_grown d1 d3.
Proof. intros [l1 H1] [l2 H2]. exists (l1 ++ l2). by rewrite H2, H1, app_assoc. Qed.

Lemma log_grown_line x t msg d : log_grown d (log_error x t msg d).
Proof.
  unfold log_error. destruct (log_text x t msg) as [l|]; [|apply log_grown_refl]. exists l. by rewrite lookup_insert_eq.
Qed.

Lemma log_grown_other d n f : n <> LOG_FILE -> log_grown d (<[n := f]> d).
Proof. intros H. exists []. by rewrite lookup_insert_ne, app_nil_r. Qed.

(** A step of a thread keeps the files of the others, and adds to the log. *)
Lemma thread_step_files task w x t d t' d' :
  filename task <> LOG_FILE -> thread_step task w x t d = Some (Ok (t', d')) ->
  (forall n, n <> filename task -> n <> LOG_FILE -> d' !! n = d !! n) /\ log_grown d d'.
Proof.
  intros Hn E.
  assert (H : (exists m, d' = log_error x t m d) \/ d' = d \/ exists f, d' = <[filename task := f]> d).
  { destruct t; cbn [thread_step] in E; repeat case_match; simplify_eq; eauto. }
  destruct H as [[m ->]|[->|[f ->]]].
  - split; [intros; by apply log_error_other|apply log_grown_line].
  - split; [done|apply log_grown_refl].
  - split; [intros; by rewrite lookup_insert_ne|by apply log_grown_other].
Qed.

(** The branches that only log: the file is as before. *)
Lemma thread_inv_log task w x t t' msg d f :
  filename task <> LOG_FILE -> d !! filename task = Some f ->
  rest task w t' f = process_file task w ->
  match t' with NotCreated | Ready | Ended _ => False | Writing _ total _ => length f = total | _ => True end ->
  thread_inv task w t' (log_error x t msg d).
Proof.
  intros Hn Hf Hr Ht. unfold thread_inv. rewrite log_error_contents, (contents_lookup _ _ _ Hf), log_error_other by done.
  split; [done|]. destruct t'; try done; eauto.
Qed.

(** A step of a thread keeps its invariant. *)
Lemma thread_step_inv task w x t d t' d' :
  filename task <> LOG_FILE -> thread_inv task w t d -> thread_step task w x t d = Some (Ok (t', d')) ->
  thread_inv task w t' d'.
Proof.
  intros Hn [Hr Ht] E. destruct t as [| |ws total retries| |rs pos retries out|out fin|eff]; cbn [thread_step] in E; try done.
  - injection E as E. unfold thread_inv, process_file in *.
    destruct (calloc_ok w); cbn in E; [|done]. destruct (open_ok w); cbn in E; injection E as <- <-; [|done].
    rewrite contents_insert. split; [done|]. exists []. split; [apply lookup_insert_eq|done].
  - destruct Ht as (f & Hf & Hlen). rewrite (contents_lookup _ _ _ Hf) in *.
    cbn [rest] in Hr. destruct ws as [|[n| |] ws]; cbn [write_loop] in Hr;
      (destruct (total <? length (data task))%nat;
        [|injection E as <- <-; unfold thread_inv; rewrite (contents_lookup _ _ _ Hf); cbn [rest]; eauto]); try done.
    + destruct (Nat.min n _) as [|k] eqn:Em; injection E as <- <-; [by apply (thread_inv_log _ _ _ _ _ _ _ f)|].
      unfold thread_inv. rewrite contents_insert, <- Hlen, write_at_end in *.
      split; [done|]. eexists. split; [apply lookup_insert_eq|]. rewrite length_app, length_take, length_drop. lia.
    + injection E as E1 E2. subst t' d'. unfold thread_inv. rewrite (contents_lookup _ _ _ Hf). eauto.
    + destruct (retries <? MAX_RETRIES); injection E as <- <-; by apply (thread_inv_log _ _ _ _ _ _ _ f).
  - destruct Ht as [f Hf]. rewrite (contents_lookup _ _ _ Hf) in *. cbn [rest] in Hr.
    destruct (lseek_ok w); cbn [negb] in *; injection E as <- <-; [|by apply (thread_inv_log _ _ _ _ _ _ _ f)].
    unfold thread_inv. rewrite (contents_lookup _ _ _ Hf). eauto.
  - destruct Ht as [f Hf]. rewrite (contents_lookup _ _ _ Hf) in *. cbn [rest] in Hr.
    destruct rs as [|[n| |] rs]; cbn [read_loop] in Hr; try done.
    + destruct (Nat.min n _) as [|k]; injection E as <- <-; unfold thread_inv; rewrite (contents_lookup _ _ _ Hf); eauto.
    + injection E as E1 E2. subst t' d'. unfold thread_inv. rewrite (contents_lookup _ _ _ Hf). eauto.
    + destruct (retries <? MAX_RETRIES); injection E as <- <-; by apply (thread_inv_log _ _ _ _ _ _ _ f).
  - destruct Ht as [f Hf]. rewrite (contents_lookup _ _ _ Hf) in *. cbn [rest] in Hr. injection E as <- <-.
    set (d1 := if close_ok x then d else _). assert (Hd1 : d1 !! filename task = Some f).
    { subst d1. destruct (close_ok x); [done|]. by rewrite log_error_other. }
    unfold thread_inv. rewrite (contents_lookup _ _ _ Hd1). cbn [rest]. split; [done|]. by intros ? [= <-].
Qed.

(** A thread that alone would end is not waiting for an answer that never comes. *)
Lemma thread_step_progress task w x t d eff :
  thread_inv task w t d -> process_file task w = Ok eff ->
  match t with NotCreated | Ended _ => True | _ => exists r, thread_step task w x t d = Some (Ok r) end.
Proof.
  intros [Hr Ht] E. rewrite E in Hr. destruct t as [| |ws total retries| |rs pos retries out|out fin|eff']; cbn [thread_step]; try done.
  - unfold process_file in E. destruct (calloc_ok w), (open_ok w); cbn in *; by eauto.
  - cbn [rest] in Hr. destruct ws as [|[n| |] ws]; cbn [write_loop] in Hr;
      (destruct (total <? length (data task))%nat; [|by eauto]); try done; try by eauto.
    destruct (Nat.min n _); by eauto.
  - by eauto.
  - cbn [rest] in Hr. destruct rs as [|[n| |] rs]; cbn [read_loop] in Hr; try done; try by eauto.
    destruct (Nat.min n _); by eauto.
  - by eauto.
Qed.

(** The calls a thread may still make. *)
Definition thread_left (w : world) (t : tpc) : nat :=
  match t with
  | NotCreated | Ready => length (writes w) + length (reads w) + 5
  | Writing ws _ _ => length ws + length (reads w) + 4
  | Seeking => length (reads w) + 3
  | Reading rs _ _ _ => length rs + 2
  | Closing _ _ => 1
  | Ended _ => 0
  end.

Lemma thread_step_left task w x t d t' d' :
  thread_step task w x t d = Some (Ok (t', d')) -> (thread_left w t' < thread_left w t)%nat.
Proof.
  destruct t as [| |ws total retries| |rs pos retries out|out fin|eff]; cbn [thread_step]; try done.
  - destruct (calloc_ok w), (open_ok w); cbn; intros [= <- <-]; cbn; lia.
  - destruct (total <? length (data task))%nat; [|intros [= <- <-]; cbn; lia].
    destruct ws as [|[n| |] ws]; [done|destruct (Nat.min n _)| |destruct (retries <? MAX_RETRIES)];
      intros [= <- <-]; cbn; lia.
  - destruct (lseek_ok w); intros [= <- <-]; cbn; lia.
  - destruct rs as [|[n| |] rs]; [done|destruct (Nat.min n _)| |destruct (retries <? MAX_RETRIES)];
      intros [= <- <-]; cbn; lia.
  - intros [= <- <-]. cbn. lia.
Qed.

(** What a step of a thread is. *)
Lemma thread_moves e i s s' : step e (Some i) s = Some (Ok s') ->
  exists task w t r, jobs e !! i = Some (task, w) /\ threads s !! i = Some t /\
  thread_step task w (ios e i) t (disk s) = Some r /\
  match r with
  | Ok (t', d') => s' = mk_state (main s) (<[i := t']> (threads s)) d' (tasks_live s)
  | _ => s' = mk_state (MExited 1) (threads s) (disk s) (tasks_live s)
  end.
Proof.
  cbn [step]. destruct (jobs e !! i) as [[task w]|]; [|by destruct (main s)].
  destruct (threads s !! i) as [t|]; [|by destruct (main s)].
  destruct (thread_step task w (ios e i) t (disk s)) as [r|] eqn:Er; [|by destruct (main s)].
  intros E. exists task, w, t, r. split_and!; [done..|].
  destruct (main s), (reads_task w t && negb (tasks_live s)), r as [[t' d']| | |]; by simplify_eq.
Qed.

(** * All threads *)

Section Threads.
Context (e : env) (d0 : gmap string (list Z)).
Context (distinct : NoDup ((fun job => filename job.1) <$> jobs e)).
Context (no_log : Forall (fun job => filename job.1 <> LOG_FILE) (jobs e)).

Lemma not_log i task w : jobs e !! i = Some (task, w) -> filename task <> LOG_FILE.
Proof. intros H. exact (Forall_lookup_1 _ _ _ _ no_log H). Qed.

(** Files that are no task's and not the log are never touched, and the log only grows. *)
Definition files_inv (s : state) : Prop :=
  (forall n, n ∉ (fun job => filename job.1) <$> jobs e -> n <> LOG_FILE -> disk s !! n = d0 !! n) /\ log_grown d0 (disk s).

Definition threads_inv (s : state) : Prop :=
  length (threads s) = length (jobs e) /\
  forall i task w t, jobs e !! i = Some (task, w) -> threads s !! i = Some t -> thread_inv task w t (disk s).

(** Only the owner of a file touches it. *)
Lemma thread_inv_frame task w t d d' :
  d' !! filename task = d !! filename task -> thread_inv task w t d -> thread_inv task w t d'.
Proof. unfold thread_inv, contents. by intros ->. Qed.

Lemma names_differ i j task w task' w' :
  jobs e !! i = Some (task, w) -> jobs e !! j = Some (task', w') -> i <> j -> filename task <> filename task'.
Proof.
  intros Hi Hj Hne Heq. apply Hne, (NoDup_lookup _ i j (filename task) distinct).
  - by rewrite list_lookup_fmap, Hi.
  - by rewrite list_lookup_fmap, Hj, Heq.
Qed.

(** A step replaces one thread, or none. *)
Lemma thread_replaced s i task w t t' d' m l :
  threads_inv s -> jobs e !! i = Some (task, w) -> threads s !! i = Some t ->
  thread_step task w (ios e i) t (disk s) = Some (Ok (t', d')) ->
  threads_inv (mk_state m (<[i := t']> (threads s)) d' l).
Proof.
  intros [Hl Hi] Hj Ht E. pose proof (not_log _ _ _ Hj) as Hlog.
  pose proof (thread_step_inv _ _ _ _ _ _ _ Hlog (Hi _ _ _ _ Hj Ht) E) as Hn.
  destruct (thread_step_files _ _ _ _ _ _ _ Hlog E) as [Hf _].
  split; [cbn; by rewrite length_insert|]. intros k task' w' u Hk Hu. cbn [threads disk] in *.
  destruct (decide (i = k)) as [<-|Hne].
  - rewrite list_lookup_insert_eq in Hu by (by eapply lookup_lt_Some). by simplify_eq.
  - rewrite list_lookup_insert_ne in Hu by done. eapply thread_inv_frame, Hi; [|done..].
    apply Hf; [eapply not_eq_sym, names_differ; done|by eapply not_log].
Qed.

Lemma threads_inv_same s m l : threads_inv s -> threads_inv (mk_state m (threads s) (disk s) l).
Proof. done. Qed.

Lemma thread_created s i m l :
  threads_inv s -> threads_inv (mk_state m (<[i := Ready]> (threads s)) (disk s) l).
Proof.
  intros [Hl Hi]. split; [cbn; by rewrite length_insert|]. intros k task w u Hk Hu. cbn [threads disk] in *.
  apply list_lookup_insert_Some in Hu as [(<- & <- & _)|[_ Hu]]; [|by eapply Hi]. done.
Qed.

Lemma main_step_threads s s' : threads_inv s -> main_thread_step e s = Some (Ok s') -> threads_inv s'.
Proof.
  intros Hi E. unfold main_thread_step in E. destruct (main s) as [i|i ok|c|c]; repeat case_match; simplify_eq;
    solve [by apply thread_created | by apply threads_inv_same].
Qed.

Lemma step_threads s who s' : threads_inv s -> step e who s = Some (Ok s') -> threads_inv s'.
Proof.
  intros Hi E. destruct who as [i|]; [|by eapply main_step_threads].
  apply thread_moves in E as (task & w & t & r & Hj & Ht & Er & Hs).
  destruct r as [[t' d']| | |]; subst s'; [by eapply thread_replaced|by apply threads_inv_same..].
Qed.

Lemma initial_threads : threads_inv (initial e d0).
Proof.
  split; [apply length_replicate|]. intros i task w t _ Ht. cbn in Ht.
  apply lookup_replicate in Ht as [-> _]. done.
Qed.

Lemma reachable_threads s : reachable e d0 s -> threads_inv s.
Proof. induction 1; [apply initial_threads|by eapply step_threads]. Qed.

Lemma main_step_disk s s' : main_thread_step e s = Some (Ok s') -> disk s' = disk s.
Proof. unfold main_thread_step. repeat case_match; by intros; simplify_eq. Qed.

Lemma reachable_files s : reachable e d0 s -> files_inv s.
Proof.
  induction 1 as [|s who s' Hr [H1 H2] E]; [split; [done|apply log_grown_refl]|].
  destruct who as [i|]; [|unfold files_inv; by rewrite (main_step_disk s s' E)].
  apply thread_moves in E as (task & w & t & r & Hj & Ht & Er & Hs).
  destruct r as [[t' d']| | |]; subst s'; [|done..]. pose proof (not_log _ _ _ Hj) as Hlog.
  destruct (thread_step_files _ _ _ _ _ _ _ Hlog Er) as [F1 F2]. split; [|by eapply log_grown_trans]. cbn [disk].
  intros n Hn Hl. rewrite F1; [by apply H1| |done]. intros ->. apply Hn, list_elem_of_fmap.
  exists (task, w). split; [done|by eapply list_elem_of_lookup_2].
Qed.

(** An interleaving is as good as the threads one after the other: a thread that has
    ended did what [process_file] does alone, and its file is on the disk. *)
Lemma threads_refine s i task w eff :
  reachable e d0 s -> jobs e !! i = Some (task, w) -> threads s !! i = Some (Ended eff) ->
  process_file task w = Ok eff /\ forall f, file eff = Some f -> disk s !! filename task = Some f.
Proof.
  intros Hs Hj Ht. destruct (reachable_threads s Hs) as [_ Hi]. destruct (Hi _ _ _ _ Hj Ht) as [Hr Hd].
  split; [by rewrite <- Hr|done].
Qed.

(** * The whole program *)

Context (creates : forall i, create_ok e i = true) (joins : forall i, join_ok e i = true).
Context (alone : forall i task w, jobs e !! i = Some (task, w) -> exists eff, process_file task w = Ok eff).

Definition all_threads (P : nat -> tpc -> Prop) (s : state) : Prop :=
  forall j t, threads s !! j = Some t -> P j t.

Definition ended (t : tpc) : Prop := exists eff, t = Ended eff.

(** Where [main] is tells which threads exist and which have ended. *)
Definition main_inv (s : state) : Prop :=
  match main s with
  | MCreate i => tasks_live s = true /\ all_threads (fun j t => t = NotCreated <-> (i <= j)%nat) s
  | MJoin i ok => tasks_live s = true /\ ok = true /\
      all_threads (fun j t => t <> NotCreated /\ ((j < i)%nat -> ended t)) s
  | MFreed c | MExited c => c = 0 /\ all_threads (fun _ t => ended t) s
  end.

Lemma thread_step_created task w x t d t' d' :
  thread_step task w x t d = Some (Ok (t', d')) -> t <> NotCreated /\ ~ ended t /\ t' <> NotCreated.
Proof.
  intros E. unfold ended. destruct t; cbn [thread_step] in E; try done;
    (split; [done|]; split; [by intros [? ?]|]); repeat case_match; by simplify_eq.
Qed.

(** A thread that moved is one that exists and had not ended. *)
Lemma all_threads_insert (P Q : nat -> tpc -> Prop) s i t' m d l :
  all_threads P s -> (forall j t, P j t -> i <> j -> Q j t) -> Q i t' ->
  all_threads Q (mk_state m (<[i := t']> (threads s)) d l).
Proof.
  intros HP Hother Hi j t Hj. cbn in Hj.
  apply list_lookup_insert_Some in Hj as [(<- & <- & _)|[Hne Hj]]; [done|]. apply Hother; [by apply HP|done].
Qed.

Lemma main_inv_thread s i task w t t' d' :
  main_inv s -> threads s !! i = Some t -> thread_step task w (ios e i) t (disk s) = Some (Ok (t', d')) ->
  main_inv (mk_state (main s) (<[i := t']> (threads s)) d' (tasks_live s)).
Proof.
  intros Hm Ht E. apply thread_step_created in E as (H1 & H2 & H3). unfold main_inv in *. cbn [main tasks_live].
  destruct (main s) as [k|k ok|c|c].
  - destruct Hm as [Hl Ha]. split; [done|]. eapply all_threads_insert; [exact Ha|done|].
    specialize (Ha _ _ Ht). cbn in Ha. tauto.
  - destruct Hm as (Hl & Hok & Ha). split; [done|]. split; [done|]. eapply all_threads_insert; [exact Ha|done|].
    specialize (Ha _ _ Ht). cbn in Ha. tauto.
  - destruct Hm as [_ Ha]. by destruct (H2 (Ha _ _ Ht)).
  - destruct Hm as [_ Ha]. by destruct (H2 (Ha _ _ Ht)).
Qed.

Lemma main_inv_main s s' :
  length (threads s) = length (jobs e) -> main_inv s -> main_thread_step e s = Some (Ok s') -> main_inv s'.
Proof.
  intros Hl Hm E. unfold main_thread_step, main_inv in *. destruct (main s) as [i|i ok|c|c]; [| | |done].
  - rewrite creates in E. destruct (Nat.ltb_spec i (length (jobs e))); simplify_eq; cbn [main tasks_live].
    + destruct Hm as [Hlive Ha]. split; [done|]. eapply all_threads_insert; [exact Ha| |split; [done|lia]].
      cbn. intros j t -> Hne. lia.
    + destruct Hm as [Hlive Ha]. split_and!; [done..|]. intros j t Hj. cbn [threads] in Hj. pose proof (lookup_lt_Some _ _ _ Hj).
      specialize (Ha _ _ Hj). cbn in Ha. split; [|intros; lia]. intros ->. destruct Ha as [Ha _]. specialize (Ha eq_refl). lia.
  - rewrite joins in E. destruct Hm as (Hlive & -> & Ha).
    destruct (Nat.ltb_spec i (length (jobs e))).
    + destruct (threads s !! i) as [[| | | | | |eff]|] eqn:Ei; simplify_eq. cbn [main tasks_live].
      split_and!; [done..|]. intros j t Hj. cbn [threads] in Hj. split; [by apply (Ha _ _ Hj)|]. intros Hji.
      destruct (decide (j = i)) as [->|]; [|apply (Ha _ _ Hj); lia]. rewrite Ei in Hj. simplify_eq. by eexists.
    + simplify_eq. cbn [main]. split; [done|]. intros j t Hj. cbn [threads] in Hj. apply (Ha _ _ Hj).
      pose proof (lookup_lt_Some _ _ _ Hj). lia.
  - by simplify_eq.
Qed.

Lemma main_inv_step s who s' :
  threads_inv s -> main_inv s -> step e who s = Some (Ok s') -> main_inv s'.
Proof.
  intros Ht Hm E. destruct who as [i|]; [|eapply main_inv_main; [apply Ht|done..]].
  apply thread_moves in E as (task & w & t & r & Hj & Hi & Er & Hs).
  destruct (alone _ _ _ Hj) as [eff Heff]. destruct Ht as [_ Ht].
  pose proof (thread_step_progress _ _ (ios e i) _ _ _ (Ht _ _ _ _ Hj Hi) Heff) as Hp. rewrite Er in Hp.
  destruct t; try done; destruct Hp as [[t' d'] [= ->]]; subst s'; by eapply main_inv_thread.
Qed.

Lemma reachable_main s : reachable e d0 s -> main_inv s.
Proof.
  induction 1 as [|s who s' Hs IH E].
  - split; [done|]. intros j t Hj. apply lookup_replicate in Hj as [-> _]. split; [lia|done].
  - eapply main_inv_step; [by apply reachable_threads|done..].
Qed.

(** The steps that are left. *)
Definition steps_left (s : state) : nat :=
  let n := length (jobs e) in
  sum_list (zip_with (fun job t => thread_left job.2 t) (jobs e) (threads s)) +
  match main s with
  | MCreate i => (n - i) + n + 4
  | MJoin i _ => (n - i) + 2
  | MFreed _ => 1
  | MExited _ => 0
  end.

Lemma sum_cons (x : nat) xs : sum_list (x :: xs) = (x + sum_list xs)%nat.
Proof. done. Qed.

Lemma sum_insert (js : list (file_task_t * world)) ts i task w t t' :
  js !! i = Some (task, w) -> ts !! i = Some t ->
  (sum_list (zip_with (fun job t => thread_left job.2 t) js (<[i := t']> ts)) + thread_left w t =
   sum_list (zip_with (fun job t => thread_left job.2 t) js ts) + thread_left w t')%nat.
Proof.
  revert ts i. induction js as [|[task' w'] js IH]; intros [|u ts] [|i] Hj Ht; try done; cbn in Hj, Ht.
  - simplify_eq. change (<[0%nat := t']> (t :: ts)) with (t' :: ts). cbn [zip_with snd]. rewrite !sum_cons. lia.
  - change (<[S i := t']> (u :: ts)) with (u :: <[i := t']> ts). cbn [zip_with snd]. rewrite !sum_cons.
    specialize (IH ts i Hj Ht). lia.
Qed.

Lemma steps_left_decreases s who s' :
  threads_inv s -> main_inv s -> step e who s = Some (Ok s') -> (steps_left s' < steps_left s)%nat.
Proof.
  intros Ht Hm E. destruct who as [i|].
  - apply thread_moves in E as (task & w & t & r & Hj & Hi & Er & Hs).
    destruct (alone _ _ _ Hj) as [eff Heff]. destruct Ht as [_ Ht].
    pose proof (thread_step_progress _ _ (ios e i) _ _ _ (Ht _ _ _ _ Hj Hi) Heff) as Hp. rewrite Er in Hp.
    destruct r as [[t' d']| | |]; [|destruct t; try done; by destruct Hp..]. subst s'.
    apply thread_step_left in Er. pose proof (sum_insert _ _ _ _ _ _ t' Hj Hi). unfold steps_left. cbn [main threads]. lia.
  - cbn [step] in E. unfold main_thread_step, steps_left, main_inv in *.
    destruct (main s) as [i|i ok|c|c]; [| | |done].
    + rewrite creates in E. destruct (Nat.ltb_spec i (length (jobs e))); simplify_eq; cbn [main threads]; [|lia].
      destruct (lookup_lt_is_Some_2 (jobs e) i) as [[task w] Hj]; [done|].
      destruct Ht as [Hl _]. destruct (lookup_lt_is_Some_2 (threads s) i) as [t Hi]; [lia|].
      destruct Hm as [_ Ha]. assert (t = NotCreated) as -> by (apply (Ha _ _ Hi); lia).
      pose proof (sum_insert _ _ _ _ _ _ Ready Hj Hi) as Hs. cbn [thread_left] in Hs. lia.
    + rewrite joins in E. destruct (Nat.ltb_spec i (length (jobs e))); [|simplify_eq; cbn [main threads]; lia].
      destruct (threads s !! i) as [[| | | | | |eff]|]; simplify_eq. cbn [main threads]. lia.
    + simplify_eq. cbn [main threads]. lia.
Qed.

(** A thread that exists and has not ended can move. *)
Lemma some_thread_moves s i t :
  threads_inv s -> main_inv s -> threads s !! i = Some t -> t <> NotCreated -> ~ ended t ->
  exists s', step e (Some i) s = Some (Ok s').
Proof.
  intros [Hl Ht] Hm Hi H1 H2. destruct (lookup_lt_is_Some_2 (jobs e) i) as [[task w] Hj].
  { rewrite <- Hl. by eapply lookup_lt_Some. }
  destruct (alone _ _ _ Hj) as [eff Heff].
  pose proof (thread_step_progress _ _ (ios e i) _ _ _ (Ht _ _ _ _ Hj Hi) Heff) as Hp.
  assert (exists t' d', thread_step task w (ios e i) t (disk s) = Some (Ok (t', d'))) as (t' & d' & E).
  { destruct t; [done|destruct Hp as [[? ?] ?]; by eauto..|by destruct H2; eexists]. }
  exists (mk_state (main s) (<[i := t']> (threads s)) d' (tasks_live s)). cbn [step]. rewrite Hj, Hi, E.
  unfold main_inv in Hm. destruct (main s) as [k|k ok|c|c]; destruct Hm as [Hlive Ha];
    try (by destruct (H2 (Ha _ _ Hi))); by rewrite Hlive, andb_false_r.
Qed.

Lemma step_defined s who o : threads_inv s -> main_inv s -> step e who s <> Some (Undef o).
Proof.
  intros Ht Hm E. destruct who as [i|].
  - pose proof E as E0. cbn [step] in E.
    destruct (jobs e !! i) as [[task w]|] eqn:Hj; [|by destruct (main s)].
    destruct (threads s !! i) as [t|] eqn:Hi; [|by destruct (main s)].
    destruct (thread_step task w (ios e i) t (disk s)) as [r|] eqn:Er; [|by destruct (main s)].
    assert (H1 : t <> NotCreated) by (by intros ->). assert (H2 : ~ ended t) by (by intros [eff ->]).
    destruct (some_thread_moves s i t Ht Hm Hi H1 H2) as [s' E']. by rewrite E' in E0.
  - cbn [step] in E. unfold main_thread_step in E. by repeat case_match.
Qed.

(** While [main] has not exited, somebody can move. *)
Lemma somebody_moves s :
  threads_inv s -> main_inv s -> (exists who s', step e who s = Some (Ok s')) \/ exists c, main s = MExited c.
Proof.
  intros Ht Hm. destruct (main s) as [i|i ok|c|c] eqn:E; [left..|by eauto].
  - exists None. cbn [step]. unfold main_thread_step. rewrite E. by eauto.
  - destruct (decide (i < length (jobs e))%nat) as [Hlt|Hge].
    2: { exists None. cbn [step]. unfold main_thread_step. rewrite E, (proj2 (Nat.ltb_ge _ _)) by lia. by eauto. }
    destruct (lookup_lt_is_Some_2 (threads s) i) as [t Hi]; [destruct Ht; lia|].
    destruct (match t with Ended _ => true | _ => false end) eqn:Et.
    + destruct t as [| | | | | |eff]; try done. exists None. cbn [step]. unfold main_thread_step.
      rewrite E, joins, Hi, (proj2 (Nat.ltb_lt _ _)) by lia. by eauto.
    + exists (Some i). apply (some_thread_moves s i t Ht Hm Hi); [|intros [? ->]; done].
      unfold main_inv in Hm. rewrite E in Hm. destruct Hm as (_ & _ & Ha). by apply (Ha _ _ Hi).
  - exists None. cbn [step]. unfold main_thread_step. rewrite E. by eauto.
Qed.

End Threads.

(** C32: the whole program. When every thread can be created and joined, every task has
    a file of its own that is not the error log, and every task alone would end, then
    under every interleaving of the system calls, failing ones and lines in the shared
    log included: no step touches freed memory; every step brings the program nearer to
    its end; until [main] has returned 0 with every thread ended, each with the effects
    it has alone and its file on the disk, somebody can move; and files that are no
    task's stay as they were, but for the log, which only grows. *)
Theorem file_tasks_complete e d s :
  NoDup ((fun job => filename job.1) <$> jobs e) -> Forall (fun job => filename job.1 <> LOG_FILE) (jobs e) ->
  (forall i, create_ok e i = true) -> (forall i, join_ok e i = true) ->
  (forall i task w, jobs e !! i = Some (task, w) -> exists eff, process_file task w = Ok eff) ->
  reachable e d s ->
  (forall who o, step e who s <> Some (Undef o)) /\
  (forall who s', step e who s = Some (Ok s') -> (steps_left e s' < steps_left e s)%nat) /\
  ((exists who s', step e who s = Some (Ok s')) \/
   (main s = MExited 0 /\
    forall i task w, jobs e !! i = Some (task, w) -> exists eff, threads s !! i = Some (Ended eff) /\
      process_file task w = Ok eff /\ forall f, file eff = Some f -> disk s !! filename task = Some f)) /\
  (forall n, n ∉ (fun job => filename job.1) <$> jobs e -> n <> LOG_FILE -> disk s !! n = d !! n) /\
  (exists l, default [] (disk s !! LOG_FILE) = default [] (d !! LOG_FILE) ++ l).
Proof.
  intros Hd Hlog Hc Hj Ha Hr. pose proof (reachable_threads e d Hd Hlog s Hr) as Ht.
  pose proof (reachable_main e d Hd Hlog Hc Hj Ha s Hr) as Hm.
  split; [by intros; apply step_defined|]. split; [by intros; eapply steps_left_decreases|].
  split; [|by apply reachable_files].
  destruct (somebody_moves e Hj Ha s Ht Hm) as [?|[c Ec]]; [by left|right].
  unfold main_inv in Hm. rewrite Ec in Hm. destruct Hm as [-> Hall]. split; [done|]. intros i task w Hi.
  destruct (lookup_lt_is_Some_2 (threads s) i) as [t Hti].
  { destruct Ht as [-> _]. by eapply lookup_lt_Some. }
  destruct (Hall _ _ Hti) as [eff ->]. exists eff. split; [done|]. by eapply threads_refine.
Qed.

Lemma run_reachable e d sched s s' :
  reachable e d s -> run e sched s = Some (Ok s') -> reachable e d s'.
Proof.
  revert s. induction sched as [|who sched IH]; intros s Hs E; cbn [run] in E; [by simplify_eq|].
  destruct (step e who s) as [[s1| | |]|] eqn:E1; try done. eapply IH; [|done]. by eapply reach_step.
Qed.

(** After [main] has returned nobody moves. *)
Lemma exited_is_final e who s c : main s = MExited c -> step e who s = None.
Proof. intros E. destruct who; cbn [step]; unfold main_thread_step; by rewrite E. Qed.

Definition steady_world : world :=
  {| calloc_ok := true; open_ok := true; writes := [Failed; Count 1; Interrupted; Count 5];
     lseek_ok := true; reads := [Count 5; Count 5] |}.

(** Two tasks of two bytes and one byte; each line of the log names the thread, and
    closing fails. *)
Definition two_jobs (f g : string) : env :=
  {| jobs := [({| filename := f; data := [1; 2]; buffer_size := 8 |}, steady_world);
              ({| filename := g; data := [9]; buffer_size := 8 |}, steady_world)];
     ios := fun i => {| close_ok := false; log_text := fun _ _ => Some [76; Z.of_nat i] |};
     create_ok := fun _ => true; join_ok := fun _ => true |}.

Definition alternate (n : nat) : list (option nat) := concat (replicate n [Some 0%nat; Some 1%nat]).

(** The calls of the two threads alternate; the first makes two more and closes last. *)
Definition demo_schedule : list (option nat) :=
  [None; None] ++ alternate 6 ++ [Some 0%nat; Some 1%nat; Some 0%nat; Some 1%nat; Some 0%nat; Some 0%nat] ++ replicate 5 None.

Definition demo_state : state :=
  match run (two_jobs "a" "b") demo_schedule (initial (two_jobs "a" "b") ∅) with
  | Some (Ok s) => s
  | _ => initial (two_jobs "a" "b") ∅
  end.

Lemma demo_reachable : reachable (two_jobs "a" "b") ∅ demo_state.
Proof.
  apply (run_reachable _ _ demo_schedule (initial (two_jobs "a" "b") ∅)); [apply reach_initial|].
  vm_compute. reflexivity.
Qed.

Lemma file_tasks_complete_witness :
  main demo_state = MExited 0 /\ disk demo_state !! "a"%string = Some [1; 2] /\
  disk demo_state !! LOG_FILE = Some [76; 0; 76; 1; 76; 1; 76; 0] /\ disk demo_state !! "c"%string = None.
Proof.
  destruct (file_tasks_complete (two_jobs "a" "b") ∅ demo_state) as (_ & _ & [(who & s' & Es)|[Hm Hall]] & Hfiles & _).
  - apply (bool_decide_unpack _). vm_compute. done.
  - repeat constructor; done.
  - done.
  - done.
  - intros [|[|i]] task w Hi; cbn in Hi; simplify_eq; eexists; vm_compute; reflexivity.
  - exact demo_reachable.
  - rewrite (exited_is_final _ who demo_state 0) in Es; [done|]. vm_compute. reflexivity.
  - split; [exact Hm|]. split; [|split; [vm_compute; reflexivity|]].
    + destruct (Hall 0%nat _ _ eq_refl) as (eff & _ & Ep & Hf). apply Hf. vm_compute in Ep. injection Ep as <-. reflexivity.
    + rewrite Hfiles; [done| |done]. apply (bool_decide_unpack _). vm_compute. done.
Defined.

(** A name given twice: both threads report a complete copy, and the file holds
    neither of the two data. *)
Example same_file_twice :
  exists s, run (two_jobs "a" "a") ([None; None; Some 0; Some 1; Some 0; Some 0; Some 0; Some 0; Some 1; Some 1;
      Some 0; Some 1; Some 0; Some 1; Some 0; Some 1; Some 1; Some 0; Some 1; Some 0]%nat ++ replicate 5 None)
    (initial (two_jobs "a" "a") ∅) = Some (Ok s) /\
  main s = MExited 0 /\ disk s !! "a"%string = Some [9; 2].
Proof. eexists. split; [vm_compute; reflexivity|]. split; reflexivity. Qed.

(** When the second thread cannot be created, [main] frees [tasks] and then exits; the
    first thread, still running, reads the freed task. *)
Example create_failure_race :
  run {| jobs := jobs (two_jobs "a" "b"); ios := ios (two_jobs "a" "b"); create_ok := fun i => (i <? 1)%nat; join_ok := fun _ => true |}
    [None; Some 0%nat; None; Some 0%nat] (initial (two_jobs "a" "b") ∅) = Some (Undef "use after free").
Proof. vm_compute. reflexivity. Qed.

(** The prologue hands on one task per pair of arguments, with a positive buffer. *)
Lemma parse_options_positive opts size n : 0 < size -> parse_options opts size = Ok n -> 0 < n.
Proof.
  revert size. induction opts as [|[whole conv erange|] opts IH]; intros size Hs E; cbn [parse_options] in E; try done.
  - by simplify_eq.
  - destruct (parse_buffer_size whole conv erange) as [m|] eqn:Em; [|done]. apply (IH m); [|done].
    unfold parse_buffer_size in Em. repeat case_match; simplify_eq. apply Z.leb_gt. done.
Qed.

Lemma main_prologue_spec opts args a b ts :
  main_prologue opts args a b = Ok ts ->
  a = true /\ b = true /\ length args = (2 * length ts)%nat /\
  Forall (fun t => (0 < buffer_size t)%nat) ts.
Proof.
  unfold main_prologue. destruct (parse_options opts DEFAULT_BUFFER_SIZE) as [size| | |] eqn:E; try done.
  cbn [mbind outcome_bind]. destruct (tasks_of args (Z.to_nat size)) as [ts'| | |] eqn:Et; try done.
  cbn [mbind outcome_bind]. destruct a, b; try done. intros [= <-].
  destruct (make_tasks_spec _ _ _ Et) as [Hl Hi]. split_and!; [done..|]. apply Forall_lookup. intros i t Ht.
  destruct (Hi i t Ht) as (f & dd & x & y & _ & _ & ->). cbn [buffer_size].
  pose proof (parse_options_positive opts DEFAULT_BUFFER_SIZE size eq_refl E). lia.
Qed.

End FileTasks.
