(* ===== verification/SerialPort.v ===== *)
(** * The serial port (src/kernel/memory.c)

    Setting up the first serial port and sending bytes through it, over the registers
    of a 16550 as its data sheet gives them. The characters come from [KPrintf], which
    says what [kprintf] prints. *)
From Stdlib Require Import ZArith Lia Ascii.
From stdpp Require Import strings numbers gmap base.
From stdpp Require Import list.
From S2P Require Import Prelude.
From S2P Require Import KPrintf.

Open Scope Z_scope.

Module SerialPort.

(** ** The device

    [busy] counts the reads of the line status until the transmitter is empty again,
    [delays] what it will be after each byte to come (0 when the list is used up).
    [early] counts the bytes written while the transmitter was not empty. *)
Record uart := mk_uart {
  divisor_lo : Z; divisor_hi : Z; ier : Z; lcr : Z; fcr : Z; mcr : Z;
  busy : nat; delays : list nat; sent : list Z; early : nat
}.

Definition dlab (u : uart) : bool := Z.testbit (lcr u) 7.

(** A byte for the transmitter. *)
Definition transmit (u : uart) (v : Z) : uart :=
  mk_uart (divisor_lo u) (divisor_hi u) (ier u) (lcr u) (fcr u) (mcr u)
    (default 0%nat (head (delays u))) (tail (delays u)) (sent u ++ [v])
    (match busy u with O => early u | S _ => S (early u) end).

(** A write to the register at an offset from the base port. *)
Definition uart_write (u : uart) (off v : Z) : uart :=
  let set lo hi i l f m := mk_uart lo hi i l f m (busy u) (delays u) (sent u) (early u) in
  if off =? 0 then
    if dlab u then set v (divisor_hi u) (ier u) (lcr u) (fcr u) (mcr u) else transmit u v
  else if off =? 1 then
    if dlab u then set (divisor_lo u) v (ier u) (lcr u) (fcr u) (mcr u)
    else set (divisor_lo u) (divisor_hi u) v (lcr u) (fcr u) (mcr u)
  else if off =? 2 then set (divisor_lo u) (divisor_hi u) (ier u) (lcr u) v (mcr u)
  else if off =? 3 then set (divisor_lo u) (divisor_hi u) (ier u) v (fcr u) (mcr u)
  else if off =? 4 then set (divisor_lo u) (divisor_hi u) (ier u) (lcr u) (fcr u) v
  else u.

(** The line status: bits 5 and 6 when the transmitter is empty. *)
Definition line_status (u : uart) : Z * uart :=
  (match busy u with O => 0x60 | S _ => 0 end,
   mk_uart (divisor_lo u) (divisor_hi u) (ier u) (lcr u) (fcr u) (mcr u)
     (pred (busy u)) (delays u) (sent u) (early u)).

Definition SERIAL_COM1_PORT : Z := 0x3F8.

Definition outb (u : uart) (port value : Z) : uart := uart_write u (port - SERIAL_COM1_PORT) value.

(** ** The driver *)

Definition serial_init (u : uart) : uart :=
  let u := outb u (SERIAL_COM1_PORT + 1) 0x00 in
  let u := outb u (SERIAL_COM1_PORT + 3) 0x80 in
  let u := outb u (SERIAL_COM1_PORT + 0) 0x01 in
  let u := outb u (SERIAL_COM1_PORT + 1) 0x00 in
  let u := outb u (SERIAL_COM1_PORT + 3) 0x03 in
  let u := outb u (SERIAL_COM1_PORT + 2) 0xC7 in
  let u := outb u (SERIAL_COM1_PORT + 4) 0x0B in
  outb u SERIAL_COM1_PORT 33.

Definition serial_is_transmit_empty (u : uart) : Z * uart :=
  let '(v, u) := line_status u in (Z.land v 0x20, u).

(** The wait has no bound of its own; [fuel] is the number of reads. *)
Fixpoint serial_wait (fuel : nat) (u : uart) : outcome uart :=
  match fuel with
  | O => Hang
  | S fuel =>
      let '(v, u) := serial_is_transmit_empty u in
      if v =? 0 then serial_wait fuel u else Ok u
  end.

Definition serial_putchar (fuel : nat) (a : ascii) (u : uart) : outcome uart :=
  u ← serial_wait fuel u;
  Ok (outb u SERIAL_COM1_PORT (Z.of_nat (nat_of_ascii a))).

(** The characters of a text, one after the other. *)
Fixpoint serial_send (fuel : nat) (text : list ascii) (u : uart) : outcome uart :=
  match text with
  | [] => Ok u
  | a :: text => u ← serial_putchar fuel a u; serial_send fuel text u
  end.

(** * Theorems *)

(** After [serial_init], whatever was in the registers: 115200 baud, eight bits without
    parity and one stop bit, the divisor no longer selected, interrupts off, and one
    [!] sent. *)
Lemma serial_init_spec u :
  let u' := serial_init u in
  divisor_lo u' = 1 /\ divisor_hi u' = 0 /\ lcr u' = 3 /\ dlab u' = false /\ fcr u' = 0xC7 /\
  mcr u' = 0x0B /\ sent u' = sent u ++ [33] /\ (dlab u = false -> ier u' = 0).
Proof.
  cbv zeta. unfold serial_init. set (u1 := outb u (SERIAL_COM1_PORT + 1) 0).
  assert (H : sent u1 = sent u /\ (dlab u = false -> ier u1 = 0)).
  { subst u1. unfold outb, uart_write. change (SERIAL_COM1_PORT + 1 - SERIAL_COM1_PORT) with 1.
    by destruct (dlab u). }
  clearbody u1. destruct H as [<- Hi], u1 as [lo hi i l f m b ds s er]. split_and!; [reflexivity..|exact Hi].
Qed.

(** The wait ends with the transmitter empty and nothing else changed. *)
Lemma serial_wait_spec u fuel :
  (busy u < fuel)%nat ->
  serial_wait fuel u = Ok (mk_uart (divisor_lo u) (divisor_hi u) (ier u) (lcr u) (fcr u) (mcr u)
    0 (delays u) (sent u) (early u)).
Proof.
  revert u. induction fuel as [|fuel IH]; intros u Hf; [lia|]. cbn [serial_wait].
  unfold serial_is_transmit_empty, line_status. destruct (busy u) as [|b] eqn:E; cbn; [done|].
  rewrite IH; [done|]. cbn. lia.
Qed.

(** A text is sent byte by byte, in order, and no byte before the transmitter is empty,
    with one more read than the longest delay. *)
Theorem serial_send_correct text u fuel :
  dlab u = false -> (busy u < fuel)%nat -> Forall (fun n => n < fuel)%nat (delays u) ->
  exists u', serial_send fuel text u = Ok u' /\
  sent u' = sent u ++ map (fun a => Z.of_nat (nat_of_ascii a)) text /\ early u' = early u /\ lcr u' = lcr u.
Proof.
  revert u. induction text as [|a text IH]; intros u Hd Hb Hs; cbn [serial_send].
  - exists u. cbn. by rewrite app_nil_r.
  - unfold serial_putchar. rewrite serial_wait_spec by done. cbn [mbind outcome_bind].
    unfold outb. rewrite Z.sub_diag. unfold uart_write. cbn [Z.eqb]. unfold dlab in *. cbn [lcr]. rewrite Hd.
    destruct (IH (transmit (mk_uart (divisor_lo u) (divisor_hi u) (ier u) (lcr u) (fcr u) (mcr u)
      0 (delays u) (sent u) (early u)) (Z.of_nat (nat_of_ascii a)))) as (u' & E & H1 & H2 & H3).
    + done.
    + cbn. destruct Hs; cbn; [lia|done].
    + cbn. by destruct Hs.
    + exists u'. rewrite E. cbn in H1, H2, H3. split_and!; [done| |done|done].
      rewrite H1, <- app_assoc. done.
Qed.

(** A port that never reports an empty transmitter stops the kernel. *)
Lemma serial_wait_hangs u fuel : (fuel <= busy u)%nat -> serial_wait fuel u = Hang.
Proof.
  revert u. induction fuel as [|fuel IH]; intros u Hf; [done|]. cbn [serial_wait].
  unfold serial_is_transmit_empty, line_status. destruct (busy u) as [|b] eqn:E; [lia|]. cbn. apply IH. cbn. lia.
Qed.

(** The set-up port prints what [kprintf] prints. *)
Example serial_hex :
  exists u', serial_send 4 (kprint_hex 0x2F)
    (serial_init (mk_uart 9 9 9 0 9 9 0 [3; 1; 2; 0]%nat [] 0)) = Ok u' /\ sent u' = [33; 50; 102] /\ early u' = 0%nat.
Proof. eexists. split; [vm_compute; reflexivity|]. split; reflexivity. Qed.

End SerialPort.
