(* ===== verification/BootSlab.v ===== *)
(** * Early boot code (src/kernel/boot/Main.c)

    The slab allocator under its spin lock, with several processors: each thread
    that calls [kmalloc] is a small program whose shared accesses are single steps
    (compare-and-swap, owner field, offset read, offset write, release), and threads
    interleave freely. The text buffer with its wrapping position is sequential. *)
From Stdlib Require Import ZArith Lia.
From stdpp Require Import strings numbers gmap base.
From stdpp Require Import list.
From S2P Require Import Prelude.

Open Scope Z_scope.

Module BootSlab.

Definition PAGE_SIZE : Z := 4096.
Definition CACHE_LINE : Z := 64.

(** [Spinlock] and the part of [KernelState] that [kmalloc] uses. *)
Record Spinlock := { lock : Z; owner : Z }.
Record KernelState := { slab_offset : Z; mem_lock : Spinlock }.

(** [init_memory]: the slab's own lock, which [kmalloc] does not use, is left out. *)
Definition init_memory (k : KernelState) : KernelState :=
  {| slab_offset := 0; mem_lock := mem_lock k |}.

(** The first test of [kmalloc] and the rounding. *)
Definition size_ok (size : Z) : bool := negb ((size =? 0) || (size >? PAGE_SIZE - 8)).
Definition round64 (size : Z) : Z := Z.land (u64 (size + CACHE_LINE - 1)) (not64 (CACHE_LINE - 1)).

(** Where a thread is: [None] as a pointer is NULL, otherwise an offset into the slab. *)
Inductive pc :=
| Entered (size : Z)                  (* at the test of the size *)
| Spinning (size : Z)                 (* in the loop of spin_lock *)
| Locked (size : Z)                   (* the exchange succeeded *)
| Checking (size : Z)                 (* owner written, at the test of the offset *)
| Reading (size : Z)                  (* at the computation of ptr *)
| Bumping (size ptr : Z)              (* at the update of the offset *)
| Unlocking (r : option Z)            (* in spin_unlock *)
| Releasing (r : option Z)            (* owner cleared, at the store of 0 *)
| Returned (r : option Z).

Definition set_lock (k : KernelState) (l : Z) : KernelState :=
  {| slab_offset := slab_offset k; mem_lock := {| lock := l; owner := owner (mem_lock k) |} |}.
Definition set_owner (k : KernelState) (o : Z) : KernelState :=
  {| slab_offset := slab_offset k; mem_lock := {| lock := lock (mem_lock k); owner := o |} |}.
Definition set_offset (k : KernelState) (o : Z) : KernelState :=
  {| slab_offset := o; mem_lock := mem_lock k |}.

(** One step of a thread on the shared state. *)
Definition step (p : pc) (k : KernelState) : option (pc * KernelState) :=
  match p with
  | Entered size => if size_ok size then Some (Spinning (round64 size), k) else Some (Returned None, k)
  | Spinning size => if lock (mem_lock k) =? 0 then Some (Locked size, set_lock k 1) else Some (Spinning size, k)
  | Locked size => Some (Checking size, set_owner k 1)
  | Checking size => if slab_offset k + size >? PAGE_SIZE then Some (Unlocking None, k) else Some (Reading size, k)
  | Reading size => Some (Bumping size (slab_offset k), k)
  | Bumping size ptr => Some (Unlocking (Some ptr), set_offset k (slab_offset k + size))
  | Unlocking r => Some (Releasing r, set_owner k 0)
  | Releasing r => Some (Returned r, set_lock k 0)
  | Returned _ => None
  end.

(** [kmalloc] run by one thread alone. *)
Fixpoint run (fuel : nat) (p : pc) (k : KernelState) : outcome (option Z * KernelState) :=
  match fuel with
  | O => Hang
  | S fuel' => match p with
               | Returned r => Ok (r, k)
               | _ => match step p k with Some (p', k') => run fuel' p' k' | None => Hang end
               end
  end.

Definition kmalloc (size : Z) (k : KernelState) : outcome (option Z * KernelState) := run 10 (Entered size) k.

(** * Interleavings

    Threads are a list; new calls may start at any time. [asked] records the size each
    call asked for, and [given] the range of the slab that each call moved the offset
    over, as the call's number, start and size. *)
Record smp_state := { threads : list pc; asked : list Z; shared : KernelState; given : list (nat * (Z * Z)) }.

(** The range the offset moved over in a step of call [i]. *)
Definition taken (i : nat) (p : pc) (k k' : KernelState) : list (nat * (Z * Z)) :=
  match p with Bumping _ _ => [(i, (slab_offset k, slab_offset k' - slab_offset k))] | _ => [] end.

Inductive sys_step : smp_state -> smp_state -> Prop :=
| sys_call s size :
    0 <= size < 2 ^ 64 ->
    sys_step s {| threads := threads s ++ [Entered size]; asked := asked s ++ [size]; shared := shared s; given := given s |}
| sys_run s i p p' k' :
    threads s !! i = Some p -> step p (shared s) = Some (p', k') ->
    sys_step s {| threads := <[i := p']> (threads s); asked := asked s; shared := k';
                  given := given s ++ taken i p (shared s) k' |}.

(** Between the exchange and the release. *)
Definition critical (p : pc) : bool :=
  match p with
  | Locked _ | Checking _ | Reading _ | Bumping _ _ | Unlocking _ | Releasing _ => true
  | _ => false
  end.

(** The size that is tried: the least multiple of 64 that is not below [a]. *)
Definition rounded (a size : Z) : Prop := a <= size < a + 64 /\ (64 | size) /\ 0 < a <= PAGE_SIZE - 8.

(** Why a call that asked for [a] bytes gets nothing. *)
Definition refused (k : KernelState) (a : Z) : Prop :=
  a = 0 \/ PAGE_SIZE - 8 < a \/ exists size, rounded a size /\ PAGE_SIZE < slab_offset k + size.

(** What call [i], which asked for [a] bytes, knows at each point. *)
Definition pc_ok (k : KernelState) (g : list (nat * (Z * Z))) (i : nat) (a : Z) (p : pc) : Prop :=
  match p with
  | Entered size => size = a /\ 0 <= a < 2 ^ 64 /\ i ∉ g.*1
  | Spinning size | Locked size | Checking size => rounded a size /\ i ∉ g.*1
  | Reading size => rounded a size /\ slab_offset k + size <= PAGE_SIZE /\ i ∉ g.*1
  | Bumping size ptr => rounded a size /\ slab_offset k + size <= PAGE_SIZE /\ ptr = slab_offset k /\ i ∉ g.*1
  | Unlocking (Some ptr) | Releasing (Some ptr) | Returned (Some ptr) =>
      exists size, (i, (ptr, size)) ∈ g /\ rounded a size
  | Unlocking None | Releasing None | Returned None => refused k a
  end.

(** Blocks handed out follow each other from 0 up to the offset. *)
Fixpoint packed (a : Z) (g : list (Z * Z)) (e : Z) : Prop :=
  match g with
  | [] => a = e
  | (p, s) :: g' => p = a /\ 0 < s /\ (64 | s) /\ packed (a + s) g' e
  end.

Record sys_inv (s : smp_state) : Prop := {
  inv_lock : lock (mem_lock (shared s)) = 0 \/ lock (mem_lock (shared s)) = 1;
  inv_free : lock (mem_lock (shared s)) = 0 -> forall i p, threads s !! i = Some p -> critical p = false;
  inv_one : forall i j p q, threads s !! i = Some p -> threads s !! j = Some q ->
              critical p = true -> critical q = true -> i = j;
  inv_asked : length (asked s) = length (threads s);
  inv_pcs : forall i p a, threads s !! i = Some p -> asked s !! i = Some a -> pc_ok (shared s) (given s) i a p;
  inv_calls : forall i b, (i, b) ∈ given s -> (i < length (threads s))%nat;
  inv_once : NoDup (given s).*1;
  inv_given : packed 0 (given s).*2 (slab_offset (shared s));
  inv_room : slab_offset (shared s) <= PAGE_SIZE
}.

Lemma round64_spec size : size_ok size = true -> 0 <= size -> 0 < round64 size <= PAGE_SIZE /\ (64 | round64 size) /\ size <= round64 size.
Proof.
  unfold size_ok, round64, PAGE_SIZE, CACHE_LINE. intros H H0. zbool. rewrite Z.gtb_ltb in *. zbool.
  rewrite u64_small by (unfold in_u64; lia). change (64 - 1) with (2 ^ 6 - 1).
  rewrite land_not64_pow2 by (unfold in_u64; lia). change (2 ^ 6) with 64.
  pose proof (Z.div_mod (size + 64 - 1) 64 ltac:(lia)). pose proof (Z.mod_pos_bound (size + 64 - 1) 64 ltac:(lia)).
  split_and!; try lia. by exists ((size + 64 - 1) / 64).
Qed.

Lemma round64_rounded a : size_ok a = true -> 0 <= a -> rounded a (round64 a).
Proof.
  intros H H0. destruct (round64_spec a H H0) as (_ & Hd & Hle). split; [|split; [done|]].
  - split; [done|]. unfold round64, size_ok, PAGE_SIZE, CACHE_LINE in *. zbool. rewrite Z.gtb_ltb in *. zbool.
    rewrite u64_small by (unfold in_u64; lia). change (64 - 1) with (2 ^ 6 - 1).
    rewrite land_not64_pow2 by (unfold in_u64; lia). change (2 ^ 6) with 64.
    pose proof (Z.mul_div_le (a + 64 - 1) 64 ltac:(lia)). lia.
  - unfold size_ok in H. zbool. rewrite Z.gtb_ltb in *. zbool. lia.
Qed.

Lemma size_ok_false a : 0 <= a -> size_ok a = false -> a = 0 \/ PAGE_SIZE - 8 < a.
Proof. unfold size_ok. intros H0 H. rewrite Z.gtb_ltb in H. destruct (Z.eqb_spec a 0), (Z.ltb_spec (PAGE_SIZE - 8) a); cbn in H; auto; done. Qed.

Lemma packed_snoc a g e s : packed a g e -> 0 < s -> (64 | s) -> packed a (g ++ [(e, s)]) (e + s).
Proof.
  revert a. induction g as [|[p t] g IH]; intros a; cbn [packed app].
  - intros -> Hs Hd. split_and!; done.
  - intros (-> & Ht & Hd & H) Hs Hd'. split_and!; auto.
Qed.

Lemma packed_range a g e p s : packed a g e -> (p, s) ∈ g -> a <= p /\ 0 < s /\ (64 | p - a) /\ (64 | s) /\ p + s <= e.
Proof.
  revert a. induction g as [|[q t] g IH]; intros a Hp Hin; [set_solver|]. cbn [packed] in Hp. destruct Hp as (-> & Ht & [k Hk] & Hp).
  assert (Hle : a + t <= e).
  { clear -Hp. revert Hp. generalize (a + t). induction g as [|[q u] g IH]; intros x Hx; cbn in Hx; [lia|].
    destruct Hx as (_ & ? & _ & Hx). apply IH in Hx. lia. }
  apply elem_of_cons in Hin as [[= -> ->]|Hin].
  - split_and!; try lia; [by exists 0; lia|by exists k].
  - destruct (IH _ Hp Hin) as (? & ? & [j Hj] & ? & ?). split_and!; try done; try lia. exists (j + k). lia.
Qed.

Lemma packed_positions a g e i j p s q t :
  packed a g e -> i <> j -> g !! i = Some (p, s) -> g !! j = Some (q, t) -> p + s <= q \/ q + t <= p.
Proof.
  revert a i j. induction g as [|[r u] g IH]; intros a i j Hp Hne Hi Hj; [done|]. cbn [packed] in Hp.
  destruct Hp as (-> & Hu & _ & Hp). destruct i as [|i], j as [|j]; cbn in Hi, Hj; simplify_eq.
  - left. apply list_elem_of_lookup_2 in Hj. by destruct (packed_range _ _ _ _ _ Hp Hj).
  - right. apply list_elem_of_lookup_2 in Hi. by destruct (packed_range _ _ _ _ _ Hp Hi).
  - apply (IH (a + u) i j); (done || lia).
Qed.

(** What a call knows survives steps of others. *)
Lemma pc_ok_mono k k' g g' j a p :
  critical p = false \/ slab_offset k' = slab_offset k -> slab_offset k <= slab_offset k' ->
  (forall x, x ∈ g -> x ∈ g') -> (forall b, (j, b) ∈ g' -> (j, b) ∈ g) -> pc_ok k g j a p -> pc_ok k' g' j a p.
Proof.
  intros Hc Hle Hin Hback.
  assert (Hnot : j ∉ g.*1 -> j ∉ g'.*1).
  { rewrite !list_elem_of_fmap. intros Hn ([j' b] & -> & Hb). apply Hn. exists (j', b). auto. }
  assert (Href : refused k a -> refused k' a).
  { intros [?|[?|(size & Hr & Hs)]]; [by left|by right; left|right; right]. exists size. split; [done|lia]. }
  destruct Hc as [Hc|Hc]; destruct p as [| | | | | |[]|[]|[]]; cbn in *; rewrite ?Hc; naive_solver.
Qed.

(** The effect of a step: on the lock, on the offset, on what the call itself knows. *)
Lemma step_facts k g i a p p' k' :
  pc_ok k g i a p -> step p k = Some (p', k') -> packed 0 g.*2 (slab_offset k) -> slab_offset k <= PAGE_SIZE -> NoDup g.*1 ->
  let g' := g ++ taken i p k k' in
  pc_ok k' g' i a p' /\ packed 0 g'.*2 (slab_offset k') /\ slab_offset k <= slab_offset k' <= PAGE_SIZE /\ NoDup g'.*1 /\
  (critical p = false -> slab_offset k' = slab_offset k) /\
  ((lock (mem_lock k') = lock (mem_lock k) /\ critical p' = critical p) \/
   (lock (mem_lock k) = 0 /\ lock (mem_lock k') = 1 /\ critical p = false /\ critical p' = true) \/
   (lock (mem_lock k') = 0 /\ critical p = true /\ critical p' = false)).
Proof.
  intros Hok Hs Hp Hroom Hnd. destruct p as [size|size|size|size|size|size ptr|r|r|r]; cbn in Hs; cbn [taken];
    try rewrite app_nil_r.
  - cbn in Hok. destruct Hok as (-> & Ha & Hg). destruct (size_ok a) eqn:E; simplify_eq; cbn.
    + pose proof (round64_rounded a E ltac:(lia)). split_and!; try done; try lia; auto.
    + assert (refused k' a) by (destruct (size_ok_false a ltac:(lia) E); [by left|by right; left]).
      split_and!; try done; try lia; auto.
  - cbn in Hok. destruct (lock (mem_lock k) =? 0) eqn:E; zbool; simplify_eq; cbn; split_and!; try done; try lia; naive_solver.
  - cbn in Hok. simplify_eq; cbn. split_and!; try lia; naive_solver.
  - cbn in Hok. rewrite Z.gtb_ltb in Hs. destruct Hok as [Hr Hg].
    destruct (PAGE_SIZE <? slab_offset k + size) eqn:E; zbool; simplify_eq; cbn; split_and!; try lia; try done; auto.
    right; right. by exists size.
  - cbn in Hok. simplify_eq; cbn in *. split_and!; try lia; naive_solver.
  - cbn in Hok. destruct Hok as (Hr & Hle & -> & Hg). simplify_eq; cbn.
    replace (slab_offset k + size - slab_offset k) with size by lia. destruct Hr as (Hr1 & Hr2 & Hr3).
    split_and!; try done; try lia; auto.
    + exists size. split; [set_solver|]. split_and!; (done || lia).
    + rewrite fmap_app. apply packed_snoc; (done || lia).
    + rewrite fmap_app. cbn. apply NoDup_app. split; [done|]. split; [|apply NoDup_singleton]. intros x Hx Hx'.
      apply list_elem_of_singleton in Hx' as ->. done.
  - cbn in Hok. simplify_eq; cbn. split_and!; try done; try lia; auto.
  - cbn in Hok. simplify_eq; cbn. split_and!; try done; try lia; auto.
  - done.
Qed.

(** A new call. *)
Lemma sys_call_inv s size :
  0 <= size < 2 ^ 64 -> sys_inv s ->
  sys_inv {| threads := threads s ++ [Entered size]; asked := asked s ++ [size]; shared := shared s; given := given s |}.
Proof.
  intros Hsz [L F O A P C N G R].
  assert (Hl : forall j q, (threads s ++ [Entered size]) !! j = Some q ->
    threads s !! j = Some q \/ (q = Entered size /\ j = length (threads s))).
  { intros j q Hq. apply lookup_app_Some in Hq as [?|[Hge Hq]]; [by left|].
    apply list_lookup_singleton_Some in Hq as [Hj <-]. right. split; [done|lia]. }
  split; cbn [shared threads given asked]; try done.
  - intros Hz j q Hq. destruct (Hl j q Hq) as [?|[-> _]]; eauto.
  - intros j1 j2 q1 q2 H1 H2 C1 C2. destruct (Hl _ _ H1) as [?|[-> _]]; [|done]. destruct (Hl _ _ H2) as [?|[-> _]]; [eauto|done].
  - rewrite !length_app. cbn. lia.
  - intros j q a Hq Ha. destruct (Hl _ _ Hq) as [Hq'|[-> ->]].
    + apply (P j q a Hq'). rewrite lookup_app_l in Ha; [done|]. rewrite A. by eapply lookup_lt_Some.
    + rewrite lookup_app_r in Ha by lia. rewrite A, Nat.sub_diag in Ha. cbn in Ha. injection Ha as <-.
      split; [done|]. split; [done|]. rewrite list_elem_of_fmap. intros ([j b] & Hj & Hb). specialize (C _ _ Hb). cbn in Hj. lia.
  - intros j b Hb. rewrite length_app. specialize (C _ _ Hb). lia.
Qed.

Lemma sys_step_inv s s' : sys_inv s -> sys_step s s' -> sys_inv s'.
Proof.
  intros Inv Hs. destruct Hs as [s size Hsz|s i p p' k' Hi Hst]; [by apply sys_call_inv|].
  destruct Inv as [L F O A P C N G R]. assert (Hlt : (i < length (threads s))%nat) by (by eapply lookup_lt_Some).
  destruct (lookup_lt_is_Some_2 (asked s) i) as [a Ha]; [lia|].
  destruct (step_facts (shared s) (given s) i a p p' k' (P _ _ _ Hi Ha) Hst G R N) as (A1 & A2 & A3 & A4 & A5 & A6).
  assert (Hl : forall j q, <[i := p']> (threads s) !! j = Some q -> (j = i /\ q = p') \/ (j <> i /\ threads s !! j = Some q)).
  { intros j q. destruct (decide (j = i)) as [->|Hne].
    - rewrite list_lookup_insert_eq by done. intros [= <-]. by left.
    - rewrite list_lookup_insert_ne by done. by right. }
  assert (Hoth : forall j q, j <> i -> threads s !! j = Some q -> critical p = true -> critical q = false).
  { intros j q Hne Hq Hc. destruct (critical q) eqn:E; [|done]. destruct Hne. eauto. }
  assert (Hown : forall j b, (j, b) ∈ given s ++ taken i p (shared s) k' -> (j, b) ∈ given s \/ j = i).
  { intros j b [?|Hb]%elem_of_app; [by left|]. right. destruct p; cbn in Hb; set_solver. }
  split; cbn [shared threads given asked]; try done.
  + destruct A6 as [[-> _]|[(_ & -> & _)|(-> & _)]]; auto.
  + intros Hz j q Hq. destruct (Hl j q Hq) as [[-> ->]|[Hne Hq']].
    * destruct A6 as [[E ->]|[(_ & E & _)|(_ & _ & ->)]]; [|congruence|done]. rewrite E in Hz. eauto.
    * destruct A6 as [[E _]|[(E & _)|(_ & Hc & _)]]; [rewrite E in Hz; eauto|eauto|eauto].
  + intros j1 j2 q1 q2 H1 H2 C1 C2.
    destruct (Hl _ _ H1) as [[-> ->]|[N1 H1']], (Hl _ _ H2) as [[-> ->]|[N2 H2']]; try done; eauto.
    * exfalso. destruct A6 as [[_ E]|[(E & _)|(_ & _ & E)]]; [|pose proof (F E _ _ H2'); congruence|congruence].
      rewrite E in C1. pose proof (Hoth _ _ N2 H2' C1). congruence.
    * exfalso. destruct A6 as [[_ E]|[(E & _)|(_ & _ & E)]]; [|pose proof (F E _ _ H1'); congruence|congruence].
      rewrite E in C2. pose proof (Hoth _ _ N1 H1' C2). congruence.
  + by rewrite length_insert.
  + intros j q b Hq Hb. destruct (Hl _ _ Hq) as [[-> ->]|[Hne Hq']]; [by simplify_eq|].
    apply (pc_ok_mono (shared s) k' (given s)); [|lia|set_solver| |by apply P].
    * destruct (critical p) eqn:E; [left; eauto|right; auto].
    * intros c Hc. by destruct (Hown _ _ Hc).
  + intros j b Hb. rewrite length_insert. destruct (Hown _ _ Hb) as [Hb'| ->]; [by eapply C|done].
  + apply A3.
Qed.

(** The machine before the first call. *)
Definition boot : smp_state :=
  {| threads := []; asked := []; shared := init_memory {| slab_offset := 0; mem_lock := {| lock := 0; owner := 0 |} |}; given := [] |}.

Lemma boot_inv : sys_inv boot.
Proof. split; cbn; try done; auto; [set_solver|constructor]. Qed.

(** C15: in every interleaving of any number of calls at most one thread is between
    acquiring and releasing the lock. A call that returned a pointer owns the range of
    the slab from there on, at least the bytes it asked for: the pointer is 64-byte
    aligned, the range lies inside the page, and the ranges of two calls do not
    overlap; the offset was moved over it once, by this call, and the ranges follow each
    other from the start of the slab up to the offset. A call that returned NULL had
    asked for 0 bytes, for more than 4088, or for more than what is left. *)
Theorem slab_interleavings s :
  rtc sys_step boot s ->
  (forall i j p q, threads s !! i = Some p -> threads s !! j = Some q ->
     critical p = true -> critical q = true -> i = j) /\
  (forall i ptr a, threads s !! i = Some (Returned (Some ptr)) -> asked s !! i = Some a ->
     0 <= ptr /\ (64 | ptr) /\ ptr + a <= PAGE_SIZE /\
     exists size, (i, (ptr, size)) ∈ given s /\ a <= size < a + 64 /\ (64 | size)) /\
  (forall i j p q a b, i <> j ->
     threads s !! i = Some (Returned (Some p)) -> asked s !! i = Some a ->
     threads s !! j = Some (Returned (Some q)) -> asked s !! j = Some b -> p + a <= q \/ q + b <= p) /\
  (forall i a, threads s !! i = Some (Returned None) -> asked s !! i = Some a ->
     a = 0 \/ PAGE_SIZE - 8 < a \/ PAGE_SIZE < slab_offset (shared s) + a + 63) /\
  NoDup (given s).*1 /\ packed 0 (given s).*2 (slab_offset (shared s)).
Proof.
  intros Hr. assert (Hi : sys_inv s).
  { revert Hr. apply (rtc_ind_r sys_inv); [exact boot_inv|]. intros y z _ Hyz Hy. by eapply sys_step_inv. }
  destruct Hi as [L F O A P C N G R].
  assert (Hblock : forall i ptr a, threads s !! i = Some (Returned (Some ptr)) -> asked s !! i = Some a ->
    exists size, (i, (ptr, size)) ∈ given s /\ (ptr, size) ∈ (given s).*2 /\ a <= size < a + 64 /\ (64 | size)).
  { intros i ptr a Hp Ha. destruct (P _ _ _ Hp Ha) as (size & Hin & Hs & Hd & _). exists size. split_and!; try done; try lia.
    by apply (list_elem_of_fmap_2 snd) in Hin. }
  split_and!; try done.
  - intros i ptr a Hp Ha. destruct (Hblock _ _ _ Hp Ha) as (size & Hin & Hin2 & Hs & Hd).
    destruct (packed_range _ _ _ _ _ G Hin2) as (? & ? & Hd' & ? & ?). rewrite Z.sub_0_r in Hd'.
    split_and!; try done; try lia. by exists size.
  - intros i j p q a b Hne Hp Ha Hq Hb. destruct (Hblock _ _ _ Hp Ha) as (s1 & I1 & J1 & S1 & D1).
    destruct (Hblock _ _ _ Hq Hb) as (s2 & I2 & J2 & S2 & D2).
    apply list_elem_of_lookup in I1 as (n1 & I1), I2 as (n2 & I2).
    assert (n1 <> n2) as Hn by (intros ->; rewrite I1 in I2; by injection I2).
    destruct (packed_positions _ _ _ n1 n2 p s1 q s2 G) as [?|?]; try lia; rewrite list_lookup_fmap, ?I1, ?I2; done.
  - intros i a Hp Ha. destruct (P _ _ _ Hp Ha) as [?|[?|(size & Hs & Hle)]]; [by left|by right; left|right; right].
    destruct Hs as [Hs _]. lia.
Qed.

(** Call [i] makes a step, if it can; and a schedule of such steps. *)
Definition advance (s : smp_state) (i : nat) : smp_state :=
  match threads s !! i with
  | Some p => match step p (shared s) with
              | Some (p', k') => {| threads := <[i := p']> (threads s); asked := asked s; shared := k';
                                    given := given s ++ taken i p (shared s) k' |}
              | None => s
              end
  | None => s
  end.

Definition call (s : smp_state) (size : Z) : smp_state :=
  {| threads := threads s ++ [Entered size]; asked := asked s ++ [size]; shared := shared s; given := given s |}.

Lemma advance_reachable sch s : rtc sys_step boot s -> rtc sys_step boot (fold_left advance sch s).
Proof.
  revert s. induction sch as [|i sch IH]; intros s Hs; cbn [fold_left]; [done|]. apply IH. unfold advance.
  destruct (threads s !! i) as [p|] eqn:Ei; [|done]. destruct (step p (shared s)) as [[p' k']|] eqn:E; [|done].
  eapply rtc_r; [done|]. by apply (sys_run s i p p' k').
Qed.

Lemma call_reachable s size : 0 <= size < 2 ^ 64 -> rtc sys_step boot s -> rtc sys_step boot (call s size).
Proof. intros H Hs. eapply rtc_r; [done|]. by apply sys_call. Qed.

(** Two calls returned, each with its own block; the third holds the lock while the
    fourth, which asks for more than is left, spins. *)
Definition demo_smp : smp_state :=
  fold_left advance [2; 3; 2; 3; 3; 2; 3; 2]%nat
    (call (call (fold_left advance [0; 0; 1; 0; 1; 0; 0; 1; 0; 0; 0; 1; 1; 1; 1; 1; 1; 1; 1]%nat (call (call boot 8) 100)) 20) 4000).

Lemma slab_interleavings_witness :
  exists p q : Z, take 2 (threads demo_smp) = [Returned (Some p); Returned (Some q)] /\
    (64 | p) /\ (64 | q) /\ (p + 8 <= q \/ q + 100 <= p) /\ NoDup (given demo_smp).*1.
Proof.
  assert (Hr : rtc sys_step boot demo_smp).
  { apply advance_reachable, call_reachable; [lia|]. apply call_reachable; [lia|].
    apply advance_reachable, call_reachable; [lia|]. apply call_reachable; [lia|]. apply rtc_refl. }
  destruct (slab_interleavings demo_smp Hr) as (_ & H2 & H3 & _ & H5 & _).
  exists 0, 64. split; [reflexivity|].
  split; [apply (H2 0%nat 0 8); reflexivity|]. split; [apply (H2 1%nat 64 100); reflexivity|].
  split; [apply (H3 0%nat 1%nat 0 64 8 100); try reflexivity; discriminate|exact H5].
Defined.

Lemma run_step n p k p' k' : step p k = Some (p', k') -> run (S n) p k = run n p' k'.
Proof. intros E. cbn [run]. destruct p; try discriminate E; rewrite E; reflexivity. Qed.

(** one call alone. With the lock free it returns after at most nine steps and
    releases the lock; it returns NULL, changing nothing but the owner field, exactly
    when the size is 0, above 4088, or the rounded size does not fit behind the
    offset; otherwise the block at the offset, which then moves past it. *)
Theorem slab_kmalloc_correct size k :
  in_u64 size -> lock (mem_lock k) = 0 -> 0 <= slab_offset k <= PAGE_SIZE ->
  exists k', lock (mem_lock k') = 0 /\
    if size_ok size && (slab_offset k + round64 size <=? PAGE_SIZE)
    then kmalloc size k = Ok (Some (slab_offset k), k') /\ slab_offset k' = slab_offset k + round64 size
    else kmalloc size k = Ok (None, k') /\ slab_offset k' = slab_offset k.
Proof.
  intros Hs Hl Ho. unfold kmalloc. destruct (size_ok size) eqn:E; cbn [andb].
  - set (k3 := set_owner (set_lock k 1) 1).
    assert (Hto : run 10 (Entered size) k = run 7 (Checking (round64 size)) k3).
    { rewrite (run_step _ _ _ (Spinning (round64 size)) k) by (cbn; by rewrite E).
      rewrite (run_step _ _ _ (Locked (round64 size)) (set_lock k 1)) by (cbn; by rewrite Hl).
      by rewrite (run_step _ _ _ (Checking (round64 size)) k3). }
    assert (Ho3 : slab_offset k3 = slab_offset k) by done. rewrite Hto. clear Hto.
    destruct (slab_offset k + round64 size <=? PAGE_SIZE) eqn:Ef; zbool.
    + rewrite (run_step _ _ _ (Reading (round64 size)) k3)
        by (cbn; rewrite Z.gtb_ltb, (proj2 (Z.ltb_ge _ _)) by lia; done).
      rewrite (run_step _ _ _ (Bumping (round64 size) (slab_offset k3)) k3) by done.
      eexists. split; [|split; reflexivity]. reflexivity.
    + rewrite (run_step _ _ _ (Unlocking None) k3)
        by (cbn; rewrite Z.gtb_ltb, (proj2 (Z.ltb_lt _ _)) by lia; done).
      eexists. split; [|split; reflexivity]. reflexivity.
  - exists k. split; [done|]. rewrite (run_step _ _ _ (Returned None) k) by (cbn; by rewrite E). done.
Qed.

Lemma slab_kmalloc_correct_witness :
  exists k', kmalloc 100 {| slab_offset := 64; mem_lock := {| lock := 0; owner := 0 |} |} = Ok (Some 64, k') /\ slab_offset k' = 192.
Proof.
  destruct (slab_kmalloc_correct 100 {| slab_offset := 64; mem_lock := {| lock := 0; owner := 0 |} |}) as (k' & _ & H1 & H2).
  - split; lia.
  - reflexivity.
  - cbn. unfold PAGE_SIZE. lia.
  - exists k'. split; [exact H1|exact H2].
Defined.

(** * Text output *)

Definition VIDEO_CELLS : Z := 80 * 25.

(** A character with the attribute; [char] is signed. *)
Definition cell (c : Z) : Z := u16 (Z.lor 0x0F00 (signed 8 c)).

(** [video_print]: the buffer, the static position, and the characters before the NUL. *)
Fixpoint video_print (str : list Z) (video : list Z) (pos : Z) : outcome (list Z * Z) :=
  match str with
  | [] => Ok (video, pos)
  | c :: rest =>
      let pos := if pos >=? VIDEO_CELLS then 0 else pos in
      video ← arr_set video pos (cell c);
      video_print rest video (pos + 1)
  end.

Lemma cell_ascii c : 0 <= c < 128 -> cell c = 0x0F00 + c.
Proof.
  intros H. unfold cell. assert (Hs : signed 8 c = c).
  { unfold signed, wrap. rewrite Z.mod_small by lia. change (2 ^ (8 - 1)) with 128. zcases. }
  rewrite Hs. assert (Hl : Z.land 0x0F00 c = 0).
  { apply Z.bits_inj'. intros i Hi. rewrite Z.land_spec, Z.bits_0. destruct (decide (i < 7)).
    - replace (Z.testbit 0x0F00 i) with false; [done|].
      assert (Hc : i = 0 \/ i = 1 \/ i = 2 \/ i = 3 \/ i = 4 \/ i = 5 \/ i = 6) by lia. naive_solver.
    - rewrite (testbit_high c 7) by lia. apply andb_false_r. }
  rewrite <- Z.lxor_lor, <- Z.add_nocarry_lxor by done. apply Z.mod_small. lia.
Qed.

(** printing stays inside the buffer whatever the text and the position; the
    position ends where counting modulo the 2000 cells puts it, and a text that fits
    the screen appears cell by cell from the starting position on, wrapping at the
    end, the other cells unchanged. *)
Theorem video_print_correct str video pos :
  length video = Z.to_nat VIDEO_CELLS -> 0 <= pos <= VIDEO_CELLS -> Z.of_nat (length str) <= VIDEO_CELLS ->
  exists video' pos', video_print str video pos = Ok (video', pos') /\ length video' = Z.to_nat VIDEO_CELLS /\
    0 <= pos' <= VIDEO_CELLS /\ pos' mod VIDEO_CELLS = (pos + Z.of_nat (length str)) mod VIDEO_CELLS /\
    (forall i c, str !! i = Some c -> video' !! Z.to_nat ((pos + Z.of_nat i) mod VIDEO_CELLS) = Some (cell c)) /\
    (forall j, 0 <= j < VIDEO_CELLS -> (forall i, (i < length str)%nat -> j <> (pos + Z.of_nat i) mod VIDEO_CELLS) ->
       video' !! Z.to_nat j = video !! Z.to_nat j).
Proof.
  unfold VIDEO_CELLS. change (80 * 25) with 2000.
  revert video pos. induction str as [|c str IH]; intros video pos Hl Hp Hlen; cbn [video_print].
  - exists video, pos. split_and!; try done; try lia. { by rewrite Z.add_0_r. }
  - unfold VIDEO_CELLS. change (80 * 25) with 2000. cbn [length] in Hlen. rewrite Z.geb_leb.
    set (p0 := if 2000 <=? pos then 0 else pos).
    assert (Hp0 : 0 <= p0 < 2000 /\ forall n, (pos + n) mod 2000 = (p0 + n) mod 2000).
    { subst p0. zcase (2000 <=? pos); (split; [lia|]); intros n; [|done].
      replace (pos + n) with (n + 1 * 2000) by lia. by rewrite Z.mod_add by lia. }
    destruct Hp0 as [Hp0 Hmod].
    assert (Hset : arr_set video p0 (cell c) = Ok (<[Z.to_nat p0 := cell c]> video)).
    { unfold arr_set. rewrite Hl, (proj2 (Z.leb_le 0 p0)), (proj2 (Z.ltb_lt p0 _)) by lia. done. }
    rewrite Hset. cbn [mbind outcome_bind].
    destruct (IH (<[Z.to_nat p0 := cell c]> video) (p0 + 1)) as (v' & p' & E & Hl' & Hp' & Hpm & H1 & H2);
      [by rewrite length_insert|lia|lia|].
    exists v', p'. split_and!; try done; try lia.
    + rewrite Hpm, Hmod. f_equal. cbn [length]. lia.
    + intros [|i] d Hd; cbn in Hd.
      * simplify_eq. rewrite Z.add_0_r. replace pos with (pos + 0) by lia. rewrite Hmod, Z.add_0_r, Z.mod_small by lia.
        rewrite H2; [apply list_lookup_insert_eq; lia|lia|].
        intros i Hi Heq. symmetry in Heq.
        rewrite <- (Z.mod_small p0 2000) in Heq at 2 by lia.
        pose proof (Z.div_mod (p0 + 1 + Z.of_nat i) 2000 ltac:(lia)) as D1.
        pose proof (Z.div_mod p0 2000 ltac:(lia)) as D2. rewrite Heq in D1.
        rewrite (Z.div_small p0) in D2 by lia.
        assert (0 <= (p0 + 1 + Z.of_nat i) / 2000 <= 1) by (split; [apply Z.div_pos; lia|]; apply Z.lt_succ_r, Z.div_lt_upper_bound; lia).
        lia.
      * rewrite Hmod. specialize (H1 i d Hd). rewrite <- H1. f_equal. f_equal. f_equal. lia.
    + intros j Hj Hn. rewrite H2; [|done|].
      * apply list_lookup_insert_ne. intros Heq. apply (Hn 0%nat); [cbn; lia|]. rewrite Hmod, Z.mod_small by lia. lia.
      * intros i Hi ->. apply (Hn (S i)); [cbn; lia|]. rewrite Hmod. f_equal. lia.
Qed.

Lemma video_print_correct_witness :
  exists video' pos', video_print [72; 105] (replicate 2000 0) 1999 = Ok (video', pos') /\
    video' !! 1999%nat = Some 0x0F48 /\ video' !! 0%nat = Some 0x0F69.
Proof.
  destruct (video_print_correct [72; 105] (replicate 2000 0) 1999) as (v' & p' & E & _ & _ & _ & H1 & _).
  - apply length_replicate.
  - unfold VIDEO_CELLS. lia.
  - cbn. unfold VIDEO_CELLS. lia.
  - exists v', p'. split; [exact E|]. split; [exact (H1 0%nat 72 eq_refl)|exact (H1 1%nat 105 eq_refl)].
Defined.

(** Bytes above 127 overwrite the attribute: [char] is extended with its sign. *)
Lemma cell_high_byte : cell 0xE4 = 0xFFE4.
Proof. reflexivity. Qed.

End BootSlab.
