(* ===== verification/ProcRegistry.v ===== *)
(** * Process registry (src/kernel/processes.h)

    [ProcessManager] keeps a map from process ids to records under one mutex, so each
    member function is atomic. Ids come from one counter shared by all managers. The
    getters and setters are instances of one lookup and one update; which field they
    touch is given by the type [field]. The clock and the working directory are
    arguments. *)
From Stdlib Require Import ZArith Lia.
From stdpp Require Import strings numbers gmap base.
From stdpp Require Import list.
From S2P Require Import Prelude.

Open Scope Z_scope.

Module ProcReg.

Record ProcessInfo := mk_info {
  pid : Z;
  name : string;
  running : bool;
  cpuTime : Z;
  wallClockTime : Z;
  startTime : Z;
  endTime : Z;
  owner : string;
  priority : Z;
  status : Z;
  numThreads : Z;
  commandLineArgs : list string;
  workingDirectory : string;
  environmentVariables : gmap string string;
  parentProcess : Z;
  childProcesses : list Z;
  memoryUsage : Z
}.

Abbreviation ProcessMap := (gmap Z ProcessInfo).

(** A manager and the counter of [generateUniquePid]. *)
Record registry := mk_registry { processMap : ProcessMap; nextPid : Z }.

Definition INT_MAX : Z := 2 ^ 31 - 1.

Definition initial : registry := mk_registry ∅ 1.

(** [nextPid++] on an [int]. *)
Definition generateUniquePid (r : registry) : outcome (Z * registry) :=
  if nextPid r =? INT_MAX then Undef "signed overflow"
  else Ok (nextPid r, mk_registry (processMap r) (nextPid r + 1)).

Definition getCurrentUser : string := "current_user".
Definition getCurrentProcessId : Z := 0.
Definition getCurrentEnvironment : gmap string string := {["PATH" := "/usr/bin:/bin"]}.

Definition addProcess (nm : string) (args : list string) (now : Z) (cwd : string) (r : registry) : outcome (bool * registry) :=
  '(p, r) ← generateUniquePid r;
  let info := mk_info p nm true 0 0 now 0 getCurrentUser 0 0 1 args cwd getCurrentEnvironment getCurrentProcessId [] 0 in
  Ok (true, mk_registry (<[p := info]> (processMap r)) (nextPid r)).

Definition removeProcess (p : Z) (r : registry) : bool * registry :=
  (bool_decide (is_Some (processMap r !! p)), mk_registry (delete p (processMap r)) (nextPid r)).

Definition getProcessInfo (p : Z) (r : registry) : option ProcessInfo := processMap r !! p.
Definition getProcesses (r : registry) : option ProcessMap := Some (processMap r).

(** The pattern of the getters: look the process up and read a member. *)
Definition get {A} (member : ProcessInfo -> A) (p : Z) (r : registry) : option A := member <$> processMap r !! p.

Definition getCPUTime := get cpuTime.
Definition getWallClockTime := get wallClockTime.
Definition getParentProcess := get parentProcess.
Definition getChildProcesses := get childProcesses.
Definition getMemoryUsage := get memoryUsage.
Definition getPriority := get priority.
Definition getStatus := get status.
Definition getNumThreads := get numThreads.
Definition getCommandLineArgs := get commandLineArgs.
Definition getWorkingDirectory := get workingDirectory.
Definition getEnvironmentVariables := get environmentVariables.
Definition getProcessOwner := get owner.
Definition getProcessStartTime := get startTime.
Definition getProcessEndTime := get endTime.
Definition isProcessRunning (p : Z) (r : registry) : bool :=
  match processMap r !! p with Some i => running i | None => false end.

(** The pattern of the setters: change the record if it is there. *)
Definition modify (f : ProcessInfo -> ProcessInfo) (p : Z) (r : registry) : registry :=
  match processMap r !! p with
  | Some i => mk_registry (<[p := f i]> (processMap r)) (nextPid r)
  | None => r
  end.

Definition with_running (b : bool) (i : ProcessInfo) : ProcessInfo :=
  mk_info (pid i) (name i) b (cpuTime i) (wallClockTime i) (startTime i) (endTime i) (owner i) (priority i) (status i)
    (numThreads i) (commandLineArgs i) (workingDirectory i) (environmentVariables i) (parentProcess i) (childProcesses i) (memoryUsage i).
Definition with_startTime (t : Z) (i : ProcessInfo) : ProcessInfo :=
  mk_info (pid i) (name i) (running i) (cpuTime i) (wallClockTime i) t (endTime i) (owner i) (priority i) (status i)
    (numThreads i) (commandLineArgs i) (workingDirectory i) (environmentVariables i) (parentProcess i) (childProcesses i) (memoryUsage i).
Definition with_endTime (t : Z) (i : ProcessInfo) : ProcessInfo :=
  mk_info (pid i) (name i) (running i) (cpuTime i) (wallClockTime i) (startTime i) t (owner i) (priority i) (status i)
    (numThreads i) (commandLineArgs i) (workingDirectory i) (environmentVariables i) (parentProcess i) (childProcesses i) (memoryUsage i).
Definition with_owner (o : string) (i : ProcessInfo) : ProcessInfo :=
  mk_info (pid i) (name i) (running i) (cpuTime i) (wallClockTime i) (startTime i) (endTime i) o (priority i) (status i)
    (numThreads i) (commandLineArgs i) (workingDirectory i) (environmentVariables i) (parentProcess i) (childProcesses i) (memoryUsage i).
Definition with_priority (x : Z) (i : ProcessInfo) : ProcessInfo :=
  mk_info (pid i) (name i) (running i) (cpuTime i) (wallClockTime i) (startTime i) (endTime i) (owner i) x (status i)
    (numThreads i) (commandLineArgs i) (workingDirectory i) (environmentVariables i) (parentProcess i) (childProcesses i) (memoryUsage i).
Definition with_status (x : Z) (i : ProcessInfo) : ProcessInfo :=
  mk_info (pid i) (name i) (running i) (cpuTime i) (wallClockTime i) (startTime i) (endTime i) (owner i) (priority i) x
    (numThreads i) (commandLineArgs i) (workingDirectory i) (environmentVariables i) (parentProcess i) (childProcesses i) (memoryUsage i).
Definition with_numThreads (x : Z) (i : ProcessInfo) : ProcessInfo :=
  mk_info (pid i) (name i) (running i) (cpuTime i) (wallClockTime i) (startTime i) (endTime i) (owner i) (priority i) (status i)
    x (commandLineArgs i) (workingDirectory i) (environmentVariables i) (parentProcess i) (childProcesses i) (memoryUsage i).
Definition with_parentProcess (x : Z) (i : ProcessInfo) : ProcessInfo :=
  mk_info (pid i) (name i) (running i) (cpuTime i) (wallClockTime i) (startTime i) (endTime i) (owner i) (priority i) (status i)
    (numThreads i) (commandLineArgs i) (workingDirectory i) (environmentVariables i) x (childProcesses i) (memoryUsage i).
Definition with_childProcesses (x : list Z) (i : ProcessInfo) : ProcessInfo :=
  mk_info (pid i) (name i) (running i) (cpuTime i) (wallClockTime i) (startTime i) (endTime i) (owner i) (priority i) (status i)
    (numThreads i) (commandLineArgs i) (workingDirectory i) (environmentVariables i) (parentProcess i) x (memoryUsage i).
Definition with_memoryUsage (x : Z) (i : ProcessInfo) : ProcessInfo :=
  mk_info (pid i) (name i) (running i) (cpuTime i) (wallClockTime i) (startTime i) (endTime i) (owner i) (priority i) (status i)
    (numThreads i) (commandLineArgs i) (workingDirectory i) (environmentVariables i) (parentProcess i) (childProcesses i) x.

Definition setPriority (p x : Z) := modify (with_priority x) p.
Definition setStatus (p x : Z) := modify (with_status x) p.
Definition setNumThreads (p x : Z) := modify (with_numThreads x) p.
Definition setParentProcess (p x : Z) := modify (with_parentProcess x) p.
Definition setChildProcesses (p : Z) (x : list Z) := modify (with_childProcesses x) p.
Definition setMemoryUsage (p x : Z) := modify (with_memoryUsage x) p.
Definition setProcessOwner (p : Z) (x : string) := modify (with_owner x) p.
Definition setProcessStartTime (p x : Z) := modify (with_startTime x) p.
Definition setProcessEndTime (p x : Z) := modify (with_endTime x) p.
Definition setProcessRunning (p : Z) (x : bool) := modify (with_running x) p.

Definition terminateProcess (p now : Z) (r : registry) : bool * registry :=
  match processMap r !! p with
  | Some _ => (true, modify (fun i => with_endTime now (with_running false i)) p r)
  | None => (false, r)
  end.

Definition suspendProcess (p : Z) (r : registry) : bool * registry :=
  match processMap r !! p with
  | Some i => if running i then (true, modify (with_running false) p r) else (false, r)
  | None => (false, r)
  end.

Definition resumeProcess (p : Z) (r : registry) : bool * registry :=
  match processMap r !! p with
  | Some i => if negb (running i) then (true, modify (with_running true) p r) else (false, r)
  | None => (false, r)
  end.

(** * Getters and setters *)

(** The members that have a setter. *)
Inductive field := FPriority | FStatus | FNumThreads | FParent | FChildren | FMemory | FOwner | FStart | FEnd | FRunning.

Definition value (f : field) : Type :=
  match f with FChildren => list Z | FOwner => string | FRunning => bool | _ => Z end.

Definition set_field (f : field) : Z -> value f -> registry -> registry :=
  match f with
  | FPriority => setPriority | FStatus => setStatus | FNumThreads => setNumThreads | FParent => setParentProcess
  | FChildren => setChildProcesses | FMemory => setMemoryUsage | FOwner => setProcessOwner
  | FStart => setProcessStartTime | FEnd => setProcessEndTime | FRunning => setProcessRunning
  end.

Definition get_field (f : field) : Z -> registry -> option (value f) :=
  match f with
  | FPriority => getPriority | FStatus => getStatus | FNumThreads => getNumThreads | FParent => getParentProcess
  | FChildren => getChildProcesses | FMemory => getMemoryUsage | FOwner => getProcessOwner
  | FStart => getProcessStartTime | FEnd => getProcessEndTime | FRunning => get running
  end.

Lemma modify_lookup f p q r :
  processMap (modify f p r) !! q = if decide (p = q) then f <$> processMap r !! q else processMap r !! q.
Proof.
  unfold modify. destruct (decide (p = q)) as [->|Hne].
  - destruct (processMap r !! q) eqn:E; cbn; [by rewrite lookup_insert_eq|done].
  - destruct (processMap r !! p); [cbn; by rewrite lookup_insert_ne|done].
Qed.

Lemma modify_nextPid f p r : nextPid (modify f p r) = nextPid r.
Proof. unfold modify. by destruct (processMap r !! p). Qed.

Lemma get_modify {A} (m : ProcessInfo -> A) f p q r :
  get m q (modify f p r) = if decide (p = q) then (m ∘ f) <$> processMap r !! q else get m q r.
Proof. unfold get. rewrite modify_lookup. destruct (decide (p = q)); [by rewrite option_fmap_compose|done]. Qed.

(** Reduces a getter and a setter to [get] and [modify]. *)
Ltac unfold_fields :=
  cbn [get_field set_field];
  unfold getPriority, getStatus, getNumThreads, getParentProcess, getChildProcesses, getMemoryUsage,
    getProcessOwner, getProcessStartTime, getProcessEndTime, setPriority, setStatus, setNumThreads, setParentProcess,
    setChildProcesses, setMemoryUsage, setProcessOwner, setProcessStartTime, setProcessEndTime, setProcessRunning.

(** every setter sets its member of the process named, if that process exists, and
    nothing else: the getter of the same member returns the new value, every other
    getter and every other process are unaffected, and so are the set of processes
    and the counter. *)
Theorem setters_correct f p v r :
  get_field f p (set_field f p v r) = (if bool_decide (is_Some (processMap r !! p)) then Some v else None) /\
  (forall g q, g <> f \/ q <> p -> get_field g q (set_field f p v r) = get_field g q r) /\
  dom (processMap (set_field f p v r)) = dom (processMap r) /\ nextPid (set_field f p v r) = nextPid r.
Proof.
  assert (Hdom : forall h, dom (processMap (modify h p r)) = dom (processMap r)).
  { intros h. apply set_eq. intros q. rewrite !elem_of_dom, modify_lookup. destruct (decide (p = q)); [|done].
    by rewrite fmap_is_Some. }
  split_and!.
  - destruct f; unfold_fields;
      rewrite get_modify, decide_True by done; by destruct (processMap r !! p).
  - intros g q Hne. destruct f, g; unfold_fields; try (destruct Hne as [Hne|Hne]; [done|]);
      rewrite get_modify; (destruct (decide (p = q)); [|done]); unfold get; by destruct (processMap r !! q).
  - destruct f; apply Hdom.
  - destruct f; apply modify_nextPid.
Qed.

(** * Life cycle *)

Lemma resume_suspended p r i :
  processMap r !! p = Some i -> running i = true -> modify (with_running true) p (modify (with_running false) p r) = r.
Proof.
  intros E Er. unfold modify at 1. rewrite modify_lookup, decide_True, E by done. cbn. unfold modify. rewrite E.
  destruct r as [m n]. cbn in *. rewrite insert_insert_eq. f_equal. apply insert_id. rewrite E.
  by destruct i; cbn in *; subst.
Qed.

(** suspending succeeds exactly on running processes and resuming exactly on
    others that exist; a process that was suspended and resumed is as before; a
    terminated one is not running and has its end time set. *)
Theorem process_lifecycle p r :
  (suspendProcess p r).1 = isProcessRunning p r /\
  (resumeProcess p r).1 = bool_decide (is_Some (processMap r !! p)) && negb (isProcessRunning p r) /\
  isProcessRunning p (suspendProcess p r).2 = false /\
  isProcessRunning p (resumeProcess p r).2 = bool_decide (is_Some (processMap r !! p)) /\
  (isProcessRunning p r = true -> resumeProcess p (suspendProcess p r).2 = (true, r)) /\
  (forall now, (terminateProcess p now r).1 = bool_decide (is_Some (processMap r !! p)) /\
     isProcessRunning p (terminateProcess p now r).2 = false /\
     getProcessEndTime p (terminateProcess p now r).2 = if bool_decide (is_Some (processMap r !! p)) then Some now else None).
Proof.
  unfold suspendProcess, resumeProcess, terminateProcess, isProcessRunning, getProcessEndTime, get.
  destruct (processMap r !! p) as [i|] eqn:E; cbn; [|by rewrite E].
  assert (Hm : forall f, processMap (modify f p r) !! p = Some (f i)) by (intros f; by rewrite modify_lookup, decide_True, E).
  destruct (running i) eqn:Er; cbn [negb fst snd]; rewrite ?E, ?Hm, ?Er; split_and!; try done; try (intros now; by rewrite Hm).
  intros _. cbn. by rewrite (resume_suspended p r i).
Qed.

(** A terminated process can be resumed, with its end time still set. *)
Lemma resume_after_terminate :
  exists r, addProcess "init" [] 7 "/" initial = Ok (true, r) /\
    let r2 := (resumeProcess 1 (terminateProcess 1 99 r).2).2 in
    isProcessRunning 1 r2 = true /\ getProcessEndTime 1 r2 = Some 99.
Proof. eexists. split; [reflexivity|]. split; reflexivity. Qed.

(** * Histories *)

Inductive call :=
| Add (nm : string) (args : list string) (now : Z) (cwd : string)
| Remove (p : Z)
| Set_ (f : field) (p : Z) (v : value f)
| Terminate (p now : Z)
| Suspend (p : Z)
| Resume (p : Z).

(** One call; the id it issued, if any. *)
Definition exec (c : call) (r : registry) : outcome (list Z * registry) :=
  match c with
  | Add nm args now cwd => '(_, r') ← addProcess nm args now cwd r; Ok ([nextPid r], r')
  | Remove p => Ok ([], (removeProcess p r).2)
  | Set_ f p v => Ok ([], set_field f p v r)
  | Terminate p now => Ok ([], (terminateProcess p now r).2)
  | Suspend p => Ok ([], (suspendProcess p r).2)
  | Resume p => Ok ([], (resumeProcess p r).2)
  end.

Fixpoint run (cs : list call) (r : registry) : outcome (list Z * registry) :=
  match cs with
  | [] => Ok ([], r)
  | c :: cs => '(i1, r) ← exec c r; '(i2, r) ← run cs r; Ok (i1 ++ i2, r)
  end.

Fixpoint adds (cs : list call) : Z :=
  match cs with [] => 0 | Add _ _ _ _ :: cs => 1 + adds cs | _ :: cs => adds cs end.

(** Keys are the ids of their records, and were issued. *)
Definition keyed (r : registry) : Prop :=
  forall p i, processMap r !! p = Some i -> pid i = p /\ 1 <= p < nextPid r.

Lemma modify_keyed f p r : (forall i, pid (f i) = pid i) -> keyed r -> keyed (modify f p r).
Proof.
  intros Hf Hk q i. rewrite modify_lookup, modify_nextPid. destruct (decide (p = q)); [|apply Hk].
  intros (j & Hj & ->)%fmap_Some. rewrite Hf. by apply Hk.
Qed.

Lemma exec_keyed c r :
  keyed r -> 1 <= nextPid r ->
  match c with
  | Add _ _ _ _ => if nextPid r =? INT_MAX then exec c r = Undef "signed overflow"
                   else exists r', exec c r = Ok ([nextPid r], r') /\ keyed r' /\ nextPid r' = nextPid r + 1
  | _ => exists r', exec c r = Ok ([], r') /\ keyed r' /\ nextPid r' = nextPid r
  end.
Proof.
  intros Hk Hn. destruct c as [nm args now cwd|p|f p v|p now|p|p]; cbn [exec].
  - unfold addProcess, generateUniquePid. destruct (nextPid r =? INT_MAX); [done|]. cbn. eexists. split; [reflexivity|].
    split; [|done]. intros q i. cbn. destruct (decide (q = nextPid r)) as [->|Hne].
    + rewrite lookup_insert_eq. intros [= <-]. cbn. lia.
    + rewrite lookup_insert_ne by done. intros Hi. destruct (Hk q i Hi). split; [done|lia].
  - eexists. split; [reflexivity|]. split; [|done]. intros q i. cbn. rewrite lookup_delete_Some. intros [_ Hi]. by apply Hk.
  - eexists. split; [reflexivity|]. destruct f; (split; [by apply modify_keyed|apply modify_nextPid]).
  - eexists. split; [reflexivity|]. unfold terminateProcess.
    destruct (processMap r !! p); [|done]. cbn. split; [by apply modify_keyed|apply modify_nextPid].
  - eexists. split; [reflexivity|]. unfold suspendProcess.
    destruct (processMap r !! p) as [i|]; [|done]. destruct (running i); [|done]. cbn. split; [by apply modify_keyed|apply modify_nextPid].
  - eexists. split; [reflexivity|]. unfold resumeProcess.
    destruct (processMap r !! p) as [i|]; [|done]. destruct (running i); [done|]. cbn. split; [by apply modify_keyed|apply modify_nextPid].
Qed.

Lemma adds_nonneg cs : 0 <= adds cs.
Proof. induction cs as [|[] cs IH]; cbn [adds]; lia. Qed.

Lemma run_keyed cs r :
  keyed r -> 1 <= nextPid r -> nextPid r + adds cs <= INT_MAX ->
  exists r', run cs r = Ok (seqZ (nextPid r) (adds cs), r') /\ keyed r' /\ nextPid r' = nextPid r + adds cs.
Proof.
  revert r. induction cs as [|c cs IH]; intros r Hk Hn Ha; cbn [run adds] in *.
  { exists r. split_and!; try done. lia. }
  pose proof (exec_keyed c r Hk Hn) as He. pose proof (adds_nonneg cs).
  destruct c as [nm args now cwd| | | | |].
  2-6: destruct He as (r1 & -> & Hk1 & Hn1); cbn [mbind outcome_bind]; rewrite <- Hn1 in *;
    (destruct (IH r1) as (r2 & -> & Hk2 & Hn2); [done|lia..|]); by exists r2.
  rewrite (proj2 (Z.eqb_neq _ _)) in He by lia. destruct He as (r1 & -> & Hk1 & Hn1). cbn [mbind outcome_bind].
  destruct (IH r1) as (r2 & -> & Hk2 & Hn2); [done|lia..|]. exists r2. split_and!; try done; [|lia].
  cbn. do 2 f_equal. rewrite (seqZ_cons (nextPid r)) by lia. f_equal. f_equal; lia.
Qed.

(** ids. Over any history of calls with fewer than 2^31 - 1 additions, the ids
    issued are 1, 2, 3, ... in this order, so none is issued twice even after its
    process was removed, and every record in the map is filed under its own id, which
    was issued. *)
Theorem registry_history cs :
  adds cs < INT_MAX ->
  exists r, run cs initial = Ok (seqZ 1 (adds cs), r) /\ NoDup (seqZ 1 (adds cs)) /\
    forall p i, processMap r !! p = Some i -> pid i = p /\ p ∈ seqZ 1 (adds cs).
Proof.
  intros Ha. destruct (run_keyed cs initial) as (r & Hr & Hk & Hn).
  - intros p i Hi. cbn in Hi. by rewrite lookup_empty in Hi.
  - cbn. lia.
  - cbn [initial nextPid]. lia.
  - exists r. split; [exact Hr|]. split; [apply NoDup_seqZ|]. intros p i Hi. destruct (Hk p i Hi) as [H1 H2].
    split; [done|]. apply elem_of_seqZ. cbn [initial nextPid] in Hn. lia.
Qed.

Lemma registry_history_witness :
  exists r, run [Add "a" [] 1 "/"; Remove 1; Add "b" [] 2 "/"; Suspend 2] initial = Ok ([1; 2], r).
Proof.
  destruct (registry_history [Add "a" [] 1 "/"; Remove 1; Add "b" [] 2 "/"; Suspend 2]) as (r & Hr & _).
  - reflexivity.
  - exists r. exact Hr.
Defined.

End ProcReg.
