(* ===== verification/StealQueue.v ===== *)
(** * Work-stealing thread pool (src/kernel/main.c)

    The queues of [LockFreeStealQueue] with one mutex each: what an operation does
    while it holds one of the mutexes is one step, and operations of different threads
    interleave at these steps. The pool's sizing ([add_workers], [adjust_workers]) is
    sequential: it runs under the barrier. Tasks are of any type. *)
From Stdlib Require Import ZArith Lia.
From stdpp Require Import strings numbers gmap base.
From stdpp Require Import list relations.
From S2P Require Import Prelude.

Open Scope Z_scope.

Module Steal.
Section tasks.
Context {T : Type}.

(** [queues] with the back of a deque at the end of its list, and the round-robin
    counter. *)
Record steal_queue := mk_queue { queues : list (list T); index : Z }.

Definition new_queue (num_queues : nat) : steal_queue := mk_queue (replicate num_queues []) 0.

(** ** Critical sections *)

Definition emplace_back (i : Z) (t : T) (q : steal_queue) : outcome steal_queue :=
  tasks ← arr_get (queues q) i;
  qs ← arr_set (queues q) i (tasks ++ [t]);
  Ok (mk_queue qs (index q)).

Definition pop_back (i : Z) (q : steal_queue) : outcome (option T * steal_queue) :=
  tasks ← arr_get (queues q) i;
  match last tasks with
  | None => Ok (None, q)
  | Some t => qs ← arr_set (queues q) i (take (length tasks - 1) tasks); Ok (Some t, mk_queue qs (index q))
  end.

Definition pop_front (j : Z) (q : steal_queue) : outcome (option T * steal_queue) :=
  tasks ← arr_get (queues q) j;
  match tasks with
  | [] => Ok (None, q)
  | t :: tasks => qs ← arr_set (queues q) j tasks; Ok (Some t, mk_queue qs (index q))
  end.

(** The loop of [try_pop_bulk], under one lock: [n] tasks from the back. *)
Definition pop_bulk (i : Z) (max_tasks : nat) (q : steal_queue) : outcome (list T * steal_queue) :=
  tasks ← arr_get (queues q) i;
  let n := Nat.min max_tasks (length tasks) in
  qs ← arr_set (queues q) i (take (length tasks - n) tasks);
  Ok (rev (drop (length tasks - n) tasks), mk_queue qs (index q)).

(** ** Operations *)

Definition push (local_index : Z) (t : T) (q : steal_queue) : outcome steal_queue :=
  if local_index =? 0 then
    i ← cmod (index q) (Z.of_nat (length (queues q)));
    emplace_back i t (mk_queue (queues q) (u64 (index q + 1)))
  else emplace_back local_index t q.

(** The loop over the other queues: [n] of them are left, from [j] on. *)
Fixpoint steal_loop (n : nat) (j i : Z) (q : steal_queue) : outcome (option T * steal_queue) :=
  match n with
  | O => Ok (None, q)
  | S n =>
      if j =? i then steal_loop n (j + 1) i q
      else '(t, q) ← pop_front j q;
           match t with Some t => Ok (Some t, q) | None => steal_loop n (j + 1) i q end
  end.

Definition try_pop (local_index : Z) (q : steal_queue) : outcome (option T * steal_queue) :=
  if local_index =? 0 then Ok (None, q)
  else '(t, q) ← pop_back local_index q;
       match t with
       | Some t => Ok (Some t, q)
       | None => steal_loop (length (queues q)) 0 local_index q
       end.

Definition try_pop_bulk (local_index : Z) (max_tasks : nat) (q : steal_queue) : outcome (list T * steal_queue) :=
  if local_index =? 0 then Ok ([], q) else pop_bulk local_index max_tasks q.

Definition size (q : steal_queue) : Z := Z.of_nat (sum_list (length <$> queues q)).

(** ** Interleavings *)

(** Queues, tasks pushed and tasks handed out so far. *)
Record machine := mk_machine { mq : steal_queue; pushed : list T; taken : list T }.

(** Any thread performs any of its critical sections. The second step is the read and
    increment of the atomic counter. Only sections that are defined are steps: a worker
    whose number is not below the number of queues, as [add_workers] can make them,
    reads past the array at its first access and is not followed further. *)
Inductive step : machine -> machine -> Prop :=
| step_push q ps ts i t q' :
    emplace_back i t q = Ok q' -> step (mk_machine q ps ts) (mk_machine q' (ps ++ [t]) ts)
| step_index q ps ts : step (mk_machine q ps ts) (mk_machine (mk_queue (queues q) (u64 (index q + 1))) ps ts)
| step_pop_back q ps ts i r q' :
    pop_back i q = Ok (r, q') -> step (mk_machine q ps ts) (mk_machine q' ps (option_list r ++ ts))
| step_pop_front q ps ts j r q' :
    pop_front j q = Ok (r, q') -> step (mk_machine q ps ts) (mk_machine q' ps (option_list r ++ ts))
| step_bulk q ps ts i n r q' :
    pop_bulk i n q = Ok (r, q') -> step (mk_machine q ps ts) (mk_machine q' ps (r ++ ts)).

Definition conserved (m : machine) : Prop := pushed m ≡ₚ concat (queues (mq m)) ++ taken m.

(** Replacing one queue. *)
Lemma concat_insert (qs : list (list T)) i old new extra :
  qs !! i = Some old -> old ≡ₚ new ++ extra -> concat qs ≡ₚ extra ++ concat (<[i := new]> qs).
Proof.
  intros Hi Ho. pose proof (lookup_lt_Some _ _ _ Hi) as Hlt.
  rewrite insert_take_drop, <- (take_drop_middle qs i old Hi) at 1 by done.
  rewrite !concat_app. cbn [concat]. rewrite Ho. rewrite <- !app_assoc.
  rewrite (Permutation_app_swap_app extra). f_equiv. rewrite (Permutation_app_swap_app extra). done.
Qed.

Lemma emplace_back_Ok i t q q' :
  emplace_back i t q = Ok q' ->
  exists tasks, 0 <= i /\ queues q !! Z.to_nat i = Some tasks /\ queues q' = <[Z.to_nat i := tasks ++ [t]]> (queues q).
Proof.
  unfold emplace_back. intros H. inv_ok. apply arr_get_Ok in E as [? ?]. apply arr_set_Ok in E0 as [? ->]. eauto.
Qed.

Lemma pop_back_Ok i q r q' :
  pop_back i q = Ok (r, q') ->
  exists tasks, 0 <= i /\ queues q !! Z.to_nat i = Some tasks /\
    match r with
    | None => tasks = [] /\ q' = q
    | Some t => exists rest, tasks = rest ++ [t] /\ queues q' = <[Z.to_nat i := rest]> (queues q)
    end.
Proof.
  unfold pop_back. intros H. inv_ok. apply arr_get_Ok in E as [H1 H2]. exists r0. split; [done|]. split; [done|].
  destruct (last r0) as [t|] eqn:El; inv_ok.
  - apply arr_set_Ok in E as [_ ->]. apply last_Some in El as [rest ->]. exists rest. split; [done|].
    rewrite length_app. cbn. by rewrite Nat.add_sub, take_app_length.
  - by apply last_None in El.
Qed.

Lemma pop_front_Ok j q r q' :
  pop_front j q = Ok (r, q') ->
  exists tasks, 0 <= j /\ queues q !! Z.to_nat j = Some tasks /\
    match r with
    | None => tasks = [] /\ q' = q
    | Some t => exists rest, tasks = t :: rest /\ queues q' = <[Z.to_nat j := rest]> (queues q)
    end.
Proof.
  unfold pop_front. intros H. inv_ok. apply arr_get_Ok in E as [H1 H2]. exists r0. split; [done|]. split; [done|].
  destruct r0 as [|t rest]; inv_ok; [done|]. apply arr_set_Ok in E as [_ ->]. by exists rest.
Qed.

Lemma pop_bulk_Ok i n q r q' :
  pop_bulk i n q = Ok (r, q') ->
  exists tasks rest, 0 <= i /\ queues q !! Z.to_nat i = Some tasks /\ tasks = rest ++ rev r /\
    queues q' = <[Z.to_nat i := rest]> (queues q) /\ length r = Nat.min n (length tasks).
Proof.
  unfold pop_bulk. intros H. inv_ok. apply arr_get_Ok in E as [H1 H2]. apply arr_set_Ok in E0 as [_ ->].
  exists r0, (take (length r0 - Nat.min n (length r0)) r0). split_and!; try done.
  - by rewrite rev_involutive, take_drop.
  - rewrite length_rev, length_drop. lia.
Qed.

Lemma step_conserved m m' : conserved m -> step m m' -> conserved m'.
Proof.
  unfold conserved. intros Hc Hs. destruct Hs as [q ps ts i t q' E|q ps ts|q ps ts i r q' E|q ps ts j r q' E|q ps ts i n r q' E];
    cbn [mq pushed taken queues] in *; rewrite Hc.
  - apply emplace_back_Ok in E as (tasks & _ & Hi & ->).
    rewrite (concat_insert (<[Z.to_nat i := tasks ++ [t]]> (queues q)) (Z.to_nat i) (tasks ++ [t]) tasks [t]).
    + rewrite list_insert_insert_eq, (list_insert_id (queues q)) by done. cbn. rewrite <- app_assoc. symmetry.
      rewrite Permutation_middle. f_equiv. apply Permutation_cons_append.
    + apply list_lookup_insert_eq. by apply lookup_lt_Some in Hi.
    + done.
  - done.
  - apply pop_back_Ok in E as (tasks & _ & Hi & Hr). destruct r as [t|]; [|by destruct Hr as [_ ->]].
    destruct Hr as (rest & -> & ->). rewrite (concat_insert _ _ _ rest [t] Hi) by done. cbn. apply Permutation_middle.
  - apply pop_front_Ok in E as (tasks & _ & Hi & Hr). destruct r as [t|]; [|by destruct Hr as [_ ->]].
    destruct Hr as (rest & -> & ->). rewrite (concat_insert _ _ _ rest [t] Hi); [cbn; apply Permutation_middle|].
    apply Permutation_cons_append.
  - apply pop_bulk_Ok in E as (tasks & rest & _ & Hi & -> & -> & _).
    rewrite (concat_insert _ _ _ rest r Hi) by (by rewrite <- (Permutation_rev r)).
    rewrite <- app_assoc. apply Permutation_app_swap_app.
Qed.

(** C37: no task is lost, invented or handed out twice. In every interleaving of the
    critical sections of any number of threads, from empty queues on, the tasks
    pushed are exactly those still queued and those handed out. *)
Theorem steal_queue_conserves n m :
  rtc step (mk_machine (new_queue n) [] []) m -> pushed m ≡ₚ concat (queues (mq m)) ++ taken m.
Proof.
  apply (rtc_ind_r conserved).
  - unfold conserved. cbn. induction n; cbn; done.
  - intros y z _ Hs Hc. by eapply step_conserved.
Qed.

(** ** Taking one task *)

Lemma pop_front_run j q tasks :
  0 <= j -> queues q !! Z.to_nat j = Some tasks ->
  pop_front j q = match tasks with
                  | [] => Ok (None, q)
                  | t :: rest => Ok (Some t, mk_queue (<[Z.to_nat j := rest]> (queues q)) (index q))
                  end.
Proof.
  intros Hj Hq. unfold pop_front. rewrite (proj2 (arr_get_Ok _ _ tasks)) by done. cbn.
  destruct tasks as [|t rest]; [done|]. apply lookup_lt_Some in Hq. by rewrite arr_set_in by lia.
Qed.

Lemma steal_loop_spec n j i q :
  0 <= j -> j + Z.of_nat n = Z.of_nat (length (queues q)) ->
  exists r q', steal_loop n j i q = Ok (r, q') /\
    match r with
    | None => q' = q /\ forall k, j <= k < j + Z.of_nat n -> k <> i -> queues q !! Z.to_nat k = Some []
    | Some t => exists k rest, j <= k < j + Z.of_nat n /\ k <> i /\ queues q !! Z.to_nat k = Some (t :: rest) /\
        queues q' = <[Z.to_nat k := rest]> (queues q) /\ forall l, j <= l < k -> l <> i -> queues q !! Z.to_nat l = Some []
    end.
Proof.
  revert j. induction n as [|n IH]; intros j Hj Hn; cbn [steal_loop].
  - exists None, q. split; [done|]. split; [done|]. intros k Hk. lia.
  - destruct (IH (j + 1)) as (r & q' & Er & Hr); [lia|lia|].
    destruct (j =? i) eqn:E; zbool.
    + exists r, q'. split; [done|]. destruct r as [t|].
      * destruct Hr as (k & rest & Hk & Hne & Hq & Hq' & Hl). exists k, rest. split_and!; try done; try lia.
        intros l Hl1 Hl2. apply Hl; [lia|done].
      * destruct Hr as [-> Hr]. split; [done|]. intros k Hk Hne. apply Hr; [lia|done].
    + destruct (lookup_lt_is_Some_2 (queues q) (Z.to_nat j)) as [tasks Ht]; [lia|]. rewrite (pop_front_run _ _ _ Hj Ht).
      destruct tasks as [|t rest]; cbn [mbind outcome_bind].
      * exists r, q'. split; [done|]. destruct r as [t|].
        -- destruct Hr as (k & rest & Hk & Hne & Hq & Hq' & Hl). exists k, rest. split_and!; try done; try lia.
           intros l Hl1 Hl2. destruct (decide (l = j)) as [->|]; [done|]. apply Hl; [lia|done].
        -- destruct Hr as [-> Hr]. split; [done|]. intros k Hk Hne. destruct (decide (k = j)) as [->|]; [done|]. apply Hr; [lia|done].
      * eexists _, _. split; [reflexivity|]. exists j, rest. split_and!; try done; try lia.
Qed.

(** a worker with an index in range takes the newest task of its own queue; when
    that is empty, the oldest task of the first other queue that has one; and it comes
    back empty-handed only when every queue is empty. *)
Theorem try_pop_correct i q :
  0 < i < Z.of_nat (length (queues q)) ->
  exists r q', try_pop i q = Ok (r, q') /\
    match r with
    | None => q' = q /\ forall k, 0 <= k < Z.of_nat (length (queues q)) -> queues q !! Z.to_nat k = Some []
    | Some t =>
        (exists rest, queues q !! Z.to_nat i = Some (rest ++ [t]) /\ queues q' = <[Z.to_nat i := rest]> (queues q)) \/
        (queues q !! Z.to_nat i = Some [] /\ exists k rest, 0 <= k < Z.of_nat (length (queues q)) /\ k <> i /\
           queues q !! Z.to_nat k = Some (t :: rest) /\ queues q' = <[Z.to_nat k := rest]> (queues q) /\
           forall l, 0 <= l < k -> l <> i -> queues q !! Z.to_nat l = Some [])
    end.
Proof.
  intros Hi. unfold try_pop. rewrite (proj2 (Z.eqb_neq _ _)) by lia.
  destruct (lookup_lt_is_Some_2 (queues q) (Z.to_nat i)) as [tasks Ht]; [lia|].
  unfold pop_back. rewrite (proj2 (arr_get_Ok _ _ tasks)) by (split; [lia|done]). cbn [mbind outcome_bind].
  destruct (last tasks) as [t|] eqn:El.
  - apply last_Some in El as [rest ->]. rewrite arr_set_in by lia. cbn [mbind outcome_bind].
    eexists _, _. split; [reflexivity|]. left. exists rest. split; [done|]. cbn.
    rewrite length_app. cbn. by rewrite Nat.add_sub, take_app_length.
  - apply last_None in El as ->. cbn [mbind outcome_bind].
    destruct (steal_loop_spec (length (queues q)) 0 i q) as (r & q' & -> & Hr); [lia|lia|].
    exists r, q'. split; [done|]. destruct r as [t|].
    + right. split; [done|]. rewrite Z.add_0_l in Hr. exact Hr.
    + destruct Hr as [-> Hr]. split; [done|]. intros k Hk. destruct (decide (k = i)) as [->|]; [done|]. apply Hr; [lia|done].
Qed.

(** ** Workers *)

(** [worker_main] gives worker [queue_index] this local index. *)
Definition worker_local_index (queue_index : Z) : Z := queue_index + 1.

(** With as many queues as workers, the last worker's index is out of range. *)
Lemma last_worker_out_of_range q max :
  queues q <> [] -> try_pop_bulk (worker_local_index (Z.of_nat (length (queues q)) - 1)) max q = Undef "array index".
Proof.
  intros Hq. unfold try_pop_bulk, worker_local_index. rewrite (proj2 (Z.eqb_neq _ _)) by (destruct (queues q); cbn in *; [done|lia]).
  unfold pop_bulk, arr_get. rewrite (proj2 (Z.ltb_ge _ _)) by lia. replace (Z.to_nat _) with (length (queues q)) by lia.
  by rewrite lookup_ge_None_2.
Qed.

(** What the pool does with its queues: anyone pushes, workers take in bulk. *)
Inductive pool_step : steal_queue -> steal_queue -> Prop :=
| pool_push l t q q' : push l t q = Ok q' -> pool_step q q'
| pool_worker w max q r q' : 0 <= w -> try_pop_bulk (worker_local_index w) max q = Ok (r, q') -> pool_step q q'.

(** Queue 0 receives tasks and never gives one away. *)
Lemma queue_zero_starves q q' tasks :
  queues q !! 0%nat = Some tasks -> rtc pool_step q q' -> exists more, queues q' !! 0%nat = Some (tasks ++ more).
Proof.
  intros H0 Hr. revert Hr. apply (rtc_ind_r (fun q' => exists more, queues q' !! 0%nat = Some (tasks ++ more))).
  { exists []. by rewrite app_nil_r. }
  intros y z _ Hs [more Hm]. destruct Hs as [l t y z E|w max y r z Hw E].
  - assert (exists i q1, queues q1 = queues y /\ emplace_back i t q1 = Ok z) as (i & q1 & Hq1 & E1).
    { unfold push in E. destruct (l =? 0); inv_ok; [|by eauto]. eexists _, (mk_queue (queues y) _). by eauto. }
    apply emplace_back_Ok in E1 as (old & Hi & Ho & ->). rewrite Hq1 in *.
    destruct (decide (Z.to_nat i = 0%nat)) as [Hz|Hz].
    + rewrite Hz in *. rewrite list_lookup_insert_eq by (by eapply lookup_lt_Some). rewrite Hm in Ho. injection Ho as <-.
      exists (more ++ [t]). by rewrite app_assoc.
    + rewrite list_lookup_insert_ne by done. eauto.
  - unfold try_pop_bulk, worker_local_index in E. rewrite (proj2 (Z.eqb_neq _ _)) in E by lia.
    apply pop_bulk_Ok in E as (old & rest & Hi & Ho & _ & -> & _).
    rewrite list_lookup_insert_ne by lia. eauto.
Qed.

End tasks.

#[global] Arguments machine : clear implicits.
#[global] Arguments steal_queue : clear implicits.

(** Two threads: one pushes, one takes its own, one steals. *)
Lemma steal_queue_conserves_witness :
  exists m : machine Z, rtc step (mk_machine (new_queue 2) [] []) m /\ taken m = [8; 7] /\
    pushed m ≡ₚ concat (queues (mq m)) ++ taken m.
Proof.
  set (m := mk_machine (mk_queue [[]; [9]] 0) [7; 8; 9] [8; 7]).
  assert (Hr : rtc step (mk_machine (new_queue 2) [] []) m).
  { eapply rtc_l; [by apply (step_push _ _ _ 0 7)|]. eapply rtc_l; [by apply (step_push _ _ _ 1 8)|].
    eapply rtc_l; [by apply (step_pop_front _ _ _ 0 (Some 7))|]. eapply rtc_l; [by apply (step_pop_back _ _ _ 1 (Some 8))|].
    eapply rtc_l; [by apply (step_push _ _ _ 1 9)|]. apply rtc_refl. }
  exists m. split; [exact Hr|]. split; [reflexivity|]. apply (steal_queue_conserves 2 m Hr).
Defined.

Lemma try_pop_correct_witness :
  exists r q', try_pop 1 (mk_queue [[5; 6]; []] 0) = Ok (r, q') /\ r = Some 5.
Proof.
  destruct (try_pop_correct 1 (mk_queue [[5; 6]; []] 0)) as (r & q' & E & _).
  - cbn. lia.
  - exists r, q'. split; [exact E|]. revert E. vm_compute. congruence.
Defined.

(** * Sizing the pool *)

(** Number of workers and the flag; [min_threads] and [max_threads] do not change. *)
Record pool := mk_pool { min_threads : Z; max_threads : Z; workers : Z; stop_requested : bool }.

(** The member initialisers and the first [add_workers]; the arguments shadow the
    members. *)
Fixpoint add_loop (n : nat) (p : pool) : pool :=
  match n with
  | O => p
  | S n => if workers p <? max_threads p
           then add_loop n (mk_pool (min_threads p) (max_threads p) (workers p + 1) (stop_requested p))
           else p
  end.
Definition add_workers (n : Z) (p : pool) : pool := add_loop (Z.to_nat n) p.

Definition new_pool (min_arg max_arg : Z) : pool :=
  add_workers min_arg (mk_pool (Z.max 1 min_arg) (Z.max min_arg max_arg) 0 false).

Definition adjust_workers (current_tasks : Z) (p : pool) : pool :=
  if stop_requested p then p
  else
    let current_workers := workers p in
    if (u64 (current_workers * 2) <? current_tasks) && (current_workers <? max_threads p)
    then add_workers (Z.min (current_tasks / 2) (u64 (max_threads p - current_workers))) p
    else if (current_tasks <? current_workers / 2) && (min_threads p <? current_workers)
    then
      let remove_num := Z.min (u64 (current_workers - min_threads p)) (u64 (current_workers - current_tasks / 2)) in
      mk_pool (min_threads p) (max_threads p) (current_workers - remove_num) (stop_requested p)
    else p.

Lemma add_workers_spec n p :
  0 <= n -> workers p <= max_threads p ->
  add_workers n p = mk_pool (min_threads p) (max_threads p) (Z.min (workers p + n) (max_threads p)) (stop_requested p).
Proof.
  intros Hn. unfold add_workers. rewrite <- (Z2Nat.id n Hn) at 2. generalize (Z.to_nat n) as k. clear n Hn. intros k.
  revert p. induction k as [|k IH]; intros p Hp; cbn [add_loop].
  - destruct p; cbn in *. f_equal. lia.
  - destruct (workers p <? max_threads p) eqn:E; zbool.
    + rewrite IH by (cbn; lia). cbn. f_equal. lia.
    + destruct p; cbn in *. f_equal. lia.
Qed.

(** the number of workers stays between the two limits. A running pool grows, when
    more than two tasks wait per worker, by half the waiting tasks but not past the
    maximum; shrinks, when fewer than half a task waits per worker, to half the waiting
    tasks but not below the minimum; and is otherwise unchanged. *)
Theorem adjust_workers_correct tasks p :
  0 <= tasks -> 0 < min_threads p -> min_threads p <= workers p <= max_threads p -> max_threads p < 2 ^ 62 ->
  let p' := adjust_workers tasks p in
  min_threads p' = min_threads p /\ max_threads p' = max_threads p /\ min_threads p <= workers p' <= max_threads p /\
  workers p' =
    (if stop_requested p then workers p
     else if (2 * workers p <? tasks) && (workers p <? max_threads p) then Z.min (workers p + tasks / 2) (max_threads p)
     else if (tasks <? workers p / 2) && (min_threads p <? workers p) then Z.max (min_threads p) (tasks / 2)
     else workers p).
Proof.
  intros Ht Hm Hw Hx. cbn zeta. unfold adjust_workers. destruct (stop_requested p); [done|].
  rewrite !u64_small by (split; lia). rewrite (Z.mul_comm (workers p) 2).
  assert (0 <= tasks / 2) by (apply Z.div_pos; lia).
  destruct ((2 * workers p <? tasks) && (workers p <? max_threads p)) eqn:E; zbool.
  - rewrite ?u64_small by (split; lia). rewrite add_workers_spec by lia. cbn. split_and!; lia.
  - destruct ((tasks <? workers p / 2) && (min_threads p <? workers p)) eqn:E2; zbool; [|split_and!; try done; lia].
    pose proof (Z.mul_div_le (workers p) 2 ltac:(lia)). pose proof (Z.mul_div_le tasks 2 ltac:(lia)).
    rewrite ?u64_small by (split; lia). cbn. split_and!; lia.
Qed.

Lemma adjust_workers_correct_witness :
  workers (adjust_workers 1 (mk_pool 2 16 12 false)) = 2 /\ workers (adjust_workers 100 (mk_pool 2 16 12 false)) = 16.
Proof.
  destruct (adjust_workers_correct 1 (mk_pool 2 16 12 false)) as (_ & _ & _ & H1); cbn; try lia.
  destruct (adjust_workers_correct 100 (mk_pool 2 16 12 false)) as (_ & _ & _ & H2); cbn; try lia.
  split; [exact H1|exact H2].
Defined.

(** Both limits can be crossed when the arguments are 0. *)
Lemma new_pool_zero : new_pool 0 0 = mk_pool 1 0 0 false.
Proof. reflexivity. Qed.

End Steal.
