(* ===== verification/FileObj.v ===== *)
(** * The class File (src/fs/file.cpp)

    Member functions run in a state and exception monad over a disk (path to bytes)
    and the object: no implementation ([pImpl] empty after a move), or a stream with
    its mode. The stream follows the standard's file streams: one position, the flags
    eof and fail, sentries that fail on a stream that is not good, and the rule that
    reading and writing alternate only with a positioning in between (breaking it has
    no meaning, [UB]). Whether the system opens a file, and
    whether and with what left on the disk it refuses what is written, at once or when
    the buffer is flushed by [close], are inputs. Otherwise contents are those seen
    through the stream. Bytes and characters are integers. *)
From Stdlib Require Import ZArith Lia.
From stdpp Require Import strings numbers gmap base.
From stdpp Require Import list.
From S2P Require Import Prelude.

Open Scope Z_scope.

Module FileObj.

Abbreviation bytes := (list Z).
Definition NL : Z := 10.
Definition CR : Z := 13.

Inductive Mode := Read | Write | Append | ReadWrite.
Inductive SeekOrigin := Begin | Current | End_.

#[global] Instance Mode_eq_dec : EqDecision Mode.
Proof. solve_decision. Defined.

(** The stream of an open file: position, flags, and the direction of the last
    transfer ([Some true]: reading). *)
Record stream := mk_stream { pos : Z; eof : bool; fail : bool; dir : option bool }.

(** [Impl]; [None]: the stream is closed. *)
Record impl := mk_impl { str : option stream; filePath : string; mode : Mode }.

Record state := mk_state { disk : gmap string bytes; obj : option impl }.

(** * Exceptions *)

Inductive exception := FileException (msg : string) | LengthError.

Inductive result (A : Type) := Ret (a : A) | Throw (e : exception) | UB | Diverge.
Arguments Ret {_} _.
Arguments Throw {_} _.
Arguments UB {_}.
Arguments Diverge {_}.

(** A computation keeps the state it has reached when it throws. *)
Definition M (A : Type) : Type := state -> result A * state.

#[global] Instance M_ret : MRet M := fun A a s => (Ret a, s).
#[global] Instance M_bind : MBind M := fun A B f m s =>
  match m s with
  | (Ret a, s) => f a s
  | (Throw e, s) => (Throw e, s)
  | (UB, s) => (UB, s)
  | (Diverge, s) => (Diverge, s)
  end.

Definition throw {A} (e : exception) : M A := fun s => (Throw e, s).
Definition ub {A} : M A := fun s => (UB, s).
Definition get : M state := fun s => (Ret s, s).

(** * The stream *)

Definition is_good (t : stream) : bool := negb (eof t) && negb (fail t).

(** The stream and the contents of an open file. *)
Definition current (s : state) : option (impl * stream * bytes) :=
  match obj s with
  | Some i => match str i with
              | Some t => Some (i, t, default [] (disk s !! filePath i))
              | None => None
              end
  | None => None
  end.

Definition put_stream (t : option stream) (s : state) : state :=
  match obj s with
  | Some i => mk_state (disk s) (Some (mk_impl t (filePath i) (mode i)))
  | None => s
  end.

Definition put_contents (b : bytes) (s : state) : state :=
  match obj s with
  | Some i => mk_state (<[filePath i := b]> (disk s)) (obj s)
  | None => s
  end.

(** Runs a function of the stream and the contents; on a closed file the streams of
    the library do nothing, which the guards of the class exclude. *)
Definition on_stream {A} (f : stream -> bytes -> Mode -> result A * stream * bytes) : M A := fun s =>
  match current s with
  | Some (i, t, b) =>
      let '(r, t', b') := f t b (mode i) in (r, put_stream (Some t') (put_contents b' s))
  | None => (UB, s)
  end.

Definition set_fail (t : stream) : stream := mk_stream (pos t) (eof t) true (dir t).

(** [tellg]: its sentry fails on a stream that is not good. *)
Definition tellg : M Z := on_stream (fun t b _ =>
  if is_good t then (Ret (pos t), t, b) else (Ret (-1), set_fail t, b)).

Definition tellp : M Z := on_stream (fun t b _ => (Ret (if fail t then -1 else pos t), t, b)).

(** Moves the position to [target], or sets the fail flag. *)
Definition seek_to (t : stream) (target : Z) : stream :=
  if fail t then t
  else if target <? 0 then set_fail t else mk_stream target (eof t) (fail t) None.

Definition target (t : stream) (b : bytes) (offset : Z) (origin : SeekOrigin) : Z :=
  match origin with Begin => offset | Current => pos t + offset | End_ => Z.of_nat (length b) + offset end.

Definition clear_eof (t : stream) : stream := mk_stream (pos t) false (fail t) (dir t).

(** [seekg] clears the eof flag first. *)
Definition seekg (offset : Z) (origin : SeekOrigin) : M () := on_stream (fun t b _ =>
  (Ret tt, seek_to (clear_eof t) (target t b offset origin), b)).
Definition seekp (offset : Z) (origin : SeekOrigin) : M () := on_stream (fun t b _ =>
  (Ret tt, seek_to t (target t b offset origin), b)).

Definition clear : M () := on_stream (fun t b _ => (Ret tt, mk_stream (pos t) false false (dir t), b)).
Definition good : M bool := on_stream (fun t b _ => (Ret (is_good t), t, b)).
Definition at_eof : M bool := on_stream (fun t b _ => (Ret (eof t), t, b)).

(** The bytes from the position on. *)
Definition rest (t : stream) (b : bytes) : bytes := drop (Z.to_nat (pos t)) b.

(** Reading directly after writing is not allowed. *)
Definition may_read (t : stream) : bool := match dir t with Some false => false | _ => true end.
(** Writing directly after reading neither. *)
Definition may_write (t : stream) : bool := match dir t with Some true => false | _ => true end.

(** The characters before the first line end, and what follows it. *)
Fixpoint line_of (l : bytes) : bytes * option bytes :=
  match l with
  | [] => ([], None)
  | c :: l => if c =? NL then ([], Some l) else let '(ln, r) := line_of l in (c :: ln, r)
  end.

(** [std::getline]: the line and whether it succeeded. *)
Definition getline : M (option bytes) := on_stream (fun t b _ =>
  if negb (is_good t) then (Ret None, set_fail t, b)
  else if negb (may_read t) then (UB, t, b)
  else match rest t b with
       | [] => (Ret None, mk_stream (pos t) true true (Some true), b)
       | l => match line_of l with
              | (ln, Some r) => (Ret (Some ln), mk_stream (Z.of_nat (length b - length r)) false false (Some true), b)
              | (ln, None) => (Ret (Some ln), mk_stream (Z.of_nat (length b)) true false (Some true), b)
              end
       end).

(** [std::string(istreambuf_iterator, ...)]: reads the buffer, whatever the flags. *)
Definition drain : M bytes := on_stream (fun t b _ =>
  if negb (may_read t) then (UB, t, b)
  else (Ret (rest t b), mk_stream (Z.max (pos t) (Z.of_nat (length b))) (eof t) (fail t) (Some true), b)).

(** [stream.read] with [gcount]. *)
Definition read (count : nat) : M bytes := on_stream (fun t b _ =>
  if negb (is_good t) then (Ret [], set_fail t, b)
  else if negb (may_read t) then (UB, t, b)
  else
    let got := take count (rest t b) in
    let short := (length got <? count)%nat in
    (Ret got, mk_stream (pos t + Z.of_nat (length got)) short short (Some true), b)).

(** [data] written over [b] at [p]; a gap is filled with zeros. *)
Definition overwrite (b : bytes) (p : nat) (data : bytes) : bytes :=
  take p b ++ replicate (p - length b) 0 ++ data ++ drop (p + length data) b.

(** [stream.write] and [stream.put]; [fault]: the system refuses what is to be written,
    which sets the flag; since earlier bytes may still have been in the buffer, what the
    file then holds is part of the answer. *)
Definition write_stream (fault : option bytes) (data : bytes) : M () := on_stream (fun t b m =>
  if negb (is_good t) then (Ret tt, set_fail t, b)
  else if negb (may_write t) then (UB, t, b)
  else
    let p := if decide (m = Append) then length b else Z.to_nat (pos t) in
    match fault with
    | None => (Ret tt, mk_stream (Z.of_nat (p + length data)) false false (Some false), overwrite b p data)
    | Some stored => (Ret tt, mk_stream (pos t) false true (Some false), stored)
    end).

(** * The class *)

Definition not_initialized : exception := FileException "File object not properly initialized".
Definition not_open : exception := FileException "File is not open".
Definition not_readable : exception := FileException "File not opened for reading".
Definition not_writable : exception := FileException "File not opened for writing".
Definition write_failed : exception := FileException "Write operation failed".

Definition isOpen (s : state) : bool :=
  match obj s with Some i => bool_decide (is_Some (str i)) | None => false end.

(** [close]: flushes and closes, and looks at no flag. [kept]: the system refuses what
    is still in the buffer of a file that was written to; the file holds the rest. *)
Definition close (kept : option bytes) : M () := fun s =>
  match current s with
  | Some (i, t, b) =>
      let b' := match dir t, kept with Some false, Some stored => stored | _, _ => b end in
      (Ret tt, put_stream None (put_contents b' s))
  | None => (Ret tt, s)
  end.

(** [open], which closes first; [ok]: the system lets the file be opened. Reading modes
    need the file. *)
Definition open (kept : option bytes) (ok : bool) (m : Mode) : M () := fun s =>
  match obj s with
  | None => (Throw not_initialized, s)
  | Some i =>
      let s := (close kept s).2 in
      let found := bool_decide (is_Some (disk s !! filePath i)) in
      let opened := ok && match m with Read | ReadWrite => found | Write | Append => true end in
      if opened then
        let d := match m with
                 | Write => <[filePath i := []]> (disk s)
                 | Append => <[filePath i := default [] (disk s !! filePath i)]> (disk s)
                 | _ => disk s
                 end in
        (Ret tt, mk_state d (Some (mk_impl (Some (mk_stream 0 false false None)) (filePath i) m)))
      else (Throw (FileException "Failed to open file"), s)
  end.

(** The constructor. *)
Definition make (ok : bool) (path : string) (m : Mode) : M () := fun s =>
  open None ok m (mk_state (disk s) (Some (mk_impl None path m))).

(** The guards at the top of the readers and writers. *)
Definition guard_open : M () := fun s =>
  match obj s with
  | None => (Throw not_initialized, s)
  | Some i => if isOpen s then (Ret tt, s) else (Throw not_open, s)
  end.
Definition guard_mode (allowed : Mode -> bool) (e : exception) : M () := fun s =>
  match obj s with
  | Some i => if allowed (mode i) then (Ret tt, s) else (Throw e, s)
  | None => (Throw not_initialized, s)
  end.
Definition readable (m : Mode) : bool := match m with Write | Append => false | _ => true end.
Definition writable (m : Mode) : bool := match m with Read => false | _ => true end.
Definition guard_read : M () := _ ← guard_open; guard_mode readable not_readable.
Definition guard_write : M () := _ ← guard_open; guard_mode writable not_writable.

(** [content.reserve] throws on a size that came from -1. *)
Definition reserve (n : Z) : M () := if n <? 0 then throw LengthError else mret tt.

Definition readAll : M bytes :=
  _ ← guard_read;
  currentPos ← tellg;
  _ ← seekg 0 End_;
  fileSize ← tellg;
  _ ← seekg 0 Begin;
  _ ← reserve fileSize;
  content ← drain;
  _ ← clear;
  _ ← seekg currentPos Begin;
  mret content.

(** Drops a carriage return at the end. *)
Definition strip_cr (l : bytes) : bytes :=
  match last l with Some c => if c =? CR then take (length l - 1) l else l | None => l end.

(** The loop of [readLines]. *)
Fixpoint lines_loop (fuel : nat) (lines : list bytes) : M (list bytes) :=
  match fuel with
  | O => fun s => (Diverge, s)
  | S fuel =>
      l ← getline;
      match l with
      | Some l => lines_loop fuel (lines ++ [strip_cr l])
      | None => mret lines
      end
  end.

(** Every successful [getline] consumes a byte, so this fuel is enough. *)
Definition lines_fuel (s : state) : nat :=
  match current s with Some (_, _, b) => S (length b) | None => 1 end.

Definition readLines : M (list bytes) :=
  _ ← guard_read;
  currentPos ← tellg;
  _ ← seekg 0 Begin;
  s ← get;
  lines ← lines_loop (lines_fuel s) [];
  _ ← clear;
  _ ← seekg currentPos Begin;
  mret lines.

Definition readLine : M bytes :=
  _ ← guard_read;
  l ← getline;
  mret (match l with Some l => strip_cr l | None => [] end).

Definition readBytes (count : nat) : M bytes := _ ← guard_read; read count.

Definition check_good (e : exception) : M () := g ← good; if g : bool then mret tt else throw e.

Definition write (fault : option bytes) (data : bytes) : M () :=
  _ ← guard_write; _ ← write_stream fault data; check_good write_failed.

Definition writeLine (fault fault' : option bytes) (line : bytes) : M () :=
  _ ← guard_write; _ ← write_stream fault line; _ ← write_stream fault' [NL]; check_good write_failed.

(** The answers to the two writes of each line; none: they succeed. *)
Abbreviation line_faults := (list (option bytes * option bytes)).

Fixpoint write_lines_loop (faults : line_faults) (lines : list bytes) : M () :=
  match lines with
  | [] => mret tt
  | l :: lines =>
      let '(fault, fault') := default (None, None) (head faults) in
      _ ← write_stream fault l; _ ← write_stream fault' [NL];
      _ ← check_good (FileException "Write operation failed at line"); write_lines_loop (tail faults) lines
  end.
Definition writeLines (faults : line_faults) (lines : list bytes) : M () := _ ← guard_write; write_lines_loop faults lines.

Definition writeBytes (fault : option bytes) (data : bytes) : M () :=
  _ ← guard_write;
  match data with [] => mret tt | _ => _ ← write_stream fault data; check_good write_failed end.

Definition seek (offset : Z) (origin : SeekOrigin) : M () :=
  _ ← guard_open;
  _ ← clear;
  s ← get;
  let m := match obj s with Some i => mode i | None => Read end in
  _ ← (if readable m then
         _ ← seekg offset origin; g ← good; e ← at_eof;
         if negb g && negb e then throw (FileException "Seek operation failed for reading") else mret tt
       else mret tt);
  if writable m then _ ← seekp offset origin; check_good (FileException "Seek operation failed for writing") else mret tt.

Definition tell : M Z :=
  _ ← guard_open;
  s ← get;
  p ← (match obj s with Some i => if readable (mode i) then tellg else tellp | None => mret (-1) end);
  if p =? -1 then throw (FileException "Tell operation failed") else mret p.

(** [flush]; [ok]: the system takes the buffer. *)
Definition flush (ok : bool) : M () :=
  _ ← guard_open;
  _ ← on_stream (fun t b _ => (Ret tt, if ok then mk_stream (pos t) (eof t) (fail t) None else set_fail t, b));
  check_good (FileException "Flush operation failed").

Definition getPath : M string := fun s =>
  match obj s with Some i => (Ret (filePath i), s) | None => (Throw not_initialized, s) end.

(** The size on disk; the stream has nothing buffered. *)
Definition getSize : M Z := fun s =>
  match obj s with
  | None => (Throw not_initialized, s)
  | Some i => match disk s !! filePath i with
              | Some b => (Ret (Z.of_nat (length b)), s)
              | None => (Throw (FileException "Failed to get file size"), s)
              end
  end.

(** [withFile]: the object lives until the end of the function; it is closed when the
    callback throws, and by its destructor when the callback returns. *)
Definition withFile (kept : option bytes) (ok : bool) (path : string) (m : Mode) (callback : M ()) : M () := fun s =>
  match make ok path m s with
  | (Ret _, s1) =>
      match callback s1 with
      | (r, s2) => (r, (close kept s2).2)
      end
  | r => r
  end.

(** * Static functions on paths *)

Definition exists_ (path : string) (d : gmap string bytes) : bool := bool_decide (is_Some (d !! path)).

Definition copy (from to : string) (overwrite : bool) (d : gmap string bytes) : result () * gmap string bytes :=
  match d !! from with
  | Some b => if negb overwrite && exists_ to d then (Throw (FileException "Failed to copy file"), d)
              else if decide (from = to) then (Throw (FileException "Failed to copy file"), d)
              else (Ret tt, <[to := b]> d)
  | None => (Throw (FileException "Failed to copy file"), d)
  end.

Definition move (from to : string) (d : gmap string bytes) : result () * gmap string bytes :=
  match d !! from with
  | Some b => (Ret tt, <[to := b]> (delete from d))
  | None => (Throw (FileException "Failed to move file"), d)
  end.

Definition remove (path : string) (d : gmap string bytes) : result () * gmap string bytes :=
  if exists_ path d then (Ret tt, delete path d) else (Throw (FileException "File does not exist"), d).

(** * Running the monad on an open file *)

(** The file [path] is open in mode [m] with stream [t] and contents [b]. *)
Definition opened (d : gmap string bytes) (path : string) (m : Mode) (t : stream) (b : bytes) : state :=
  mk_state (<[path := b]> d) (Some (mk_impl (Some t) path m)).

Lemma on_stream_opened {A} (f : stream -> bytes -> Mode -> result A * stream * bytes) d path m t b :
  on_stream f (opened d path m t b) = let '(r, t', b') := f t b m in (r, opened d path m t' b').
Proof.
  unfold on_stream, current, opened. cbn. rewrite lookup_insert_eq. cbn. destruct (f t b m) as [[r t'] b']. cbn.
  by rewrite insert_insert_eq.
Qed.

Lemma bind_run {A B} (m : M A) (f : A -> M B) s a s' : m s = (Ret a, s') -> (m ≫= f) s = f a s'.
Proof. intros E. unfold mbind, M_bind. by rewrite E. Qed.

Lemma bind_throw {A B} (m : M A) (f : A -> M B) s e s' : m s = (Throw e, s') -> (m ≫= f) s = (Throw e, s').
Proof. intros E. unfold mbind, M_bind. by rewrite E. Qed.

Lemma guard_open_opened d path m t b : guard_open (opened d path m t b) = (Ret tt, opened d path m t b).
Proof. done. Qed.

Lemma guard_read_opened d path m t b : readable m = true -> guard_read (opened d path m t b) = (Ret tt, opened d path m t b).
Proof. intros H. unfold guard_read. rewrite (bind_run _ _ _ _ _ (guard_open_opened _ _ _ _ _)). unfold guard_mode. cbn. by rewrite H. Qed.

Lemma guard_write_opened d path m t b : writable m = true -> guard_write (opened d path m t b) = (Ret tt, opened d path m t b).
Proof. intros H. unfold guard_write. rewrite (bind_run _ _ _ _ _ (guard_open_opened _ _ _ _ _)). unfold guard_mode. cbn. by rewrite H. Qed.

(** Runs the next stream operation. *)
Ltac run_stream op := erewrite bind_run by (unfold op; rewrite on_stream_opened; reflexivity).

(** * Reading everything *)

Lemma readAll_good d path m t b :
  readable m = true -> is_good t = true -> 0 <= pos t ->
  readAll (opened d path m t b) = (Ret b, opened d path m (mk_stream (pos t) false false None) b).
Proof.
  intros Hm Hg Hp. destruct t as [p e f dr]. unfold is_good in Hg. cbn in *.
  destruct e, f; try done. unfold readAll.
  rewrite (bind_run _ _ _ _ _ (guard_read_opened _ _ _ _ _ Hm)).
  run_stream tellg. cbn [pos eof fail dir].
  run_stream seekg. unfold seek_to, clear_eof, target. cbn [pos eof fail dir].
  rewrite (proj2 (Z.ltb_ge _ _)) by lia. run_stream tellg. cbn [pos eof fail dir].
  run_stream seekg. unfold seek_to, clear_eof, target. cbn [pos eof fail dir Z.ltb].
  unfold reserve. rewrite (proj2 (Z.ltb_ge _ _)) by lia. erewrite bind_run by reflexivity.
  run_stream drain. run_stream clear. run_stream seekg.
  unfold seek_to, clear_eof, target, rest. cbn [pos eof fail dir]. rewrite (proj2 (Z.ltb_ge p 0)) by lia.
  cbn. by rewrite drop_0.
Qed.

Lemma readAll_bad d path m t b :
  readable m = true -> is_good t = false ->
  readAll (opened d path m t b) = (Throw LengthError, opened d path m (mk_stream (pos t) false true (dir t)) b).
Proof.
  intros Hm Hg. unfold readAll.
  rewrite (bind_run _ _ _ _ _ (guard_read_opened _ _ _ _ _ Hm)).
  erewrite bind_run by (unfold tellg; rewrite on_stream_opened, Hg; reflexivity).
  run_stream seekg. unfold seek_to, clear_eof, set_fail. cbn [pos eof fail dir].
  run_stream tellg. cbn [pos eof fail dir]. run_stream seekg. done.
Qed.

(** [readAll]. On a stream without flags it returns the whole file, whatever the
    position, and leaves position and flags as they were. On a stream that has met
    the end of the file or failed, the position it saves and the size it computes are
    both -1 and it throws the library's length error. *)
Theorem readAll_correct d path m t b :
  readable m = true -> 0 <= pos t ->
  readAll (opened d path m t b) =
    if is_good t then (Ret b, opened d path m (mk_stream (pos t) false false None) b)
    else (Throw LengthError, opened d path m (mk_stream (pos t) false true (dir t)) b).
Proof. intros Hm Hp. destruct (is_good t) eqn:E; [by apply readAll_good|by apply readAll_bad]. Qed.

Lemma readAll_correct_witness :
  readAll (opened ∅ "f" Read (mk_stream 2 false false None) [104; 105; 33]) =
    (Ret [104; 105; 33], opened ∅ "f" Read (mk_stream 2 false false None) [104; 105; 33]).
Proof. apply (readAll_correct ∅ "f" Read (mk_stream 2 false false None) [104; 105; 33]); [reflexivity|cbn; lia]. Defined.

(** * Lines *)

(** The lines of a text; a last one without line end counts if it is not empty. *)
Fixpoint split_lines (l acc : bytes) : list bytes :=
  match l with
  | [] => match acc with [] => [] | _ => [acc] end
  | c :: l => if c =? NL then acc :: split_lines l [] else split_lines l (acc ++ [c])
  end.

Lemma line_of_split l acc :
  split_lines l acc =
    match line_of l with
    | (ln, Some r) => (acc ++ ln) :: split_lines r []
    | (ln, None) => match acc ++ ln with [] => [] | x => [x] end
    end.
Proof.
  revert acc. induction l as [|c l IH]; intros acc; cbn [split_lines line_of].
  - rewrite app_nil_r. by destruct acc.
  - destruct (c =? NL); [by rewrite app_nil_r|]. rewrite IH. destruct (line_of l) as [ln [r|]].
    + by rewrite <- app_assoc.
    + rewrite <- app_assoc. by destruct acc.
Qed.

Lemma line_of_rest l ln r : line_of l = (ln, Some r) -> l = ln ++ NL :: r.
Proof.
  revert ln. induction l as [|c l IH]; intros ln E; cbn in E; [done|].
  destruct (c =? NL) eqn:Ec; zbool; [injection E as <- <-; by subst|].
  destruct (line_of l) as [ln' r'] eqn:El. injection E as <- ->. by rewrite (IH ln').
Qed.

Lemma line_of_none l ln : line_of l = (ln, None) -> l = ln.
Proof.
  revert ln. induction l as [|c l IH]; intros ln E; cbn in E; [by simplify_eq|].
  destruct (c =? NL); [done|]. destruct (line_of l) as [ln' [r'|]] eqn:El; [done|]. injection E as <-. by rewrite (IH ln').
Qed.

(** The loop returns the remaining lines and stops; a byte is consumed each time. *)
Lemma lines_loop_spec fuel d path m t b lines :
  is_good t = true -> may_read t = true -> (length (rest t b) < fuel)%nat ->
  exists t', lines_loop fuel lines (opened d path m t b) =
    (Ret (lines ++ (strip_cr <$> split_lines (rest t b) [])), opened d path m t' b).
Proof.
  revert t lines. induction fuel as [|fuel IH]; intros t lines Hg Hr Hf; [lia|]. cbn [lines_loop].
  destruct (rest t b) as [|c l] eqn:Er.
  - eexists. erewrite bind_run by (unfold getline; rewrite on_stream_opened, Hg, Hr; cbn [negb]; rewrite Er; reflexivity).
    cbn. rewrite app_nil_r. reflexivity.
  - rewrite line_of_split. destruct (line_of (c :: l)) as [ln [r|]] eqn:El.
    + erewrite bind_run by (unfold getline; rewrite on_stream_opened, Hg, Hr; cbn [negb]; rewrite Er, El; reflexivity).
      set (t1 := mk_stream (Z.of_nat (length b - length r)) false false (Some true)).
      assert (Hrest : rest t1 b = r).
      { apply line_of_rest in El. unfold rest, t1. cbn. rewrite Nat2Z.id.
        assert (Hb : b = take (Z.to_nat (pos t)) b ++ (ln ++ [NL]) ++ r).
        { rewrite <- app_assoc. cbn. rewrite <- El, <- Er. unfold rest. by rewrite take_drop. }
        rewrite Hb at 2. rewrite app_assoc. rewrite drop_app_length'; [done|].
        rewrite Hb at 1. rewrite !length_app. lia. }
      destruct (IH t1 (lines ++ [strip_cr ln])) as [t' Ht']; [done|done|rewrite Hrest; apply line_of_rest in El; rewrite El, length_app in Hf; cbn in Hf; lia|].
      exists t'. rewrite Ht', Hrest. cbn. by rewrite <- app_assoc.
    + erewrite bind_run by (unfold getline; rewrite on_stream_opened, Hg, Hr; cbn [negb]; rewrite Er, El; reflexivity).
      apply line_of_none in El. subst ln. cbn [app].
      destruct fuel as [|fuel]; [cbn in Hf; lia|]. cbn [lines_loop].
      eexists. erewrite bind_run by (unfold getline; rewrite on_stream_opened; reflexivity). reflexivity.
Qed.

Lemma lines_fuel_opened d path m t b : lines_fuel (opened d path m t b) = S (length b).
Proof. unfold lines_fuel, current, opened. cbn. by rewrite lookup_insert_eq. Qed.

Lemma readLines_good d path m t b :
  readable m = true -> is_good t = true -> 0 <= pos t ->
  readLines (opened d path m t b) =
    (Ret (strip_cr <$> split_lines b []), opened d path m (mk_stream (pos t) false false None) b).
Proof.
  intros Hm Hg Hp. destruct t as [p e f dr]. unfold is_good in Hg. cbn in *.
  destruct e, f; try done. unfold readLines.
  rewrite (bind_run _ _ _ _ _ (guard_read_opened _ _ _ _ _ Hm)).
  run_stream tellg. cbn [pos]. run_stream seekg.
  unfold seek_to, clear_eof, target. cbn [pos eof fail dir Z.ltb]. erewrite bind_run by reflexivity.
  destruct (lines_loop_spec (lines_fuel (opened d path m (mk_stream 0 false false None) b)) d path m (mk_stream 0 false false None) b [])
    as [t' Ht']; [done|done| |].
  { rewrite lines_fuel_opened. unfold rest. cbn. rewrite drop_0. lia. }
  rewrite (bind_run _ _ _ _ _ Ht'). run_stream clear. run_stream seekg.
  unfold seek_to, clear_eof, target. cbn [pos eof fail dir]. rewrite (proj2 (Z.ltb_ge p 0)) by lia.
  unfold rest. cbn. by rewrite drop_0.
Qed.

(** Once the end of the file was met, [readLines] returns nothing and leaves a failed
    stream. *)
Lemma readLines_bad d path m t b :
  readable m = true -> is_good t = false ->
  exists t', readLines (opened d path m t b) = (Ret [], opened d path m t' b) /\ fail t' = true.
Proof.
  intros Hm Hg. unfold readLines. rewrite (bind_run _ _ _ _ _ (guard_read_opened _ _ _ _ _ Hm)).
  erewrite bind_run by (unfold tellg; rewrite on_stream_opened, Hg; reflexivity).
  run_stream seekg. erewrite bind_run by reflexivity.
  rewrite lines_fuel_opened. cbn [lines_loop].
  erewrite bind_run.
  2: { erewrite bind_run by (unfold getline; rewrite on_stream_opened; reflexivity). reflexivity. }
  run_stream clear. run_stream seekg. eexists. split; [reflexivity|]. reflexivity.
Qed.

(** * Writing lines *)

Definition unlines (ls : list bytes) : bytes := ls ≫= (fun l => l ++ [NL]).

Lemma overwrite_end b data : overwrite b (length b) data = b ++ data.
Proof. unfold overwrite. rewrite take_ge, drop_ge by lia. rewrite Nat.sub_diag. cbn. by rewrite app_nil_r. Qed.

Lemma write_stream_end d path m t b data :
  is_good t = true -> may_write t = true -> (m = Append \/ pos t = Z.of_nat (length b)) ->
  write_stream None data (opened d path m t b) =
    (Ret tt, opened d path m (mk_stream (Z.of_nat (length (b ++ data))) false false (Some false)) (b ++ data)).
Proof.
  intros Hg Hw Hp. unfold write_stream. rewrite on_stream_opened, Hg, Hw. cbn [negb].
  assert (Hpos : (if decide (m = Append) then length b else Z.to_nat (pos t)) = length b).
  { destruct (decide (m = Append)); [done|]. destruct Hp as [?| ->]; [done|lia]. }
  rewrite Hpos, overwrite_end. rewrite length_app. done.
Qed.

Definition faultless (faults : line_faults) : Prop := Forall (fun f => f = (None, None)) faults.

Lemma write_lines_spec d path m t b faults ls :
  faultless faults -> is_good t = true -> may_write t = true -> (m = Append \/ pos t = Z.of_nat (length b)) ->
  exists t', write_lines_loop faults ls (opened d path m t b) = (Ret tt, opened d path m t' (b ++ unlines ls)) /\
    (ls <> [] -> dir t' = Some false).
Proof.
  revert t b faults. induction ls as [|l ls IH]; intros t b faults Hf Hg Hw Hp; cbn [write_lines_loop].
  - exists t. unfold unlines. cbn. by rewrite app_nil_r.
  - assert (H0 : default (None, None) (head faults) = (None, None) /\ faultless (tail faults)).
    { destruct Hf as [|f faults -> Hf]; [split; [done|apply Forall_nil; done]|done]. }
    destruct H0 as [-> Hf'].
    rewrite (bind_run _ _ _ _ _ (write_stream_end d path m t b l Hg Hw Hp)).
    rewrite (bind_run _ _ _ _ _ (write_stream_end d path m (mk_stream (Z.of_nat (length (b ++ l))) false false (Some false))
      (b ++ l) [NL] eq_refl eq_refl (or_intror eq_refl))).
    erewrite bind_run by (unfold check_good; erewrite bind_run by (unfold good; rewrite on_stream_opened; reflexivity); reflexivity).
    destruct (IH (mk_stream (Z.of_nat (length ((b ++ l) ++ [NL]))) false false (Some false)) ((b ++ l) ++ [NL]) (tail faults))
      as (t' & Ht' & Hd); [done|done|done|by right|].
    exists t'. rewrite Ht'. split.
    + unfold unlines. cbn. do 2 f_equal. by rewrite <- !app_assoc.
    + intros _. destruct ls; [|by apply Hd]. cbn in Ht'. inversion Ht'. done.
Qed.

(** What the file holds after a fault in one of the two writes of a line. *)
Definition left_by (f : option bytes * option bytes) : bytes :=
  match f.1 with Some stored => stored | None => default [] f.2 end.

Lemma write_stream_fault d path m t b stored data :
  is_good t = true -> may_write t = true ->
  write_stream (Some stored) data (opened d path m t b) = (Ret tt, opened d path m (mk_stream (pos t) false true (Some false)) stored).
Proof. intros Hg Hw. unfold write_stream. by rewrite on_stream_opened, Hg, Hw. Qed.

(** A fault in the first line stops the loop. *)
Lemma write_lines_stop d path m t b f faults l ls :
  f <> (None, None) -> is_good t = true -> may_write t = true -> (m = Append \/ pos t = Z.of_nat (length b)) ->
  exists t', write_lines_loop (f :: faults) (l :: ls) (opened d path m t b) =
    (Throw (FileException "Write operation failed at line"), opened d path m t' (left_by f)) /\ fail t' = true.
Proof.
  intros Hf Hg Hw Hp. cbn [write_lines_loop head default from_option id]. destruct f as [[stored|] fault'].
  - rewrite (bind_run _ _ _ _ _ (write_stream_fault d path m t b stored l Hg Hw)).
    erewrite bind_run by (unfold write_stream; rewrite on_stream_opened; reflexivity).
    erewrite bind_throw by (unfold check_good; erewrite bind_run by (unfold good; rewrite on_stream_opened; reflexivity); reflexivity).
    eexists. split; reflexivity.
  - destruct fault' as [stored|]; [|done].
    rewrite (bind_run _ _ _ _ _ (write_stream_end d path m t b l Hg Hw Hp)).
    erewrite bind_run by (apply write_stream_fault; done).
    erewrite bind_throw by (unfold check_good; erewrite bind_run by (unfold good; rewrite on_stream_opened; reflexivity); reflexivity).
    eexists. split; reflexivity.
Qed.

Lemma write_lines_fault d path m t b faults k f ls :
  faultless (take k faults) -> faults !! k = Some f -> f <> (None, None) -> (k < length ls)%nat ->
  is_good t = true -> may_write t = true -> (m = Append \/ pos t = Z.of_nat (length b)) ->
  exists t', write_lines_loop faults ls (opened d path m t b) =
    (Throw (FileException "Write operation failed at line"), opened d path m t' (left_by f)) /\ fail t' = true.
Proof.
  revert t b faults ls. induction k as [|k IH]; intros t b [|g faults] [|l ls] Hk Hf Hn Hl Hg Hw Hp; cbn in Hf, Hl; try done; try lia.
  - simplify_eq. by apply write_lines_stop.
  - apply Forall_cons in Hk as [-> Hk]. cbn [write_lines_loop head default from_option id tail].
    rewrite (bind_run _ _ _ _ _ (write_stream_end d path m t b l Hg Hw Hp)).
    rewrite (bind_run _ _ _ _ _ (write_stream_end d path m (mk_stream (Z.of_nat (length (b ++ l))) false false (Some false))
      (b ++ l) [NL] eq_refl eq_refl (or_intror eq_refl))).
    erewrite bind_run by (unfold check_good; erewrite bind_run by (unfold good; rewrite on_stream_opened; reflexivity); reflexivity).
    apply IH; try done; [lia|by right].
Qed.

(** A text line: no line end inside, no carriage return at its end. *)
Definition text_line (l : bytes) : Prop := (NL ∉ l) /\ strip_cr l = l.

Lemma split_lines_app l acc r : NL ∉ l -> split_lines (l ++ NL :: r) acc = (acc ++ l) :: split_lines r [].
Proof.
  revert acc. induction l as [|c l IH]; intros acc Hn; cbn [app split_lines].
  - by rewrite Z.eqb_refl, app_nil_r.
  - rewrite (proj2 (Z.eqb_neq _ _)) by set_solver. rewrite IH by set_solver. by rewrite <- app_assoc.
Qed.

Lemma split_unlines ls : Forall text_line ls -> strip_cr <$> split_lines (unlines ls) [] = ls.
Proof.
  induction 1 as [|l ls [Hn Hc] _ IH]; [done|]. unfold unlines in *. cbn. rewrite <- app_assoc. cbn.
  rewrite split_lines_app by done. cbn. by rewrite Hc, IH.
Qed.

(** Part of the text of some lines: whole lines, and a cut one. *)
Lemma split_prefix ls b : Forall text_line ls -> b `prefix_of` unlines ls ->
  exists k c, split_lines b [] = take k ls ++ c /\
    (c = [] \/ exists cut l, c = [cut] /\ ls !! k = Some l /\ cut `prefix_of` l).
Proof.
  intros H. revert b. induction H as [|l ls [Hn _] _ IH]; intros b Hb.
  - apply prefix_nil_inv in Hb as ->. exists 0%nat, []. split; [done|by left].
  - unfold unlines in Hb. cbn in Hb. rewrite <- app_assoc in Hb. cbn in Hb.
    destruct (decide (length b <= length l)%nat) as [Hle|Hgt].
    + assert (Hp : b `prefix_of` l).
      { destruct Hb as [r Hr]. exists (drop (length b) l).
        assert (Ht : take (length b) (l ++ NL :: (ls ≫= (fun l => l ++ [NL]))) = b) by (rewrite Hr; by rewrite take_app_length).
        rewrite take_app_le in Ht by lia. rewrite <- Ht at 1. by rewrite take_drop. }
      assert (Hsp : split_lines b [] = match b with [] => [] | _ => [b] end).
      { rewrite line_of_split. destruct (line_of b) as [ln [r|]] eqn:E.
        - exfalso. apply Hn. apply line_of_rest in E. destruct Hp as [q ->]. rewrite E. set_solver.
        - apply line_of_none in E. rewrite E. by destruct ln. }
      exists 0%nat, (match b with [] => [] | _ => [b] end). split; [done|]. destruct b; [by left|right]. eauto.
    + destruct Hb as [r Hr].
      assert (Hb : b = l ++ NL :: drop (S (length l)) b).
      { assert (Ht : take (S (length l)) b = l ++ [NL]).
        { rewrite <- (take_app_le b r) by lia. rewrite <- Hr. change (l ++ NL :: ?x) with (l ++ [NL] ++ x).
          rewrite app_assoc, take_app_length'; [done|]. rewrite length_app. cbn. lia. }
        rewrite <- (take_drop (S (length l)) b) at 1. rewrite Ht, <- app_assoc. done. }
      destruct (IH (drop (S (length l)) b)) as (k & c & H1 & H2).
      { exists r. rewrite Hb in Hr. rewrite <- app_assoc in Hr. apply app_inv_head in Hr. by injection Hr. }
      exists (S k), c. split; [|done]. rewrite Hb, split_lines_app by done. cbn. by rewrite H1.
Qed.

(** Create the file, write, reopen it for reading, read back; the answers of the system
    to the writes and at the end. *)
Definition write_then_read (faults : line_faults) (kept : option bytes) (path : string) (ls : list bytes) : M (list bytes) :=
  _ ← make true path Write; _ ← writeLines faults ls; _ ← close kept; _ ← open None true Read; readLines.

(** C36: lines on their way through a file: written to a new file, which is closed and
    opened again for reading, and read. No line contains a line end or ends in a
    carriage return.
    - When the system takes everything, the lines come back unchanged and the disk
      holds exactly the lines with their ends.
    - When a write fails, at whichever line, [writeLines] throws there: the failure
      is not lost, and nothing is read.
    - When only the last flush fails, in [close], no exception is thrown: the lines of
      what the disk holds are returned. If that is the beginning of the text, these are
      the first lines unchanged, and possibly a last one that is cut. *)
Theorem file_lines_roundtrip path faults kept ls s :
  Forall text_line ls ->
  (faultless faults -> kept = None ->
     exists t, write_then_read faults kept path ls s = (Ret ls, opened (disk s) path Read t (unlines ls))) /\
  (forall k f, faultless (take k faults) -> faults !! k = Some f -> f <> (None, None) -> (k < length ls)%nat ->
     exists t, write_then_read faults kept path ls s =
       (Throw (FileException "Write operation failed at line"), opened (disk s) path Write t (left_by f)) /\ fail t = true) /\
  (forall stored, faultless faults -> kept = Some stored -> ls <> [] ->
     exists t read_back, write_then_read faults kept path ls s = (Ret read_back, opened (disk s) path Read t stored) /\
       (stored `prefix_of` unlines ls -> exists k c, read_back = take k ls ++ c /\
          (c = [] \/ exists cut l, c = [strip_cr cut] /\ ls !! k = Some l /\ cut `prefix_of` l))).
Proof.
  intros Hl. unfold write_then_read.
  assert (Hmake : make true path Write s = (Ret tt, opened (disk s) path Write (mk_stream 0 false false None) [])) by done.
  assert (Hread : forall t b, open None true Read (put_stream None (opened (disk s) path Write t b)) =
    (Ret tt, opened (disk s) path Read (mk_stream 0 false false None) b)).
  { intros t b. unfold open, put_stream, opened. cbn. by rewrite lookup_insert_eq. }
  assert (Hclose : forall t b, close kept (opened (disk s) path Write t b) =
    (Ret tt, put_stream None (opened (disk s) path Write t (match dir t, kept with Some false, Some stored => stored | _, _ => b end)))).
  { intros t b. unfold close, current, opened, put_stream, put_contents. cbn. rewrite lookup_insert_eq. cbn.
    by rewrite insert_insert_eq. }
  assert (Hgood : faultless faults -> exists t, (ls <> [] -> dir t = Some false) /\
    forall stored, (match dir t, kept with Some false, Some stored => stored | _, _ => unlines ls end) = stored ->
    exists t', (_ ← make true path Write; _ ← writeLines faults ls; _ ← close kept; _ ← open None true Read; readLines) s =
      (Ret (strip_cr <$> split_lines stored []), opened (disk s) path Read t' stored)).
  { intros Hf. destruct (write_lines_spec (disk s) path Write (mk_stream 0 false false None) [] faults ls)
      as (t1 & H1 & Hd); [done|done|done|by right|].
    exists t1. split; [done|]. intros stored Hleft. rewrite (bind_run _ _ _ _ _ Hmake).
    erewrite bind_run by (unfold writeLines; erewrite bind_run by (by apply guard_write_opened); exact H1).
    rewrite (bind_run _ _ _ _ _ (Hclose _ _)), (bind_run _ _ _ _ _ (Hread _ _)). cbn [app]. rewrite Hleft.
    eexists. by rewrite readLines_good. }
  split_and!.
  - intros Hf ->. destruct (Hgood Hf) as (t & _ & Hrun). destruct (Hrun (unlines ls)) as [t' Ht'].
    { by destruct (dir t) as [[]|]. }
    exists t'. rewrite Ht'. by rewrite split_unlines.
  - intros k f Hf Hk Hn Hlt. rewrite (bind_run _ _ _ _ _ Hmake).
    destruct (write_lines_fault (disk s) path Write (mk_stream 0 false false None) [] faults k f ls) as (t & Ht & Hfail);
      [done..|by right|].
    exists t. split; [|done].
    erewrite bind_throw by (unfold writeLines; erewrite bind_run by (by apply guard_write_opened); exact Ht). done.
  - intros stored Hf -> Hne. destruct (Hgood Hf) as (t & Hd & Hrun). destruct (Hrun stored) as [t' Ht']; [by rewrite Hd|].
    exists t', (strip_cr <$> split_lines stored []). split; [done|]. intros Hp.
    destruct (split_prefix ls stored Hl Hp) as (k & c & -> & Hc). exists k, (strip_cr <$> c).
    rewrite fmap_app. split.
    + f_equal. rewrite <- (list_fmap_id (take k ls)) at 2. apply list_fmap_ext. intros i l Hi. cbn.
      apply (Forall_lookup_1 _ _ i l (Forall_take _ k _ Hl) Hi).
    + destruct Hc as [-> |(cut & l & -> & ? & ?)]; [by left|right]. exists cut, l. done.
Qed.

(** The three cases: everything taken, a failing second line, a cut at the end. *)
Lemma file_lines_roundtrip_witness :
  (exists t, write_then_read [] None "notes" [[104; 105]; []; [33]] (mk_state ∅ None) =
    (Ret [[104; 105]; []; [33]], opened ∅ "notes" Read t [104; 105; 10; 10; 33; 10])) /\
  (exists t, write_then_read [(None, None); (None, Some [104; 105])] None "notes" [[104; 105]; []; [33]] (mk_state ∅ None) =
    (Throw (FileException "Write operation failed at line"), opened ∅ "notes" Write t [104; 105])) /\
  (exists t l, write_then_read [] (Some [104; 105; 10; 10]) "notes" [[104; 105]; []; [33]] (mk_state ∅ None) =
    (Ret l, opened ∅ "notes" Read t [104; 105; 10; 10])).
Proof.
  assert (Hl : Forall text_line [[104; 105]; []; [33]]) by (repeat constructor; unfold NL; set_solver).
  split; [|split].
  - apply (file_lines_roundtrip "notes" [] None [[104; 105]; []; [33]] (mk_state ∅ None) Hl); [constructor|reflexivity].
  - destruct (file_lines_roundtrip "notes" [(None, None); (None, Some [104; 105])] None [[104; 105]; []; [33]] (mk_state ∅ None) Hl)
      as (_ & H & _).
    destruct (H 1%nat (None, Some [104; 105])) as (t & Ht & _);
      [repeat constructor|reflexivity|discriminate|cbn; lia|]. exists t. exact Ht.
  - destruct (file_lines_roundtrip "notes" [] (Some [104; 105; 10; 10]) [[104; 105]; []; [33]] (mk_state ∅ None) Hl)
      as (_ & _ & H).
    destruct (H [104; 105; 10; 10]) as (t & l & Ht & _); [constructor|reflexivity|discriminate|]. exists t, l. exact Ht.
Defined.

(** * What an operation may touch *)

(** [s'] differs from [s] only in the stream and the contents of the object's file. *)
Definition same_file (s s' : state) : Prop :=
  match obj s with
  | None => s' = s
  | Some i => (exists t, obj s' = Some (mk_impl t (filePath i) (mode i))) /\
              forall p, p <> filePath i -> disk s' !! p = disk s !! p
  end.

#[local] Instance same_file_refl : Reflexive same_file.
Proof. intros s. unfold same_file. destruct (obj s) as [[t p m]|] eqn:E; [|done]. split; [by exists t|done]. Qed.

#[local] Instance same_file_trans : Transitive same_file.
Proof.
  intros s1 s2 s3. unfold same_file. destruct (obj s1) as [i|] eqn:E; [|intros ->; by rewrite E].
  intros [[t ->] H1] [[t' ->] H2]. cbn in *. split; [by exists t'|]. intros p Hp. by rewrite H2, H1.
Qed.

Definition framed {A} (m : M A) : Prop := forall s, same_file s (m s).2.

Lemma framed_ret {A} (a : A) : framed (mret a).
Proof. intros s. cbn. reflexivity. Qed.
Lemma framed_throw {A} e : framed (throw (A := A) e).
Proof. intros s. cbn. reflexivity. Qed.
Lemma framed_get : framed get.
Proof. intros s. cbn. reflexivity. Qed.
Lemma framed_bind {A B} (m : M A) (f : A -> M B) : framed m -> (forall a, framed (f a)) -> framed (m ≫= f).
Proof.
  intros Hm Hf s. unfold mbind, M_bind. specialize (Hm s). destruct (m s) as [[a| | |] s']; cbn in *; try done.
  etrans; [exact Hm|apply Hf].
Qed.
Lemma framed_stream {A} (f : stream -> bytes -> Mode -> result A * stream * bytes) : framed (on_stream f).
Proof.
  intros s. unfold on_stream, current. destruct (obj s) as [i|] eqn:E; [|cbn; reflexivity].
  destruct (str i) as [t|] eqn:Et; [|cbn; reflexivity]. destruct (f t _ _) as [[r t'] b']. cbn.
  unfold same_file, put_stream, put_contents. rewrite !E. cbn. rewrite ?E. cbn. split; [by exists (Some t')|].
  intros p Hp. by rewrite lookup_insert_ne.
Qed.
Lemma framed_guard_open : framed guard_open.
Proof. intros s. unfold guard_open. destruct (obj s); [destruct (isOpen s)|]; reflexivity. Qed.
Lemma framed_guard_mode a e : framed (guard_mode a e).
Proof. intros s. unfold guard_mode. destruct (obj s) as [i|]; [destruct (a (mode i))|]; reflexivity. Qed.
Lemma framed_if {A} (b : bool) (m n : M A) : framed m -> framed n -> framed (if b then m else n).
Proof. by destruct b. Qed.

Create HintDb framed.
#[local] Hint Resolve framed_ret framed_throw framed_get framed_stream framed_guard_open framed_guard_mode : framed.
#[local] Hint Extern 2 (framed (_ ≫= _)) => apply framed_bind; [|intros ?] : framed.
#[local] Hint Extern 2 (framed (if _ then _ else _)) => apply framed_if : framed.
#[local] Hint Extern 2 (framed tellg) => apply framed_stream : framed.
#[local] Hint Extern 2 (framed tellp) => apply framed_stream : framed.
#[local] Hint Extern 2 (framed (seekg _ _)) => apply framed_stream : framed.
#[local] Hint Extern 2 (framed (seekp _ _)) => apply framed_stream : framed.
#[local] Hint Extern 2 (framed clear) => apply framed_stream : framed.
#[local] Hint Extern 2 (framed good) => apply framed_stream : framed.
#[local] Hint Extern 2 (framed at_eof) => apply framed_stream : framed.
#[local] Hint Extern 2 (framed getline) => apply framed_stream : framed.
#[local] Hint Extern 2 (framed drain) => apply framed_stream : framed.
#[local] Hint Extern 2 (framed (read _)) => apply framed_stream : framed.
#[local] Hint Extern 2 (framed (write_stream _ _)) => apply framed_stream : framed.
#[local] Hint Extern 2 (framed (match ?x with _ => _ end)) => destruct x : framed.
#[local] Hint Extern 3 (framed guard_read) => unfold guard_read : framed.
#[local] Hint Extern 3 (framed guard_write) => unfold guard_write : framed.
#[local] Hint Extern 3 (framed (check_good _)) => unfold check_good : framed.
#[local] Hint Extern 3 (framed (reserve _)) => unfold reserve : framed.

Lemma framed_lines_loop fuel lines : framed (lines_loop fuel lines).
Proof. revert lines. induction fuel as [|fuel IH]; intros lines; cbn [lines_loop]; [intros s; reflexivity|auto 10 with framed]. Qed.
Lemma framed_write_lines faults lines : framed (write_lines_loop faults lines).
Proof. revert faults. induction lines as [|l lines IH]; intros faults; cbn [write_lines_loop]; auto 20 with framed. Qed.
#[local] Hint Resolve framed_lines_loop framed_write_lines : framed.

(** The operations on an object. *)
Inductive op :=
| OReadAll | OReadLines | OReadLine | OReadBytes (n : nat)
| OWrite (fault : option bytes) (data : bytes) | OWriteLine (fault fault' : option bytes) (line : bytes)
| OWriteLines (faults : line_faults) (lines : list bytes) | OWriteBytes (fault : option bytes) (data : bytes)
| OSeek (offset : Z) (origin : SeekOrigin) | OTell | OFlush (ok : bool).

Definition run (o : op) : M () :=
  match o with
  | OReadAll => _ ← readAll; mret tt
  | OReadLines => _ ← readLines; mret tt
  | OReadLine => _ ← readLine; mret tt
  | OReadBytes n => _ ← readBytes n; mret tt
  | OWrite fault data => write fault data
  | OWriteLine fault fault' line => writeLine fault fault' line
  | OWriteLines faults lines => writeLines faults lines
  | OWriteBytes fault data => writeBytes fault data
  | OSeek offset origin => seek offset origin
  | OTell => _ ← tell; mret tt
  | OFlush ok => flush ok
  end.

(** The exception of the guards. *)
Definition refused (o : op) (s : state) : option exception :=
  match obj s with
  | None => Some not_initialized
  | Some i =>
      match str i with
      | None => Some not_open
      | Some _ =>
          match o with
          | OReadAll | OReadLines | OReadLine | OReadBytes _ => if readable (mode i) then None else Some not_readable
          | OWrite _ _ | OWriteLine _ _ _ | OWriteLines _ _ | OWriteBytes _ _ => if writable (mode i) then None else Some not_writable
          | _ => None
          end
      end
  end.

(** guards and frame. An operation on a moved-from object, on a closed file or
    against the mode throws the exception that says so and changes nothing; every
    operation, whether it returns or throws, leaves the path and the mode of the
    object and all other files alone. *)
Theorem file_operations_guarded o s :
  (forall e, refused o s = Some e -> run o s = (Throw e, s)) /\ same_file s (run o s).2.
Proof.
  split.
  - intros e. unfold refused. destruct s as [d [[[t|] p m]|]]; cbn.
    + destruct o; cbn; try done; destruct m; cbn; intros [= <-]; reflexivity.
    + intros [= <-]. by destruct o.
    + intros [= <-]. by destruct o.
  - revert s. change (framed (run o)). destruct o; cbn [run];
      unfold readAll, readLines, readLine, readBytes, write, writeLine, writeLines, writeBytes, seek, tell, flush;
      auto 30 with framed.
Qed.

End FileObj.
