(* ===== verification/MoveFile.v ===== *)
(** * Moving files, file sizes and times (src/fs/dir_functions.cpp)

    [moveFile] and [moveDirectory] with their retries, the fallback across file
    systems and the guard that keeps a backup of the destination. The file system is a
    map from paths to what they hold, a file or a whole directory, of any type; paths
    do not contain each other. Whether an attempt of the system succeeds is an input.
    Exceptions carry the file system they leave behind. *)
From Stdlib Require Import ZArith Lia.
From stdpp Require Import strings numbers gmap base.
From stdpp Require Import list.
From S2P Require Import Prelude.

Open Scope Z_scope.

Module MoveFile.
Section contents.
Context {C : Type}.

Abbreviation fsys := (gmap string C).

(** A result with the file system it leaves. *)
Inductive result (A : Type) := Done (a : A) (d : fsys) | Thrown (why : string) (d : fsys).
Arguments Done {_} _ _.
Arguments Thrown {_} _ _.

Definition exists_ (p : string) (d : fsys) : bool := bool_decide (is_Some (d !! p)).

(** System calls: [None] is an error, which changes nothing. *)
Definition rename (ok : bool) (src dst : string) (d : fsys) : option fsys :=
  match d !! src with
  | Some c => if ok then Some (<[dst := c]> (delete src d)) else None
  | None => None
  end.

Definition copy (ok overwrite : bool) (src dst : string) (d : fsys) : option fsys :=
  match d !! src with
  | Some c => if ok && (overwrite || negb (exists_ dst d)) then Some (<[dst := c]> d) else None
  | None => None
  end.

Definition remove_all (ok : bool) (p : string) (d : fsys) : option fsys := if ok then Some (delete p d) else None.

Record MoveOptions := mk_options { overwrite_existing : bool; retry_attempts : nat }.

(** What the system answers to each attempt. *)
Record world := mk_world {
  backup_ok : bool;
  rename_ok : nat -> bool;
  copy_ok : nat -> bool;
  remove_ok : nat -> bool;
  rollback_remove_ok : bool;
  rollback_rename_ok : bool
}.

(** The loop of [tryOperation] from attempt [i] on, with [n] left; [failed]: the error
    code is set. *)
Fixpoint try_loop (n i : nat) (op : nat -> fsys -> option fsys) (failed : bool) (d : fsys) : result bool :=
  match n with
  | O => if failed then Thrown "Operation failed after retries" d else Done false d
  | S n => match op i d with
           | Some d => Done true d
           | None => try_loop n (S i) op true d
           end
  end.

Definition tryOperation (o : MoveOptions) (op : nat -> fsys -> option fsys) (d : fsys) : result bool :=
  try_loop (retry_attempts o) 0 op false d.

Definition bind {A B} (r : result A) (f : A -> fsys -> result B) : result B :=
  match r with Done a d => f a d | Thrown why d => Thrown why d end.

Definition moveAcrossFs (w : world) (o : MoveOptions) (src dst : string) (d : fsys) : result () :=
  bind (tryOperation o (fun i => copy (copy_ok w i) (overwrite_existing o) src dst) d) (fun _ d =>
  bind (tryOperation o (fun i => remove_all (remove_ok w i) src) d) (fun _ d => Done tt d)).

Definition backup_of (dst : string) : string := dst +:+ ".bak".

(** The constructor of [FileOperationGuard]: the backup's path, if one was made. *)
Definition guard_make (w : world) (dst : string) (d : fsys) : result (option string) :=
  if exists_ dst d then
    match rename (backup_ok w) dst (backup_of dst) d with
    | Some d => Done (Some (backup_of dst)) d
    | None => Thrown "filesystem_error" d
    end
  else Done None d.

(** Its destructor when nothing was committed; errors are swallowed. *)
Definition guard_rollback (w : world) (src : string) (backup : option string) (d : fsys) : fsys :=
  match backup with
  | None => d
  | Some b =>
      match (if exists_ src d then remove_all (rollback_remove_ok w) src d else Some d) with
      | Some d => default d (rename (rollback_rename_ok w) b src d)
      | None => d
      end
  end.

Definition moveFile (w : world) (o : MoveOptions) (source destination : string) (d : fsys) : result string :=
  if negb (exists_ source d) then Thrown "Source file does not exist" d
  else
    bind (guard_make w destination d) (fun backup d =>
    match
      bind (tryOperation o (fun i => rename (rename_ok w i) source destination) d) (fun renamed d =>
      if renamed : bool then Done tt d else moveAcrossFs w o source destination d)
    with
    | Done _ d => Done destination d
    | Thrown why d => Thrown why (guard_rollback w source backup d)
    end).

(** [moveDirectory] differs only in its message. *)
Definition moveDirectory (w : world) (o : MoveOptions) (source destination : string) (d : fsys) : result string :=
  if negb (exists_ source d) then Thrown "Source directory does not exist" d
  else moveFile w o source destination d.

(** * Theorems *)

(** Some attempt of the first [n] from [i] on succeeds. *)
Fixpoint some_ok (n i : nat) (ok : nat -> bool) : bool :=
  match n with O => false | S n => ok i || some_ok n (S i) ok end.

Lemma try_rename n i w src dst c (d : fsys) :
  d !! src = Some c ->
  try_loop (S n) i (fun i => rename (rename_ok w i) src dst) false d =
    if some_ok (S n) i (rename_ok w) then Done true (<[dst := c]> (delete src d)) else Thrown "Operation failed after retries" d.
Proof.
  intros Hc. cbn [try_loop some_ok].
  assert (H : forall m j, try_loop m j (fun i => rename (rename_ok w i) src dst) true d =
    if some_ok m j (rename_ok w) then Done true (<[dst := c]> (delete src d)) else Thrown "Operation failed after retries" d).
  { induction m as [|m IH]; intros j; cbn [try_loop some_ok]; [done|]. unfold rename at 1. rewrite Hc.
    destruct (rename_ok w j); [done|apply IH]. }
  unfold rename at 1. rewrite Hc. destruct (rename_ok w i); [done|apply H].
Qed.

Lemma backup_ne dst : backup_of dst <> dst.
Proof.
  unfold backup_of. induction dst as [|a s IH]; [done|]. intros [= H]. done.
Qed.

(** The file system after the guard was made. *)
Definition backed_up (dst : string) (d : fsys) : fsys :=
  match d !! dst with Some x => <[backup_of dst := x]> (delete dst d) | None => d end.

Lemma guard_make_spec w dst d :
  backup_ok w = true ->
  guard_make w dst d = Done (if exists_ dst d then Some (backup_of dst) else None) (backed_up dst d).
Proof.
  intros Hb. unfold guard_make, exists_, backed_up, rename. destruct (d !! dst); [|done].
  rewrite bool_decide_true by eauto. by rewrite Hb.
Qed.

Lemma moveFile_run w o src dst c d :
  d !! src = Some c -> backup_ok w = true -> src <> dst -> backup_of dst <> src -> (0 < retry_attempts o)%nat ->
  moveFile w o src dst d =
    if some_ok (retry_attempts o) 0 (rename_ok w)
    then Done dst (<[dst := c]> (delete src (backed_up dst d)))
    else Thrown "Operation failed after retries"
           (guard_rollback w src (if exists_ dst d then Some (backup_of dst) else None) (backed_up dst d)).
Proof.
  intros Hc Hb Hne Hbk Hr. unfold moveFile. unfold exists_ at 1. rewrite bool_decide_true by eauto. cbn [negb].
  rewrite guard_make_spec by done. cbn [bind].
  assert (Hc' : backed_up dst d !! src = Some c).
  { unfold backed_up. destruct (d !! dst); [|done]. by rewrite lookup_insert_ne, lookup_delete_ne. }
  unfold tryOperation. destruct (retry_attempts o) as [|n]; [lia|]. rewrite (try_rename n 0 w src dst c _ Hc').
  destruct (some_ok (S n) 0 (rename_ok w)); done.
Qed.

(** moving. When one of the attempts succeeds, the destination holds what the
    source held, the source is gone, what the destination held before is in its
    backup, and nothing else has changed. When none does and the destination did not
    exist, an exception is thrown and nothing has changed. *)
Theorem moveFile_correct w o src dst c d :
  d !! src = Some c -> backup_ok w = true -> src <> dst -> backup_of dst <> src -> (0 < retry_attempts o)%nat ->
  if some_ok (retry_attempts o) 0 (rename_ok w) then
    exists d', moveFile w o src dst d = Done dst d' /\
      d' !! dst = Some c /\ d' !! src = None /\
      (forall x, d !! dst = Some x -> d' !! backup_of dst = Some x) /\
      forall p, p <> dst -> p <> src -> p <> backup_of dst -> d' !! p = d !! p
  else d !! dst = None -> moveFile w o src dst d = Thrown "Operation failed after retries" d.
Proof.
  intros Hc Hb Hne Hbk Hr. pose proof (backup_ne dst) as Hbd. rewrite (moveFile_run w o src dst c d) by done.
  destruct (some_ok (retry_attempts o) 0 (rename_ok w)).
  - eexists. split; [reflexivity|]. split; [by rewrite lookup_insert_eq|]. split; [by rewrite lookup_insert_ne, lookup_delete_eq|].
    unfold backed_up. split.
    + intros x ->. by rewrite lookup_insert_ne, lookup_delete_ne, lookup_insert_eq.
    + intros p H1 H2 H3. rewrite lookup_insert_ne, lookup_delete_ne by done.
      destruct (d !! dst); [by rewrite lookup_insert_ne, lookup_delete_ne|done].
  - intros Hn. unfold exists_, backed_up. rewrite Hn. done.
Qed.

(** When none succeeds and the destination existed, the rollback deletes the source
    and puts the old destination in its place: what the source held is lost, and the
    destination is gone. *)
Lemma moveFile_failure_loses_source w o src dst c x d :
  d !! src = Some c -> d !! dst = Some x -> backup_ok w = true -> src <> dst -> backup_of dst <> src ->
  (0 < retry_attempts o)%nat -> some_ok (retry_attempts o) 0 (rename_ok w) = false ->
  rollback_remove_ok w = true -> rollback_rename_ok w = true ->
  exists d', moveFile w o src dst d = Thrown "Operation failed after retries" d' /\ d' !! src = Some x /\ d' !! dst = None.
Proof.
  intros Hc Hx Hb Hne Hbk Hr Hno H1 H2. pose proof (backup_ne dst) as Hbd. rewrite (moveFile_run w o src dst c d) by done. rewrite Hno.
  eexists. split; [reflexivity|]. unfold exists_, backed_up. rewrite Hx, bool_decide_true by eauto.
  unfold guard_rollback, exists_, remove_all, rename.
  rewrite lookup_insert_ne, lookup_delete_ne, Hc, bool_decide_true, H1, H2 by eauto.
  rewrite lookup_delete_ne, lookup_insert_eq by done. cbn.
  split; [by rewrite lookup_insert_eq|by simplify_map_eq].
Qed.

(** With at least one attempt the fallback across file systems is never reached: the
    loop throws instead of returning false. *)
Lemma fallback_unreachable w w' o src dst d :
  (0 < retry_attempts o)%nat ->
  tryOperation o (fun i => rename (rename_ok w i) src dst) d <> Done false w'.
Proof.
  intros Hr. unfold tryOperation. destruct (retry_attempts o) as [|n]; [lia|]. clear Hr. cbn [try_loop].
  destruct (rename _ _ _ d); [done|]. generalize 1%nat. induction n as [|n IH]; intros i; cbn [try_loop]; [done|].
  destruct (rename _ _ _ d); [done|apply IH].
Qed.

End contents.

#[global] Arguments result : clear implicits.
#[global] Arguments Done {_ _} _ _.
#[global] Arguments Thrown {_ _} _ _.

Lemma moveFile_correct_witness :
  exists d', moveFile (mk_world true (fun i => Nat.eqb i 2) (fun _ => true) (fun _ => true) true true) (mk_options false 3) "a" "b"
      ({["a" := 1; "b" := 2]} : gmap string Z) = Done "b" d' /\ d' !! "b" = Some 1 /\ d' !! "b.bak" = Some 2.
Proof.
  destruct (moveFile_correct (mk_world true (fun i => Nat.eqb i 2) (fun _ => true) (fun _ => true) true true) (mk_options false 3) "a" "b" 1
    ({["a" := 1; "b" := 2]} : gmap string Z)) as (d' & H1 & H2 & _ & H3 & _).
  - reflexivity.
  - reflexivity.
  - discriminate.
  - discriminate.
  - cbn. lia.
  - exists d'. split; [exact H1|]. split; [exact H2|]. apply (H3 2). reflexivity.
Defined.

(** * Sizes *)

(** [SizeCache]: its lock is held for one access. *)
Definition size_cache_get (path : string) (cache : gmap string Z) : option Z := cache !! path.
Definition size_cache_set (path : string) (size : Z) (cache : gmap string Z) : gmap string Z := <[path := size]> cache.

(** The cache and the sizes on disk. *)
Definition getFileSize (use_cache : bool) (path : string) (sizes cache : gmap string Z) : option Z * gmap string Z :=
  match (if use_cache then size_cache_get path cache else None) with
  | Some n => (Some n, cache)
  | None =>
      match sizes !! path with
      | Some n => (Some n, if use_cache then size_cache_set path n cache else cache)
      | None => (None, cache)
      end
  end.

(** The loop of [getDirectorySize] over the regular files found. *)
Definition directory_total (files : list string) (sizes : gmap string Z) : Z :=
  foldl (fun total f => match (getFileSize false f sizes ∅).1 with Some n => u64 (total + n) | None => total end) 0 files.

Definition getDirectorySize (present : bool) (files : list string) (sizes : gmap string Z) : option Z :=
  if present then Some (directory_total files sizes) else None.

Lemma getFileSize_plain f sizes cache : (getFileSize false f sizes cache).1 = sizes !! f.
Proof. unfold getFileSize. by destruct (sizes !! f). Qed.

Lemma u64_add acc n : u64 (u64 acc + n) = u64 (acc + n).
Proof. unfold u64, wrap. by rewrite Zplus_mod_idemp_l. Qed.

(** The total is the sum of the sizes of the files that can be read, modulo 2^64. *)
Lemma directory_total_sum files sizes :
  directory_total files sizes = u64 (foldr Z.add 0 (omap (fun f => sizes !! f) files)).
Proof.
  unfold directory_total. set (F := fun total f => _).
  assert (H : forall acc, foldl F (u64 acc) files = u64 (acc + foldr Z.add 0 (omap (fun f => sizes !! f) files))); [|exact (H 0)].
  induction files as [|f fs IH]; intros acc; [cbn [foldl omap list_omap foldr]; by rewrite Z.add_0_r|].
  cbn [foldl]. unfold F at 2. rewrite getFileSize_plain.
  change (omap (fun f => sizes !! f) (f :: fs)) with
    (match sizes !! f with Some n => n :: omap (fun f => sizes !! f) fs | None => omap (fun f => sizes !! f) fs end).
  destruct (sizes !! f) as [n|]; [|apply IH]. rewrite u64_add, IH. cbn [foldr]. f_equal. lia.
Qed.

(** A size once cached is returned even when the file has changed. *)
Lemma cached_size_is_stale :
  let cache := (getFileSize true "f" {["f" := 10]} ∅).2 in (getFileSize true "f" {["f" := 99]} cache).1 = Some 10.
Proof. reflexivity. Qed.

(** * Times of last write *)

Section Times.
(** The two clocks and the casts between them; a cast may fail. *)
Context {file_time sys_time : Type} (to_sys : file_time -> option sys_time) (to_file : sys_time -> file_time).

Definition getLastWriteTime (path : string) (times : gmap string file_time) : option sys_time :=
  match times !! path with
  | None => None
  | Some ftime => to_sys ftime
  end.

(** [ok]: the system accepts the new time. An exception leaves the times alone. *)
Definition setLastWriteTime (ok : bool) (path : string) (newTime : sys_time) (times : gmap string file_time) :
  @result file_time bool :=
  match times !! path with
  | None => Thrown "Path does not exist" times
  | Some _ => if ok then Done true (<[path := to_file newTime]> times) else Thrown "Failed to set write time" times
  end.

(** Where the clocks convert back and forth, the time set is the time read, and the times
    of other files stay. *)
Lemma lastWriteTime_roundtrip path t times times' :
  to_sys (to_file t) = Some t -> setLastWriteTime true path t times = Done true times' ->
  getLastWriteTime path times' = Some t /\
  forall other, other <> path -> getLastWriteTime other times' = getLastWriteTime other times.
Proof.
  unfold setLastWriteTime, getLastWriteTime. intros Hc H. destruct (times !! path); [|done]. injection H as <-.
  split; [by rewrite lookup_insert_eq|]. intros other Hne. by rewrite lookup_insert_ne.
Qed.
End Times.

End MoveFile.
