(* ===== verification/UniquePtr.v ===== *)
(** * Owning pointers (src/kernel/util.c)

    The class template [UniquePtr] and its specialisation for arrays, which differs only
    in the form of [delete]. A program is a sequence of member calls on named variables;
    the state holds the live objects, what each variable points to, and the raw pointers
    that [release] has handed to the program. Deleting an object that is not live is
    [Undef]. *)
From Stdlib Require Import ZArith Lia.
From stdpp Require Import strings numbers gmap base.
From stdpp Require Import list.
From S2P Require Import Prelude.

Open Scope Z_scope.

Module UPtr.

Record heap_state := mk_heap {
  live : gset Z;                   (* objects that exist *)
  fresh : Z;                       (* the next address *)
  vars : gmap string (option Z);   (* ptr_ of each variable; None is nullptr *)
  raw : gset Z                     (* pointers the program owns itself *)
}.

Definition empty_heap : heap_state := mk_heap ∅ 1 ∅ ∅.

(** [delete p]. *)
Definition delete_ptr (p : option Z) (h : heap_state) : outcome heap_state :=
  match p with
  | None => Ok h
  | Some l => if decide (l ∈ live h) then Ok (mk_heap (live h ∖ {[l]}) (fresh h) (vars h) (raw h))
              else Undef "delete of a dead object"
  end.

Definition lookup_var (x : string) (h : heap_state) : outcome (option Z) :=
  match vars h !! x with Some p => Ok p | None => Undef "no such variable" end.

Definition set_var (x : string) (p : option Z) (h : heap_state) : heap_state :=
  mk_heap (live h) (fresh h) (<[x := p]> (vars h)) (raw h).

(** [new T(...)]. *)
Definition new_object (h : heap_state) : Z * heap_state :=
  (fresh h, mk_heap ({[fresh h]} ∪ live h) (fresh h + 1) (vars h) (raw h)).

(** Constructors. *)
Definition construct (x : string) (p : option Z) (h : heap_state) : outcome heap_state :=
  match vars h !! x with None => Ok (set_var x p h) | Some _ => Undef "redeclared" end.
Definition MakeUnique (x : string) (h : heap_state) : outcome heap_state :=
  let '(l, h) := new_object h in construct x (Some l) h.
Definition move_construct (x o : string) (h : heap_state) : outcome heap_state :=
  p ← lookup_var o h; h ← construct x p h; Ok (set_var o None h).

Definition destroy (x : string) (h : heap_state) : outcome heap_state :=
  p ← lookup_var x h; h ← delete_ptr p h;
  Ok (mk_heap (live h) (fresh h) (delete x (vars h)) (raw h)).

Definition release (x : string) (h : heap_state) : outcome (option Z * heap_state) :=
  tmp ← lookup_var x h; Ok (tmp, set_var x None h).

Definition reset (x : string) (p : option Z) (h : heap_state) : outcome heap_state :=
  ptr ← lookup_var x h;
  if decide (ptr = p) then Ok h
  else h ← delete_ptr ptr h; Ok (set_var x p h).

Definition move_assign (x o : string) (h : heap_state) : outcome heap_state :=
  if decide (x = o) then Ok h
  else '(p, h) ← release o h; reset x p h.

Definition swap (x o : string) (h : heap_state) : outcome heap_state :=
  p ← lookup_var x h; q ← lookup_var o h; Ok (set_var o p (set_var x q h)).

(** Calls of a program. [Release] keeps the pointer as the program's own; [ResetRaw]
    gives one of those to a variable; [ResetGet] passes a variable its own pointer. *)
Inductive call :=
| Make (x : string) | Null (x : string) | MoveConstruct (x o : string) | Destroy (x : string)
| MoveAssign (x o : string) | Swap (x o : string) | Release (x : string)
| ResetNull (x : string) | ResetRaw (x : string) (l : Z) | ResetGet (x : string) | DeleteRaw (l : Z).

Definition with_raw (h : heap_state) (r : gset Z) : heap_state := mk_heap (live h) (fresh h) (vars h) r.

Definition exec (c : call) (h : heap_state) : outcome heap_state :=
  match c with
  | Make x => MakeUnique x h
  | Null x => construct x None h
  | MoveConstruct x o => move_construct x o h
  | Destroy x => destroy x h
  | MoveAssign x o => move_assign x o h
  | Swap x o => swap x o h
  | Release x => '(p, h) ← release x h; Ok (with_raw h (match p with Some l => {[l]} ∪ raw h | None => raw h end))
  | ResetNull x => reset x None h
  | ResetRaw x l => reset x (Some l) (with_raw h (raw h ∖ {[l]}))
  | ResetGet x => p ← lookup_var x h; reset x p h
  | DeleteRaw l => delete_ptr (Some l) (with_raw h (raw h ∖ {[l]}))
  end.

(** What the language and the program have to guarantee: variables are declared once
    and used while they exist, and the program passes on only raw pointers it owns. *)
Definition allowed (c : call) (h : heap_state) : Prop :=
  match c with
  | Make x | Null x => vars h !! x = None
  | MoveConstruct x o => vars h !! x = None /\ is_Some (vars h !! o)
  | Destroy x | Release x | ResetNull x | ResetGet x => is_Some (vars h !! x)
  | MoveAssign x o | Swap x o => is_Some (vars h !! x) /\ is_Some (vars h !! o)
  | ResetRaw x l => is_Some (vars h !! x) /\ l ∈ raw h
  | DeleteRaw l => l ∈ raw h
  end.

Inductive runs : heap_state -> heap_state -> Prop :=
| runs_nil h : runs h h
| runs_cons c h h1 h2 : allowed c h -> exec c h = Ok h1 -> runs h1 h2 -> runs h h2.

(** * Ownership *)

(** Each live object has exactly one owner: a variable or the program. *)
Record owned (h : heap_state) : Prop := {
  o_live : forall l, l ∈ live h <-> (exists x, vars h !! x = Some (Some l)) \/ l ∈ raw h;
  o_unique : forall x y l, vars h !! x = Some (Some l) -> vars h !! y = Some (Some l) -> x = y;
  o_raw : forall x l, vars h !! x = Some (Some l) -> l ∉ raw h;
  o_fresh : forall l, l ∈ live h -> l < fresh h
}.

Lemma empty_owned : owned empty_heap.
Proof. split; cbn; intros; set_solver. Qed.

(** Moving what [o] points to into [x], which points to nothing or does not exist. *)
Lemma owned_transfer x o p h :
  owned h -> x <> o -> vars h !! o = Some p -> (forall l, vars h !! x <> Some (Some l)) ->
  owned (set_var o None (set_var x p h)).
Proof.
  intros [H1 H2 H3 H4] Hne Ho Hx.
  assert (Hv : forall y l, <[o := None]> (<[x := p]> (vars h)) !! y = Some (Some l) <->
    (y = x /\ p = Some l) \/ (y <> x /\ y <> o /\ vars h !! y = Some (Some l))).
  { intros y l. destruct (decide (y = o)) as [->|]; [rewrite lookup_insert_eq; naive_solver|]. rewrite lookup_insert_ne by done.
    destruct (decide (y = x)) as [->|]; [rewrite lookup_insert_eq; naive_solver|]. rewrite lookup_insert_ne by done. naive_solver. }
  split; cbn.
  - intros l. rewrite H1. setoid_rewrite Hv. split.
    + intros [[y Hy]|Hr]; [|by right]. left. destruct (decide (y = o)) as [->|Hyo]; [exists x; naive_solver|].
      exists y. right. split; [|done]. intros ->. by apply (Hx l).
    + intros [[y [[-> ->]|(_ & _ & Hy)]]|Hr]; eauto.
  - intros y z l. rewrite !Hv. intros [[-> ->]|(Hyx & Hyo & Hy)] [[-> Hp]|(Hzx & Hzo & Hz)]; try done; eauto.
    + destruct Hzo. eauto.
    + subst. destruct Hyo. eauto.
  - intros y l. rewrite Hv. intros [[-> ->]|(_ & _ & Hy)]; eauto.
  - done.
Qed.

(** Only what points to an object matters. *)
Lemma owned_same vs h :
  (forall y l, vs !! y = Some (Some l) <-> vars h !! y = Some (Some l)) -> owned h -> owned (mk_heap (live h) (fresh h) vs (raw h)).
Proof.
  intros Hv [H1 H2 H3 H4]. split; cbn; try done.
  - intros l. rewrite H1. by setoid_rewrite Hv.
  - intros y z l. rewrite !Hv. apply H2.
  - intros y l. rewrite Hv. apply H3.
Qed.

(** [x] gives its object up: it is deleted, or becomes the program's. *)
Lemma owned_drop vs x l h :
  owned h -> vars h !! x = Some (Some l) ->
  (forall y m, vs !! y = Some (Some m) <-> y <> x /\ vars h !! y = Some (Some m)) ->
  owned (mk_heap (live h ∖ {[l]}) (fresh h) vs (raw h)) /\ owned (mk_heap (live h) (fresh h) vs ({[l]} ∪ raw h)).
Proof.
  intros [H1 H2 H3 H4] Hx Hv. pose proof (H3 _ _ Hx) as Hr.
  assert (Hu : forall y m, vars h !! y = Some (Some m) -> y <> x <-> m <> l).
  { intros y m Hy. split; [|intros Hm ->; congruence]. intros Hyx ->. eauto. }
  split; (split; cbn).
  - intros m. rewrite elem_of_difference, elem_of_singleton, H1. setoid_rewrite Hv. split.
    + intros [[[y Hy]|Hm] Hne]; [left; exists y|by right]. split; [by apply (Hu y m)|done].
    + intros [(y & Hyx & Hy)|Hm]; [split; [by left; exists y|by apply (Hu y m)]|]. split; [by right|]. intros ->. done.
  - intros y z m. rewrite !Hv. intros [_ ?] [_ ?]. eauto.
  - intros y m. rewrite Hv. intros [_ ?]. eauto.
  - intros m. rewrite elem_of_difference. intros [? _]. auto.
  - intros m. rewrite elem_of_union, elem_of_singleton, H1. setoid_rewrite Hv. split.
    + intros [[y Hy]|Hm]; [|by auto]. destruct (decide (y = x)) as [->|]; [right; left; congruence|left; by exists y].
    + intros [(y & _ & Hy)|[->|Hm]]; eauto.
  - intros y z m. rewrite !Hv. intros [_ ?] [_ ?]. eauto.
  - intros y m. rewrite Hv, elem_of_union, elem_of_singleton. intros [Hyx Hy] [Hm|Hm]; [by apply (Hu y m) in Hyx|]. by eapply H3.
  - done.
Qed.

(** A raw pointer is deleted, or given to a variable that points to nothing. *)
Lemma owned_raw l h :
  owned h -> l ∈ raw h ->
  owned (mk_heap (live h ∖ {[l]}) (fresh h) (vars h) (raw h ∖ {[l]})) /\
  forall x, (forall m, vars h !! x <> Some (Some m)) -> owned (mk_heap (live h) (fresh h) (<[x := Some l]> (vars h)) (raw h ∖ {[l]})).
Proof.
  intros [H1 H2 H3 H4] Hl. split; [split; cbn|intros x Hx].
  - intros m. rewrite !elem_of_difference, !elem_of_singleton, H1. split; [tauto|]. intros [[y Hy]|Hm]; [|tauto].
    split; [eauto|]. intros ->. by apply (H3 y l).
  - done.
  - intros y m Hy. rewrite elem_of_difference. intros [Hm _]. by apply (H3 y m).
  - intros m. rewrite elem_of_difference. intros [? _]. auto.
  - assert (Hv : forall y m, <[x := Some l]> (vars h) !! y = Some (Some m) <-> (y = x /\ m = l) \/ (y <> x /\ vars h !! y = Some (Some m))).
    { intros y m. destruct (decide (y = x)) as [->|]; [rewrite lookup_insert_eq; naive_solver|]. rewrite lookup_insert_ne by done. naive_solver. }
    split; cbn.
    + intros m. rewrite H1, elem_of_difference, elem_of_singleton. setoid_rewrite Hv. split.
      * intros [[y Hy]|Hm]; [left; exists y; right; split; [|done]; intros ->; by apply (Hx m)|].
        destruct (decide (m = l)); [left; exists x; by left|tauto].
      * intros [[y [[-> ->]|[_ Hy]]]|[Hm _]]; eauto.
    + intros y z m. rewrite !Hv. intros [[-> ->]|[Hyx Hy]] [[-> Hm]|[Hzx Hz]]; try done; eauto.
      * destruct (H3 z l); eauto.
      * subst m. destruct (H3 y l); eauto.
    + intros y m. rewrite Hv, elem_of_difference, elem_of_singleton. intros [[-> ->]|[_ Hy]] [Hm Hne]; [done|]. by apply (H3 y m).
    + done.
Qed.

Lemma owned_new x h :
  owned h -> vars h !! x = None ->
  owned (mk_heap ({[fresh h]} ∪ live h) (fresh h + 1) (<[x := Some (fresh h)]> (vars h)) (raw h)).
Proof.
  intros [H1 H2 H3 H4] Hx.
  assert (Hn : fresh h ∉ live h) by (intros Hf; apply H4 in Hf; lia).
  assert (Hnv : forall y, vars h !! y <> Some (Some (fresh h))) by (intros y Hy; apply Hn, H1; eauto).
  assert (Hnr : fresh h ∉ raw h) by (intros Hr; apply Hn, H1; auto).
  assert (Hv : forall y m, <[x := Some (fresh h)]> (vars h) !! y = Some (Some m) <-> (y = x /\ m = fresh h) \/ (y <> x /\ vars h !! y = Some (Some m))).
  { intros y m. destruct (decide (y = x)) as [->|]; [rewrite lookup_insert_eq; naive_solver|]. rewrite lookup_insert_ne by done. naive_solver. }
  split; cbn.
  - intros m. rewrite elem_of_union, elem_of_singleton, H1. setoid_rewrite Hv. split.
    + intros [->|[[y Hy]|Hm]]; [left; exists x; by left| |by right]. left. exists y. right. split; [|done]. intros ->. congruence.
    + intros [[y [[-> ->]|[_ Hy]]]|Hm]; eauto.
  - intros y z m. rewrite !Hv. intros [[-> ->]|[Hyx Hy]] [[-> Hm]|[Hzx Hz]]; try done; eauto.
    + by apply Hnv in Hz.
    + subst m. by apply Hnv in Hy.
  - intros y m. rewrite Hv. intros [[-> ->]|[_ Hy]]; eauto.
  - intros m. rewrite elem_of_union, elem_of_singleton. intros [->|Hm]; [lia|]. apply H4 in Hm. lia.
Qed.

Lemma owned_swap x o p q h :
  owned h -> x <> o -> vars h !! x = Some p -> vars h !! o = Some q ->
  owned (mk_heap (live h) (fresh h) (<[o := p]> (<[x := q]> (vars h))) (raw h)).
Proof.
  intros [H1 H2 H3 H4] Hne Hx Hq.
  (* the exchange of two names *)
  set (f y := if decide (y = x) then o else if decide (y = o) then x else y).
  assert (Hv : forall y l, <[o := p]> (<[x := q]> (vars h)) !! y = Some (Some l) <-> vars h !! f y = Some (Some l)).
  { intros y l. unfold f. destruct (decide (y = x)) as [->|].
    - rewrite lookup_insert_ne, lookup_insert_eq by done. by rewrite Hq.
    - destruct (decide (y = o)) as [->|]; [rewrite lookup_insert_eq; by rewrite Hx|]. by rewrite !lookup_insert_ne. }
  assert (Hf : forall y, f (f y) = y).
  { intros y. unfold f. repeat case_decide; congruence. }
  split; cbn; try done.
  - intros l. rewrite H1. setoid_rewrite Hv. split; (intros [[y Hy]|Hm]; [left; exists (f y)|by right]); [by rewrite Hf|done].
  - intros y z l. rewrite !Hv. intros Hy Hz. rewrite <- (Hf y), <- (Hf z). f_equal. eauto.
  - intros y l. rewrite Hv. apply H3.
Qed.

(** Deleting what [x] points to, while [x] is cleared or goes away. *)
Lemma delete_owned x p h :
  owned h -> vars h !! x = Some p ->
  exists lv, (forall vs r, delete_ptr p (mk_heap (live h) (fresh h) vs r) = Ok (mk_heap lv (fresh h) vs r)) /\
    owned (mk_heap lv (fresh h) (<[x := None]> (vars h)) (raw h)) /\
    owned (mk_heap lv (fresh h) (delete x (vars h)) (raw h)).
Proof.
  intros Ho Hx.
  assert (V1 : forall y m, <[x := None]> (vars h) !! y = Some (Some m) <-> y <> x /\ vars h !! y = Some (Some m)).
  { intros y m. destruct (decide (y = x)) as [->|]; [rewrite lookup_insert_eq; naive_solver|]. rewrite lookup_insert_ne by done. naive_solver. }
  assert (V2 : forall y m, delete x (vars h) !! y = Some (Some m) <-> y <> x /\ vars h !! y = Some (Some m)).
  { intros y m. destruct (decide (y = x)) as [->|]; [rewrite lookup_delete_eq; naive_solver|]. rewrite lookup_delete_ne by done. naive_solver. }
  destruct p as [l|].
  - exists (live h ∖ {[l]}). split_and!; [|by eapply owned_drop|by eapply owned_drop].
    intros vs r. cbn. rewrite decide_True; [done|]. apply (o_live _ Ho). eauto.
  - exists (live h). split; [done|].
    split; (apply owned_same; [|done]); intros y m; rewrite ?V1, ?V2; (split; [naive_solver|]); intros Hy; (split; [|done]); intros ->; congruence.
Qed.

Lemma exec_owned c h : owned h -> allowed c h -> exists h', exec c h = Ok h' /\ owned h'.
Proof.
  intros Ho Ha. destruct c as [x|x|x o|x|x o|x o|x|x|x l|x|l]; cbn [exec allowed] in *.
  - unfold MakeUnique, construct. cbn. rewrite Ha. eexists. split; [reflexivity|]. exact (owned_new x h Ho Ha).
  - unfold construct. rewrite Ha. eexists. split; [reflexivity|]. apply owned_same; [|done]. intros y l.
    destruct (decide (y = x)) as [->|]; [rewrite lookup_insert_eq, Ha; naive_solver|by rewrite lookup_insert_ne].
  - destruct Ha as [Hx [p Hp]]. unfold move_construct, lookup_var, construct. rewrite Hp. cbn. rewrite Hx. cbn. eexists. split; [reflexivity|].
    apply owned_transfer; try done; [congruence|intros l; congruence].
  - destruct Ha as [p Hp]. unfold destroy, lookup_var. rewrite Hp. cbn. destruct (delete_owned x p h Ho Hp) as (lv & Hd & _ & H2).
    destruct h as [lh fh vh rh]. cbn in *. rewrite Hd. cbn. by eexists.
  - destruct Ha as [[ptr Hx] [p Hp]]. unfold move_assign. destruct (decide (x = o)) as [->|Hne]; [by exists h|].
    unfold release, lookup_var. rewrite Hp. cbn. unfold reset, lookup_var, set_var. cbn. rewrite lookup_insert_ne, Hx by done. cbn.
    destruct (decide (ptr = p)) as [->|Hpp].
    + eexists. split; [reflexivity|]. apply owned_same; [|done]. intros y l.
      destruct (decide (y = o)) as [->|]; [|by rewrite lookup_insert_ne]. rewrite lookup_insert_eq, Hp.
      split; [done|]. intros [= ->]. destruct Hne. by eapply (o_unique _ Ho).
    + destruct (delete_owned x ptr h Ho Hx) as (lv & Hd & H1 & _). rewrite Hd. cbn. eexists. split; [reflexivity|].
      pose proof (owned_transfer x o p _ H1 Hne) as Ht. unfold set_var in Ht. cbn in Ht.
      rewrite insert_insert_eq, (insert_insert_ne (vars h) o x) in Ht by done. apply Ht.
      * by rewrite lookup_insert_ne.
      * intros l. by rewrite lookup_insert_eq.
  - destruct Ha as [[p Hx] [q Hq]]. unfold swap, lookup_var. rewrite Hx, Hq. cbn. eexists. split; [reflexivity|].
    unfold set_var. cbn. destruct (decide (x = o)) as [->|Hne].
    { rewrite insert_insert_eq, insert_id by done. by destruct h. }
    by apply owned_swap.
  - destruct Ha as [p Hp]. unfold release, lookup_var. rewrite Hp. cbn. eexists. split; [reflexivity|].
    destruct (delete_owned x p h Ho Hp) as (lv & _ & H1 & _). destruct p as [l|].
    + refine (proj2 (owned_drop (<[x := None]> (vars h)) x l h Ho Hp _)). intros y m.
      destruct (decide (y = x)) as [->|]; [rewrite lookup_insert_eq; naive_solver|]. rewrite lookup_insert_ne by done. naive_solver.
    + unfold with_raw, set_var. cbn. rewrite insert_id by done. by destruct h.
  - destruct Ha as [p Hp]. unfold reset, lookup_var. rewrite Hp. cbn. destruct (decide (p = None)); [by exists h|].
    destruct (delete_owned x p h Ho Hp) as (lv & Hd & H1 & _). destruct h as [lh fh vh rh]. cbn in *. rewrite Hd. cbn. by eexists.
  - destruct Ha as [[p Hp] Hl]. unfold reset, lookup_var, with_raw. cbn. rewrite Hp. cbn.
    rewrite decide_False by (intros ->; by destruct (o_raw _ Ho x l)).
    destruct (delete_owned x p h Ho Hp) as (lv & Hd & H1 & _). rewrite Hd. cbn. eexists. split; [reflexivity|].
    destruct (owned_raw l _ H1 Hl) as [_ H2]. specialize (H2 x). cbn in H2. rewrite insert_insert_eq in H2. apply H2.
    intros m. by rewrite lookup_insert_eq.
  - destruct Ha as [p Hp]. unfold reset, lookup_var. rewrite Hp. cbn. rewrite ?Hp. cbn. rewrite decide_True by done. by exists h.
  - unfold delete_ptr, with_raw. cbn. rewrite decide_True by (apply (o_live _ Ho); auto). eexists. split; [reflexivity|]. by apply owned_raw.
Qed.

(** C38: owning pointers never delete an object twice and never lose one. Any program
    that uses its variables while they exist and passes on only raw pointers it owns
    runs without touching a dead object; at every point each live object has exactly
    one owner, a variable or the program; and when all variables are gone, what is
    left alive is exactly what the program released and kept. *)
Theorem unique_ptr_ownership h :
  runs empty_heap h ->
  owned h /\ (forall c, allowed c h -> exists h', exec c h = Ok h') /\ (vars h = ∅ -> live h = raw h).
Proof.
  intros Hr. assert (Ho : owned h).
  { pose proof empty_owned as He. revert Hr He. generalize empty_heap. intros h0 Hr. induction Hr as [h|c h h1 h2 Ha E _ IH]; intros Ho; [done|].
    apply IH. destruct (exec_owned c h Ho Ha) as (h' & E' & Ho'). congruence. }
  split; [done|]. split.
  - intros c Ha. destruct (exec_owned c h Ho Ha) as (h' & E' & _). eauto.
  - intros Hv. apply set_eq. intros l. rewrite (o_live _ Ho), Hv. split; [intros [[y Hy]|?]; [by rewrite lookup_empty in Hy|done]|auto].
Qed.

(** Make two, move one onto the other (its object is deleted), release, leave. *)
Lemma unique_ptr_ownership_witness :
  exists h, runs empty_heap h /\ live h = {[2]} /\ owned h.
Proof.
  set (h := mk_heap {[2]} 3 ∅ {[2]}).
  assert (Hr : runs empty_heap h).
  { eapply (runs_cons (Make "a")); [reflexivity|reflexivity|]. eapply (runs_cons (Make "b")); [reflexivity|reflexivity|].
    eapply (runs_cons (MoveAssign "a" "b")); [split; eexists; reflexivity|reflexivity|].
    eapply (runs_cons (Release "a")); [eexists; reflexivity|reflexivity|].
    eapply (runs_cons (Destroy "a")); [eexists; reflexivity|reflexivity|].
    eapply (runs_cons (Destroy "b")); [eexists; reflexivity|reflexivity|]. apply runs_nil. }
  exists h. split; [exact Hr|]. split; [reflexivity|]. apply (unique_ptr_ownership h Hr).
Defined.

End UPtr.
