(* ===== verification/DevTree.v ===== *)
(** * Device tree (src/fs/devfs.h)

    Nodes shared by pointers: a store maps node ids to nodes, a directory maps names to
    ids, and a node points back to its parent. The manager's mount table, device list
    and event handlers are the second half. Each function holds its object's mutex, so
    it is atomic. [path] follows parent pointers and gets one step per node of the
    store; a chain of parents that does not end is [Hang]. *)
From Stdlib Require Import ZArith Lia Sorted.
From stdpp Require Import strings numbers gmap base.
From stdpp Require Import list sorting.
From S2P Require Import Prelude.

Open Scope Z_scope.

Module DevTree.

Inductive ErrorCode :=
| SUCCESS | EXISTS | NOT_FOUND | INVALID_ARG | ACCESS_DENIED | IO_ERROR | NOT_DIRECTORY | NOT_FILE | UNSUPPORTED_OP | BUSY.

(** [Node], with the children of a [Directory]. *)
Record node := mk_node {
  n_name : string; n_major : Z; n_minor : Z; is_directory : bool;
  n_parent : option Z; n_children : gmap string Z
}.

Abbreviation store := (gmap Z node).

(** The constructors: numbers are bytes; major 0 is refused by an exception. *)
Definition make_node (id : Z) (name : string) (major minor : Z) (dir : bool) (s : store) : option store :=
  if u8 major =? 0 then None
  else Some (<[id := mk_node name (u8 major) (u8 minor) dir None ∅]> s).

Definition set_parent (id : Z) (p : option Z) (s : store) : outcome store :=
  match s !! id with
  | Some n => Ok (<[id := mk_node (n_name n) (n_major n) (n_minor n) (is_directory n) p (n_children n)]> s)
  | None => Undef "dangling node"
  end.

Definition set_children (id : Z) (c : gmap string Z) (s : store) : outcome store :=
  match s !! id with
  | Some n => Ok (<[id := mk_node (n_name n) (n_major n) (n_minor n) (is_directory n) (n_parent n) c]> s)
  | None => Undef "dangling node"
  end.

Definition get_node (id : Z) (s : store) : outcome node :=
  match s !! id with Some n => Ok n | None => Undef "dangling node" end.

Fixpoint path_loop (fuel : nat) (id : Z) (s : store) : outcome string :=
  match fuel with
  | O => Hang
  | S fuel =>
      n ← get_node id s;
      match n_parent n with
      | Some p => pp ← path_loop fuel p s; Ok (pp +:+ "/" +:+ n_name n)
      | None => Ok ("/" +:+ n_name n)
      end
  end.

Definition path (id : Z) (s : store) : outcome string := path_loop (size s) id s.

(** [Directory::add_child]; [None] is a null pointer. *)
Definition add_child (d : Z) (child : option Z) (s : store) : outcome (ErrorCode * store) :=
  match child with
  | None => Ok (INVALID_ARG, s)
  | Some c =>
      dn ← get_node d s;
      cn ← get_node c s;
      if decide (is_Some (n_children dn !! n_name cn)) then Ok (EXISTS, s)
      else
        s ← set_parent c (Some d) s;
        dn ← get_node d s;
        s ← set_children d (<[n_name cn := c]> (n_children dn)) s;
        Ok (SUCCESS, s)
  end.

Definition remove_child (d : Z) (name : string) (s : store) : outcome (ErrorCode * store) :=
  dn ← get_node d s;
  match n_children dn !! name with
  | None => Ok (NOT_FOUND, s)
  | Some c =>
      s ← set_parent c None s;
      dn ← get_node d s;
      s ← set_children d (delete name (n_children dn)) s;
      Ok (SUCCESS, s)
  end.

(** [find_child<T>]: [want] says whether the node has the type asked for. *)
Definition find_child (want : node -> bool) (d : Z) (name : string) (s : store) : outcome (option Z) :=
  dn ← get_node d s;
  match n_children dn !! name with
  | None => Ok None
  | Some c => cn ← get_node c s; Ok (if want cn then Some c else None)
  end.

(** [Manager::register_device]. *)
Definition register_device (parent device : option Z) (s : store) : outcome (ErrorCode * store) :=
  match parent, device with
  | Some p, Some d => add_child p (Some d) s
  | _, _ => Ok (INVALID_ARG, s)
  end.

(** * The manager *)

Inductive Priority := HIGH | NORMAL | LOW.
Definition prio_rank (p : Priority) : Z := match p with HIGH => 0 | NORMAL => 1 | LOW => 2 end.

(** Handlers carry an identity and their priority. *)
Record handler := mk_handler { h_id : Z; h_priority : Priority }.
Definition handler_lt (a b : handler) : bool := prio_rank (h_priority a) <? prio_rank (h_priority b).

Record manager := mk_manager { m_mounts : gmap string Z; m_devices : list Z; m_handlers : list handler }.

Definition mount (p : string) (root : Z) (m : manager) : ErrorCode * manager :=
  if decide (is_Some (m_mounts m !! p)) then (EXISTS, m)
  else (SUCCESS, mk_manager (<[p := root]> (m_mounts m)) (m_devices m) (m_handlers m)).

Definition unmount (p : string) (m : manager) : ErrorCode * manager :=
  (if decide (is_Some (m_mounts m !! p)) then SUCCESS else NOT_FOUND,
   mk_manager (delete p (m_mounts m)) (m_devices m) (m_handlers m)).

Definition create_device (d : Z) (m : manager) : manager :=
  mk_manager (m_mounts m) (m_devices m ++ [d]) (m_handlers m).

(** [std::upper_bound]: the range from [first] of length [count] is halved until it is
    empty. *)
Fixpoint upper_bound_loop (fuel : nat) (first count : nat) (v : handler) (l : list handler) : outcome nat :=
  match fuel with
  | O => Hang
  | S fuel =>
      match count with
      | O => Ok first
      | _ =>
          let half := (count / 2)%nat in
          mid ← arr_get l (Z.of_nat (first + half));
          if handler_lt v mid then upper_bound_loop fuel first half v l
          else upper_bound_loop fuel (first + half + 1) (count - half - 1) v l
      end
  end.

Definition upper_bound (v : handler) (l : list handler) : outcome nat := upper_bound_loop (S (length l)) 0 (length l) v l.

Definition add_event_handler (h : handler) (m : manager) : outcome manager :=
  i ← upper_bound h (m_handlers m);
  Ok (mk_manager (m_mounts m) (m_devices m) (take i (m_handlers m) ++ h :: drop i (m_handlers m))).

(** * Handlers *)

(** The reference: insert behind everything of the same or higher priority. *)
Fixpoint insert_stable (h : handler) (l : list handler) : list handler :=
  match l with
  | [] => [h]
  | x :: l => if handler_lt h x then h :: x :: l else x :: insert_stable h l
  end.

Definition by_priority : list handler -> Prop := StronglySorted (fun a b => prio_rank (h_priority a) <= prio_rank (h_priority b)).

Lemma sorted_lookup l i j a b :
  by_priority l -> (i < j)%nat -> l !! i = Some a -> l !! j = Some b -> prio_rank (h_priority a) <= prio_rank (h_priority b).
Proof.
  intros Hs. revert i j. induction Hs as [|x l Hs IH Hf]; intros i j Hij Ha Hb; [done|].
  destruct j as [|j]; [lia|]. cbn in Hb. destruct i as [|i]; cbn in Ha.
  - injection Ha as <-. rewrite Forall_forall in Hf. apply Hf. by eapply list_elem_of_lookup_2.
  - apply (IH i j); try done. lia.
Qed.

(** [i] splits the list into what stays before [v] and what comes after. *)
Definition splits (v : handler) (l : list handler) (i : nat) : Prop :=
  (forall j x, (j < i)%nat -> l !! j = Some x -> handler_lt v x = false) /\
  (forall j x, (i <= j)%nat -> l !! j = Some x -> handler_lt v x = true).

Lemma upper_bound_loop_spec fuel first count v l :
  by_priority l -> (count < fuel)%nat -> (first + count <= length l)%nat ->
  (forall j x, (j < first)%nat -> l !! j = Some x -> handler_lt v x = false) ->
  (forall j x, (first + count <= j)%nat -> l !! j = Some x -> handler_lt v x = true) ->
  exists i, upper_bound_loop fuel first count v l = Ok i /\ (i <= length l)%nat /\ splits v l i.
Proof.
  intros Hs. revert first count. induction fuel as [|fuel IH]; intros first count Hf Hl Hlo Hhi; [lia|].
  cbn [upper_bound_loop]. destruct count as [|count].
  - exists first. rewrite Nat.add_0_r in Hhi. split; [done|]. split; [lia|]. by split.
  - set (n := S count) in *. set (half := (n / 2)%nat).
    assert (Hh : (half < n)%nat) by (apply Nat.div_lt; lia).
    destruct (lookup_lt_is_Some_2 l (first + half)%nat) as [mid Hm]; [lia|].
    rewrite (proj2 (arr_get_Ok l (Z.of_nat (first + half)) mid)) by (rewrite Nat2Z.id; split; [lia|done]). cbn [mbind outcome_bind].
    destruct (handler_lt v mid) eqn:E; unfold handler_lt in E; zbool.
    + apply IH; [lia|lia|done|]. intros j x Hj Hx. unfold handler_lt. apply Z.ltb_lt.
      destruct (decide (j = (first + half)%nat)) as [->|]; [congruence|].
      pose proof (sorted_lookup l (first + half) j mid x Hs ltac:(lia) Hm Hx). lia.
    + apply IH; [lia|lia| |].
      * intros j x Hj Hx. unfold handler_lt. apply Z.ltb_ge.
        destruct (decide (j = (first + half)%nat)) as [->|]; [replace x with mid by congruence; lia|].
        pose proof (sorted_lookup l j (first + half) x mid Hs ltac:(lia) Hx Hm). lia.
      * intros j x Hj Hx. apply (Hhi j x); [lia|done].
Qed.

Lemma splits_insert v l i : splits v l i -> (i <= length l)%nat -> take i l ++ v :: drop i l = insert_stable v l.
Proof.
  revert i. induction l as [|x l IH]; intros i [H1 H2] Hi; cbn [insert_stable].
  - destruct i; [done|cbn in Hi; lia].
  - destruct i as [|i].
    + by rewrite (H2 0%nat x ltac:(lia) eq_refl).
    + rewrite (H1 0%nat x ltac:(lia) eq_refl). cbn. f_equal. apply IH; [|cbn in Hi; lia].
      split; intros j y Hj Hy; [apply (H1 (S j) y)|apply (H2 (S j) y)]; try done; lia.
Qed.

Lemma insert_sorted v l : by_priority l -> by_priority (insert_stable v l).
Proof.
  unfold by_priority. induction 1 as [|x l Hs IH Hf]; cbn [insert_stable]; [repeat constructor|].
  unfold handler_lt. destruct (prio_rank (h_priority v) <? prio_rank (h_priority x)) eqn:E; zbool.
  - constructor; [by constructor|]. constructor; [lia|]. eapply Forall_impl; [exact Hf|]. cbn. intros y Hy. lia.
  - constructor; [done|]. clear IH Hs. induction Hf as [|y l Hy Hf IH]; cbn [insert_stable]; [repeat constructor; lia|].
    destruct (handler_lt v y); repeat constructor; try done; try lia.
Qed.

(** on handlers in order of priority the binary search terminates in bounds, the
    new handler goes behind all of the same or higher priority and before all of lower
    priority, the others keep their order, and the list stays in order. *)
Theorem add_event_handler_correct h m :
  by_priority (m_handlers m) ->
  exists m', add_event_handler h m = Ok m' /\ m_handlers m' = insert_stable h (m_handlers m) /\ by_priority (m_handlers m') /\
    m_mounts m' = m_mounts m /\ m_devices m' = m_devices m.
Proof.
  intros Hs. unfold add_event_handler, upper_bound.
  destruct (upper_bound_loop_spec (S (length (m_handlers m))) 0 (length (m_handlers m)) h (m_handlers m)) as (i & -> & Hi & Hsp);
    [done|lia|lia|intros; lia|intros j x Hj Hx; apply lookup_lt_Some in Hx; lia|].
  cbn [mbind outcome_bind]. eexists. split; [reflexivity|]. cbn. rewrite (splits_insert h _ i Hsp Hi). split_and!; try done. by apply insert_sorted.
Qed.

Lemma add_event_handler_correct_witness :
  exists m', add_event_handler (mk_handler 9 NORMAL) (mk_manager ∅ [] [mk_handler 1 HIGH; mk_handler 2 NORMAL; mk_handler 3 LOW]) = Ok m' /\
    h_id <$> m_handlers m' = [1; 2; 9; 3].
Proof.
  destruct (add_event_handler_correct (mk_handler 9 NORMAL) (mk_manager ∅ [] [mk_handler 1 HIGH; mk_handler 2 NORMAL; mk_handler 3 LOW])) as (m' & E & Hm & _).
  - cbn. repeat constructor; cbn; lia.
  - exists m'. split; [exact E|]. rewrite Hm. reflexivity.
Defined.

(** * The tree *)

(** The path of a node and the nodes it goes through, by the parent pointers. *)
Inductive has_path (s : store) : Z -> string -> list Z -> Prop :=
| path_root id n : s !! id = Some n -> n_parent n = None -> has_path s id ("/" +:+ n_name n) [id]
| path_step id n p pp anc :
    s !! id = Some n -> n_parent n = Some p -> has_path s p pp anc ->
    has_path s id (pp +:+ "/" +:+ n_name n) (id :: anc).

Lemma path_loop_complete s id p anc fuel :
  has_path s id p anc -> (length anc <= fuel)%nat -> path_loop fuel id s = Ok p.
Proof.
  intros Hp. revert fuel. induction Hp as [id n Hn Hr|id n p pp anc Hn Hr Hp IH]; intros fuel Hf; destruct fuel as [|fuel]; cbn in Hf; try lia.
  - cbn. unfold get_node. rewrite Hn. cbn. by rewrite Hr.
  - cbn [path_loop]. unfold get_node. rewrite Hn. cbn [mbind outcome_bind]. rewrite Hr, IH by lia. done.
Qed.

(** Paths depend only on the names and parents of the nodes they go through. *)
Lemma has_path_ext s s' id p anc :
  (forall i n, i ∈ anc -> s !! i = Some n -> exists n', s' !! i = Some n' /\ n_name n' = n_name n /\ n_parent n' = n_parent n) ->
  has_path s id p anc -> has_path s' id p anc.
Proof.
  intros He Hp. induction Hp as [id n Hn Hr|id n p pp anc Hn Hr Hp IH].
  - destruct (He id n) as (n' & Hn' & <- & Hp'); [set_solver|done|]. apply (path_root s' id n'); [done|by rewrite Hp'].
  - destruct (He id n) as (n' & Hn' & <- & Hp'); [set_solver|done|]. apply (path_step s' id n' p); [done|by rewrite Hp'|].
    apply IH. intros i m Hi. apply He. set_solver.
Qed.

(** The store after [add_child d (Some c)]. *)
Definition added (d c : Z) (dn cn : node) (s : store) : store :=
  <[d := mk_node (n_name dn) (n_major dn) (n_minor dn) (is_directory dn) (n_parent dn) (<[n_name cn := c]> (n_children dn))]>
    (<[c := mk_node (n_name cn) (n_major cn) (n_minor cn) (is_directory cn) (Some d) (n_children cn)]> s).

Lemma add_child_run d c dn cn s :
  d <> c -> s !! d = Some dn -> s !! c = Some cn -> n_children dn !! n_name cn = None ->
  add_child d (Some c) s = Ok (SUCCESS, added d c dn cn s).
Proof.
  intros Hne Hd Hc Hf. unfold add_child, get_node. rewrite Hd, Hc. cbn [mbind outcome_bind]. rewrite Hf.
  rewrite decide_False by (intros [? ?]; done). unfold set_parent. rewrite Hc. cbn [mbind outcome_bind].
  rewrite lookup_insert_ne, Hd by done. cbn [mbind outcome_bind]. unfold set_children. rewrite lookup_insert_ne, Hd by done. done.
Qed.

(** adding and removing. A node without a parent that is added under a free name to
    a directory which is not below it is found there under its name, its path is the
    directory's path followed by its name, and removing it again restores the tree
    exactly. *)
Theorem add_remove_child d c dn cn s pd anc :
  d <> c -> s !! d = Some dn -> s !! c = Some cn -> n_children dn !! n_name cn = None -> n_parent cn = None ->
  has_path s d pd anc -> c ∉ anc ->
  exists s', add_child d (Some c) s = Ok (SUCCESS, s') /\
    find_child (fun _ => true) d (n_name cn) s' = Ok (Some c) /\
    (forall fuel, (length anc < fuel)%nat -> path_loop fuel c s' = Ok (pd +:+ "/" +:+ n_name cn)) /\
    remove_child d (n_name cn) s' = Ok (SUCCESS, s).
Proof.
  intros Hne Hd Hc Hf Hp Hpath Hanc. exists (added d c dn cn s). split; [by apply add_child_run|].
  assert (Hd' : added d c dn cn s !! d = Some (mk_node (n_name dn) (n_major dn) (n_minor dn) (is_directory dn) (n_parent dn) (<[n_name cn := c]> (n_children dn))))
    by (unfold added; by rewrite lookup_insert_eq).
  assert (Hc' : added d c dn cn s !! c = Some (mk_node (n_name cn) (n_major cn) (n_minor cn) (is_directory cn) (Some d) (n_children cn)))
    by (unfold added; by rewrite lookup_insert_ne, lookup_insert_eq).
  split_and!.
  - unfold find_child, get_node. rewrite Hd'. cbn [mbind outcome_bind n_children]. rewrite lookup_insert_eq, Hc'. done.
  - intros fuel Hl. apply (path_loop_complete _ _ _ (c :: anc)); [|cbn; lia].
    apply (path_step _ c (mk_node (n_name cn) (n_major cn) (n_minor cn) (is_directory cn) (Some d) (n_children cn)) d pd anc); [done|done|].
    apply (has_path_ext s); [|done]. intros i n Hi Hn. destruct (decide (i = d)) as [->|Hid].
    + eexists. split; [exact Hd'|]. rewrite Hd in Hn. injection Hn as <-. done.
    + exists n. split; [|done]. unfold added. assert (i <> c) by set_solver. by rewrite !lookup_insert_ne.
  - unfold remove_child, get_node. rewrite Hd'. cbn [mbind outcome_bind n_children]. rewrite lookup_insert_eq.
    unfold set_parent. rewrite Hc'. cbn [mbind outcome_bind]. rewrite lookup_insert_ne, Hd' by done. cbn [mbind outcome_bind n_children].
    unfold set_children. rewrite lookup_insert_ne, Hd' by done. cbn [mbind outcome_bind n_name n_major n_minor is_directory n_parent n_children].
    rewrite delete_insert_id by done. do 2 f_equal. apply map_eq. intros k. unfold added.
    destruct (decide (k = d)) as [->|]; [rewrite lookup_insert_eq, Hd; by destruct dn|].
    destruct (decide (k = c)) as [->|]; [|by rewrite !lookup_insert_ne].
    rewrite lookup_insert_ne, lookup_insert_eq by done. rewrite Hc. destruct cn. cbn in *. by subst.
Qed.

(** A root directory and a device. *)
Definition small_tree : store :=
  <[1 := mk_node "dev" 1 0 true None ∅]> (<[2 := mk_node "tty" 4 1 false None ∅]> ∅).

Lemma add_remove_child_witness :
  exists s', add_child 1 (Some 2) small_tree = Ok (SUCCESS, s') /\ path 2 s' = Ok "/dev/tty" /\ remove_child 1 "tty" s' = Ok (SUCCESS, small_tree).
Proof.
  destruct (add_remove_child 1 2 (mk_node "dev" 1 0 true None ∅) (mk_node "tty" 4 1 false None ∅) small_tree "/dev" [1]) as (s' & H1 & _ & H2 & H3).
  - discriminate.
  - reflexivity.
  - reflexivity.
  - reflexivity.
  - reflexivity.
  - apply (path_root small_tree 1 (mk_node "dev" 1 0 true None ∅)); reflexivity.
  - set_solver.
  - exists s'. split; [exact H1|]. split; [|exact H3]. vm_compute in H1. injection H1 as <-. reflexivity.
Defined.

(** A directory may be added to itself; its path then has no end. *)
Lemma self_child_has_no_path :
  exists s, add_child 1 (Some 1) small_tree = Ok (SUCCESS, s) /\ forall fuel, path_loop fuel 1 s = Hang.
Proof.
  eexists. split; [vm_compute; reflexivity|]. induction fuel as [|fuel IH]; [done|]. cbn [path_loop]. unfold get_node.
  match goal with |- context [?m !! 1] => change (m !! 1) with (Some (mk_node "dev" 1 0 true (Some 1) {["dev" := 1]})) end.
  cbn [mbind outcome_bind n_parent]. by rewrite IH.
Qed.

(** A node in two directories loses its parent when it is removed from one of them. *)
Lemma shared_child_orphaned :
  let s0 := <[3 := mk_node "bus" 1 1 true None ∅]> small_tree in
  exists s1 s2 s3, add_child 1 (Some 2) s0 = Ok (SUCCESS, s1) /\ add_child 3 (Some 2) s1 = Ok (SUCCESS, s2) /\
    remove_child 1 "tty" s2 = Ok (SUCCESS, s3) /\ find_child (fun _ => true) 3 "tty" s3 = Ok (Some 2) /\ path 2 s3 = Ok "/tty".
Proof. eexists _, _, _. split_and!; vm_compute; reflexivity. Qed.

End DevTree.
