(* ===== verification/Text.v ===== *)
(** * Text of the C++ library, as the sources use it

    A string is the list of its characters, as integers. [getline] reads up to a
    delimiter, [print_int] is [operator<<] on an [int] and [stoi] is [std::stoi],
    whose two exceptions are values. The file holds what these promise each other:
    reading back a printed number, and splitting a joined text. *)
From Stdlib Require Import ZArith Lia Ascii String.
From stdpp Require Import strings numbers gmap base.
From stdpp Require Import list.
From S2P Require Import Prelude.

Open Scope Z_scope.

Module Text.

Abbreviation text := (list Z).

(** A string literal. *)
Definition lit (s : string) : text := (fun c => Z.of_N (Ascii.N_of_ascii c)) <$> String.list_ascii_of_string s.

Definition NEWLINE : Z := 10.

(** [s[0]] of a constant string: the terminator when it is empty. *)
Definition first (s : text) : Z := match s with [] => 0 | c :: _ => c end.

(** ** Reading up to a delimiter *)

Fixpoint upto (d : Z) (s : text) : text * text :=
  match s with
  | [] => ([], [])
  | c :: s => if c =? d then ([], s) else let '(a, r) := upto d s in (c :: a, r)
  end.

(** [std::getline(stream, out, d)]: fails only when nothing is left. *)
Definition getline (d : Z) (s : text) : option (text * text) :=
  match s with [] => None | _ => Some (upto d s) end.

(** ** Numbers *)

Definition INT_MIN : Z := - 2 ^ 31.
Definition INT_MAX : Z := 2 ^ 31 - 1.
Definition in_int (z : Z) : bool := (INT_MIN <=? z) && (z <=? INT_MAX).

Definition is_space (c : Z) : bool := ((9 <=? c) && (c <=? 13)) || (c =? 32).
Definition is_digit (c : Z) : bool := (48 <=? c) && (c <=? 57).

Fixpoint dec (fuel : nat) (n : Z) (acc : text) : text :=
  match fuel with
  | O => acc
  | S fuel => if n <? 10 then (48 + n) :: acc else dec fuel (n / 10) ((48 + n mod 10) :: acc)
  end.

(** An [int] has at most ten decimal digits. *)
Definition print_int (z : Z) : text := if z <? 0 then 45 :: dec 10 (- z) [] else dec 10 z [].

Fixpoint skip_space (s : text) : text :=
  match s with
  | [] => []
  | c :: r => if is_space c then skip_space r else s
  end.

Fixpoint read_digits (s : text) (acc : Z) : Z :=
  match s with
  | [] => acc
  | c :: s => if is_digit c then read_digits s (acc * 10 + (c - 48)) else acc
  end.

Inductive conversion := Value (z : Z) | InvalidArgument | OutOfRange.

Definition sign (s : text) : bool * text :=
  match s with
  | 45 :: r => (true, r)
  | 43 :: r => (false, r)
  | _ => (false, s)
  end.

(** [std::stoi]: white space, a sign, decimal digits; what follows is ignored. *)
Definition stoi (s : text) : conversion :=
  let '(neg, r) := sign (skip_space s) in
  if is_digit (first r) then
    let n := read_digits r 0 in
    let z := if neg then - n else n in
    if in_int z then Value z else OutOfRange
  else InvalidArgument.

(** * Properties *)

Lemma upto_app d a r : d ∉ a -> upto d (a ++ d :: r) = (a, r).
Proof.
  induction a as [|c a IH]; intros H; cbn [app upto].
  - by rewrite Z.eqb_refl.
  - apply not_elem_of_cons in H as [Hc H]. destruct (Z.eqb_spec c d); [by subst|]. by rewrite IH.
Qed.

Lemma upto_length d s a r : upto d s = (a, r) -> (length a + length r <= length s)%nat.
Proof.
  revert a r. induction s as [|c s IH]; intros a r; cbn [upto].
  - intros [= <- <-]. cbn. lia.
  - destruct (c =? d); [intros [= <- <-]; cbn; lia|]. destruct (upto d s) as [a' r'] eqn:E.
    intros [= <- <-]. specialize (IH _ _ eq_refl). cbn. lia.
Qed.

Lemma upto_shorter d s a r : s <> [] -> upto d s = (a, r) -> (length r < length s)%nat.
Proof.
  destruct s as [|c s]; [done|]. cbn [upto]. intros _.
  destruct (c =? d); [intros [= <- <-]; cbn; lia|]. destruct (upto d s) as [a' r'] eqn:E.
  intros [= <- <-]. apply upto_length in E. cbn. lia.
Qed.

Lemma upto_notin d s a r : upto d s = (a, r) -> d ∉ a.
Proof.
  revert a r. induction s as [|c s IH]; intros a r; cbn [upto].
  - intros [= <- <-]. apply not_elem_of_nil.
  - destruct (Z.eqb_spec c d) as [E|E]; [intros [= <- <-]; apply not_elem_of_nil|].
    destruct (upto d s) as [a' r']. intros [= <- <-]. apply not_elem_of_cons. split; [done|by eapply IH].
Qed.

Lemma dec_read f n acc r :
  0 <= n < 10 ^ Z.of_nat f -> read_digits (dec f n acc ++ r) 0 = read_digits (acc ++ r) n.
Proof.
  revert n acc. induction f as [|f IH]; intros n acc H.
  - cbn in H. assert (n = 0) as -> by lia. done.
  - cbn [dec]. destruct (Z.ltb_spec n 10).
    + cbn [app read_digits]. unfold is_digit. zcases; [f_equal; lia|lia..].
    + rewrite IH; [cbn [app read_digits]; unfold is_digit|].
      * pose proof (Z.div_mod n 10 ltac:(lia)). pose proof (Z.mod_pos_bound n 10 ltac:(lia)).
        zcases; [f_equal; lia|lia..].
      * split; [apply Z.div_pos; lia|]. apply Z.div_lt_upper_bound; [lia|].
        rewrite Nat2Z.inj_succ, Z.pow_succ_r in H by lia. lia.
Qed.

Lemma dec_digits f n acc : 0 <= n -> Forall (fun c => is_digit c = true) acc ->
  Forall (fun c => is_digit c = true) (dec f n acc).
Proof.
  revert n acc. induction f as [|f IH]; intros n acc Hn H; [done|]. cbn [dec].
  destruct (Z.ltb_spec n 10).
  - constructor; [unfold is_digit; zcases; lia|done].
  - apply IH; [apply Z.div_pos; lia|]. constructor; [|done].
    pose proof (Z.mod_pos_bound n 10 ltac:(lia)). unfold is_digit. zcases; lia.
Qed.

Lemma dec_cons f n acc : exists c t, dec (S f) n acc = c :: t.
Proof.
  revert n acc. induction f as [|f IH]; intros n acc.
  - cbn. destruct (n <? 10); eauto.
  - cbn [dec]. destruct (n <? 10); [eauto|]. apply IH.
Qed.

(** The digits of a printed number: the first is one, whatever follows. *)
Lemma dec_first n : 0 <= n -> exists c t, dec 10 n [] = c :: t /\ is_digit c = true.
Proof.
  intros Hn. destruct (dec_cons 9 n []) as (c & t & E). exists c, t. split; [done|].
  pose proof (dec_digits 10 n [] Hn (List.Forall_nil _)) as H. rewrite E in H. by inversion H.
Qed.

Lemma digit_plain c : is_digit c = true -> is_space c = false /\ c <> 45 /\ c <> 43.
Proof. unfold is_digit, is_space. intros H. zbool. repeat split; zcases; lia. Qed.

Lemma sign_digit c t : is_digit c = true -> sign (c :: t) = (false, c :: t).
Proof.
  intros H. destruct (digit_plain c H) as (_ & H1 & H2). unfold sign.
  destruct c as [|p|p]; try done.
  repeat (destruct p as [p|p|]; try done); exfalso; lia.
Qed.

Definition no_digit (r : text) : Prop := is_digit (first r) = false.

Lemma read_stops r n : no_digit r -> read_digits r n = n.
Proof. destruct r as [|c r]; [done|]. unfold no_digit. cbn. by intros ->. Qed.

Lemma stoi_dec (neg : bool) n r :
  0 <= n < 10 ^ 10 -> no_digit r -> in_int (if neg then - n else n) = true ->
  stoi ((if neg then [45] else []) ++ dec 10 n [] ++ r) = Value (if neg then - n else n).
Proof.
  intros Hn Hr Hi. destruct (dec_first n ltac:(lia)) as (c & t & E & Hc).
  assert (HR : read_digits (dec 10 n [] ++ r) 0 = n).
  { rewrite dec_read by (cbn; lia). cbn [app]. by apply read_stops. }
  destruct (digit_plain c Hc) as (Hs & _). unfold stoi. rewrite E in *. destruct neg; cbn [app] in *.
  - cbn [skip_space]. replace (is_space 45) with false by reflexivity. cbn [sign first].
    rewrite Hc, HR, Hi. done.
  - cbn [skip_space]. rewrite Hs, (sign_digit c _ Hc). cbn [first]. rewrite Hc, HR, Hi. done.
Qed.

(** A printed [int] is read back, whatever follows it. *)
Lemma stoi_print_int z r : in_int z = true -> no_digit r -> stoi (print_int z ++ r) = Value z.
Proof.
  intros Hi Hr. pose proof Hi as Hb. unfold in_int, INT_MIN, INT_MAX in Hb. zbool. unfold print_int.
  destruct (Z.ltb_spec z 0).
  - pose proof (stoi_dec true (- z) r) as H'. cbn [app] in *. rewrite Z.opp_involutive in H'. apply H'; [lia|done|done].
  - apply (stoi_dec false z r); [lia|done|done].
Qed.

Lemma stoi_space s : stoi (32 :: s) = stoi s.
Proof. reflexivity. Qed.

(** A printed number holds digits and a sign only. *)
Lemma print_int_plain z c : c ∈ print_int z -> c = 45 \/ is_digit c = true.
Proof.
  unfold print_int. intros H.
  assert (HF : forall n, 0 <= n -> c ∈ dec 10 n [] -> is_digit c = true).
  { intros n Hn. pose proof (dec_digits 10 n [] Hn (List.Forall_nil _)) as HF. rewrite Forall_forall in HF. apply HF. }
  destruct (Z.ltb_spec z 0).
  - apply elem_of_cons in H as [->|H]; [by left|]. right. apply (HF (- z)); [lia|done].
  - right. by apply (HF z).
Qed.

Lemma print_int_cons z : print_int z <> [].
Proof.
  unfold print_int. destruct (z <? 0); [done|]. destruct (dec_cons 9 z []) as (c & t & ->). done.
Qed.

End Text.
