(* ===== verification/CpuFeatures.v ===== *)
(** * Processor features (src/arch/x86)

    [x86.c] is a class that answers feature queries from a CPUID record and remembers the
    answers, [cpuid.h] a cache in front of the processor's [cpuid] instruction with the
    vendor string, [x86.h] a program that reads sixteen features and prints them. The
    instruction and the functions that are not in the sources are parameters. *)
From Stdlib Require Import ZArith Lia.
From stdpp Require Import strings numbers gmap base.
From stdpp Require Import list.
From S2P Require Import Prelude Text.
Open Scope Z_scope.

Module Cpu.
Import Text.

(** ** x86.c: [CPUInfo] *)

Inductive InstructionSet :=
| SSE | SSE2 | SSE3 | SSSE3 | SSE4_1 | SSE4_2 | AVX | AVX2
| FMA | FMA4 | FMA3 | AVX512F | AVX512CD | AVX512ER | AVX512PF | AVX512EF.

(** The position in the enumeration; the value is [1] shifted by it. *)
Definition set_shift (set : InstructionSet) : Z :=
  match set with
  | SSE => 0 | SSE2 => 1 | SSE3 => 2 | SSSE3 => 3 | SSE4_1 => 4 | SSE4_2 => 5 | AVX => 6 | AVX2 => 7
  | FMA => 8 | FMA4 => 9 | FMA3 => 10 | AVX512F => 11 | AVX512CD => 12 | AVX512ER => 13
  | AVX512PF => 14 | AVX512EF => 15
  end.
Definition set_value (set : InstructionSet) : Z := Z.shiftl 1 (set_shift set).

Inductive Feature := F_FP | F_ASM | F_AVX | F_AES | F_RDRND | F_FMA | F_CVT16 | F_MOVBE.

Definition feature_shift (f : Feature) : Z :=
  match f with
  | F_FP => 0 | F_ASM => 1 | F_AVX => 2 | F_AES => 3 | F_RDRND => 4 | F_FMA => 5 | F_CVT16 => 6 | F_MOVBE => 7
  end.
Definition feature_value (f : Feature) : Z := Z.shiftl 1 (feature_shift f).

Record CPUID := { vendor_id : Z; device_id : Z; revision : Z; features : Z; instruction_sets : list Z }.

(** The object holds a reference to the record, which is therefore an argument of each
    query, and the two caches, keyed by the values of the enumerations. *)
Record CPUInfo := { feature_cache : gmap Z bool; instruction_set_cache : gmap Z bool }.

Definition new_info : CPUInfo := {| feature_cache := ∅; instruction_set_cache := ∅ |}.

Definition hasFeature (cpuid : CPUID) (feature : Feature) (c : CPUInfo) : bool * CPUInfo :=
  match feature_cache c !! feature_value feature with
  | None =>
      let result := negb (Z.land (features cpuid) (feature_value feature) =? 0) in
      (result, {| feature_cache := <[feature_value feature := result]> (feature_cache c);
                  instruction_set_cache := instruction_set_cache c |})
  | Some b => (b, c)
  end.

(** Reading past the array is undefined. *)
Definition hasInstructionSet (cpuid : CPUID) (set : InstructionSet) (c : CPUInfo) : outcome (bool * CPUInfo) :=
  match instruction_set_cache c !! set_value set with
  | None =>
      let index := set_value set / 32 in
      let bit := set_value set mod 32 in
      word ← arr_get (instruction_sets cpuid) index;
      let result := negb (Z.land word (Z.shiftl 1 bit) =? 0) in
      Ok (result, {| feature_cache := feature_cache c;
                     instruction_set_cache := <[set_value set := result]> (instruction_set_cache c) |})
  | Some b => Ok (b, c)
  end.

(** ** cpuid.h *)

Record cpuid_t := { eax : Z; ebx : Z; ecx : Z; edx : Z }.

Section Instruction.
(** The instruction at the time of a call: its answer to a function and a subfunction.
    It depends on the processor that executes it and on the state of that processor. *)
Context (instr : Z -> Z -> cpuid_t).

(** The global cache, with the functions for which the instruction was executed. *)
Record cpu := { cache : gmap Z cpuid_t; executed : list Z }.

(** The keys of the cache are of type [int]. *)
Definition cpuid (function : Z) (s : cpu) : cpuid_t * cpu :=
  match cache s !! s32 function with
  | None =>
      let info := instr function 0 in
      (info, {| cache := <[s32 function := info]> (cache s); executed := function :: executed s |})
  | Some info => (info, s)
  end.

Definition cpuid_ex (function subfunction : Z) : cpuid_t := instr function subfunction.

(** A 32-bit store on a little-endian machine. *)
Definition store32 (x : Z) : list Z :=
  [Z.land x 255; Z.land (Z.shiftr x 8) 255; Z.land (Z.shiftr x 16) 255; Z.land (Z.shiftr x 24) 255].

Definition cpuid_vendor (s : cpu) : list Z * cpu :=
  let '(info, s) := cpuid 0 s in
  (store32 (ebx info) ++ store32 (edx info) ++ store32 (ecx info) ++ [0], s).

End Instruction.

(** A query: the instruction as it is then, and the function asked for. *)
Abbreviation query := ((Z -> Z -> cpuid_t) * Z)%type.

(** A program that asks for several functions, one after the other. *)
Fixpoint cpuid_all (queries : list query) (s : cpu) : list cpuid_t * cpu :=
  match queries with
  | [] => ([], s)
  | (instr, f) :: qs =>
      let '(i, s) := cpuid instr f s in
      let '(infos, s) := cpuid_all qs s in
      (i :: infos, s)
  end.

(** ** x86.h *)

(** [cpuid_get_feature] and the constants it is given are declared nowhere in the
    sources. *)
Inductive cpuid_const :=
| CPUID_SSE | CPUID_SSE2 | CPUID_SSE3 | CPUID_SSSE3 | CPUID_SSE4_1 | CPUID_SSE4_2 | CPUID_AVX | CPUID_AVX2
| CPUID_FMA | CPUID_FMA4 | CPUID_FMA3 | CPUID_AVX512F | CPUID_AVX512CD | CPUID_AVX512ER | CPUID_AVX512PF | CPUID_AVX512EF.

Record cpu_features_t := {
  sse : Z; sse2 : Z; sse3 : Z; ssse3 : Z; sse4_1 : Z; sse4_2 : Z; avx : Z; avx2 : Z;
  fma : Z; fma4 : Z; fma3 : Z; avx512f : Z; avx512cd : Z; avx512er : Z; avx512pf : Z; avx512ef : Z
}.

Definition init_cpuid (cpuid_get_feature : cpuid_const -> Z) : cpu_features_t :=
  {| sse := cpuid_get_feature CPUID_SSE; sse2 := cpuid_get_feature CPUID_SSE2; sse3 := cpuid_get_feature CPUID_SSE3;
     ssse3 := cpuid_get_feature CPUID_SSSE3; sse4_1 := cpuid_get_feature CPUID_SSE4_1; sse4_2 := cpuid_get_feature CPUID_SSE4_2;
     avx := cpuid_get_feature CPUID_AVX; avx2 := cpuid_get_feature CPUID_AVX2; fma := cpuid_get_feature CPUID_FMA;
     fma4 := cpuid_get_feature CPUID_FMA4; fma3 := cpuid_get_feature CPUID_FMA3; avx512f := cpuid_get_feature CPUID_AVX512F;
     avx512cd := cpuid_get_feature CPUID_AVX512CD; avx512er := cpuid_get_feature CPUID_AVX512ER;
     avx512pf := cpuid_get_feature CPUID_AVX512PF; avx512ef := cpuid_get_feature CPUID_AVX512EF |}.

Definition feature_line (label : string) (v : Z) : text := lit label ++ print_int v ++ [NEWLINE].

Definition print_cpuid (c : cpu_features_t) : text :=
  lit "CPUID Information:" ++ [NEWLINE] ++
  feature_line " SSE: " (sse c) ++ feature_line " SSE2: " (sse2 c) ++ feature_line " SSE3: " (sse3 c) ++
  feature_line " SSSE3: " (ssse3 c) ++ feature_line " SSE4.1: " (sse4_1 c) ++ feature_line " SSE4.2: " (sse4_2 c) ++
  feature_line " AVX: " (avx c) ++ feature_line " AVX2: " (avx2 c) ++ feature_line " FMA: " (fma c) ++
  feature_line " FMA4: " (fma4 c) ++ feature_line " FMA3: " (fma3 c) ++ feature_line " AVX512F: " (avx512f c) ++
  feature_line " AVX512CD: " (avx512cd c) ++ feature_line " AVX512ER: " (avx512er c) ++
  feature_line " AVX512PF: " (avx512pf c) ++ feature_line " AVX512EF: " (avx512ef c).

(** * Theorems *)

(** ** Queries of a [CPUInfo] *)

Lemma value_bit x n : 0 <= n -> negb (Z.land x (Z.shiftl 1 n) =? 0) = Z.testbit x n.
Proof.
  intros Hn. rewrite Z.shiftl_1_l. destruct (Z.testbit x n) eqn:E.
  - apply negb_true_iff, Z.eqb_neq. intros H. apply (f_equal (fun z => Z.testbit z n)) in H.
    rewrite Z.land_spec, Z.pow2_bits_true, E, Z.bits_0 in H by done. done.
  - apply negb_false_iff, Z.eqb_eq, Z.bits_inj'. intros i Hi. rewrite Z.land_spec, Z.pow2_bits_eqb, Z.bits_0 by done.
    destruct (Z.eqb_spec n i) as [->|]; [by rewrite E|by rewrite andb_false_r].
Qed.

(** What the record says. *)
Definition feature_bit (r : CPUID) (f : Feature) : bool := Z.testbit (features r) (feature_shift f).

Lemma feature_value_inj f g : feature_value f = feature_value g -> f = g.
Proof. by destruct f, g. Qed.

(** Remembered answers are the record's. *)
Definition coherent (r : CPUID) (c : CPUInfo) : Prop :=
  forall f b, feature_cache c !! feature_value f = Some b -> b = feature_bit r f.

Lemma hasFeature_spec r f c :
  coherent r c -> (hasFeature r f c).1 = feature_bit r f /\ coherent r (hasFeature r f c).2.
Proof.
  intros Hc. unfold hasFeature. destruct (feature_cache c !! feature_value f) as [b|] eqn:E; cbn.
  - split; [by apply Hc|done].
  - assert (negb (Z.land (features r) (feature_value f) =? 0) = feature_bit r f) as ->
      by (apply value_bit; by destruct f).
    split; [done|]. intros g b Hg. cbn in Hg. apply lookup_insert_Some in Hg as [[Hv <-]|[_ Hg]]; [|by apply Hc].
    by apply feature_value_inj in Hv as ->.
Qed.

(** The answers of an object are those of the record only as long as the record, which
    it refers to, is not changed. *)
Lemma hasFeature_stale :
  let r0 := {| vendor_id := 0; device_id := 0; revision := 0; features := 0; instruction_sets := [0; 0; 0; 0] |} in
  let r1 := {| vendor_id := 0; device_id := 0; revision := 0; features := 8; instruction_sets := [0; 0; 0; 0] |} in
  (hasFeature r1 F_AES (hasFeature r0 F_AES new_info).2).1 = false /\ feature_bit r1 F_AES = true.
Proof. done. Qed.

(** [hasInstructionSet] divides the mask, not its position: seven of the sixteen sets
    are looked up inside the array, at the place their mask gives, and the other nine
    past its end. *)
Lemma hasInstructionSet_spec r set c :
  length (instruction_sets r) = 4%nat -> instruction_set_cache c !! set_value set = None ->
  (set_shift set < 7 -> exists word c', instruction_sets r !! Z.to_nat (set_value set / 32) = Some word /\
     hasInstructionSet r set c = Ok (Z.testbit word (set_value set mod 32), c')) /\
  (7 <= set_shift set -> hasInstructionSet r set c = Undef "array index").
Proof.
  intros Hl Hc. unfold hasInstructionSet. rewrite Hc. split; intros Hs.
  - destruct (lookup_lt_is_Some_2 (instruction_sets r) (Z.to_nat (set_value set / 32))) as [word Hw].
    { rewrite Hl. destruct set; cbn in Hs; try lia; vm_compute; lia. }
    eexists word, _. split; [done|]. unfold arr_get. rewrite Hw.
    rewrite (proj2 (Z.ltb_ge _ 0)) by (by destruct set). cbn [mbind outcome_bind].
    by rewrite value_bit by (by apply Z.mod_pos_bound).
  - unfold arr_get. assert (instruction_sets r !! Z.to_nat (set_value set / 32) = None) as ->.
    { apply lookup_ge_None_2. rewrite Hl. destruct set; cbn in Hs; try lia; vm_compute; lia. }
    by destruct set.
Qed.

(** ** The cache in front of the instruction *)

Lemma s32_inj x y : 0 <= x < 2 ^ 32 -> 0 <= y < 2 ^ 32 -> s32 x = s32 y -> x = y.
Proof.
  intros Hx Hy. unfold s32, signed, wrap. rewrite !Z.mod_small by lia.
  destruct (Z.ltb_spec x (2 ^ (32 - 1))), (Z.ltb_spec y (2 ^ (32 - 1))); lia.
Qed.

(** The answer of the instruction when a function was asked for first. *)
Fixpoint first_answer (queries : list query) (f : Z) : option cpuid_t :=
  match queries with
  | [] => None
  | (instr, g) :: qs => if g =? f then Some (instr f 0) else first_answer qs f
  end.

Lemma first_answer_app h h' f :
  first_answer (h ++ h') f = match first_answer h f with Some i => Some i | None => first_answer h' f end.
Proof. induction h as [|[instr g] h IH]; cbn [app first_answer]; [done|]. by destruct (g =? f). Qed.

Lemma first_answer_none h f : first_answer h f = None <-> f ∉ h.*2.
Proof.
  induction h as [|[instr g] h IH]; cbn [first_answer fmap list_fmap]; [split; [intros _; apply not_elem_of_nil|done]|].
  rewrite not_elem_of_cons. cbn. destruct (Z.eqb_spec g f) as [->|]; [naive_solver|]. rewrite IH. naive_solver.
Qed.

Lemma first_answer_position h f i : first_answer h f = Some i ->
  exists j instr, h !! j = Some (instr, f) /\ i = instr f 0 /\ (f ∉ (take j h).*2).
Proof.
  induction h as [|[instr g] h IH]; cbn [first_answer]; [done|]. destruct (Z.eqb_spec g f) as [->|Hne].
  - intros [= <-]. exists 0%nat, instr. split_and!; [done..|]. apply not_elem_of_nil.
  - intros H. destruct (IH H) as (j & instr' & H1 & H2 & H3). exists (S j), instr'. split_and!; [done..|].
    cbn. rewrite not_elem_of_cons. cbn. auto.
Qed.

(** The cache holds exactly the first answers to the queries made so far, and the
    instruction was executed once for each function. *)
Record cpu_inv (h : list query) (s : cpu) : Prop := {
  ci_once : NoDup (executed s);
  ci_executed : forall f, f ∈ executed s <-> f ∈ h.*2;
  ci_cache : forall f, 0 <= f < 2 ^ 32 -> cache s !! s32 f = first_answer h f
}.

Lemma cpuid_step h instr f s : 0 <= f < 2 ^ 32 -> cpu_inv h s ->
  Some (cpuid instr f s).1 = first_answer (h ++ [(instr, f)]) f /\ cpu_inv (h ++ [(instr, f)]) (cpuid instr f s).2.
Proof.
  intros Hf [Ho He Hc]. unfold cpuid. pose proof (Hc f Hf) as Hcf. rewrite first_answer_app.
  destruct (cache s !! s32 f) as [i|] eqn:E; rewrite <- Hcf; cbn.
  - split; [done|]. constructor.
    + done.
    + intros g. rewrite fmap_app, elem_of_app, He. cbn. rewrite list_elem_of_singleton.
      split; [by left|]. intros [?| ->]; [done|]. apply dec_stable. rewrite <- first_answer_none, <- Hcf. done.
    + intros g Hg. rewrite first_answer_app, Hc by done. destruct (first_answer h g) eqn:Eg; [done|]. cbn.
      destruct (Z.eqb_spec f g) as [->|]; [congruence|done].
  - rewrite Z.eqb_refl. split; [done|]. assert (Hn : f ∉ h.*2) by (by apply first_answer_none).
    constructor; cbn.
    + constructor; [|done]. by rewrite He.
    + intros g. rewrite fmap_app, elem_of_app, elem_of_cons, He. cbn. rewrite list_elem_of_singleton. tauto.
    + intros g Hg. rewrite first_answer_app. cbn. destruct (Z.eqb_spec f g) as [->|Hne].
      * by rewrite lookup_insert_eq, <- Hcf.
      * rewrite lookup_insert_ne by (intros Hv; by apply s32_inj in Hv). rewrite Hc by done. by destruct (first_answer h g).
Qed.

Lemma cpuid_all_spec h qs s : Forall (fun q => 0 <= q.2 < 2 ^ 32) qs -> cpu_inv h s ->
  Some <$> (cpuid_all qs s).1 = (fun q => first_answer (h ++ qs) q.2) <$> qs /\ cpu_inv (h ++ qs) (cpuid_all qs s).2.
Proof.
  intros Hqs. revert h s. induction Hqs as [|[instr f] qs Hf Hqs IH]; intros h s HI; cbn [cpuid_all].
  - cbn. by rewrite app_nil_r.
  - cbn in Hf. destruct (cpuid_step h instr f s Hf HI) as [H1 H2]. destruct (cpuid instr f s) as [i s1]. cbn in H1, H2.
    destruct (IH (h ++ [(instr, f)]) s1 H2) as [H3 H4]. rewrite <- app_assoc in H3, H4. cbn [app] in H3, H4.
    destruct (cpuid_all qs s1) as [infos s2]. cbn in *. split; [|done]. f_equal; [|done].
    rewrite H1, !first_answer_app. cbn. rewrite Z.eqb_refl. by destruct (first_answer h f).
Qed.

Definition no_cache : cpu := {| cache := ∅; executed := [] |}.

Lemma no_cache_inv : cpu_inv [] no_cache.
Proof. split; cbn; [constructor|set_solver|intros; apply lookup_empty]. Qed.

(** C40: What the cached [cpuid] answers, while the instruction may answer differently from
    call to call. Whatever functions a program asks for, in whatever order and however
    often, every query is answered with what the instruction answered when this function
    was asked for the first time, and the instruction is executed exactly once for each
    function asked for. So an answer is the one that the instruction would give now
    exactly when that has not changed since. *)
Theorem cpuid_cache_correct (queries : list query) :
  Forall (fun q => 0 <= q.2 < 2 ^ 32) queries ->
  let '(infos, s) := cpuid_all queries no_cache in
  length infos = length queries /\
  (forall k instr f, queries !! k = Some (instr, f) ->
     exists j instr0, (j <= k)%nat /\ queries !! j = Some (instr0, f) /\ (f ∉ (take j queries).*2) /\
       infos !! k = Some (instr0 f 0) /\ (infos !! k = Some (instr f 0) <-> instr f 0 = instr0 f 0)) /\
  NoDup (executed s) /\ (forall f, f ∈ executed s <-> f ∈ queries.*2).
Proof.
  intros Hf. destruct (cpuid_all_spec [] queries no_cache Hf no_cache_inv) as [H1 [Ho He _]].
  destruct (cpuid_all queries no_cache) as [infos s]. cbn [fst snd app] in *. split_and!; [|  |done|done].
  - by rewrite <- (length_fmap Some infos), H1, length_fmap.
  - intros k instr f Hk. assert (H2 : (Some <$> infos) !! k = ((fun q => first_answer queries q.2) <$> queries) !! k) by (by rewrite H1).
    rewrite !list_lookup_fmap, Hk in H2.
    destruct (infos !! k) as [i|]; [|done]. cbn in H2. injection H2 as H2. symmetry in H2.
    destruct (first_answer_position _ _ _ H2) as (j & instr0 & Hj & -> & Hn). exists j, instr0. split_and!; try done.
    + destruct (decide (j <= k)%nat); [done|]. exfalso. apply Hn, list_elem_of_fmap. exists (instr, f). split; [done|].
      apply (list_elem_of_lookup_2 _ k). rewrite lookup_take_lt by lia. done.
    + split; [by intros [= ->]|by intros ->].
Qed.

(** The instruction on a processor with a number, which leaf 1 reports. *)
Definition demo_instr (core : Z) (f sub : Z) : cpuid_t :=
  if f =? 0 then {| eax := 22; ebx := 0x756E6547; ecx := 0x6C65746E; edx := 0x49656E69 |}
  else if f =? 1 then {| eax := 0; ebx := Z.shiftl core 24; ecx := 0; edx := 0 |}
  else {| eax := f; ebx := sub; ecx := 0; edx := 0 |}.

Definition demo_queries : list query :=
  [(demo_instr 0, 0); (demo_instr 2, 1); (demo_instr 3, 0x80000000); (demo_instr 3, 1); (demo_instr 3, 0)].

(** The fourth query, on processor 3, is answered with the number of processor 2. *)
Lemma cpuid_cache_correct_witness :
  executed (cpuid_all demo_queries no_cache).2 = [0x80000000; 1; 0] /\
  length (cpuid_all demo_queries no_cache).1 = 5%nat /\
  (cpuid_all demo_queries no_cache).1 !! 3%nat <> Some (demo_instr 3 1 0) /\
  ebx <$> (cpuid_all demo_queries no_cache).1 !! 3%nat = Some (Z.shiftl 2 24).
Proof.
  pose proof (cpuid_cache_correct demo_queries) as H.
  destruct (cpuid_all demo_queries no_cache) as [infos s] eqn:E.
  destruct H as (H1 & H2 & _ & _); [repeat constructor; cbn; lia|].
  vm_compute in E. injection E as <- <-. split; [reflexivity|]. split; [exact H1|]. split; [discriminate|reflexivity].
Defined.

(** The vendor string: twelve bytes in the order EBX, EDX, ECX and the terminator, from
    which the registers can be read back. *)
Definition load32 (bs : list Z) : Z :=
  match bs with
  | [a; b; c; d] => Z.lor a (Z.lor (Z.shiftl b 8) (Z.lor (Z.shiftl c 16) (Z.shiftl d 24)))
  | _ => 0
  end.

Example vendor_intel :
  (cpuid_vendor (demo_instr 0) no_cache).1 = lit "GenuineIntel" ++ [0] /\
  load32 (take 4 (cpuid_vendor (demo_instr 0) no_cache).1) = 0x756E6547.
Proof. split; reflexivity. Qed.

Lemma byte_bit x k i : 0 <= k -> 0 <= i ->
  Z.testbit (Z.shiftl (Z.land (Z.shiftr x k) 255) k) i = Z.testbit x i && (k <=? i) && (i <? k + 8).
Proof.
  intros Hk Hi. rewrite Z.shiftl_spec by done. change 255 with (Z.ones 8).
  destruct (Z.leb_spec k i); [|by rewrite Z.testbit_neg_r, andb_false_r by lia].
  rewrite Z.land_spec, Z.shiftr_spec, Z.testbit_ones_nonneg, andb_true_r by lia.
  replace (i - k + k) with i by lia. f_equal. lia.
Qed.

Lemma load_store32 x : 0 <= x < 2 ^ 32 -> load32 (store32 x) = x.
Proof.
  intros Hx. cbn [load32 store32]. apply Z.bits_inj'. intros i Hi. rewrite !Z.lor_spec, !byte_bit by lia.
  rewrite <- (Z.shiftl_0_r (Z.land x 255)), <- (Z.shiftr_0_r x) at 1. rewrite byte_bit by lia.
  destruct (Z.ltb_spec i 32); [|rewrite (testbit_high x 32) by lia; done].
  destruct (Z.testbit x i); [|done]. lia.
Qed.

(** The program of x86.h prints what it read, line by line. *)
Example print_cpuid_lines :
  print_cpuid (init_cpuid (fun c => match c with CPUID_SSE | CPUID_AVX2 => 1 | _ => 0 end)) =
  concat ((fun l => lit l ++ [NEWLINE]) <$>
    ["CPUID Information:"; " SSE: 1"; " SSE2: 0"; " SSE3: 0"; " SSSE3: 0"; " SSE4.1: 0";
     " SSE4.2: 0"; " AVX: 0"; " AVX2: 1"; " FMA: 0"; " FMA4: 0"; " FMA3: 0";
     " AVX512F: 0"; " AVX512CD: 0"; " AVX512ER: 0"; " AVX512PF: 0"; " AVX512EF: 0"]%string).
Proof. vm_compute. reflexivity. Qed.

End Cpu.
