(* ===== verification/Records.v ===== *)
(** * Pages and the system record (src/mm/page.h, src/kernel/system.c)

    The operators of [Page] as values, and [System] with the copy of its name into a
    field of twenty bytes. The destructor of [Page] deletes a buffer that a smart pointer
    owns and is left out. *)
From Stdlib Require Import ZArith Lia.
From stdpp Require Import strings numbers base.
From stdpp Require Import list.
From S2P Require Import Prelude Text.
Open Scope Z_scope.

Module Pages.

(** [buffer] holds no bytes when it is null. *)
Record Page := mk_page { buffer : option (list Z); p_length : Z; p_offset : Z; p_dirty : bool; p_valid : bool }.

Definition make_page (length offset : Z) : Page :=
  mk_page (Some (replicate (Z.to_nat length) 0)) length offset false true.

(** [memcpy] reads the other buffer up to [length]; it may not be given a null pointer. *)
Definition copy_page (other : Page) : outcome Page :=
  match buffer other with
  | Some b =>
      if p_length other <=? Z.of_nat (length b) then
        Ok (mk_page (Some (take (Z.to_nat (p_length other)) b)) (p_length other) (p_offset other) (p_dirty other) (p_valid other))
      else Undef "memcpy"
  | None => Undef "memcpy"
  end.

Definition swap (a b : Page) : Page * Page :=
  (mk_page (buffer b) (p_length b) (p_offset b) (p_dirty b) (p_valid b),
   mk_page (buffer a) (p_length a) (p_offset a) (p_dirty a) (p_valid a)).

(** The new page and what is left in [other]. *)
Definition move_page (other : Page) : Page * Page := swap (mk_page None 0 0 false false) other.

(** Assignment takes its argument by value: a copy is made and swapped in. *)
Definition assign (this other : Page) : outcome Page := other' ← copy_page other; Ok (swap this other').1.

Definition page_eq (a b : Page) : bool :=
  (p_length a =? p_length b) && (p_offset a =? p_offset b) && eqb (p_dirty a) (p_dirty b) && eqb (p_valid a) (p_valid b).
Definition page_ne (a b : Page) : bool := negb (page_eq a b).
Definition page_lt (a b : Page) : bool :=
  (p_offset a <? p_offset b) || ((p_offset a =? p_offset b) && (p_length a <? p_length b)).
Definition page_gt (a b : Page) : bool := page_lt b a.
Definition page_le (a b : Page) : bool := negb (page_lt b a).
Definition page_ge (a b : Page) : bool := negb (page_lt a b).

(** Pages with the same place in the file. *)
Definition same_place (a b : Page) : Prop := p_offset a = p_offset b /\ p_length a = p_length b.

#[export] Instance same_place_equiv : Equivalence same_place.
Proof. split; unfold same_place; repeat intro; intuition congruence. Qed.

#[export] Instance page_lt_proper : Proper (same_place ==> same_place ==> eq) page_lt.
Proof. intros a a' [Ha La] b b' [Hb Lb]. unfold page_lt. by rewrite Ha, La, Hb, Lb. Qed.

Lemma page_lt_iff a b : page_lt a b = true <->
  p_offset a < p_offset b \/ (p_offset a = p_offset b /\ p_length a < p_length b).
Proof. unfold page_lt. rewrite orb_true_iff, andb_true_iff. lia. Qed.

(** The comparison is a strict weak order whose classes are the pages with the same
    place: exactly one of less, same place and greater holds, so that sorting by it is
    meaningful, and the derived operators agree with it. *)
Lemma page_order (a b c : Page) :
  page_lt a a = false /\ (page_lt a b = true -> page_lt b c = true -> page_lt a c = true) /\
  (page_lt a b = true \/ same_place a b \/ page_gt a b = true) /\
  (page_le a b = true <-> page_lt a b = true \/ same_place a b) /\
  (page_ge a b = true <-> page_gt a b = true \/ same_place a b).
Proof.
  unfold page_gt, page_le, page_ge, same_place. rewrite !negb_true_iff, <- !not_true_iff_false, !page_lt_iff. lia.
Qed.

(** [==] also compares the flags and is finer than the order: a page and its modified
    version are neither less nor greater and not equal. *)
Lemma page_eq_finer : exists a b, page_le a b = true /\ page_ge a b = true /\ page_eq a b = false.
Proof. by exists (make_page 8 0), (mk_page None 8 0 true true). Qed.

(** A page built by the constructor is copied faithfully, also by assignment, and moving
    it leaves an empty page behind. *)
Lemma page_copies (this p : Page) b : buffer p = Some b -> p_length p = Z.of_nat (length b) ->
  copy_page p = Ok p /\ assign this p = Ok p /\ move_page p = (p, mk_page None 0 0 false false).
Proof.
  intros Hb Hl. assert (copy_page p = Ok p) as E.
  { unfold copy_page. rewrite Hb, Hl, Z.leb_refl, Nat2Z.id, take_ge by lia. by destruct p; cbn in *; subst. }
  split; [done|]. unfold assign. rewrite E. by destruct p.
Qed.

(** A page that was moved from has no buffer and cannot be copied. *)
Lemma moved_page_copy p : copy_page (move_page p).2 = Undef "memcpy".
Proof. done. Qed.

End Pages.

Module SystemRecord.
Import Text.

(** The bytes of [system_name] after the copy; the rest keeps what was there. *)
Record System := mk_system { system_id : Z; system_name : text }.

Definition NAME_SIZE : nat := 20.

(** [strcpy] writes the characters and a zero. *)
Definition system_init (s : System) (id : Z) (name : text) : outcome System :=
  if (length name <? NAME_SIZE)%nat then
    Ok (mk_system id (name ++ 0 :: drop (S (length name)) (system_name s)))
  else Undef "strcpy".

(** [%s] prints up to the first zero. *)
Fixpoint up_to_zero (bs : text) : outcome text :=
  match bs with
  | [] => Undef "no terminating zero"
  | b :: bs => if decide (b = 0) then Ok [] else t ← up_to_zero bs; Ok (b :: t)
  end.

Definition system_print (s : System) : outcome text :=
  name ← up_to_zero (system_name s);
  Ok (lit "System ID: " ++ print_int (system_id s) ++ [NEWLINE] ++ lit "System Name: " ++ name ++ [NEWLINE]).

Lemma up_to_zero_app t rest : 0 ∉ t -> up_to_zero (t ++ 0 :: rest) = Ok t.
Proof.
  induction t as [|b t IH]; intros H; [done|]. apply not_elem_of_cons in H as [Hb Ht]. cbn [app up_to_zero].
  rewrite decide_False by done. by rewrite IH.
Qed.

(** A name is kept and printed unchanged exactly when it and its zero fit the field: a
    longer one is written past the end. *)
Lemma system_roundtrip (s : System) (id : Z) (name : text) :
  length (system_name s) = NAME_SIZE -> 0 ∉ name ->
  ((length name < NAME_SIZE)%nat /\ exists s', system_init s id name = Ok s' /\ length (system_name s') = NAME_SIZE /\
     system_print s' = Ok (lit "System ID: " ++ print_int id ++ [NEWLINE] ++ lit "System Name: " ++ name ++ [NEWLINE])) \/
  ((NAME_SIZE <= length name)%nat /\ system_init s id name = Undef "strcpy").
Proof.
  intros Hl Hn. unfold system_init. destruct (Nat.ltb_spec (length name) NAME_SIZE) as [H|H]; [left|by right].
  split; [done|]. eexists. split; [reflexivity|]. split.
  - cbn [system_name]. rewrite length_app. cbn [length]. rewrite length_drop. unfold NAME_SIZE in *. lia.
  - unfold system_print. cbn [system_name system_id]. by rewrite up_to_zero_app.
Qed.

Example system_main :
  (s ← system_init (mk_system 0 (replicate 20 63)) 1 (lit "My System"); system_print s)
  = Ok (lit "System ID: 1" ++ [NEWLINE] ++ lit "System Name: My System" ++ [NEWLINE]).
Proof. vm_compute. reflexivity. Qed.

End SystemRecord.
