(* ===== verification/DataProc.v ===== *)
(** * The key-value processor (src/kernel/Dataprocessor.cpp, DataProcessor.hpp)

    Configuration, line parser, the arithmetic on each value, the three output
    formats and the main program. The libraries are inputs: [parse_toml] is the
    table that [toml::parse] finds in a file ([None]: it throws), [cli] the options
    [cxxopts] found, and the order in which TBB visits the elements is any
    permutation of the positions. Exceptions are values of [exn]; an [int] that
    overflows has no meaning. *)
From Stdlib Require Import ZArith Lia Ascii String.
From stdpp Require Import strings numbers gmap base.
From stdpp Require Import list.
From S2P Require Import Prelude Text.

Open Scope Z_scope.

Module DataProc.
Import Text.

Abbreviation point := (text * Z)%type.

(** * Configuration *)

Record Config := mk_config {
  inputFile : text; outputFile : text; delimiter : text; commentStyle : text;
  outputFormat : text; chunkSize : Z; useParallelProcessing : bool
}.

(** The initialisers of the class. *)
Definition default_config : Config := mk_config [] [] (lit " ") (lit "#") (lit "keyvalue") 1024 false.

(** Typed lookups of a TOML table and of the command line. *)
Record table := mk_table {
  get_str : string -> option text; get_int : string -> option Z; get_bool : string -> option bool
}.
Record cli := mk_cli { opts : table; help : bool }.

Inductive exn :=
| ConfigError (msg : string)
| FileError (msg : string) (path : text)
| CliError.

Inductive event :=
| WarnToml
| WarnInvalid (line : text)
| WarnRange (line : text)
| Completed
| Failed (e : exn)
| Usage.

(** [toml::find_or]. *)
Definition find_or {A} (o : option A) (d : A) : A := default d o.

Definition load_toml (t : table) (c : Config) : Config :=
  mk_config (find_or (get_str t "input_file") []) (find_or (get_str t "output_file") [])
    (find_or (get_str t "delimiter") (lit " ")) (find_or (get_str t "comment_style") (lit "#"))
    (find_or (get_str t "output_format") (lit "keyvalue")) (find_or (get_int t "chunk_size") 1024)
    (find_or (get_bool t "use_parallel_processing") false).

Definition load_cli (a : table) (c : Config) : Config :=
  mk_config (default (inputFile c) (get_str a "input")) (default (outputFile c) (get_str a "output"))
    (default (delimiter c) (get_str a "delimiter")) (default (commentStyle c) (get_str a "comment"))
    (default (outputFormat c) (get_str a "format")) (default (chunkSize c) (get_int a "chunk"))
    (default (useParallelProcessing c) (get_bool a "parallel")).

Definition load (parse_toml : text -> option table) (configFile : text) (args : table) (c : Config) :
    Config * list event :=
  let '(c, log) :=
    match configFile with
    | [] => (c, [])
    | _ => match parse_toml configFile with
           | Some t => (load_toml t c, [])
           | None => (c, [WarnToml])
           end
    end in
  (load_cli args c, log).

Definition validate (c : Config) : option exn :=
  if bool_decide (inputFile c = []) then Some (ConfigError "Input file path cannot be empty")
  else if bool_decide (outputFile c = []) then Some (ConfigError "Output file path cannot be empty")
  else if chunkSize c <=? 0 then Some (ConfigError "Chunk size must be positive")
  else None.

(** * Parsing *)

(** [InputParser::parseLine]; an empty key stands for the empty pair. *)
Definition parseLine (c : Config) (line : text) : point * list event :=
  match getline (first (delimiter c)) line with
  | Some (key, rest) =>
      match getline NEWLINE rest with
      | Some (valueStr, _) =>
          match stoi valueStr with
          | Value v => ((key, v), [])
          | InvalidArgument => (([], 0), [WarnInvalid line])
          | OutOfRange => (([], 0), [WarnRange line])
          end
      | None => (([], 0), [])
      end
  | None => (([], 0), [])
  end.

(** The body of the loop of [InputParser::parse] for one line. *)
Definition parse_step (c : Config) (line : text) : list point * list event :=
  if bool_decide (line = []) || (first line =? first (commentStyle c)) then ([], [])
  else let '(p, log) := parseLine c line in
       (if bool_decide (p.1 = []) then [] else [p], log).

Fixpoint parse_loop (fuel : nat) (c : Config) (input : text) (data : list point) (log : list event) :
    outcome (list point * list event) :=
  match fuel with
  | O => Hang
  | S fuel =>
      match getline NEWLINE input with
      | None => Ok (data, log)
      | Some (line, rest) =>
          let '(d, l) := parse_step c line in parse_loop fuel c rest (data ++ d) (log ++ l)
      end
  end.

Definition parse (c : Config) (contents : text) : outcome (list point * list event) :=
  parse_loop (S (length contents)) c contents [] [].

(** * Processing *)

Definition processDataPoint (p : point) : outcome point :=
  if 10 <? p.2 then
    if in_int (p.2 * 2) then Ok (p.1, p.2 * 2) else Undef "signed overflow"
  else Ok (p.1, Z.quot p.2 2).

Fixpoint process_each (data : list point) : outcome (list point) :=
  match data with
  | [] => Ok []
  | p :: data => p' ← processDataPoint p; data' ← process_each data; Ok (p' :: data')
  end.

(** The elements visited at the positions of [order]. *)
Fixpoint process_at (order : list nat) (data : list point) : outcome (list point) :=
  match order with
  | [] => Ok data
  | i :: order =>
      p ← arr_get data (Z.of_nat i); p' ← processDataPoint p; data' ← arr_set data (Z.of_nat i) p';
      process_at order data'
  end.

Definition process (c : Config) (visit : nat -> list nat) (data : list point) : outcome (list point) :=
  if useParallelProcessing c then process_at (visit (length data)) data else process_each data.

(** * Output *)

Definition QUOTE : Z := 34.

Fixpoint json_loop (size : nat) (i : nat) (data : list point) : text :=
  match data with
  | [] => []
  | p :: data =>
      lit "  " ++ [QUOTE] ++ p.1 ++ [QUOTE] ++ lit ": " ++ print_int p.2 ++
      (if (i <? size - 1)%nat then lit "," else []) ++ [NEWLINE] ++ json_loop size (S i) data
  end.

Definition generateJSON (data : list point) : text :=
  lit "{" ++ [NEWLINE] ++ json_loop (length data) 0 data ++ lit "}" ++ [NEWLINE].

Definition generateCSV (data : list point) : text :=
  data ≫= (fun p => p.1 ++ lit "," ++ print_int p.2 ++ [NEWLINE]).

Definition generateKeyValue (data : list point) : text :=
  data ≫= (fun p => p.1 ++ lit ": " ++ print_int p.2 ++ [NEWLINE]).

Definition render (format : text) (data : list point) : text :=
  if bool_decide (format = lit "json") then generateJSON data
  else if bool_decide (format = lit "csv") then generateCSV data
  else generateKeyValue data.

(** * The program *)

(** Files, which of them open for reading and for writing, and how many bytes of a
    stream reach the disk ([None]: all of them). *)
Record world := mk_world {
  disk : gmap text text; can_read : text -> bool; can_write : text -> bool; short : option nat
}.

Definition set_disk (w : world) (d : gmap text text) : world :=
  mk_world d (can_read w) (can_write w) (short w).

Definition open_input (w : world) (path : text) : option text :=
  if can_read w path then disk w !! path else None.

(** [OutputGenerator::generate]: opening truncates, the stream is not checked afterwards. *)
Definition generate (c : Config) (data : list point) (w : world) : exn + world :=
  if can_write w (outputFile c) then
    let out := render (outputFormat c) data in
    inr (set_disk w (<[outputFile c := default out ((fun n => take n out) <$> short w)]> (disk w)))
  else inl (FileError "Could not open output file: " (outputFile c)).

Definition processData (c : Config) (visit : nat -> list nat) (w : world) :
    outcome ((exn + world) * list event) :=
  match open_input w (inputFile c) with
  | None => Ok (inl (FileError "Could not open input file: " (inputFile c)), [])
  | Some contents =>
      '(data, log) ← parse c contents;
      data' ← process c visit data;
      Ok (generate c data' w, log)
  end.

Definition loadConfig (parse_toml : text -> option table) (configFile : text) (args : table) :
    (exn + Config) * list event :=
  let '(c, log) := load parse_toml configFile args default_config in
  match validate c with Some e => (inl e, log) | None => (inr c, log) end.

(** [Main::run]: the exit status, the files and the messages. *)
Definition run (parse_toml : text -> option table) (visit : nat -> list nat) (args : option cli) (w : world) :
    outcome (Z * world * list event) :=
  match args with
  | None => Ok (1, w, [Failed CliError])
  | Some a =>
      if help a then Ok (0, w, [Usage]) else
      let configFile := default (lit "config.toml") (get_str (opts a) "config") in
      let '(r, log) := loadConfig parse_toml configFile (opts a) in
      match r with
      | inl e => Ok (1, w, log ++ [Failed e])
      | inr c =>
          '(r, log') ← processData c visit w;
          match r with
          | inl e => Ok (1, w, log ++ log' ++ [Failed e])
          | inr w' => Ok (0, w', log ++ log' ++ [Completed])
          end
      end
  end.

(** * What a text denotes *)

(** The lines of a text; a last one without line end counts if it is not empty. *)
Fixpoint lines_acc (s acc : text) : list text :=
  match s with
  | [] => match acc with [] => [] | _ => [acc] end
  | c :: s => if c =? NEWLINE then acc :: lines_acc s [] else lines_acc s (acc ++ [c])
  end.
Definition lines (s : text) : list text := lines_acc s [].

(** The line is not a comment, and holds a key, the delimiter and a number. *)
Definition denotes (c : Config) (line : text) (p : point) : Prop :=
  exists rest, line = p.1 ++ first (delimiter c) :: rest /\ (first (delimiter c) ∉ p.1) /\ p.1 <> [] /\
    first line <> first (commentStyle c) /\ stoi rest = Value p.2.

Definition records (c : Config) (s : text) : list point := lines s ≫= (fun l => (parse_step c l).1).
Definition warnings (c : Config) (s : text) : list event := lines s ≫= (fun l => (parse_step c l).2).

Lemma lines_acc_upto s acc : s <> [] ->
  lines_acc s acc = (acc ++ (upto NEWLINE s).1) :: lines_acc (upto NEWLINE s).2 [].
Proof.
  revert acc. induction s as [|c s IH]; intros acc; [done|]. intros _. cbn [lines_acc upto].
  destruct (c =? NEWLINE); [by rewrite app_nil_r|].
  destruct s as [|e s].
  - cbn. by destruct acc.
  - rewrite IH by done. destruct (upto NEWLINE (e :: s)) as [a r]. cbn. by rewrite <- app_assoc.
Qed.

Lemma parse_loop_spec fuel c s d l : (length s < fuel)%nat ->
  parse_loop fuel c s d l = Ok (d ++ records c s, l ++ warnings c s).
Proof.
  revert s d l. induction fuel as [|fuel IH]; intros s d l H; [lia|]. cbn [parse_loop].
  destruct s as [|x s']; [by rewrite !app_nil_r|]. set (s := x :: s') in *. cbn [getline].
  change (getline NEWLINE s) with (Some (upto NEWLINE s)). unfold records, warnings, lines.
  rewrite lines_acc_upto by done. destruct (upto NEWLINE s) as [ln r] eqn:E.
  apply upto_shorter in E; [|done]. cbn [fst snd app]. rewrite !bind_cons.
  destruct (parse_step c ln) as [d1 l1] eqn:E1. rewrite IH by lia. cbn. by rewrite !app_assoc.
Qed.

Lemma parse_spec c s : parse c s = Ok (records c s, warnings c s).
Proof. unfold parse. rewrite parse_loop_spec by lia. done. Qed.

Lemma upto_whole d s : d ∉ s -> upto d s = (s, []).
Proof.
  induction s as [|c s IH]; intros H; [done|]. apply not_elem_of_cons in H as [Hc H]. cbn [upto].
  destruct (Z.eqb_spec c d); [by subst|]. by rewrite IH.
Qed.

(** Splitting is exact: the delimiter was found, or the rest is empty. *)
Lemma upto_split d s a r : upto d s = (a, r) -> r <> [] -> s = a ++ d :: r.
Proof.
  revert a r. induction s as [|c s IH]; intros a r; cbn [upto]; [by intros [= <- <-]|].
  destruct (Z.eqb_spec c d) as [->|]; [by intros [= <- <-]|].
  destruct (upto d s) as [a' r'] eqn:E. intros [= <- <-] Hr. cbn. f_equal. by apply IH.
Qed.

Lemma getline_whole s v r : NEWLINE ∉ s -> getline NEWLINE s = Some (v, r) -> v = s.
Proof. intros Hn. destruct s; [done|]. unfold getline. rewrite upto_whole by done. by intros [= <- <-]. Qed.

Lemma parse_step_denotes c l p : NEWLINE ∉ l -> p ∈ (parse_step c l).1 <-> denotes c l p.
Proof.
  intros Hn. unfold parse_step, denotes. destruct (bool_decide_reflect (l = [])) as [->|Hl].
  { split; [by intros ?%elem_of_nil|]. intros (r & H & _). by destruct p.1. }
  destruct (Z.eqb_spec (first l) (first (commentStyle c))) as [Hc|Hc]; cbn [orb].
  { split; [by intros ?%elem_of_nil|]. by intros (r & _ & _ & _ & H & _). }
  unfold parseLine. destruct l as [|x l]; [done|]. set (ln := x :: l) in *.
  change (getline (first (delimiter c)) ln) with (Some (upto (first (delimiter c)) ln)).
  destruct (upto (first (delimiter c)) ln) as [k r] eqn:E. split.
  - destruct (getline NEWLINE r) as [[v r']|] eqn:Eg; [|by intros ?%elem_of_nil].
    assert (Hr : r <> []) by (by destruct r).
    pose proof (upto_split _ _ _ _ E Hr) as Hs.
    apply getline_whole in Eg; [|intros Hin; apply Hn; rewrite Hs; apply elem_of_app; right; by right]. subst v.
    destruct (stoi r) as [z| |] eqn:Ez; cbn [fst]; [|by intros ?%elem_of_nil..].
    destruct (bool_decide_reflect (k = [])) as [|Hk]; [by intros ?%elem_of_nil|].
    intros ->%list_elem_of_singleton. exists r. repeat split; [done|by eapply upto_notin|done..].
  - intros (rest & H1 & H2 & H3 & _ & H5). rewrite H1, upto_app in E by done. injection E as <- <-.
    assert (rest <> []) by (by intros ->).
    assert (NEWLINE ∉ rest). { intros Hin. apply Hn. rewrite H1. apply elem_of_app. right. by right. }
    unfold getline. rewrite upto_whole by done. destruct rest; [done|]. rewrite H5. cbn.
    rewrite bool_decide_false by done. apply list_elem_of_singleton. by destruct p.
Qed.

(** * Round trip *)

Definition row (d : Z) (pad : text) (p : point) : text := p.1 ++ d :: pad ++ print_int p.2.

Lemma lines_unlines ls : Forall (fun l => NEWLINE ∉ l) ls -> lines (ls ≫= (fun l => l ++ [NEWLINE])) = ls.
Proof.
  unfold lines. induction ls as [|l ls IH]; intros H; [done|]. inversion H as [|? ? Hl Hls]; subst.
  rewrite bind_cons, <- app_assoc. cbn [app]. rewrite lines_acc_upto by (by destruct l).
  rewrite upto_app by done. cbn. by rewrite IH.
Qed.

Lemma generate_rows d pad data :
  (data ≫= (fun p => p.1 ++ (d :: pad) ++ print_int p.2 ++ [NEWLINE])) =
  (row d pad <$> data) ≫= (fun l => l ++ [NEWLINE]).
Proof.
  induction data as [|p data IH]; [done|]. rewrite fmap_cons, !bind_cons, IH. unfold row.
  rewrite <- !app_assoc. cbn [app]. by rewrite <- !app_assoc.
Qed.

(** A point whose row is read back: no delimiter or line end in its key, which does
    not start a comment. *)
Definition printable (c : Config) (p : point) : Prop :=
  p.1 <> [] /\ (first (delimiter c) ∉ p.1) /\ (NEWLINE ∉ p.1) /\
  first p.1 <> first (commentStyle c) /\ in_int p.2 = true.

#[global] Instance printable_dec c p : Decision (printable c p).
Proof. unfold printable. apply _. Defined.

Definition spaces (pad : text) : Prop := pad = [] \/ pad = [32].

Lemma spaces_skip pad s : spaces pad -> stoi (pad ++ s) = stoi s.
Proof. by intros [-> | ->]. Qed.

Lemma newline_notin_value pad z : spaces pad -> NEWLINE ∉ pad ++ print_int z.
Proof.
  intros Hp. rewrite elem_of_app. intros [H|H].
  - destruct Hp as [-> | ->]; [by apply elem_of_nil in H|]. by apply list_elem_of_singleton in H.
  - apply print_int_plain in H as [H|H]; by vm_compute in H.
Qed.

Lemma row_step c pad p : spaces pad -> printable c p -> first (delimiter c) <> NEWLINE ->
  parse_step c (row (first (delimiter c)) pad p) = ([p], []).
Proof.
  intros Hpad (Hk & Hd & Hn & Hc & Hi) Hnl. unfold parse_step, row. destruct p as [k v]; cbn [fst snd] in *.
  rewrite bool_decide_false by (by destruct k).
  assert (first (k ++ first (delimiter c) :: pad ++ print_int v) = first k) as -> by (by destruct k).
  rewrite (proj2 (Z.eqb_neq _ _) Hc). cbn [orb]. unfold parseLine, getline.
  destruct (k ++ first (delimiter c) :: pad ++ print_int v) eqn:E; [by destruct k|]. rewrite <- E.
  rewrite upto_app by done. destruct (pad ++ print_int v) eqn:E2.
  { apply app_eq_nil in E2 as [_ E2]. by apply print_int_cons in E2. }
  rewrite <- E2, upto_whole by (by apply newline_notin_value). rewrite spaces_skip by done.
  rewrite <- (app_nil_r (print_int v)), stoi_print_int by done. cbn. by rewrite bool_decide_false.
Qed.

Lemma rows_parse c pad data : spaces pad -> Forall (printable c) data -> first (delimiter c) <> NEWLINE ->
  parse c ((row (first (delimiter c)) pad <$> data) ≫= (fun l => l ++ [NEWLINE])) = Ok (data, []).
Proof.
  intros Hp Hd Hn. rewrite parse_spec. unfold records, warnings. rewrite lines_unlines.
  - clear -Hp Hd Hn. do 2 f_equal.
    + induction Hd as [|p data H Hd IH]; [done|]. rewrite fmap_cons, bind_cons, row_step, IH by done. done.
    + induction Hd as [|p data H Hd IH]; [done|]. rewrite fmap_cons, bind_cons, row_step, IH by done. done.
  - apply Forall_fmap. eapply Forall_impl; [exact Hd|]. intros p (_ & _ & H & _). cbn. unfold row.
    rewrite elem_of_app, elem_of_cons. intros [?|[?|Hin]]; [done..|]. by apply newline_notin_value in Hin.
Qed.

(** The delimiter that reads an output format back. *)
Definition reads_back (c : Config) : Prop :=
  (outputFormat c = lit "csv" /\ first (delimiter c) = 44) \/
  (outputFormat c = lit "keyvalue" /\ first (delimiter c) = 58).

(** C34: the two line formats are read back, under two conditions. The delimiter of the
    configuration is the one of the format, a comma for CSV and a colon for key-value
    lines; and every point is printable: its key is not empty, has neither the delimiter
    nor a newline in it and does not start with the comment character, and its value
    is an [int]. Then parsing what [generate] writes gives the points that were written,
    in order and without a warning. *)
Theorem output_roundtrip c data : reads_back c -> Forall (printable c) data ->
  parse c (render (outputFormat c) data) = Ok (data, []).
Proof.
  intros H Hd. unfold render. destruct H as [[-> H]|[-> H]];
    rewrite !(bool_decide_eq_false_2 (_ = lit "json")) by done.
  - rewrite bool_decide_true by done. unfold generateCSV.
    change (lit ",") with (44 :: @nil Z). rewrite generate_rows, <- H. apply rows_parse; [by left|done|by rewrite H].
  - rewrite bool_decide_false by done. unfold generateKeyValue.
    change (lit ": ") with (58 :: [32]). rewrite generate_rows, <- H. apply rows_parse; [by right|done|by rewrite H].
Qed.

Definition csv_config : Config := mk_config (lit "in") (lit "out") (lit ",") (lit "#") (lit "csv") 1024 false.
Definition csv_data : list point := [(lit "a", 21); (lit "b c", -7); (lit "max", 2147483647)].

Lemma output_roundtrip_witness :
  parse csv_config (render (lit "csv") csv_data) = Ok (csv_data, []).
Proof.
  apply (output_roundtrip csv_config csv_data); [by left|]. apply (bool_decide_unpack _). vm_compute. exact I.
Defined.

(** * The order of processing does not matter *)

Definition adjust (p : point) : point := (p.1, if 10 <? p.2 then p.2 * 2 else Z.quot p.2 2).
Definition fits (p : point) : bool := negb (10 <? p.2) || in_int (p.2 * 2).

Lemma processDataPoint_spec p :
  processDataPoint p = if fits p then Ok (adjust p) else Undef "signed overflow".
Proof.
  unfold processDataPoint, fits, adjust. destruct (10 <? p.2); cbn; [|done]. by destruct (in_int _).
Qed.

Lemma process_each_spec data :
  process_each data = if forallb fits data then Ok (adjust <$> data) else Undef "signed overflow".
Proof.
  induction data as [|p data IH]; [done|]. cbn [process_each forallb]. rewrite processDataPoint_spec.
  destruct (fits p); cbn; [|done]. rewrite IH. by destruct (forallb fits data).
Qed.

Lemma process_at_step i order data p : data !! i = Some p ->
  process_at (i :: order) data =
    if fits p then process_at order (<[i := adjust p]> data) else Undef "signed overflow".
Proof.
  intros H. cbn [process_at]. unfold arr_get. rewrite (proj2 (Z.ltb_ge (Z.of_nat i) 0)) by lia.
  rewrite Nat2Z.id, H. cbn. rewrite processDataPoint_spec. destruct (fits p); cbn; [|done].
  rewrite arr_set_in by (apply lookup_lt_Some in H; lia). cbn. by rewrite Nat2Z.id.
Qed.

Lemma process_at_ok order data : NoDup order ->
  (forall i, i ∈ order -> exists p, data !! i = Some p /\ fits p = true) ->
  exists data', process_at order data = Ok data' /\
    forall i, data' !! i = if decide (i ∈ order) then adjust <$> data !! i else data !! i.
Proof.
  revert data. induction order as [|j order IH]; intros data Hnd Hin.
  { exists data. split; [done|]. intros i. rewrite decide_False by apply not_elem_of_nil. done. }
  inversion Hnd as [|? ? Hj Hnd']; subst. destruct (Hin j) as (p & Hp & Hf); [by left|].
  assert (Hne : forall i, i ∈ order -> i <> j) by (by intros i Hi ->).
  rewrite (process_at_step _ _ _ _ Hp), Hf. destruct (IH (<[j := adjust p]> data) Hnd') as (data' & H1 & H2).
  { intros i Hi. rewrite list_lookup_insert_ne by (by apply not_eq_sym, Hne). apply Hin. by right. }
  exists data'. split; [done|]. intros i. rewrite H2. destruct (decide (i = j)) as [->|Hij].
  - rewrite decide_False, decide_True by (done || by left).
    rewrite list_lookup_insert_eq, Hp by (by eapply lookup_lt_Some). done.
  - rewrite list_lookup_insert_ne by done. destruct (decide (i ∈ order)) as [Hi|Hi].
    + rewrite decide_True; [done|by right].
    + rewrite decide_False; [done|]. rewrite elem_of_cons. by intros [|].
Qed.

Lemma process_at_bad order data j q : NoDup order -> j ∈ order -> data !! j = Some q -> fits q = false ->
  (forall i, i ∈ order -> (i < length data)%nat) -> process_at order data = Undef "signed overflow".
Proof.
  revert data. induction order as [|i order IH]; intros data Hnd Hj Hq Hf Hin; [by apply elem_of_nil in Hj|].
  inversion Hnd as [|? ? Hi Hnd']; subst. destruct (lookup_lt_is_Some_2 data i) as [p Hp]; [apply Hin; by left|].
  rewrite (process_at_step _ _ _ _ Hp). destruct (fits p) eqn:Ep; [|done].
  apply elem_of_cons in Hj as [->|Hj]; [congruence|]. apply IH; [done..| |done|].
  - rewrite list_lookup_insert_ne by (by intros ->). done.
  - intros k Hk. rewrite length_insert. apply Hin. by right.
Qed.

Definition visits_once (visit : nat -> list nat) : Prop := forall n, visit n ≡ₚ seq 0 n.

Lemma parallel_is_sequential_spec c visit data : visits_once visit ->
  process c visit data = process_each data.
Proof.
  intros Hv. unfold process. destruct (useParallelProcessing c); [|done]. specialize (Hv (length data)).
  assert (Hnd : NoDup (visit (length data))) by (rewrite Hv; apply NoDup_seq).
  assert (Hin : forall i, i ∈ visit (length data) <-> (i < length data)%nat).
  { intros i. rewrite Hv, elem_of_seq. lia. }
  rewrite process_each_spec. destruct (forallb fits data) eqn:E.
  - rewrite forallb_forall in E. destruct (process_at_ok (visit (length data)) data Hnd) as (data' & H1 & H2).
    { intros i Hi%Hin. destruct (lookup_lt_is_Some_2 data i Hi) as [p Hp]. exists p. split; [done|].
      apply E, list_elem_of_In. by eapply list_elem_of_lookup_2. }
    rewrite H1. f_equal. apply list_eq. intros i. rewrite H2, list_lookup_fmap.
    destruct (decide (i ∈ visit (length data))) as [|Hi]; [done|].
    rewrite Hin in Hi. rewrite lookup_ge_None_2 by lia. done.
  - apply not_true_iff_false in E. rewrite forallb_forall in E.
    destruct (decide (Exists (fun p => fits p = false) data)) as [H|H].
    + apply list.Exists_exists in H as (q & (j & Hj)%list_elem_of_lookup_1 & Hq). eapply process_at_bad; [done| |done..|].
      * apply Hin. by eapply lookup_lt_Some.
      * intros i. apply Hin.
    + exfalso. apply E. intros p Hp%list_elem_of_In. destruct (fits p) eqn:Ef; [done|]. exfalso. apply H.
      apply list.Exists_exists. eauto.
Qed.

(** processing the points in parallel, in whatever order each is visited once,
    gives what the sequential loop gives: the adjusted points, or an overflow. *)
Theorem parallel_is_sequential c visit data : visits_once visit ->
  process c visit data = process_each data.
Proof. apply parallel_is_sequential_spec. Qed.

Lemma parallel_is_sequential_witness :
  process (mk_config [] [] [] [] [] 1 true) (fun n => reverse (seq 0 n)) [(lit "a", 21); (lit "b", 7)] =
    Ok [(lit "a", 42); (lit "b", 3)].
Proof.
  apply (parallel_is_sequential (mk_config [] [] [] [] [] 1 true)). intros n. apply reverse_Permutation.
Defined.

(** * The program *)

Definition configured (parse_toml : text -> option table) (a : cli) : Config :=
  (load parse_toml (default (lit "config.toml") (get_str (opts a) "config")) (opts a) default_config).1.

(** What reaches the disk of an output. *)
Definition stored (w : world) (out : text) : text := default out ((fun n => take n out) <$> short w).

(** a run without --help, for every configuration and disk: a rejected
    configuration, or a file that does not open, gives status 1 and leaves the disk; a
    value above 2^30 - 1 overflows; otherwise the status is 0 and the only file that
    changes holds the rendered, adjusted records of the input, in parallel or not. *)
Theorem run_correct parse_toml visit a w : visits_once visit -> help a = false ->
  let c := configured parse_toml a in
  match validate c, open_input w (inputFile c) with
  | None, Some contents =>
      if forallb fits (records c contents) then
        exists log, run parse_toml visit (Some a) w =
          if can_write w (outputFile c) then
            Ok (0, set_disk w (<[outputFile c :=
                  stored w (render (outputFormat c) (adjust <$> records c contents))]> (disk w)), log)
          else Ok (1, w, log)
      else run parse_toml visit (Some a) w = Undef "signed overflow"
  | _, _ => exists log, run parse_toml visit (Some a) w = Ok (1, w, log)
  end.
Proof.
  intros Hv Hh. cbv zeta. unfold configured, run, loadConfig. rewrite Hh.
  destruct (load _ _ _ _) as [c log] eqn:El. cbn [fst].
  destruct (validate c) as [e|]; [by eexists|]. unfold processData.
  destruct (open_input w (inputFile c)) as [contents|]; [|by eexists].
  rewrite parse_spec. cbn [mbind outcome_bind]. rewrite (parallel_is_sequential_spec c visit) by done.
  rewrite process_each_spec. destruct (forallb fits _); [|done]. cbn [mbind outcome_bind]. unfold generate.
  destruct (can_write w (outputFile c)); by eexists.
Qed.

(** ** Examples *)

Definition no_toml : text -> option table := fun _ => None.
Definition demo_args (inp out fmt : string) : cli :=
  mk_cli (mk_table (fun o => if String.eqb o "input" then Some (lit inp) else if String.eqb o "output" then Some (lit out)
                       else if String.eqb o "format" then Some (lit fmt) else None) (fun _ => None) (fun _ => None)) false.
Definition demo_world (contents : text) (limit : option nat) : world :=
  mk_world {[lit "in" := contents]} (fun _ => true) (fun _ => true) limit.
Definition demo_text : text := lit "# c" ++ [NEWLINE] ++ lit "a 21" ++ [NEWLINE] ++ lit "b x" ++ [NEWLINE] ++ lit "c 5".

Lemma run_correct_witness :
  exists log, run no_toml (seq 0) (Some (demo_args "in" "out" "csv")) (demo_world demo_text None) =
    Ok (0, set_disk (demo_world demo_text None)
             (<[lit "out" := lit "a,42" ++ [NEWLINE] ++ lit "c,2" ++ [NEWLINE]]> {[lit "in" := demo_text]}), log).
Proof. apply (run_correct no_toml (seq 0) (demo_args "in" "out" "csv") (demo_world demo_text None)); [by intros n|reflexivity]. Defined.

(** A value that stoi accepts and whose double does not fit stops the program. *)
Lemma run_overflows :
  run no_toml (seq 0) (Some (demo_args "in" "out" "csv")) (demo_world (lit "k 1073741824") None) = Undef "signed overflow".
Proof. reflexivity. Qed.

(** A full disk goes unnoticed: the status is 0 and the message says completed. *)
Lemma short_write_unnoticed : exists w log,
  run no_toml (seq 0) (Some (demo_args "in" "out" "csv")) (demo_world (lit "k 4") (Some 1%nat)) = Ok (0, w, log) /\
  disk w !! lit "out" = Some (lit "k") /\ last log = Some Completed.
Proof. do 2 eexists. split; [reflexivity|]. split; reflexivity. Qed.

(** Keys are not escaped: one key with quotes gives the JSON text of two keys. *)
Lemma json_not_injective :
  generateJSON [(lit "a" ++ [QUOTE] ++ lit ": 1," ++ [NEWLINE] ++ lit "  " ++ [QUOTE] ++ lit "b", 2)] =
  generateJSON [(lit "a", 1); (lit "b", 2)].
Proof. reflexivity. Qed.

(** A line with an empty key, or without a value, is dropped without a warning. *)
Lemma empty_key_silent : parse csv_config (lit ",5" ++ [NEWLINE] ++ lit "k") = Ok ([], []).
Proof. reflexivity. Qed.

End DataProc.
