(* ===== verification/ProcManager.v ===== *)
(** * The process manager (src/kernel/processes.cpp)

    The file ends inside [ProcessManager::addProcess]; what it declares and does not
    define (the parent's part of [addProcess], [terminateAll], [waitForAll], ...) is
    not here. Modelled: the thread records and their moves, the constructor and the
    destructor, the error path, the pass that reaps children, and the reaper thread
    beside the destructor as a step relation.

    What the system answers is input: results of the calls of the constructor, the
    answers of [waitpid], when a signal interrupts a call. As POSIX says, [pselect]
    leaves the descriptor sets alone when it fails, and [read] on an empty pipe whose
    write end is open waits. *)
From Stdlib Require Import ZArith Lia.
From stdpp Require Import strings numbers gmap base relations.
From stdpp Require Import list.
From S2P Require Import Prelude.

Open Scope Z_scope.

Module ProcMgr.

(** * Data *)

Inductive ProcessState := RUNNING | PAUSED | EXITED | TERMINATED.

Record ProcessData := mk_process { pid : Z; proc_priority : Z; pstate : ProcessState }.

(** [ProcessData(p, prio)]. *)
Definition new_process (p prio : Z) : ProcessData := mk_process p prio RUNNING.

(** [handle] is the system thread of [workerThread] ([None]: not joinable), [token]
    the cell that [stopToken] refers to. *)
Record ThreadData := mk_thread {
  handle : option Z; id : Z; thread_priority : Z; token : Z; joined : bool
}.

Definition joinable (t : ThreadData) : bool := bool_decide (is_Some (handle t)).

(** [ThreadData(t, prio, token)]; [get_id] of a thread that runs is its number. *)
Definition new_thread (t prio tok : Z) : ThreadData := mk_thread (Some t) t prio tok false.

(** The move constructor: the new record and what is left of the other. *)
Definition move_thread (other : ThreadData) : ThreadData * ThreadData :=
  (other, mk_thread None (id other) (thread_priority other) (token other) true).

(** The threads that [if (joinable() && !joined) detach()] lets go, and the handle after it. *)
Definition let_go (t : ThreadData) : list Z * option Z :=
  if joinable t && negb (joined t) then (option_list (handle t), None) else ([], handle t).

(** Move assignment of a different record. Assigning to a [std::thread] that is still
    joinable ends the program; the reference [stopToken] stays bound as it was. *)
Definition assign_thread (self other : ThreadData) : outcome (ThreadData * ThreadData * list Z) :=
  let '(gone, h) := let_go self in
  match h with
  | Some _ => Panic "std::terminate"
  | None =>
      Ok (mk_thread (handle other) (id other) (thread_priority other) (token self) (joined other),
          mk_thread None (id other) (thread_priority other) (token other) true, gone)
  end.

(** The destructor: destroying a [std::thread] that is still joinable ends the program. *)
Definition destroy_thread (t : ThreadData) : outcome (list Z) :=
  match let_go t with
  | (gone, None) => Ok gone
  | (_, Some _) => Panic "std::terminate"
  end.

(** ** Thread records in use *)

Inductive thread_op :=
| OStart (l t prio tok : Z)
| OMove (l from : Z)
| OAssign (l from : Z)
| ODestroy (l : Z).

(** Records by location, threads started, threads detached. *)
Record threads := mk_threads { recs : gmap Z ThreadData; started : list Z; detached : list Z }.

Definition thread_exec (o : thread_op) (s : threads) : option (outcome threads) :=
  match o with
  | OStart l t prio tok =>
      match recs s !! l with
      | None => if bool_decide (t ∈ started s) then None else
                Some (Ok (mk_threads (<[l := new_thread t prio tok]> (recs s)) (t :: started s) (detached s)))
      | Some _ => None
      end
  | OMove l from =>
      match recs s !! l, recs s !! from with
      | None, Some other =>
          let '(n, o) := move_thread other in
          Some (Ok (mk_threads (<[l := n]> (<[from := o]> (recs s))) (started s) (detached s)))
      | _, _ => None
      end
  | OAssign l from =>
      match recs s !! l, recs s !! from with
      | Some self, Some other =>
          if l =? from then Some (Ok s)
          else Some ('(n, o, gone) ← assign_thread self other;
                     Ok (mk_threads (<[l := n]> (<[from := o]> (recs s))) (started s) (gone ++ detached s)))
      | _, _ => None
      end
  | ODestroy l =>
      match recs s !! l with
      | Some t => Some (gone ← destroy_thread t; Ok (mk_threads (delete l (recs s)) (started s) (gone ++ detached s)))
      | None => None
      end
  end.

(** A program that uses records as C++ lets it; [None]: it names a record that is not
    there, or builds one where another is, or a
    thread number comes twice. *)
Fixpoint thread_run (os : list thread_op) (s : threads) : option (outcome threads) :=
  match os with
  | [] => Some (Ok s)
  | o :: os =>
      match thread_exec o s with
      | Some (Ok s) => thread_run os s
      | r => r
      end
  end.

(** * Errors *)

(** [handleSyscallError]: a warning, an exception, or the end of the program when one
    is already on its way. *)
Inductive error_effect := Warned | Throws | Terminates.

Definition handleSyscallError (fatal unwinding : bool) : error_effect :=
  if fatal then if unwinding then Terminates else Throws else Warned.

(** [staticSignalHandler]: the status the program ends with, if it ends it. *)
Definition SIGINT : Z := 2.
Definition SIGTERM : Z := 15.
Definition EXIT_FAILURE : Z := 1.
Definition staticSignalHandler (signal : Z) : option Z :=
  if (signal =? SIGTERM) || (signal =? SIGINT) then Some EXIT_FAILURE else None.

(** * Construction *)

(** What the calls of the constructor answer. [handlers_ok]: the three calls of
    [setSignalHandler], whose body is not in the file. *)
Record calls := mk_calls {
  log_opens : bool; mask_ok : bool; handlers_ok : bool; pipe_fds : option (Z * Z); thread_starts : bool
}.

Record manager := mk_manager { log_open : bool; reaperPipe : option (Z * Z); reaper_runs : bool }.

(** The manager and the static [g_instance] after one evaluation of the constructor;
    the left side is the exception. *)
Definition construct (c : calls) (g_instance : bool) : (string + manager) * bool :=
  if g_instance then (inl "ProcessManager singleton re-initialization attempt"%string, true)
  else if negb (mask_ok c) then (inl "Failed to block SIGCHLD"%string, true)
  else if negb (handlers_ok c) then (inl "setSignalHandler"%string, true)
  else match pipe_fds c with
       | None => (inl "Failed to create reaper pipe"%string, true)
       | Some fds =>
           if thread_starts c then (inr (mk_manager (log_opens c) (Some fds) true), true)
           else (inl "std::system_error"%string, true)
       end.

(** [instance()]: the static is constructed at the first use that succeeds. *)
Definition instance (c : calls) (s : option manager * bool) : (string + manager) * (option manager * bool) :=
  match s with
  | (Some m, g) => (inr m, s)
  | (None, g) =>
      let '(r, g) := construct c g in
      match r with
      | inr m => (inr m, (Some m, g))
      | inl e => (inl e, (None, g))
      end
  end.

(** * One pass of reaping *)

(** The status word of [waitpid]. *)
Definition WTERMSIG (status : Z) : Z := Z.land status 127.
Definition WIFEXITED (status : Z) : bool := WTERMSIG status =? 0.
Definition WEXITSTATUS (status : Z) : Z := Z.land (Z.shiftr status 8) 255.
(** [((signed char) ((status & 0x7f) + 1) >> 1) > 0] *)
Definition WIFSIGNALED (status : Z) : bool := 0 <? Z.shiftr (signed 8 (WTERMSIG status + 1)) 1.

Inductive reason := ExitedNormally (code : Z) | TerminatedBy (signal : Z) | Unexpected.

Definition exit_reason (status : Z) : reason :=
  if WIFEXITED status then ExitedNormally (WEXITSTATUS status)
  else if WIFSIGNALED status then TerminatedBy (WTERMSIG status)
  else Unexpected.

Definition state_after (r : reason) (s : ProcessState) : ProcessState :=
  match r with ExitedNormally _ => EXITED | TerminatedBy _ => TERMINATED | Unexpected => s end.

Inductive log_line :=
| Reaped (p : Z) (r : reason)
| UnknownPid (p : Z)
| WaitFailed
| PselectFailed
| WakeFailed.

(** The members that the reaper touches; [notified] counts [m_cvFinished.notify_all()]. *)
Record members := mk_members {
  processes : gmap Z ProcessData; activeProcessCount : Z; activeThreadCount : Z;
  notified : nat; log : list log_line
}.

(** A child that [waitpid] reports. *)
Definition reap (p status : Z) (m : members) : members :=
  match processes m !! p with
  | Some d =>
      let r := exit_reason status in
      let entry := mk_process (pid d) (proc_priority d) (state_after r (pstate d)) in
      let prev_count := activeProcessCount m in
      mk_members (delete p (<[p := entry]> (processes m))) (u64 (prev_count - 1)) (activeThreadCount m)
        (if (prev_count =? 1) && (activeThreadCount m =? 0) then S (notified m) else notified m)
        (log m ++ [Reaped p r])
  | None =>
      mk_members (processes m) (activeProcessCount m) (activeThreadCount m) (notified m) (log m ++ [UnknownPid p])
  end.

Inductive wait_answer :=
| Child (p status : Z)
| NoneWaiting
| NoChildren
| Interrupted
| WaitError.

(** [while (true)] around [waitpid(-1, &status, WNOHANG)]; the answers that are left.
    [None]: the script of answers ends before the loop does. *)
Fixpoint reap_loop (answers : list wait_answer) (m : members) : option (members * list wait_answer) :=
  match answers with
  | [] => None
  | Child p status :: answers => reap_loop answers (reap p status m)
  | NoneWaiting :: answers => Some (m, answers)
  | NoChildren :: answers => Some (m, answers)
  | Interrupted :: answers => reap_loop answers m
  | WaitError :: answers =>
      Some (mk_members (processes m) (activeProcessCount m) (activeThreadCount m) (notified m) (log m ++ [WaitFailed]), answers)
  end.

(** * The reaper thread and the destructor *)

Inductive select_result := SReady | SInterrupted | SError.

Inductive reaper_pc :=
| RTop                                        (* while (!m_stopReaper.load()) *)
| RSelect                                     (* waiting in pselect *)
| RAfter (r : select_result) (isset : bool)   (* the checks after it; isset: FD_ISSET *)
| RDrain                                      (* while (read(...) > 0) *)
| RRecheck                                    (* the flag again, after draining *)
| RReap                                       (* the waitpid loop *)
| RDone.

(** [MJoin woken]: in [join], after the [write] to the pipe; [woken]: it succeeded. *)
Inductive main_pc := MRun | MStop | MWrite | MJoin (woken : bool) | MClosed.

Record machine := mk_machine {
  rpc : reaper_pc; mpc : main_pc; stop : bool; pipe : nat; mem : members; open_fds : bool
}.

(** A warning in the log. *)
Definition warn (l : log_line) (x : members) : members :=
  mk_members (processes x) (activeProcessCount x) (activeThreadCount x) (notified x) (log x ++ [l]).

(** What may happen around the two threads. Signals the program has installed handlers
    for, beyond what the manager does: [on_select] can interrupt [pselect] (SIGCHLD is
    let through there), [on_read] a signal that is not blocked outside it.
    [select_fails]: [pselect] may fail in another way; [write_fails]: the [write] of
    the destructor may fail. *)
Record events := mk_events { on_select : bool; on_read : bool; select_fails : bool; write_fails : bool }.

Definition no_events : events := mk_events false false false false.

Inductive step (g : events) : machine -> machine -> Prop :=
| step_top m s p x o :
    step g (mk_machine RTop m s p x o) (mk_machine (if s then RDone else RSelect) m s p x o)
| step_ready m s p x o : (0 < p)%nat ->
    step g (mk_machine RSelect m s p x o) (mk_machine (RAfter SReady true) m s p x o)
| step_interrupted m s p x o : on_select g || on_read g = true ->
    (* the sets are not modified: the descriptor is still in read_fds *)
    step g (mk_machine RSelect m s p x o) (mk_machine (RAfter SInterrupted true) m s p x o)
| step_select_error m s p x o : select_fails g = true ->
    step g (mk_machine RSelect m s p x o) (mk_machine (RAfter SError true) m s p x o)
| step_after m s p x o r isset :
    step g (mk_machine (RAfter r isset) m s p x o)
      (if s then mk_machine RDone m s p x o else
       match r with
       | SError => mk_machine RTop m s p (warn PselectFailed x) o
       | _ => mk_machine (if isset then RDrain else RReap) m s p x o
       end)
| step_read m s p x o : (0 < p)%nat ->
    (* at most 16 bytes at a time *)
    step g (mk_machine RDrain m s p x o) (mk_machine RDrain m s (p - Nat.min 16 p) x o)
| step_read_interrupted m s x o : on_read g = true ->
    step g (mk_machine RDrain m s 0 x o) (mk_machine RRecheck m s 0 x o)
| step_recheck m s p x o :
    step g (mk_machine RRecheck m s p x o) (mk_machine (if s then RDone else RReap) m s p x o)
| step_reap m s p x o answers x' rest : reap_loop answers x = Some (x', rest) ->
    step g (mk_machine RReap m s p x o) (mk_machine RTop m s p x' o)
| step_shutdown r s p x o :
    step g (mk_machine r MRun s p x o) (mk_machine r MStop s p x o)
| step_stop r s p x o :
    step g (mk_machine r MStop s p x o) (mk_machine r MWrite true p x o)
| step_write r s p x o :
    step g (mk_machine r MWrite s p x o) (mk_machine r (MJoin true) s (S p) x o)
| step_write_fails r s p x o epipe : write_fails g = true ->
    (* logged unless errno is EPIPE; the destructor goes on *)
    step g (mk_machine r MWrite s p x o) (mk_machine r (MJoin false) s p (if epipe : bool then x else warn WakeFailed x) o)
| step_join s p x o woken :
    step g (mk_machine RDone (MJoin woken) s p x o) (mk_machine RDone MClosed s p x false).

Definition start (x : members) : machine := mk_machine RTop MRun false 0 x true.
Definition reachable (g : events) (x : members) (s : machine) : Prop := rtc (step g) (start x) s.

(** * Thread records own their threads *)

Definition handles (m : gmap Z ThreadData) : list Z := map_to_list m ≫= (fun kv => option_list (handle kv.2)).

Lemma handles_new m l t : m !! l = None -> handles (<[l := t]> m) ≡ₚ option_list (handle t) ++ handles m.
Proof. intros H. unfold handles. by rewrite map_to_list_insert. Qed.

Lemma handles_take m l t : m !! l = Some t -> handles m ≡ₚ option_list (handle t) ++ handles (delete l m).
Proof. intros H. rewrite <- (insert_delete_id m l t H) at 1. apply handles_new, lookup_delete_eq. Qed.

Lemma handles_put m l t : handles (<[l := t]> m) ≡ₚ option_list (handle t) ++ handles (delete l m).
Proof. rewrite <- insert_delete_eq. apply handles_new, lookup_delete_eq. Qed.

(** A record that was moved from or joined has no thread, and every thread that was
    started is held by one record or was detached once. *)
Record owns (s : threads) : Prop := {
  owns_joined : forall l t, recs s !! l = Some t -> joined t = true -> handle t = None;
  owns_all : handles (recs s) ++ detached s ≡ₚ started s;
  owns_once : NoDup (started s)
}.

Lemma let_go_spec t : (joined t = true -> handle t = None) -> let_go t = (option_list (handle t), None).
Proof.
  intros H. unfold let_go, joinable. destruct (handle t) as [h|]; cbn.
  - destruct (joined t); [by specialize (H eq_refl)|done].
  - done.
Qed.

Lemma owns_transfer s l other n o gone :
  owns s -> (forall t, recs s !! l = Some t -> gone = option_list (handle t)) -> (recs s !! l = None -> gone = []) ->
  forall from, recs s !! from = Some other -> l <> from ->
  handle n = handle other -> joined n = joined other -> handle o = None -> 
  owns (mk_threads (<[l := n]> (<[from := o]> (recs s))) (started s) (gone ++ detached s)).
Proof.
  intros [H1 H2 H3] Hg Hg0 from Hf Hne Hn Hj Ho. split; cbn; [| |done].
  - intros k t. destruct (decide (k = l)) as [->|Hkl].
    + rewrite lookup_insert_eq. intros [= <-]. rewrite Hn, Hj. by eapply H1.
    + rewrite lookup_insert_ne by done. destruct (decide (k = from)) as [->|Hkf].
      * rewrite lookup_insert_eq. intros [= <-]. done.
      * rewrite lookup_insert_ne by done. apply H1.
  - rewrite handles_put, delete_insert_ne, handles_put, Ho, Hn by done. rewrite <- H2, (handles_take _ _ _ Hf).
    cbn [option_list app]. rewrite delete_delete. destruct (recs s !! l) as [t|] eqn:El.
    + rewrite (Hg t eq_refl), (handles_take (delete from (recs s)) l t) by (by rewrite lookup_delete_ne).
      rewrite delete_delete. solve_Permutation.
    + rewrite Hg0 by done. rewrite delete_id by (by rewrite lookup_delete_ne). done.
Qed.

Lemma thread_exec_owns op s r : owns s -> thread_exec op s = Some r -> exists s', r = Ok s' /\ owns s'.
Proof.
  intros O E. pose proof O as [H1 H2 H3]. destruct op as [l t prio tok|l from|l from|l]; cbn [thread_exec] in E.
  - destruct (recs s !! l) eqn:El; [done|]. destruct (bool_decide_reflect (t ∈ started s)) as [|Ht]; [done|].
    injection E as <-. eexists. split; [reflexivity|]. split; cbn.
    + intros k u. destruct (decide (k = l)) as [->|]; [rewrite lookup_insert_eq; by intros [= <-]|].
      rewrite lookup_insert_ne by done. apply H1.
    + rewrite handles_new by done. cbn. by rewrite H2.
    + by constructor.
  - destruct (recs s !! l) eqn:El; [done|]. destruct (recs s !! from) as [other|] eqn:Ef; [|done].
    injection E as <-. eexists. split; [reflexivity|].
    change (owns (mk_threads (<[l := other]> (<[from := (move_thread other).2]> (recs s))) (started s) ([] ++ detached s))).
    eapply (owns_transfer s l other); try done; congruence.
  - destruct (recs s !! l) as [self|] eqn:El; [|done]. destruct (recs s !! from) as [other|] eqn:Ef; [|done].
    destruct (Z.eqb_spec l from) as [->|Hne]; [injection E as <-; eauto|].
    unfold assign_thread in E. rewrite let_go_spec in E by (by apply (H1 l)). cbn in E. injection E as <-.
    eexists. split; [reflexivity|]. eapply (owns_transfer s l other); try done; congruence.
  - destruct (recs s !! l) as [t|] eqn:El; [|done]. unfold destroy_thread in E. rewrite let_go_spec in E by (by apply (H1 l)).
    cbn in E. injection E as <-. eexists. split; [reflexivity|]. split; cbn; [| |done].
    + intros k u Hk%lookup_delete_Some. naive_solver.
    + rewrite <- H2, (handles_take _ _ _ El). solve_Permutation.
Qed.

Lemma thread_run_owns os s r : owns s -> thread_run os s = Some r -> exists s', r = Ok s' /\ owns s'.
Proof.
  revert s. induction os as [|op os IH]; intros s O E; cbn in E; [injection E as <-; eauto|].
  destruct (thread_exec op s) as [r'|] eqn:Ex; [|done].
  destruct (thread_exec_owns _ _ _ O Ex) as (s' & -> & O'). by eapply IH.
Qed.

(** whatever records are built, moved, assigned and destroyed, no std::thread is
    overwritten or destroyed while joinable (the program is not ended), and each
    thread that was started is held by exactly one record or was detached exactly once. *)
Theorem thread_records_own os r :
  thread_run os (mk_threads ∅ [] []) = Some r ->
  exists s, r = Ok s /\ NoDup (handles (recs s) ++ detached s) /\ handles (recs s) ++ detached s ≡ₚ started s.
Proof.
  intros E. destruct (thread_run_owns os (mk_threads ∅ [] []) r) as (s & -> & [_ H1 H2]); [|done|].
  { split; cbn; [done|by rewrite app_nil_r|constructor]. }
  exists s. by rewrite H1.
Qed.

Definition thread_demo : list thread_op :=
  [OStart 1 100 0 7; OStart 2 200 0 8; OMove 3 1; OAssign 2 3; ODestroy 1; ODestroy 2].

Lemma thread_records_own_witness :
  exists s, thread_run thread_demo (mk_threads ∅ [] []) = Some (Ok s) /\ handles (recs s) ++ detached s ≡ₚ [200; 100].
Proof.
  destruct (thread_run thread_demo (mk_threads ∅ [] [])) as [r|] eqn:E; [|exfalso; vm_compute in E; discriminate E].
  destruct (thread_records_own thread_demo r E) as (s & -> & _ & H). exists s. split; [done|].
  rewrite H. vm_compute in E. injection E as <-. reflexivity.
Defined.

(** The assigned record runs the other's thread and keeps its own stop token. *)
Lemma assign_keeps_token self other r o gone :
  assign_thread self other = Ok (r, o, gone) -> id r = id other /\ handle r = handle other /\ token r = token self.
Proof. unfold assign_thread. destruct (let_go self) as [g [h|]]; [done|]. by intros [= <- <- <-]. Qed.

(** * The singleton *)

(** Successive uses of [instance()], with the answers each would get. *)
Fixpoint uses (cs : list calls) (s : option manager * bool) : list (string + manager) :=
  match cs with
  | [] => []
  | c :: cs => let '(r, s) := instance c s in r :: uses cs s
  end.

Lemma uses_built cs m g : uses cs (Some m, g) = (fun _ => inr m) <$> cs.
Proof. induction cs as [|c cs IH]; [done|]. cbn. by rewrite IH. Qed.

Lemma uses_failed cs :
  uses cs (None, true) = (fun _ => inl "ProcessManager singleton re-initialization attempt"%string) <$> cs.
Proof. induction cs as [|c cs IH]; [done|]. cbn. by rewrite IH. Qed.

(** The first use decides: when it builds the manager every later one gets the same
    manager, and when it throws every later one throws, whatever the system answers
    then, because the failed constructor has left [g_instance] set. *)
Lemma first_use_decides c cs :
  match uses (c :: cs) (None, false) with
  | inr m :: later => later = (fun _ => inr m) <$> cs
  | inl _ :: later => later = (fun _ => inl "ProcessManager singleton re-initialization attempt"%string) <$> cs
  | [] => False
  end.
Proof.
  unfold uses. fold uses. unfold instance, construct.
  destruct (mask_ok c), (handlers_ok c), (pipe_fds c), (thread_starts c); cbn;
    first [apply uses_built | apply uses_failed].
Qed.

(** * Reaping *)

(** The manager counts the processes it has. *)
Definition counted (m : members) : Prop :=
  activeProcessCount m = Z.of_nat (size (processes m)) /\ in_u64 (activeProcessCount m).

Lemma reap_known p status m d : processes m !! p = Some d -> counted m ->
  processes (reap p status m) = delete p (processes m) /\ counted (reap p status m).
Proof.
  intros H [Hc Hb]. unfold reap. rewrite H. cbn. rewrite delete_insert_eq. split; [done|]. unfold counted; cbn.
  pose proof (map_size_delete_Some p (processes m) (mk_is_Some _ _ H)) as Hs.
  assert (size (processes m) <> 0%nat) by (apply (map_size_ne_0_lookup_2 _ p); by rewrite H).
  unfold in_u64 in *. rewrite u64_small by (unfold in_u64; lia). lia.
Qed.

Lemma reap_unknown p status m : processes m !! p = None ->
  processes (reap p status m) = processes m /\ activeProcessCount (reap p status m) = activeProcessCount m /\
  notified (reap p status m) = notified m.
Proof. intros H. unfold reap. by rewrite H. Qed.

Lemma reap_counted p status m : counted m ->
  counted (reap p status m) /\ processes (reap p status m) = delete p (processes m).
Proof.
  intros Hc. destruct (processes m !! p) as [d|] eqn:E.
  - destruct (reap_known p status m d E Hc) as [H1 H2]. done.
  - destruct (reap_unknown p status m E) as (H1 & H2 & _). unfold counted. rewrite H1, H2, delete_id by done. done.
Qed.

(** The answers of one pass: the children it reports, and what is left after the
    answer that ends it. *)
Inductive pass : list wait_answer -> list Z -> list wait_answer -> Prop :=
| pass_end a rest : a = NoneWaiting \/ a = NoChildren \/ a = WaitError -> pass (a :: rest) [] rest
| pass_interrupted answers ps rest : pass answers ps rest -> pass (Interrupted :: answers) ps rest
| pass_child p status answers ps rest : pass answers ps rest -> pass (Child p status :: answers) (p :: ps) rest.

Definition erase_all (ps : list Z) (m : gmap Z ProcessData) : gmap Z ProcessData :=
  filter (fun kv => kv.1 ∉ ps) m.

Lemma erase_cons p ps m : erase_all (p :: ps) m = erase_all ps (delete p m).
Proof.
  apply map_eq. intros k. unfold erase_all. apply option_eq. intros d.
  rewrite !map_lookup_filter_Some, lookup_delete_Some, not_elem_of_cons. cbn. naive_solver.
Qed.

Lemma erase_nil m : erase_all [] m = m.
Proof. apply map_filter_id. intros. apply not_elem_of_nil. Qed.

(** One [notify_all] when the last process goes while no thread is active. *)
Definition last_gone (before after : members) : nat :=
  if bool_decide (processes before <> ∅ /\ processes after = ∅) && (activeThreadCount before =? 0) then 1%nat else 0%nat.

Lemma reap_notifies p status m : counted m ->
  (notified (reap p status m) = notified m + last_gone m (reap p status m))%nat.
Proof.
  intros Hc. destruct (processes m !! p) as [d|] eqn:E.
  - destruct (reap_known p status m d E Hc) as [H1 _]. unfold last_gone. rewrite H1.
    assert (Hne : processes m <> ∅) by (intros H; by rewrite H, lookup_empty in E).
    unfold reap. rewrite E. cbn. destruct Hc as [Hc _]. rewrite Hc.
    pose proof (map_size_delete_Some p (processes m) (mk_is_Some _ _ E)) as Hs.
    assert (Hz : size (processes m) <> 0%nat) by (apply (map_size_ne_0_lookup_2 _ p); by rewrite E).
    destruct (Z.eqb_spec (Z.of_nat (size (processes m))) 1) as [H|H].
    + rewrite bool_decide_true. { destruct (activeThreadCount m =? 0); cbn; lia. }
      split; [done|]. apply map_size_empty_inv. lia.
    + rewrite bool_decide_false; [cbn; lia|]. intros [_ He]. rewrite He, map_size_empty in Hs. lia.
  - destruct (reap_unknown p status m E) as (H1 & _ & ->). unfold last_gone. rewrite H1.
    rewrite bool_decide_false by tauto. cbn. lia.
Qed.

Lemma last_gone_trans a b c : activeThreadCount b = activeThreadCount a ->
  (processes a = ∅ -> processes b = ∅) -> (processes b = ∅ -> processes c = ∅) ->
  (last_gone a b + last_gone b c = last_gone a c)%nat.
Proof.
  unfold last_gone. intros -> H1 H2. destruct (activeThreadCount a =? 0); rewrite ?andb_true_r, ?andb_false_r; [|done].
  repeat case_bool_decide; naive_solver.
Qed.

Lemma last_gone_refl m : last_gone m m = 0%nat.
Proof. unfold last_gone. by rewrite bool_decide_false by tauto. Qed.

Lemma erase_empty ps : erase_all ps ∅ = ∅.
Proof. apply map_filter_empty. Qed.

Definition pid_of (l : log_line) : option Z :=
  match l with Reaped p _ | UnknownPid p => Some p | _ => None end.

Lemma reap_log p status m : exists l, log (reap p status m) = log m ++ [l] /\ pid_of l = Some p /\
  activeThreadCount (reap p status m) = activeThreadCount m.
Proof. unfold reap. destruct (processes m !! p); cbn; eauto. Qed.

(** one pass of the reaper over the answers of waitpid, interruptions included,
    ends, and removes exactly the reported children from the map; the counter stays
    the number of entries; waiters are notified once, exactly when the last entry went
    and no thread is active; and each report is logged in order. *)
Theorem reap_pass_correct answers ps rest m : pass answers ps rest -> counted m ->
  exists m' ls, reap_loop answers m = Some (m', rest) /\ processes m' = erase_all ps (processes m) /\ counted m' /\
    notified m' = (notified m + last_gone m m')%nat /\ activeThreadCount m' = activeThreadCount m /\
    log m' = log m ++ ls /\ omap pid_of ls = ps.
Proof.
  intros H. revert m. induction H as [a rest H|answers ps rest H IH|p status answers ps rest H IH]; intros m Hc.
  - exists (match a with WaitError => mk_members (processes m) (activeProcessCount m) (activeThreadCount m) (notified m) (log m ++ [WaitFailed]) | _ => m end).
    exists (match a with WaitError => [WaitFailed] | _ => [] end).
    rewrite erase_nil. destruct H as [-> |[-> | ->]]; cbn; rewrite ?app_nil_r, ?last_gone_refl, ?Nat.add_0_r; [by split_and!..|].
    split_and!; try done. unfold last_gone. cbn. by rewrite bool_decide_false by tauto.
  - cbn. by apply IH.
  - cbn [reap_loop]. destruct (reap_counted p status m Hc) as [Hc' Hp]. destruct (reap_log p status m) as (l & Hl & Hpid & Ht).
    destruct (IH _ Hc') as (m' & ls & E & H1 & H2 & H3 & H4 & H5 & H6). exists m', (l :: ls).
    rewrite erase_cons, <- Hp. split_and!; [done..| | | |].
    + rewrite H3, reap_notifies, <- (last_gone_trans m (reap p status m) m') by
        (done || by rewrite ?H1, Hp; intros ->; rewrite ?delete_empty, ?erase_empty || by rewrite H1; intros ->; rewrite erase_empty).
      lia.
    + congruence.
    + by rewrite H5, Hl, <- app_assoc.
    + cbn. by rewrite Hpid, H6.
Qed.

Definition two_processes : members :=
  mk_members {[10 := new_process 10 0; 11 := new_process 11 5]} 2 0 0 [].

Lemma reap_pass_correct_witness : exists m' ls,
  reap_loop [Child 10 256; Interrupted; Child 99 0; Child 11 9; NoneWaiting] two_processes = Some (m', []) /\
  processes m' = ∅ /\ notified m' = 1%nat /\ log m' = [] ++ ls /\ omap pid_of ls = [10; 99; 11].
Proof.
  destruct (reap_pass_correct [Child 10 256; Interrupted; Child 99 0; Child 11 9; NoneWaiting] [10; 99; 11] [] two_processes)
    as (m' & ls & E & H1 & H2 & H3 & H4 & H5 & H6).
  - repeat constructor.
  - split; [reflexivity|vm_compute; split; congruence].
  - exists m', ls. split; [exact E|]. split; [by rewrite H1|]. split; [|split; assumption].
    vm_compute in E. injection E as <-. reflexivity.
Defined.

(** Every status word of a child that ended is told apart. *)
Lemma exit_reason_exited code core : 0 <= code < 256 -> 0 <= core < 256 ->
  exit_reason (256 * code) = ExitedNormally code /\
  (1 <= core < 127 -> exit_reason core = TerminatedBy core).
Proof.
  intros Hc Hs. split.
  - unfold exit_reason, WIFEXITED, WTERMSIG, WEXITSTATUS.
    change 127 with (Z.ones 7). change 255 with (Z.ones 8). rewrite !Z.land_ones, Z.shiftr_div_pow2 by lia.
    replace (256 * code) with (code * 2 * 2 ^ 7) at 1 by lia. rewrite Z.mod_mul by lia. cbn [Z.eqb].
    f_equal. rewrite (Z.mul_comm 256), Z.div_mul by lia. apply Z.mod_small. lia.
  - intros H. unfold exit_reason, WIFEXITED, WIFSIGNALED, WTERMSIG, signed, wrap.
    change 127 with (Z.ones 7). rewrite !Z.land_ones by lia. rewrite (Z.mod_small core) by lia.
    rewrite (Z.mod_small (core + 1)) by lia. rewrite Z.shiftr_div_pow2 by lia.
    rewrite (proj2 (Z.eqb_neq core 0)) by lia. rewrite (proj2 (Z.ltb_lt (core + 1) (2 ^ (8 - 1)))) by lia.
    rewrite (proj2 (Z.ltb_lt 0 _)); [done|]. apply Z.div_str_pos. lia.
Qed.

(** * The reaper beside the destructor *)

(** The byte is written after the flag is set; a reader that was not interrupted waits
    in [pselect], and [FD_ISSET] holds whenever it is asked. *)
Definition flag_of (m : main_pc) : bool := match m with MRun | MStop => false | _ => true end.
Definition written (m : main_pc) : bool := match m with MJoin _ | MClosed => true | _ => false end.

Record minv (x : members) (s : machine) : Prop := {
  minv_stop : stop s = flag_of (mpc s);
  minv_pipe : (0 < pipe s)%nat -> written (mpc s) = true;
  minv_isset : forall r i, rpc s = RAfter r i -> i = true;
  minv_ready : rpc s = RAfter SReady true -> stop s = true;
  minv_mem : processes (mem s) = processes x /\ activeProcessCount (mem s) = activeProcessCount x /\ notified (mem s) = notified x;
  minv_reap : rpc s <> RReap /\ rpc s <> RRecheck;
  minv_closed : mpc s = MClosed -> rpc s = RDone;
  minv_wake : mpc s = MJoin true -> rpc s = RDrain \/ (0 < pipe s)%nat;
  minv_open : open_fds s = match mpc s with MClosed => false | _ => true end
}.

Lemma minv_start x : minv x (start x).
Proof. split; cbn; (done || lia). Qed.

Lemma written_flag m : written m = true -> flag_of m = true.
Proof. by destruct m. Qed.

Lemma minv_step g x s s' : on_read g = false -> minv x s -> step g s s' -> minv x s'.
Proof.
  intros Hg [I1 I2 I3 I4 I5 [I6 I6'] I8 I9 I10] Hs.
  destruct Hs as [m s p y o|m s p y o Hp|m s p y o Ho|m s p y o Ho|m s p y o r isset|m s p y o Hp|m s y o Ho|m s p y o
    |m s p y o answers y' rest E|r s p y o|r s p y o|r s p y o|r s p y o epipe Ho|s p y o woken]; cbn in *; try done; try congruence.
  - split; cbn; try done; [by destruct s..|by intros Hm; specialize (I8 Hm)|intros Hm; destruct (I9 Hm); [done|auto]].
  - split; cbn; try done; [naive_solver| |intros Hm; by specialize (I8 Hm)|naive_solver].
    intros _. rewrite I1. by apply written_flag, I2.
  - split; cbn; try done; [naive_solver|intros Hm; by specialize (I8 Hm)|naive_solver].
  - split; cbn; try done; [naive_solver|intros Hm; by specialize (I8 Hm)|naive_solver].
  - assert (isset = true) as -> by (by eapply I3). destruct s.
    + split; cbn; try done. intros Hm. destruct (I9 Hm); [done|auto].
    + destruct r; [by specialize (I4 eq_refl)| |]; (split; cbn; try done; [intros Hm; by specialize (I8 Hm)|intros Hm]).
      * by left.
      * rewrite Hm in I1. done.
  - split; cbn; try done; [intros; apply I2; lia|by left].
  - split; cbn; try done. intros _. right. lia.
  - split; cbn; try done. by destruct epipe.
Qed.

Lemma reachable_minv g x s : on_read g = false -> reachable g x s -> minv x s.
Proof.
  intros Hg. apply (rtc_ind_r (minv x)); [apply minv_start|]. intros y z _ Hs I. by eapply minv_step.
Qed.

(** unless a handler interrupts its blocking read, the reaper never reaches the
    waitpid loop, in any interleaving with the destructor: every wake of pselect finds
    the descriptor in its set and goes on to read the empty pipe, so no child is ever
    reaped, the map and the counter keep every entry and waiters are never notified. *)
Theorem reaper_never_reaps g x s : on_read g = false -> reachable g x s ->
  rpc s <> RReap /\ processes (mem s) = processes x /\ activeProcessCount (mem s) = activeProcessCount x /\
  notified (mem s) = notified x.
Proof. intros Hg Hr. destruct (reachable_minv g x s Hg Hr) as [_ _ _ _ (? & ? & ?) [? _] _ _ _]. done. Qed.

(** ** Ending *)

(** Steps that are left once the flag is set. *)
Definition rpc_rank (r : reaper_pc) : nat :=
  match r with RTop => 3 | RSelect => 2 | RAfter _ _ => 1 | _ => 0 end.
Definition mpc_rank (m : main_pc) : nat :=
  match m with MRun => 4 | MStop => 3 | MWrite => 2 | MJoin _ => 1 | MClosed => 0 end.
Definition rank (s : machine) : nat := 20 * mpc_rank (mpc s) + rpc_rank (rpc s).

Definition quiet (g : events) : Prop := on_select g = false /\ on_read g = false.

Lemma quiet_not_drain g x s : quiet g -> reachable g x s -> rpc s <> RDrain /\ (forall i, rpc s <> RAfter SInterrupted i).
Proof.
  intros [Hs Hr]. unfold reachable.
  apply (rtc_ind_r (fun s => rpc s <> RDrain /\ (forall i, rpc s <> RAfter SInterrupted i))); [done|].
  intros y z Hy Hs' [IH1 IH2].
  pose proof (reachable_minv g x y Hr Hy) as [_ _ I3 I4 _ [I6 I6'] _ _ _].
  destruct Hs' as [m st p v o|m st p v o Hp|m st p v o Ho|m st p v o Ho|m st p v o r isset|m st p v o Hp|m st v o Ho|m st p v o
    |m st p v o answers v' rest E|r st p v o|r st p v o|r st p v o|r st p v o epipe Ho|st p v o woken]; cbn in *; try done.
  - by destruct st.
  - rewrite Hs, Hr in *. done.
  - assert (isset = true) as -> by (by eapply I3). destruct st; cbn; [done|].
    destruct r; cbn; [by specialize (I4 eq_refl)|by destruct (IH2 true)|done].
Qed.

Lemma quiet_rank g x s s' : quiet g -> reachable g x s -> stop s = true -> step g s s' ->
  (rank s' < rank s)%nat /\ stop s' = true.
Proof.
  intros Q Hr Hs Hst. destruct (quiet_not_drain g x s Q Hr) as [Hd _].
  pose proof (reachable_minv g x s (proj2 Q) Hr) as [I1 _ _ _ _ [I6 I6'] _ _ _].
  destruct Hst; cbn [stop rpc mpc] in *; subst; unfold rank; cbn; try done; try (split; [lia|done]).
Qed.

Lemma quiet_acc g x s : quiet g -> reachable g x s -> stop s = true -> Acc (flip (step g)) s.
Proof.
  intros Q. remember (rank s) as n eqn:En. revert s En. induction (lt_wf n) as [n _ IH]. intros s -> Hr Hs.
  constructor. intros s' Hst. destruct (quiet_rank g x s s' Q Hr Hs Hst) as [Hlt Hs'].
  apply (IH (rank s')); [done..| |done]. by eapply rtc_r.
Qed.

(** Nothing can happen any more, as long as no call fails and no signal arrives. *)
Definition at_rest (s : machine) : Prop := forall t, ~ step no_events s t.

Lemma quiet_at_rest g x s : quiet g -> reachable g x s -> at_rest s -> stop s = true ->
  (mpc s = MClosed /\ rpc s = RDone /\ open_fds s = false) \/ (mpc s = MJoin false /\ rpc s = RSelect).
Proof.
  intros Q Hr Hn Hs. destruct (quiet_not_drain g x s Q Hr) as [Hd _].
  pose proof (reachable_minv g x s (proj2 Q) Hr) as [_ _ _ _ _ [I6 I6'] I8 I9 I10].
  destruct s as [r m st p y o]. cbn in *. subst st. destruct m as [| | |woken|]; cbn in *.
  - exfalso. eapply Hn, step_shutdown.
  - exfalso. eapply Hn, step_stop.
  - exfalso. eapply Hn, step_write.
  - destruct r; try done.
    + exfalso. eapply Hn, step_top.
    + destruct woken; [|by right]. exfalso. destruct (I9 eq_refl) as [|Hp]; [done|]. by eapply Hn, step_ready.
    + exfalso. eapply Hn, step_after.
    + exfalso. eapply Hn, step_join.
  - left. auto.
Qed.

(** The destructor is past its [write] without the byte only where [write] may fail. *)
Lemma unwoken_write_fails g x s : reachable g x s -> mpc s = MJoin false -> write_fails g = true.
Proof.
  unfold reachable. apply (rtc_ind_r (fun s => mpc s = MJoin false -> write_fails g = true)); [done|].
  intros y z _ Hs IH. destruct Hs; cbn in *; repeat case_match; cbn in *; done.
Qed.

(** C23: the destructor and the end of the reaper thread, when no handler interrupts
    pselect or read; pselect may fail otherwise at any time, and write may fail. Every
    run from the moment the stop flag is set is finite. When it can go on neither by a
    step of the reaper nor by one of the destructor - failures of pselect are not
    needed to get there - the reaper has ended, was joined and the pipe is closed; or
    the write of the wake-up byte failed and the destructor, which only logs that,
    joins a reaper that sleeps in pselect for ever. *)
Theorem destructor_terminates g x s : quiet g -> reachable g x s -> stop s = true ->
  Acc (flip (step g)) s /\
  forall s', rtc (step g) s s' -> at_rest s' ->
    (mpc s' = MClosed /\ rpc s' = RDone /\ open_fds s' = false) \/
    (write_fails g = true /\ mpc s' = MJoin false /\ rpc s' = RSelect).
Proof.
  intros Q Hr Hs. split; [by eapply quiet_acc|]. intros s' H Hn.
  assert (stop s' = true).
  { clear Hn. revert Hr Hs. induction H as [s|s t u Hst _ IH]; intros Hr Hs; [done|].
    apply IH; [by eapply rtc_r|]. by eapply quiet_rank. }
  assert (Hr' : reachable g x s') by (unfold reachable; by etrans).
  destruct (quiet_at_rest g x s') as [?|[Hm ?]]; [done..|by left|right].
  split; [by eapply unwoken_write_fails|done].
Qed.

Definition stopping (x : members) : machine := mk_machine RSelect MWrite true 0 x true.

Lemma stopping_reachable g x : reachable g x (stopping x).
Proof.
  eapply rtc_l; [apply step_top|]. eapply rtc_l; [apply step_shutdown|].
  eapply rtc_l; [apply step_stop|]. apply rtc_refl.
Qed.

(** The run in which nothing fails ends joined and closed. *)
Lemma destructor_terminates_witness :
  Acc (flip (step (mk_events false false true false))) (stopping two_processes) /\
  rtc (step (mk_events false false true false)) (stopping two_processes) (mk_machine RDone MClosed true 1 two_processes false) /\
  forall s', rtc (step (mk_events false false true false)) (stopping two_processes) s' -> at_rest s' -> mpc s' = MClosed.
Proof.
  destruct (destructor_terminates (mk_events false false true false) two_processes (stopping two_processes)) as [H1 H2];
    [done|apply stopping_reachable|reflexivity|].
  split; [exact H1|]. split.
  - eapply rtc_l; [apply step_write|]. eapply rtc_l; [apply step_ready; lia|]. eapply rtc_l; [apply step_after|].
    eapply rtc_l; [apply step_join|]. apply rtc_refl.
  - intros s' Hs Hn. destruct (H2 s' Hs Hn) as [[? _]|[H _]]; [done|discriminate H].
Defined.

Lemma reaper_never_reaps_witness :
  rpc (stopping two_processes) <> RReap /\ processes (mem (stopping two_processes)) = processes two_processes /\
  activeProcessCount (mem (stopping two_processes)) = activeProcessCount two_processes /\
  notified (mem (stopping two_processes)) = notified two_processes.
Proof. apply (reaper_never_reaps (mk_events true false true true)); [reflexivity|apply stopping_reachable]. Defined.

(** A failed [write] and the destructor never returns. *)
Lemma failed_wake_deadlocks x :
  reachable (mk_events false false false true) x (mk_machine RSelect (MJoin false) true 0 (warn WakeFailed x) true) /\
  at_rest (mk_machine RSelect (MJoin false) true 0 (warn WakeFailed x) true).
Proof.
  split.
  - eapply rtc_r; [apply stopping_reachable|]. by apply (step_write_fails _ _ _ _ _ _ false).
  - intros t Ht. inversion Ht; (lia || done).
Qed.

(** One interrupted [pselect] and the destructor never returns: the reaper waits in
    [read] before it looks at the flag, and takes the byte meant to wake it. *)
Lemma interrupted_reaper_deadlocks x : exists s,
  reachable (mk_events true false false false) x s /\ mpc s = MJoin true /\ stop s = true /\ (forall t, ~ step (mk_events true false false false) s t).
Proof.
  exists (mk_machine RDrain (MJoin true) true 0 x true). split_and!; [|done..|].
  - eapply rtc_l; [apply step_top|]. eapply rtc_l; [by apply step_interrupted|]. eapply rtc_l; [apply step_after|].
    eapply rtc_l; [apply step_shutdown|]. eapply rtc_l; [apply step_stop|]. eapply rtc_l; [apply step_write|].
    eapply rtc_l; [apply step_read; lia|]. apply rtc_refl.
  - intros t Ht. inversion Ht; (lia || done).
Qed.

End ProcMgr.
