(* ===== verification/FsHeader.v ===== *)
(** * The simple file system (src/fs/fs.h)

    Two arrays of nodes, a table of block marks, and one list of nodes per mounted
    file system, linked by [next]. The header includes itself for the declarations it
    needs, so the length of a name, the flag bits and the addresses of the arrays are
    variables; a node's data is the byte region behind [buffer]. Line 184 lacks a
    closing parenthesis and is read with it. Results are the C return values. *)
From Stdlib Require Import ZArith Lia.
From stdpp Require Import strings numbers gmap base.
From stdpp Require Import list.
From S2P Require Import Prelude.

Open Scope Z_scope.

Module SimpleFs.

Definition MAX_FILES : nat := 512.
Definition MAX_DIRS : nat := 512.
Definition MAX_BLOCKS : Z := 1024.
Definition BLOCK_SIZE : Z := 512.

Definition ENOENT : Z := 2.
Definition ENOMEM : Z := 12.
Definition EBUSY : Z := 16.
Definition EEXIST : Z := 17.
Definition ENOTDIR : Z := 20.
Definition EISDIR : Z := 21.
Definition ENOSPC : Z := 28.

Inductive fs_type := FS_TYPE_UNKNOWN | FS_TYPE_FAT32 | FS_TYPE_NTFS | FS_TYPE_OTHER (n : Z).

#[global] Instance fs_type_eq_dec : EqDecision fs_type.
Proof. solve_decision. Defined.

(** A pointer into [g_files] or [g_directories]. *)
Inductive ptr := PFile (i : nat) | PDir (i : nat).

#[global] Instance ptr_eq_dec : EqDecision ptr.
Proof. solve_decision. Defined.

(** [terminated]: the name array holds a terminator. *)
Record node := mk_node {
  name : string; terminated : bool; type : fs_type; flags : Z; next : option ptr;
  size : Z; buffer : list Z; blocks : Z
}.

Definition zero_node : node := mk_node "" true FS_TYPE_UNKNOWN 0 None 0 [] 0.

Record state := mk_state {
  g_file_system : option ptr; g_files : list node; g_directories : list node; g_blocks : list Z; index : Z
}.

(** Static storage is zero, the counter of [get_free_index] starts at -1. *)
Definition init : state :=
  mk_state None (replicate MAX_FILES zero_node) (replicate MAX_DIRS zero_node) (replicate (Z.to_nat MAX_BLOCKS) 0) (-1).

Section Fs.
Context (MAX_NAME_LEN : nat) (files_addr dirs_addr node_size : Z).
Context (FS_FLAG_NEW FS_FLAG_MOUNTED FS_FLAG_CREATED O_CREATE O_DIRECTORY : Z).

(** ** Nodes *)

Definition load (s : state) (p : ptr) : outcome node :=
  match p with
  | PFile i => arr_get (g_files s) (Z.of_nat i)
  | PDir i => arr_get (g_directories s) (Z.of_nat i)
  end.

Definition store (s : state) (p : ptr) (n : node) : outcome state :=
  match p with
  | PFile i => l ← arr_set (g_files s) (Z.of_nat i) n; Ok (mk_state (g_file_system s) l (g_directories s) (g_blocks s) (index s))
  | PDir i => l ← arr_set (g_directories s) (Z.of_nat i) n; Ok (mk_state (g_file_system s) (g_files s) l (g_blocks s) (index s))
  end.

(** [strcmp(node->name, path) == 0]. *)
Definition same_name (n : node) (path : string) : outcome bool :=
  if terminated n then Ok (String.eqb (name n) path) else Undef "unterminated name".

(** ** Block marks *)

Fixpoint next_free (fuel : nat) (bs : list Z) (i : Z) : outcome Z :=
  match fuel with
  | O => Hang
  | S fuel =>
      let i := i + 1 in
      if i <? MAX_BLOCKS then b ← arr_get bs i; if b =? 0 then Ok i else next_free fuel bs i
      else if i <? 2 ^ 31 then Ok i else Undef "signed overflow"
  end.

Definition get_free_index (s : state) : outcome (Z * state) :=
  i ← next_free (S (Z.to_nat MAX_BLOCKS)) (g_blocks s) (index s);
  Ok (if MAX_BLOCKS <=? i then -1 else i, mk_state (g_file_system s) (g_files s) (g_directories s) (g_blocks s) i).

Definition free_index (i : Z) (s : state) : outcome state :=
  bs ← arr_set (g_blocks s) i 0; Ok (mk_state (g_file_system s) (g_files s) (g_directories s) bs (index s)).

(** [&array[i]]: forming a pointer outside the array has no meaning. *)
Definition element (i : Z) (bound : nat) (p : nat -> ptr) : outcome (option ptr) :=
  if (0 <=? i) && (i <? Z.of_nat bound) then Ok (Some (p (Z.to_nat i))) else Undef "array index".

Definition alloc_node (t : fs_type) (s : state) : outcome (option ptr * state) :=
  match t with
  | FS_TYPE_FAT32 => '(i, s) ← get_free_index s; p ← element i MAX_FILES PFile; Ok (p, s)
  | FS_TYPE_NTFS => '(i, s) ← get_free_index s; p ← element i MAX_DIRS PDir; Ok (p, s)
  | _ => Ok (None, s)
  end.

Definition address (p : ptr) : Z :=
  match p with
  | PFile i => files_addr + node_size * Z.of_nat i
  | PDir i => dirs_addr + node_size * Z.of_nat i
  end.

(** [free_index((unsigned long)node / sizeof( *node))]: the parameter is an [int]. *)
Definition free_node (p : ptr) (s : state) : outcome state := free_index (s32 (address p / node_size)) s.

(** More than all nodes without a match: the list is a cycle. *)
Fixpoint find_loop (fuel : nat) (s : state) (p : option ptr) (path : string) : outcome (option ptr) :=
  match fuel with
  | O => Hang
  | S fuel =>
      match p with
      | None => Ok None
      | Some q =>
          n ← load s q; b ← same_name n path;
          if b : bool then Ok (Some q) else find_loop fuel s (next n) path
      end
  end.

Definition find_node (s : state) (path : string) : outcome (option ptr) :=
  find_loop (S (MAX_FILES + MAX_DIRS)) s (g_file_system s) path.

Definition create_node (path : string) (t : fs_type) (s : state) : outcome (option ptr * state) :=
  '(p, s) ← alloc_node t s;
  match p with
  | None => Ok (None, s)
  | Some q =>
      if (String.length path <? MAX_NAME_LEN)%nat then
        s ← store s q (mk_node path true t FS_FLAG_NEW None 0 [] 0); Ok (Some q, s)
      else Undef "strcpy"
  end.

Definition delete_node (p : ptr) (s : state) : outcome state := free_node p s.

Definition set_type (n : node) (t : fs_type) (f : Z) : node :=
  mk_node (name n) (terminated n) t f (next n) (size n) (buffer n) (blocks n).

(** ** Operations on paths *)

(** The node of a path, unless it is missing or refused. *)
Definition with_node {A} (s : state) (path : string) (missing : A) (refuse : node -> outcome (option A))
    (k : ptr -> node -> outcome A) : outcome A :=
  p ← find_node s path;
  match p with
  | None => Ok missing
  | Some q => n ← load s q; r ← refuse n; match r with Some a => Ok a | None => k q n end
  end.

(** [filesystem_type] is a pointer, and its value becomes the type. *)
Definition mount_filesystem (device : string) (filesystem_type : Z) (s : state) : outcome (Z * state) :=
  with_node s device (- ENOENT, s)
    (fun n => root ← same_name n "/";
       Ok (if root : bool then Some (- ENOENT, s)
           else if bool_decide (type n <> FS_TYPE_UNKNOWN) then Some (- EBUSY, s) else None))
    (fun q n => s ← store s q (set_type n (FS_TYPE_OTHER filesystem_type) (Z.ldiff (flags n) FS_FLAG_MOUNTED)); Ok (0, s)).

Definition unmount_filesystem (device : string) (s : state) : outcome (Z * state) :=
  with_node s device (- ENOENT, s)
    (fun n => root ← same_name n "/";
       Ok (if (root : bool) || bool_decide (type n = FS_TYPE_UNKNOWN) then Some (- ENOENT, s) else None))
    (fun q n => s ← store s q (set_type n FS_TYPE_UNKNOWN (Z.ldiff (flags n) FS_FLAG_MOUNTED)); Ok (0, s)).

Definition create_as (t : fs_type) (path : string) (s : state) : outcome (Z * state) :=
  '(p, s) ← create_node path t s;
  match p with
  | None => Ok (- ENOSPC, s)
  | Some q => n ← load s q; s ← store s q (set_type n (type n) (Z.lor (flags n) FS_FLAG_CREATED)); Ok (0, s)
  end.

Definition create_file : string -> state -> outcome (Z * state) := create_as FS_TYPE_FAT32.
Definition mkdir : string -> state -> outcome (Z * state) := create_as FS_TYPE_NTFS.

Definition unless {A} (t : fs_type) (e : A) (n : node) : outcome (option A) :=
  Ok (if bool_decide (type n <> t) then Some e else None).

Definition delete_as (t : fs_type) (path : string) (s : state) : outcome (Z * state) :=
  with_node s path (- ENOENT, s) (unless t (- ENOENT, s)) (fun q n => s ← delete_node q s; Ok (0, s)).

Definition delete_file : string -> state -> outcome (Z * state) := delete_as FS_TYPE_FAT32.
Definition rmdir : string -> state -> outcome (Z * state) := delete_as FS_TYPE_NTFS.

(** The copied data, when the node's region holds as many bytes as its size says. *)
Definition read_file (malloc_ok : bool) (path : string) (s : state) : outcome (Z * option (list Z)) :=
  with_node s path (- ENOENT, None) (unless FS_TYPE_FAT32 (- ENOENT, None))
    (fun q n =>
       if malloc_ok then
         if size n <=? Z.of_nat (length (buffer n)) then Ok (0, Some (take (Z.to_nat (size n)) (buffer n)))
         else Undef "memcpy"
       else Ok (- ENOMEM, None)).

Definition write_file (path : string) (data : list Z) (s : state) : outcome (Z * state) :=
  with_node s path (- ENOENT, s) (unless FS_TYPE_FAT32 (- ENOENT, s))
    (fun q n =>
       let len := Z.of_nat (length data) in
       if size n <? len then Ok (- ENOSPC, s)
       else if len <=? Z.of_nat (length (buffer n)) then
         s ← store s q (mk_node (name n) (terminated n) (type n) (flags n) (next n) len
                          (data ++ drop (length data) (buffer n)) (blocks n));
         Ok (0, s)
       else Undef "memcpy").

(** [st_mode], [st_nlink], [st_size], [st_blksize], [st_blocks]; the rest is zero. *)
Definition get_file_info (path : string) (s : state) : outcome (Z * option (Z * Z * Z * Z * Z)) :=
  with_node s path (- ENOENT, None) (unless FS_TYPE_FAT32 (- ENOENT, None))
    (fun q n => Ok (0, Some (Z.lor 32768 511, 1, size n, BLOCK_SIZE, blocks n))).

(** [strncpy] writes no terminator when the name fills the array. *)
Definition rename (old_name new_name : string) (s : state) : outcome (Z * state) :=
  with_node s old_name (- ENOENT, s) (fun _ => Ok None)
    (fun q n =>
       s ← store s q (mk_node (String.substring 0 MAX_NAME_LEN new_name) (String.length new_name <? MAX_NAME_LEN)%nat
                        (type n) (flags n) (next n) (size n) (buffer n) (blocks n));
       Ok (0, s)).

Definition has (mode flag : Z) : bool := negb (Z.land mode flag =? 0).

Definition open (path : string) (mode : Z) (s : state) : outcome Z :=
  with_node s path (- ENOENT) (fun _ => Ok None)
    (fun q n =>
       if has mode O_CREATE && negb (has (flags n) FS_FLAG_CREATED) then Ok (- EEXIST)
       else if has mode O_DIRECTORY && bool_decide (type n <> FS_TYPE_NTFS) then Ok (- ENOTDIR)
       else if negb (has mode O_DIRECTORY) && bool_decide (type n <> FS_TYPE_FAT32) then Ok (- EISDIR)
       else Ok 0).

(** * Creating *)

(** The slot that the [k]-th creation takes: one counter serves both arrays. *)
Definition slot (t : fs_type) (k : nat) : ptr := match t with FS_TYPE_FAT32 => PFile k | _ => PDir k end.

Definition creatable (t : fs_type) : Prop := t = FS_TYPE_FAT32 \/ t = FS_TYPE_NTFS.

Definition created (t : fs_type) (path : string) : node :=
  mk_node path true t (Z.lor FS_FLAG_NEW FS_FLAG_CREATED) None 0 [] 0.

(** After [k] creations. *)
Record after (k : nat) (s : state) : Prop := {
  after_index : index s = Z.of_nat k - 1;
  after_blocks : g_blocks s = replicate (Z.to_nat MAX_BLOCKS) 0;
  after_files : length (g_files s) = MAX_FILES;
  after_dirs : length (g_directories s) = MAX_DIRS;
  after_list : g_file_system s = None
}.

Lemma init_after : after 0 init.
Proof. by split. Qed.

Lemma next_free_clear k : (k < Z.to_nat MAX_BLOCKS)%nat ->
  forall fuel, next_free (S fuel) (replicate (Z.to_nat MAX_BLOCKS) 0) (Z.of_nat k - 1) = Ok (Z.of_nat k).
Proof.
  intros H fuel. cbn [next_free]. replace (Z.of_nat k - 1 + 1) with (Z.of_nat k) by lia.
  rewrite (proj2 (Z.ltb_lt (Z.of_nat k) MAX_BLOCKS)) by (unfold MAX_BLOCKS in *; lia).
  unfold arr_get. rewrite (proj2 (Z.ltb_ge (Z.of_nat k) 0)) by lia.
  rewrite Nat2Z.id, lookup_replicate_2 by done. done.
Qed.

Lemma get_free_index_after k s : after k s -> (k < Z.to_nat MAX_BLOCKS)%nat ->
  get_free_index s = Ok (Z.of_nat k, mk_state None (g_files s) (g_directories s) (g_blocks s) (Z.of_nat k)).
Proof.
  intros [H1 H2 H3 H4 H5] Hk. unfold get_free_index. rewrite H1, H2, next_free_clear by done. cbn [mbind outcome_bind].
  rewrite (proj2 (Z.leb_gt MAX_BLOCKS (Z.of_nat k))) by (unfold MAX_BLOCKS in *; lia). by rewrite H5.
Qed.

Lemma load_array (l : list node) (j : nat) : arr_get l (Z.of_nat j) = match l !! j with Some n => Ok n | None => Undef "array index" end.
Proof. unfold arr_get. rewrite (proj2 (Z.ltb_ge (Z.of_nat j) 0)) by lia. by rewrite Nat2Z.id. Qed.

Lemma load_store s p n s' q : store s p n = Ok s' ->
  load s' q = if decide (p = q) then Ok n else load s q.
Proof.
  destruct p as [i|i]; cbn [store]; intros H; inv_ok;
    match goal with H : arr_set _ _ _ = Ok _ |- _ => apply arr_set_Ok in H as (Hi & Hl) end;
    rewrite Nat2Z.id in Hl; simplify_eq; destruct q as [j|j]; cbn [load g_files g_directories]; rewrite !load_array;
    try (rewrite decide_False by done; done);
    (destruct (decide (i = j)) as [->|Hne];
     [rewrite decide_True by done; rewrite list_lookup_insert_eq by lia; done
     |rewrite decide_False by congruence; rewrite list_lookup_insert_ne by done; done]).
Qed.

Lemma store_in s p n m : load s p = Ok m ->
  exists s', store s p n = Ok s' /\ g_file_system s' = g_file_system s /\ g_blocks s' = g_blocks s /\ index s' = index s /\
    length (g_files s') = length (g_files s) /\ length (g_directories s') = length (g_directories s).
Proof.
  destruct p as [i|i]; cbn [load store]; intros H%arr_get_Ok; destruct H as [_ H]; rewrite Nat2Z.id in H; apply lookup_lt_Some in H;
    rewrite arr_set_in by lia; cbn; eexists; (split; [done|]); cbn; rewrite ?length_insert; done.
Qed.

Lemma slot_load t k s : after k s -> (k < MAX_FILES)%nat -> exists n, load s (slot t k) = Ok n.
Proof.
  intros [_ _ H3 H4 _] Hk. unfold MAX_FILES, MAX_DIRS in *.
  assert (HL : forall l : list node, length l = 512%nat -> exists n, arr_get l (Z.of_nat k) = Ok n).
  { intros l Hl. rewrite load_array. destruct (lookup_lt_is_Some_2 l k) as [n ->]; [lia|]. eauto. }
  destruct t; cbn; auto.
Qed.

(** A creation with room takes the next slot and changes no other node. *)
Lemma create_step t path k s : creatable t -> (String.length path < MAX_NAME_LEN)%nat -> after k s -> (k < MAX_FILES)%nat ->
  exists s', create_as t path s = Ok (0, s') /\ after (S k) s' /\
    forall q, load s' q = if decide (slot t k = q) then Ok (created t path) else load s q.
Proof.
  intros Ht Hp A Hk. pose proof (slot_load t k s A Hk) as [n0 Hn0]. pose proof A as [H1 H2 H3 H4 H5].
  set (s1 := mk_state None (g_files s) (g_directories s) (g_blocks s) (Z.of_nat k)).
  assert (HL : forall q, load s1 q = load s q) by (by intros []).
  destruct (store_in s1 (slot t k) (mk_node path true t FS_FLAG_NEW None 0 [] 0) n0) as (s2 & E2 & I2); [by rewrite HL|].
  pose proof (load_store _ _ _ _ (slot t k) E2) as L2. rewrite decide_True in L2 by done.
  destruct (store_in s2 (slot t k) (created t path) _ L2) as (s3 & E3 & I3).
  exists s3. unfold create_as, create_node, alloc_node.
  rewrite (get_free_index_after k s A) by (unfold MAX_FILES, MAX_BLOCKS in *; lia). fold s1.
  assert (HE : element (Z.of_nat k) MAX_FILES PFile = Ok (Some (PFile k)) /\ element (Z.of_nat k) MAX_DIRS PDir = Ok (Some (PDir k))).
  { unfold element, MAX_FILES, MAX_DIRS in *. rewrite Nat2Z.id.
    rewrite (proj2 (Z.leb_le 0 (Z.of_nat k))), (proj2 (Z.ltb_lt (Z.of_nat k) (Z.of_nat 512))) by lia. done. }
  destruct HE as [HE1 HE2].
  assert (HS : forall q, load s3 q = if decide (slot t k = q) then Ok (created t path) else load s q).
  { intros q. rewrite (load_store _ _ _ _ q E3). destruct (decide (slot t k = q)) as [|Hq]; [done|].
    rewrite (load_store _ _ _ _ q E2), decide_False by done. apply HL. }
  destruct I2 as (A1 & A2 & A3 & A4 & A5), I3 as (B1 & B2 & B3 & B4 & B5). cbn in A1, A2, A3, A4, A5.
  split_and!; [|split; [lia|congruence..]|exact HS].
  destruct Ht as [-> | ->]; cbn [mbind outcome_bind]; rewrite ?HE1, ?HE2; cbn [mbind outcome_bind];
    rewrite (proj2 (Nat.ltb_lt _ _) Hp); cbn [slot] in *; rewrite E2; cbn [mbind outcome_bind]; rewrite L2; cbn [mbind outcome_bind];
    unfold set_type; cbn [name terminated type flags next size buffer blocks]; unfold created in E3; rewrite E3; done.
Qed.

(** One creation too many: the counter leaves the arrays before it leaves the table. *)
Lemma create_beyond t path k s : creatable t -> after k s -> k = MAX_FILES -> create_as t path s = Undef "array index".
Proof.
  intros Ht A ->. unfold create_as, create_node, alloc_node.
  rewrite (get_free_index_after _ s A) by (vm_compute; lia). by destruct Ht as [-> | ->].
Qed.

Fixpoint creations (rs : list (fs_type * string)) (s : state) : outcome state :=
  match rs with
  | [] => Ok s
  | (t, path) :: rs => '(r, s) ← create_as t path s; if r =? 0 then creations rs s else Panic "refused"
  end.

Definition request_ok (r : fs_type * string) : Prop := creatable r.1 /\ (String.length r.2 < MAX_NAME_LEN)%nat.

Lemma slot_inj t u j k : slot t j = slot u k -> j = k.
Proof. destruct t, u; cbn; congruence. Qed.

Lemma creations_spec rs k s : Forall request_ok rs -> after k s -> (k <= MAX_FILES)%nat ->
  if decide (k + length rs <= MAX_FILES)%nat then
    exists s', creations rs s = Ok s' /\ after (k + length rs) s' /\
      (forall j t path, rs !! j = Some (t, path) -> load s' (slot t (k + j)) = Ok (created t path)) /\
      (forall q, (forall j t path, rs !! j = Some (t, path) -> q <> slot t (k + j)) -> load s' q = load s q)
  else creations rs s = Undef "array index".
Proof.
  revert k s. induction rs as [|[t path] rs IH]; intros k s Hr A Hk; cbn [length].
  { rewrite Nat.add_0_r, decide_True by done. exists s. split_and!; [done..|]. auto. }
  inversion Hr as [|? ? [Ht Hp] Hrs]; subst; cbn [fst snd] in *. cbn [creations].
  destruct (decide (k = MAX_FILES)) as [Hm|Hm].
  { rewrite decide_False by lia. by rewrite (create_beyond t path k s). }
  destruct (create_step t path k s Ht Hp A) as (s1 & E1 & A1 & L1); [lia|]. rewrite E1. cbn [mbind outcome_bind Z.eqb].
  specialize (IH (S k) s1 Hrs A1 ltac:(lia)). replace (k + S (length rs))%nat with (S k + length rs)%nat by lia.
  destruct (decide (S k + length rs <= MAX_FILES)%nat); [|done]. destruct IH as (s' & E & A' & H1 & H2).
  exists s'. split_and!; [done..| |].
  - intros [|j] u pth Hj; cbn in Hj.
    + injection Hj as <- <-. rewrite Nat.add_0_r, H2, L1; [by rewrite decide_True|].
      intros i v w _ Hs%slot_inj. lia.
    + replace (k + S j)%nat with (S k + j)%nat by lia. by apply H1.
  - intros q Hq. rewrite H2, L1.
    + rewrite decide_False; [done|]. specialize (Hq 0%nat t path eq_refl). rewrite Nat.add_0_r in Hq. congruence.
    + intros j u pth Hj. specialize (Hq (S j) u pth Hj). by replace (S k + j)%nat with (k + S j)%nat by lia.
Qed.

(** A state without a mounted file system finds nothing. *)
Lemma nothing_found s path : g_file_system s = None -> find_node s path = Ok None.
Proof. intros H. unfold find_node. cbn [find_loop]. by rewrite H. Qed.

(** C39: from the initial state the first 512 creations, files and directories in any
    order, succeed: each has its own slot with its name and type, and no later one
    changes it; the next creation leaves the arrays. No path operation finds any of
    them, because nothing links a created node into the list that lookups walk. *)
Theorem creations_kept rs : Forall request_ok rs ->
  if decide (length rs <= MAX_FILES)%nat then
    exists s, creations rs init = Ok s /\
      (forall j t path, rs !! j = Some (t, path) -> load s (slot t j) = Ok (created t path)) /\
      (forall path m, read_file m path s = Ok (- ENOENT, None) /\ open path 0 s = Ok (- ENOENT) /\
         delete_file path s = Ok (- ENOENT, s) /\ get_file_info path s = Ok (- ENOENT, None))
  else creations rs init = Undef "array index".
Proof.
  intros Hr. pose proof (creations_spec rs 0 init Hr init_after) as H. cbn [Nat.add] in H.
  specialize (H ltac:(unfold MAX_FILES; lia)). destruct (decide _) as [Hl|Hl]; [|done].
  destruct H as (s & E & A & H1 & _). exists s. split_and!; [done..|]. intros path m.
  pose proof (nothing_found s path (after_list _ _ A)) as Hn.
  unfold read_file, open, delete_file, delete_as, get_file_info, with_node. by rewrite Hn.
Qed.

(** * Writing and reading *)

Lemma find_loop_ext s s' :
  (forall q, match load s q, load s' q with
             | Ok n, Ok n' => name n' = name n /\ terminated n' = terminated n /\ next n' = next n
             | r, r' => r' = r
             end) ->
  forall fuel p path, find_loop fuel s' p path = find_loop fuel s p path.
Proof.
  intros H. induction fuel as [|fuel IH]; intros p path; [done|]. cbn [find_loop]. destruct p as [q|]; [|done].
  specialize (H q). destruct (load s q) as [n| | |], (load s' q) as [n'| | |]; try (injection H as ->); try done.
  cbn [mbind outcome_bind]. destruct H as (H1 & H2 & H3). unfold same_name. rewrite H1, H2. destruct (terminated n); [|done].
  cbn [mbind outcome_bind]. destruct (String.eqb (name n) path); [done|]. by rewrite H3.
Qed.

(** data written to a file that the lookup finds, no longer than the file's size,
    is what the next read returns; no lookup changes, and no other node. A longer
    write is refused, from then on measured by the new size. *)
Theorem fs_write_read s path q n data : find_node s path = Ok (Some q) -> load s q = Ok n -> type n = FS_TYPE_FAT32 ->
  Z.of_nat (length data) <= size n <= Z.of_nat (length (buffer n)) ->
  exists s', write_file path data s = Ok (0, s') /\ read_file true path s' = Ok (0, Some data) /\
    (forall path', find_node s' path' = find_node s path') /\ (forall r, r <> q -> load s' r = load s r) /\
    (forall longer, (length data < length longer)%nat -> write_file path longer s' = Ok (- ENOSPC, s')).
Proof.
  intros Hf Hl Ht Hs.
  set (n' := mk_node (name n) (terminated n) (type n) (flags n) (next n) (Z.of_nat (length data))
               (data ++ drop (length data) (buffer n)) (blocks n)).
  destruct (store_in s q n' n Hl) as (s' & E & Ig & _). pose proof (load_store _ _ _ _ q E) as Lq. rewrite decide_True in Lq by done.
  assert (Hfind : forall path', find_node s' path' = find_node s path').
  { intros path'. unfold find_node. rewrite Ig. apply find_loop_ext. intros r. rewrite (load_store _ _ _ _ r E).
    destruct (decide (q = r)) as [<-|]; [by rewrite Hl|]. by destruct (load s r). }
  exists s'. split_and!; [| |done| |].
  - unfold write_file, with_node, unless. rewrite Hf. cbn [mbind outcome_bind]. rewrite Hl. cbn [mbind outcome_bind].
    rewrite bool_decide_false by tauto. rewrite (proj2 (Z.ltb_ge (size n) (Z.of_nat (length data)))) by lia.
    rewrite (proj2 (Z.leb_le (Z.of_nat (length data)) (Z.of_nat (length (buffer n))))) by lia. fold n'. by rewrite E.
  - unfold read_file, with_node, unless. rewrite Hfind, Hf. cbn [mbind outcome_bind]. rewrite Lq. cbn [mbind outcome_bind].
    subst n'. cbn [type size buffer]. rewrite bool_decide_false by tauto. rewrite Nat2Z.id, take_app_length.
    rewrite (proj2 (Z.leb_le _ _)); [done|]. rewrite length_app. lia.
  - intros r Hr. rewrite (load_store _ _ _ _ r E), decide_False by done. done.
  - intros longer Hlong. unfold write_file, with_node, unless. rewrite Hfind, Hf. cbn [mbind outcome_bind]. rewrite Lq. cbn [mbind outcome_bind].
    subst n'. cbn [type size buffer]. rewrite bool_decide_false by tauto.
    by rewrite (proj2 (Z.ltb_lt (Z.of_nat (length data)) (Z.of_nat (length longer)))) by lia.
Qed.

End Fs.

(** ** Examples *)

Lemma creations_kept_witness :
  exists s, creations 32 1 4 [(FS_TYPE_FAT32, "a"%string); (FS_TYPE_NTFS, "d"%string)] init = Ok s /\
    load s (PDir 1) = Ok (created 1 4 FS_TYPE_NTFS "d").
Proof.
  pose proof (creations_kept 32 4096 65536 64 1 4 64 128 [(FS_TYPE_FAT32, "a"%string); (FS_TYPE_NTFS, "d"%string)]) as H.
  rewrite decide_True in H by (vm_compute; lia). destruct H as (s & E & H & _).
  { repeat constructor; cbn; (lia || (by left) || by right). }
  exists s. split; [exact E|]. exact (H 1%nat _ _ eq_refl).
Defined.

(** A file system with one file of eight bytes. *)
Definition one_file : state :=
  mk_state (Some (PFile 0)) [mk_node "f" true FS_TYPE_FAT32 0 None 8 (replicate 8 0) 1] [] (replicate (Z.to_nat MAX_BLOCKS) 0) (-1).

Lemma fs_write_read_witness : exists s',
  write_file "f" [1; 2; 3] one_file = Ok (0, s') /\ read_file true "f" s' = Ok (0, Some [1; 2; 3]) /\
  write_file "f" [1; 2; 3; 4] s' = Ok (- ENOSPC, s').
Proof.
  destruct (fs_write_read one_file "f" (PFile 0) (mk_node "f" true FS_TYPE_FAT32 0 None 8 (replicate 8 0) 1) [1; 2; 3])
    as (s' & E & R & _ & _ & L); [reflexivity|reflexivity|reflexivity|cbn; lia|].
  exists s'. split; [exact E|]. split; [exact R|]. apply (L [1; 2; 3; 4]). cbn. lia.
Defined.

(** Deleting marks the entry of an address, not of an index: the write leaves the table. *)
Lemma delete_leaves_table :
  delete_file 4194304 8388608 64 "f" one_file = Undef "array index".
Proof. reflexivity. Qed.

(** A name that fills the array loses its terminator, and the next lookup reads past it. *)
Lemma rename_unterminated : exists s, rename 4 "f" "long" one_file = Ok (0, s) /\ find_node s "x" = Undef "unterminated name".
Proof. eexists. split; reflexivity. Qed.

End SimpleFs.
