(* ===== verification/Console.v ===== *)
(** * The command console (src/kernel/console)

    The read loop of [Console] (console.cc, and the same class in
    command_parser.hpp), the parser with its argument splitting, the table of commands
    and the loop of command_executor.hpp, and the table of error callbacks. Standard
    input is the text that is left and the state bits of the stream. The regular
    expression, the executor and the handler of a [Console] are its parameters: what
    the pattern matches, what a command does to the rest of the program and which
    exception it throws. Reading a line returns although it is declared [noreturn]; it
    is modelled as written. *)
From Stdlib Require Import ZArith Lia.
From stdpp Require Import strings numbers gmap base.
From stdpp Require Import list.
From S2P Require Import Prelude Text.

Open Scope Z_scope.

Module Console.
Import Text.

(** * Standard input *)

Record istream := mk_istream { left_over : text; eofbit : bool; failbit : bool }.

Definition good (c : istream) : bool := negb (eofbit c) && negb (failbit c).

(** A text has a line end. *)
Definition has_newline (s : text) : bool := bool_decide (NEWLINE ∈ s).

(** [getline(std::cin, line)]: a stream that is not good gives an empty line and fails;
    reaching the end sets the end bit, and the fail bit if nothing was read. *)
Definition read_line (c : istream) : text * istream :=
  if good c then
    let '(line, rest) := upto NEWLINE (left_over c) in
    (line, mk_istream rest (negb (has_newline (left_over c))) (bool_decide (left_over c = [])))
  else ([], mk_istream (left_over c) (eofbit c) true).

Definition isEof (c : istream) : bool := negb (good c).

(** * The parser *)

Record ParsedCommand := mk_command { cmd_name : text; cmd_args : list text }.

(** [istream_iterator<std::string>]: words between white space. *)
Fixpoint words (s acc : text) : list text :=
  match s with
  | [] => match acc with [] => [] | _ => [acc] end
  | c :: s => if is_space c then match acc with [] => words s [] | _ => acc :: words s [] end
              else words s (acc ++ [c])
  end.

Definition splitArgs (argString : text) : list text := words argString [].

Inductive error := InvalidSyntax | OutOfRangeError | Thrown (n : Z).

(** [CommandParser::parse]; [pattern] gives the first two groups of a match. *)
Definition parse (pattern : text -> option (text * text)) (command : text) : error + ParsedCommand :=
  match pattern command with
  | Some (name, args) => inr (mk_command name (splitArgs args))
  | None => inl InvalidSyntax
  end.

(** * The loop of [Console] *)

Section Loop.
Context {W : Type} (pattern : text -> option (text * text)).
Context (execute : ParsedCommand -> W -> option error * W) (handle : error -> W -> W).

Definition executeCommand (command : text) (w : W) : option error * W :=
  match parse pattern command with
  | inl e => (Some e, w)
  | inr c => execute c w
  end.

(** The body of the loop after the line was read. *)
Definition one_command (w : W) (command : text) : W :=
  match executeCommand command w with
  | (None, w) => w
  | (Some e, w) => handle e w
  end.

Fixpoint run (fuel : nat) (c : istream) (w : W) : option (W * istream) :=
  match fuel with
  | O => None
  | S fuel =>
      if isEof c then Some (w, c)
      else let '(command, c) := read_line c in run fuel c (one_command w command)
  end.

End Loop.

(** * The table of commands (command_executor.hpp) *)

Section Executor.
Context {W : Type}.

Abbreviation action := (list text -> W -> option error * W).

(** [commands_.emplace]: an entry that is there stays. *)
Definition registerCommand (name : text) (func : action) (commands : gmap text action) : gmap text action :=
  match commands !! name with Some _ => commands | None => <[name := func]> commands end.

(** [CommandExecutor::execute]: errors are caught and printed. *)
Definition execute (commands : gmap text action) (c : ParsedCommand) (w : W) : option error * W :=
  match commands !! cmd_name c with
  | None => (Some OutOfRangeError, w)
  | Some func => func (cmd_args c) w
  end.

(** [parse] of command_executor.hpp returns an empty command. *)
Definition parse_stub (input : text) : ParsedCommand := mk_command [] [].

(** The loop of [main]: the commands it ran and the world when it left the loop. *)
Fixpoint main_loop (fuel : nat) (commands : gmap text action) (c : istream) (w : W) (ran : list ParsedCommand) :
    option (W * istream * list ParsedCommand) :=
  match fuel with
  | O => None
  | S fuel =>
      let '(input, c) := read_line c in
      match input with
      | _ :: _ => Some (w, c, ran)
      | [] => let cmd := parse_stub input in
              main_loop fuel commands c (execute commands cmd w).2 (ran ++ [cmd])
      end
  end.

End Executor.

(** * Error callbacks (error_handler.hpp) *)

(** By the name of the dynamic type of the exception. *)
Definition registerCallback {A} (ty : string) (func : A) (callbacks : gmap string A) : gmap string A :=
  <[ty := func]> callbacks.

Definition handle {A} (ty : string) (callbacks : gmap string A) : option A := callbacks !! ty.

(** * Every line is one command *)

(** The pieces of a text between line ends: one more than there are line ends. *)
Fixpoint pieces (s acc : text) : list text :=
  match s with
  | [] => [acc]
  | c :: s => if c =? NEWLINE then acc :: pieces s [] else pieces s (acc ++ [c])
  end.

Lemma pieces_upto s acc : pieces s acc =
  (acc ++ (upto NEWLINE s).1) :: (if has_newline s then pieces (upto NEWLINE s).2 [] else []).
Proof.
  unfold has_newline. revert acc. induction s as [|c s IH]; intros acc; cbn [pieces upto].
  - rewrite bool_decide_false by apply not_elem_of_nil. by rewrite app_nil_r.
  - destruct (Z.eqb_spec c NEWLINE) as [->|Hc].
    + rewrite bool_decide_true by (by left). by rewrite app_nil_r.
    + rewrite IH. destruct (upto NEWLINE s) as [a r]. cbn [fst snd]. rewrite <- app_assoc. f_equal.
      replace (bool_decide (NEWLINE ∈ c :: s)) with (bool_decide (NEWLINE ∈ s)); [done|].
      apply bool_decide_ext. rewrite elem_of_cons. naive_solver.
Qed.

Definition fresh (s : text) : istream := mk_istream s false false.

Section LoopFacts.
Context {W : Type} (pattern : text -> option (text * text)).
Context (exec : ParsedCommand -> W -> option error * W) (hdl : error -> W -> W).

Lemma run_spec fuel s w : (length s + 1 < fuel)%nat ->
  exists c, run pattern exec hdl fuel (fresh s) w = Some (foldl (one_command pattern exec hdl) w (pieces s []), c) /\
    eofbit c = true.
Proof.
  revert s w. induction fuel as [|fuel IH]; intros s w Hf; [lia|]. cbn [run].
  change (isEof (fresh s)) with false. cbn iota. unfold read_line. change (good (fresh s)) with true. cbn [left_over fresh].
  rewrite pieces_upto. destruct (upto NEWLINE s) as [line rest] eqn:E. cbn [fst snd app].
  destruct (has_newline s) eqn:En; cbn [negb].
  - assert (Hs : s <> []). { intros ->. done. }
    rewrite bool_decide_false by done. cbn [foldl]. apply (IH rest).
    apply upto_shorter in E; [lia|done].
  - destruct fuel as [|fuel]; [lia|]. cbn [run isEof good eofbit negb andb foldl]. eexists. split; reflexivity.
Qed.

(** the console runs every line of its input exactly once and in order, the text
    after the last line end included (even when it is empty), and an error of one
    command does not stop the next; the loop ends for every input. *)
Theorem console_runs_lines s w : exists c,
  run pattern exec hdl (length s + 2) (fresh s) w = Some (foldl (one_command pattern exec hdl) w (pieces s []), c) /\
  isEof c = true /\ length (pieces s []) = S (length (filter (fun c => c = NEWLINE) s)).
Proof.
  destruct (run_spec (length s + 2) s w) as (c & E & He); [lia|]. exists c. split; [done|]. split.
  - unfold isEof, good. by rewrite He.
  - clear. generalize (@nil Z) as acc. induction s as [|c s IH]; intros acc; [done|]. cbn [pieces].
    destruct (Z.eqb_spec c NEWLINE) as [->|Hc].
    + rewrite filter_cons_True by done. cbn. by rewrite IH.
    + rewrite filter_cons_False by done. apply IH.
Qed.

End LoopFacts.

(** * Arguments *)

Definition word (w : text) : Prop := w <> [] /\ Forall (fun c => is_space c = false) w.

Lemma words_app w s acc : Forall (fun c => is_space c = false) w -> words (w ++ s) acc = words s (acc ++ w).
Proof.
  revert acc. induction w as [|c w IH]; intros acc H; [by rewrite app_nil_r|]. inversion H as [|? ? Hc Hw]; subst.
  cbn [app words]. rewrite Hc, IH by done. by rewrite <- app_assoc.
Qed.

Fixpoint unwords (ws : list text) : text :=
  match ws with [] => [] | [w] => w | w :: ws => w ++ 32 :: unwords ws end.

(** Arguments joined by blanks are split back, and every split argument is a word. *)
Lemma splitArgs_unwords ws : Forall word ws -> splitArgs (unwords ws) = ws.
Proof.
  unfold splitArgs. induction ws as [|w ws IH]; intros H; [done|]. inversion H as [|? ? [Hne Hw] Hws]; subst.
  specialize (IH Hws). destruct ws as [|w' ws].
  - cbn [unwords]. rewrite <- (app_nil_r w) at 1. rewrite words_app by done. cbn. by destruct w.
  - change (unwords (w :: w' :: ws)) with (w ++ 32 :: unwords (w' :: ws)). rewrite words_app by done. cbn [app words].
    change (is_space 32) with true. cbn iota. destruct w; [done|]. by rewrite IH.
Qed.

Lemma words_are_words s acc : Forall (fun c => is_space c = false) acc -> Forall word (words s acc).
Proof.
  revert acc. induction s as [|c s IH]; intros acc H; cbn [words].
  - destruct acc; [constructor|]. constructor; [by split|constructor].
  - destruct (is_space c) eqn:E; [|apply IH; apply Forall_app; by repeat constructor].
    destruct acc; [by apply IH|]. constructor; [done|]. by apply IH.
Qed.

(** * Commands *)

(** The first registration of a name stays. *)
Lemma register_first {W} name (f : list text -> W -> option error * W) commands n :
  registerCommand name f commands !! n =
    match commands !! n with Some g => Some g | None => if decide (n = name) then Some f else None end.
Proof.
  unfold registerCommand. destruct (commands !! name) as [g|] eqn:E.
  - destruct (commands !! n) eqn:En; [done|]. rewrite decide_False; [done|]. intros ->. congruence.
  - destruct (decide (n = name)) as [->|Hne]; [rewrite lookup_insert_eq, E; done|].
    rewrite lookup_insert_ne by done. by destruct (commands !! n).
Qed.

Lemma read_at_end c : good c = false -> read_line c = ([], mk_istream (left_over c) (eofbit c) true).
Proof. intros H. unfold read_line. by rewrite H. Qed.

(** At the end of input the loop of [main] goes on for ever. *)
Lemma main_loop_spins {W} fuel commands c (w : W) ran : good c = false -> main_loop fuel commands c w ran = None.
Proof.
  revert c w ran. induction fuel as [|fuel IH]; intros c w ran Hg; [done|]. cbn [main_loop].
  rewrite read_at_end by done. apply IH. unfold good. cbn. by rewrite andb_false_r.
Qed.

(** The loop of [main] leaves at the first line that is not empty, and until then runs
    only the empty command: no line that is typed is ever executed. *)
Lemma main_loop_runs_nothing {W} fuel commands c (w : W) ran r : main_loop fuel commands c w ran = Some r ->
  exists n, r.2 = ran ++ replicate n (mk_command [] []).
Proof.
  revert c w ran. induction fuel as [|fuel IH]; intros c w ran E; [done|]. cbn [main_loop] in E.
  destruct (read_line c) as [[|x l] c']; [|injection E as <-; exists 0%nat; by rewrite app_nil_r].
  apply IH in E as [n ->]. exists (S n). by rewrite <- app_assoc.
Qed.

End Console.
