(* ===== verification/Platform.v ===== *)
(** * Platform file helpers (src/kernel/platform/platform.c)

    The helpers over an operating system of named files: contents by path, which
    paths open, the descriptors and mappings that are open now. As the manual pages
    say, a mapping of length zero fails, and so does one for writing on a descriptor
    that is not readable. How many bytes each [write] takes is a script.

    The file does not compile as it stands ([get_gid] is not closed, [readlink] calls
    itself with other arguments, [rename_file] calls a function that does not exist);
    the functions are read one by one. [get_cwd] and the three queries of the user
    database keep no state and are left out. *)
From Stdlib Require Import ZArith Lia.
From stdpp Require Import strings numbers gmap base.
From stdpp Require Import list.
From S2P Require Import Prelude.

Open Scope Z_scope.

Module Platform.

Inductive kind := Regular | SymbolicLink | Directory | Device.

#[global] Instance kind_eq_dec : EqDecision kind.
Proof. solve_decision. Defined.

Record entry := mk_entry { ftype : kind; data : list Z }.

(** [opens]: paths the system lets this program open or create; [maps]: whether it
    finds room for a mapping. *)
Record os := mk_os {
  files : gmap string entry; opens : string -> bool; maps : bool; fds : list nat; mappings : nat
}.

Definition set_files (o : os) (f : gmap string entry) : os := mk_os f (opens o) (maps o) (fds o) (mappings o).
Definition set_fds (o : os) (l : list nat) : os := mk_os (files o) (opens o) (maps o) l (mappings o).
Definition set_mappings (o : os) (n : nat) : os := mk_os (files o) (opens o) (maps o) (fds o) n.

(** The lowest number that is free: larger than every open one will do. *)
Definition new_fd (o : os) : nat := S (foldr Nat.max 0%nat (fds o)).

Definition os_close (fd : nat) (o : os) : os := set_fds o (filter (fun x => x <> fd) (fds o)).

(** [open(path, O_RDONLY)]. *)
Definition open_read (path : string) (o : os) : option nat * os :=
  match files o !! path with
  | Some _ => if opens o path then (Some (new_fd o), set_fds o (new_fd o :: fds o)) else (None, o)
  | None => (None, o)
  end.

(** [open(path, O_WRONLY | O_CREAT | O_TRUNC, 0644)]; a directory does not open for writing. *)
Definition open_trunc (path : string) (o : os) : option nat * os :=
  if opens o path && negb (bool_decide ((ftype <$> files o !! path) = Some Directory)) then
    let kind := default Regular (ftype <$> files o !! path) in
    (Some (new_fd o), set_fds (set_files o (<[path := mk_entry kind []]> (files o))) (new_fd o :: fds o))
  else (None, o).

Definition size_of (path : string) (o : os) : Z := Z.of_nat (length (default [] (data <$> files o !! path))).

(** [mmap(NULL, len, prot, MAP_PRIVATE, fd, 0)] of a file opened for reading or not. *)
Definition os_mmap (len : Z) (readable : bool) (o : os) : bool * os :=
  if (len =? 0) || negb readable || negb (maps o) then (false, o) else (true, set_mappings o (S (mappings o))).

Definition os_munmap (o : os) : os := set_mappings o (pred (mappings o)).

(** * The helpers *)

(** [tv_sec * 1000 + tv_nsec / 1000]. *)
Definition get_timestamp (tv_sec tv_nsec : Z) : Z := u64 (u64 (tv_sec * 1000) + tv_nsec / 1000).

(** The mapping stays: its address is the result. *)
Definition read_file (filename : string) (o : os) : option (list Z) * os :=
  match open_read filename o with
  | (None, o) => (None, o)
  | (Some fd, o) =>
      match os_mmap (size_of filename o) true o with
      | (false, o) => (None, os_close fd o)
      | (true, o) => (data <$> files o !! filename, os_close fd o)
      end
  end.

(** A copy into a mapping of the size the file has after it was truncated. *)
Definition write_file (filename : string) (contents : list Z) (o : os) : outcome (Z * os) :=
  match open_trunc filename o with
  | (None, o) => Ok (-1, o)
  | (Some fd, o) =>
      match os_mmap (size_of filename o) false o with
      | (false, o) => Ok (-1, os_close fd o)
      | (true, o) =>
          if Z.of_nat (length contents) <? size_of filename o then Ok (0, os_close fd (os_munmap o))
          else Undef "strcpy"
      end
  end.

(** [fork] answers -1 ([None]) or a child, whose end is waited for. *)
Definition execute (fork_ok : bool) : Z := if fork_ok then 0 else -1.

(** The function calls itself, whatever the library has under its name. *)
Fixpoint symlink (fuel : nat) (oldname newname : string) : outcome Z :=
  match fuel with O => Hang | S fuel => symlink fuel oldname newname end.

Definition file_exists (filename : string) (o : os) : bool := bool_decide (is_Some (files o !! filename)).

Definition directory_exists (dirname : string) (o : os) : bool :=
  bool_decide ((ftype <$> files o !! dirname) = Some Directory).

Definition create_file (filename : string) (o : os) : Z * os :=
  match open_trunc filename o with
  | (None, o) => (-1, o)
  | (Some fd, o) => (0, os_close fd o)
  end.

(** [unlink] does not remove a directory. *)
Definition delete_file (filename : string) (o : os) : Z * os :=
  match files o !! filename with
  | Some e => if bool_decide (ftype e = Directory) then (-1, o) else (0, set_files o (delete filename (files o)))
  | None => (-1, o)
  end.

(** [rename] of a file that is not a directory. *)
Definition move_file (source destination : string) (o : os) : Z * os :=
  match files o !! source with
  | Some e =>
      if bool_decide ((ftype <$> files o !! destination) = Some Directory) then (-1, o)
      else if String.eqb source destination then (0, o)
      else (0, set_files o (<[destination := e]> (delete source (files o))))
  | None => (-1, o)
  end.

(** [stat] that fails leaves the record as it was, which is not initialised. *)
Definition get_file_size (filename : string) (o : os) : outcome Z :=
  match files o !! filename with
  | Some e => Ok (Z.of_nat (length (data e)))
  | None => Undef "uninitialised"
  end.

Inductive file_type := FILE_TYPE_REGULAR | FILE_TYPE_SYMBOLIC_LINK | FILE_TYPE_DIRECTORY | FILE_TYPE_UNKNOWN.

Definition get_file_type (filename : string) (o : os) : outcome file_type :=
  match files o !! filename with
  | Some e => Ok (match ftype e with
                  | Regular => FILE_TYPE_REGULAR
                  | SymbolicLink => FILE_TYPE_SYMBOLIC_LINK
                  | Directory => FILE_TYPE_DIRECTORY
                  | Device => FILE_TYPE_UNKNOWN
                  end)
  | None => Undef "uninitialised"
  end.

(** ** Copying *)

(** The loop of [copy_file] from [offset]: the answers of [write], at most what was
    asked for; what reached the destination. *)
Fixpoint copy_loop (writes : list Z) (buffer : list Z) (offset : nat) : option nat :=
  if (offset <? length buffer)%nat then
    match writes with
    | [] => None
    | written :: writes =>
        if written <=? 0 then Some offset
        else copy_loop writes buffer (offset + Nat.min (Z.to_nat written) (length buffer - offset))
    end
  else Some offset.

Definition append_to (path : string) (b : list Z) (o : os) : os :=
  match files o !! path with
  | Some e => set_files o (<[path := mk_entry (ftype e) (data e ++ b)]> (files o))
  | None => o
  end.

(** The result; [Hang] when the script of answers ends before the loop. *)
Definition copy_file (source destination : string) (writes : list Z) (o : os) : outcome (Z * os) :=
  match open_read source o with
  | (None, o) => Ok (-1, o)
  | (Some src_fd, o) =>
      match open_trunc destination o with
      | (None, o) => Ok (-1, os_close src_fd o)
      | (Some dst_fd, o) =>
          match os_mmap (size_of source o) true o with
          | (false, o) => Ok (-1, os_close dst_fd (os_close src_fd o))
          | (true, o) =>
              let buffer := default [] (data <$> files o !! source) in
              match copy_loop writes buffer 0 with
              | None => Hang
              | Some n => Ok (0, os_close dst_fd (os_close src_fd (os_munmap (append_to destination (take n buffer) o))))
              end
          end
      end
  end.

(** * Descriptors are given back *)

Lemma foldr_max_le l x : x ∈ l -> (x <= foldr Nat.max 0 l)%nat.
Proof. induction l as [|y l IH]; intros H; [by apply elem_of_nil in H|]. cbn. apply elem_of_cons in H as [->|H]; [lia|]. specialize (IH H). lia. Qed.

Lemma new_fd_fresh o : new_fd o ∉ fds o.
Proof. intros H%foldr_max_le. unfold new_fd in H. lia. Qed.

Lemma filter_fresh (fd : nat) (l : list nat) : fd ∉ l -> filter (fun x => x <> fd) l = l.
Proof.
  induction l as [|x l IH]; intros H; [done|]. apply not_elem_of_cons in H as [Hx H].
  rewrite filter_cons_True by congruence. by rewrite IH.
Qed.

Lemma close_opened fd o l : fds o = fd :: l -> fd ∉ l -> fds (os_close fd o) = l.
Proof. intros H Hf. unfold os_close. cbn. rewrite H, filter_cons_False by tauto. by apply filter_fresh. Qed.

(** What every helper leaves as it was. *)
Definition released (o o' : os) : Prop := fds o' = fds o /\ mappings o' = mappings o /\ opens o' = opens o /\ maps o' = maps o.

Lemma open_read_spec path o : forall r o', open_read path o = (r, o') ->
  files o' = files o /\ mappings o' = mappings o /\ opens o' = opens o /\ maps o' = maps o /\
  match r with Some fd => fds o' = fd :: fds o /\ fd ∉ fds o | None => fds o' = fds o end.
Proof.
  intros r o'. unfold open_read. destruct (files o !! path); [destruct (opens o path)|]; intros [= <- <-]; split_and!; try done.
  apply new_fd_fresh.
Qed.

Lemma open_trunc_spec path o : forall r o', open_trunc path o = (r, o') ->
  mappings o' = mappings o /\ opens o' = opens o /\ maps o' = maps o /\
  match r with
  | Some fd => fds o' = fd :: fds o /\ (fd ∉ fds o) /\ exists k, files o' = <[path := mk_entry k []]> (files o)
  | None => fds o' = fds o /\ files o' = files o
  end.
Proof.
  intros r o'. unfold open_trunc. destruct (opens o path && _); intros [= <- <-]; split_and!; try done.
  - apply new_fd_fresh.
  - cbn. eauto.
Qed.

(** * Copying *)

Lemma copy_loop_positive writes buffer offset : (offset <= length buffer)%nat -> Forall (fun w => 0 < w) writes ->
  (length buffer - offset <= length writes)%nat -> copy_loop writes buffer offset = Some (length buffer).
Proof.
  revert offset. induction writes as [|w writes IH]; intros offset Ho Hp Hl; cbn [copy_loop].
  - destruct (Nat.ltb_spec offset (length buffer)); [cbn in Hl; lia|]. f_equal. lia.
  - destruct (Nat.ltb_spec offset (length buffer)); [|f_equal; lia]. inversion Hp as [|? ? Hw Hp']; subst.
    rewrite (proj2 (Z.leb_gt w 0)) by lia. apply IH; [lia|done|]. cbn in Hl. lia.
Qed.

(** [close] on both, whatever the rest does to the files and the mappings. *)
Lemma close_both a b o l : fds o = b :: a :: l -> (a ∉ l) -> (b ∉ a :: l) -> fds (os_close b (os_close a o)) = l.
Proof.
  intros H Ha Hb. apply not_elem_of_cons in Hb as [Hab Hb]. apply close_opened; [|done].
  unfold os_close. cbn. rewrite H, filter_cons_True by congruence. rewrite filter_cons_False by tauto.
  f_equal. by apply filter_fresh.
Qed.

(** copying to another path. Whatever the writes answer, every way out gives back
    both descriptors and the mapping and touches no other file; when the source has
    data, both paths open and the mapping is made, the destination holds a prefix of
    the source and the result is 0, and it holds all of it when every write makes
    progress. *)
Theorem copy_file_correct source destination writes o e : source <> destination ->
  files o !! source = Some e -> data e <> [] -> opens o source = true -> opens o destination = true ->
  (ftype <$> files o !! destination) <> Some Directory -> maps o = true ->
  match copy_loop writes (data e) 0 with
  | None => copy_file source destination writes o = Hang
  | Some n => exists o' k, copy_file source destination writes o = Ok (0, o') /\ released o o' /\
      files o' = <[destination := mk_entry k (take n (data e))]> (files o)
  end /\
  (Forall (fun w => 0 < w) writes -> (length (data e) <= length writes)%nat -> copy_loop writes (data e) 0 = Some (length (data e))).
Proof.
  intros Hne He Hd Ho1 Ho2 Hk Hm. split; [|intros; apply copy_loop_positive; (done || lia)].
  unfold copy_file. destruct (open_read source o) as [r1 o1] eqn:E1. destruct (open_read_spec _ _ _ _ E1) as (A1 & A2 & A3 & A4 & A5).
  unfold open_read in E1. rewrite He, Ho1 in E1. injection E1 as <- _. destruct A5 as [A5 A6].
  destruct (open_trunc destination o1) as [r2 o2] eqn:E2. destruct (open_trunc_spec _ _ _ _ E2) as (B1 & B2 & B3 & B4).
  unfold open_trunc in E2. rewrite A3, Ho2, A1, bool_decide_false in E2 by done. cbn [andb negb] in E2. injection E2 as <- _.
  destruct B4 as (B4 & B5 & k & B6). rewrite A1 in B6.
  assert (Hsrc : files o2 !! source = Some e) by (by rewrite B6, lookup_insert_ne).
  assert (Hsz : (size_of source o2 =? 0) = false).
  { unfold size_of. rewrite Hsrc. cbn. apply Z.eqb_neq. destruct (data e) eqn:Ed; [done|]. cbn. lia. }
  unfold os_mmap. rewrite Hsz, B3, A4, Hm. cbn [negb orb]. cbn [files set_mappings]. rewrite Hsrc. change (default [] (data <$> Some e)) with (data e).
  destruct (copy_loop writes (data e) 0) as [n|]; [|done].
  eexists _, k. split; [reflexivity|].
  assert (Happ : append_to destination (take n (data e)) (set_mappings o2 (S (mappings o2))) =
    set_files (set_mappings o2 (S (mappings o2))) (<[destination := mk_entry k (take n (data e))]> (files o2))).
  { unfold append_to. cbn [files set_mappings]. by rewrite B6, lookup_insert_eq. }
  rewrite Happ. split.
  - split_and!.
    + apply close_both; [cbn; by rewrite B4, A5|done|by rewrite A5 in B5].
    + cbn. by rewrite B1, A2.
    + cbn. by rewrite B2, A3.
    + cbn. by rewrite B3, A4.
  - cbn. by rewrite B6, insert_insert_eq.
Qed.

Definition demo_os : os := mk_os {["a" := mk_entry Regular [1; 2; 3; 4]]} (fun _ => true) true [0; 1; 2]%nat 0.

Lemma copy_file_correct_witness : exists o' k,
  copy_file "a" "b" [3; 1] demo_os = Ok (0, o') /\ released demo_os o' /\
  files o' = <["b" := mk_entry k [1; 2; 3; 4]]> (files demo_os).
Proof.
  apply (proj1 (copy_file_correct "a" "b" [3; 1] demo_os (mk_entry Regular [1; 2; 3; 4]) ltac:(done) eq_refl ltac:(done) eq_refl eq_refl
    ltac:(done) eq_refl)).
Defined.

(** A failing write is reported as success. *)
Lemma copy_reports_success : exists o, copy_file "a" "b" [2; -1] demo_os = Ok (0, o) /\ files o !! "b" = Some (mk_entry Regular [1; 2]).
Proof. eexists. split; reflexivity. Qed.

(** Copying a file to itself empties it. *)
Lemma copy_to_itself_empties : exists o, copy_file "a" "a" [4] demo_os = Ok (-1, o) /\ files o !! "a" = Some (mk_entry Regular []).
Proof. eexists. split; reflexivity. Qed.

(** [write_file] never writes: the file was truncated to length zero, which cannot be
    mapped, so the result is -1, and what the file held is gone. *)
Lemma write_file_destroys filename contents o : exists o',
  write_file filename contents o = Ok (-1, o') /\ fds o' = fds o /\
  (opens o filename = true -> (ftype <$> files o !! filename) <> Some Directory ->
   exists k, files o' !! filename = Some (mk_entry k [])).
Proof.
  unfold write_file. destruct (open_trunc filename o) as [r o1] eqn:E. destruct (open_trunc_spec _ _ _ _ E) as (B1 & B2 & B3 & B4).
  destruct r as [fd|].
  - destruct B4 as (B4 & B5 & k & B6). unfold os_mmap. rewrite orb_true_r. cbn [orb]. eexists. split; [done|].
    split; [by apply close_opened|]. intros _ _. exists k. cbn. by rewrite B6, lookup_insert_eq.
  - exists o1. destruct B4 as [B4 B5]. split_and!; [done..|]. intros Ho Hk. unfold open_trunc in E. rewrite Ho, bool_decide_false in E by done. done.
Qed.

(** An empty file reads as an error; any other is returned whole and its descriptor closed. *)
Lemma read_file_spec filename o e : files o !! filename = Some e -> opens o filename = true -> maps o = true ->
  (read_file filename o).1 = (if bool_decide (data e = []) then None else Some (data e)) /\ fds (read_file filename o).2 = fds o.
Proof.
  intros He Ho Hm. unfold read_file, open_read. rewrite He, Ho. unfold os_mmap, size_of. cbn [files set_fds maps].
  rewrite He, Hm. cbn [negb orb].
  assert (Hc : forall m, fds (os_close (new_fd o) (set_mappings (set_fds o (new_fd o :: fds o)) m)) = fds o).
  { intros m. by apply close_opened, new_fd_fresh. }
  change (default [] (data <$> Some e)) with (data e). destruct (data e) as [|x l] eqn:Ed; cbn [length].
  - split; [done|]. apply (Hc (mappings o)).
  - rewrite (proj2 (Z.eqb_neq _ _)) by lia. cbn [orb]. split; [cbn; by rewrite He, <- Ed|]. apply Hc.
Qed.

(** Seconds count a thousand and nanoseconds are counted in microseconds: time goes back. *)
Lemma timestamp_goes_back : get_timestamp 1 0 < get_timestamp 0 999999999.
Proof. reflexivity. Qed.

(** [symlink] does not return, however deep the stack. *)
Lemma symlink_never_returns fuel a b : symlink fuel a b = Hang.
Proof. induction fuel; done. Qed.

End Platform.
