(* ===== verification/PoolLife.v ===== *)
(** * Life of the work-stealing pool (src/kernel/main.c)

    The thread that adjusts the pool, the barrier of two between it and [shutdown], and
    the workers, as an interleaved step relation. A worker leaves its loop only when
    its own stop token is set; [shutdown] joins the workers and sets only the token of
    the adjusting thread (the record [w] is read as its thread). The queues and the
    arithmetic of [adjust_workers] are in [StealQueue]; here a phase that runs it
    replaces the workers by any others and counts. What a worker does between two looks
    at its token, the access past the array of queues included that workers added later
    can make, is not followed. *)
From Stdlib Require Import ZArith Lia.
From stdpp Require Import strings numbers gmap base relations.
From stdpp Require Import list.
From S2P Require Import Prelude.

Open Scope Z_scope.

Module PoolLife.

(** A worker's stop token, and whether its function has returned. *)
Record worker := mk_worker { token : bool; ended : bool }.

(** [std::barrier]: arrivals that the phase still waits for, arrivals of the next
    phase, and the number of the phase. *)
Record barrier := mk_barrier { pending : nat; expected : nat; phase : nat }.

Inductive adjust_pc := ACheck | AArrive | AWait (phase : nat) | ASleep | AEnded.
Inductive main_pc := MRunning | MExchange | MRequest | MDrop | MLock | MJoin (i : nat) | MReturned.

Record state := mk_state {
  apc : adjust_pc; adjust_stop : bool; bar : barrier; mpc : main_pc; stop_requested : bool;
  workers : list worker; adjusted : nat
}.

(** [DynamicThreadPool(min_threads, max_threads)] after [add_workers]. *)
Definition start (n : nat) : state :=
  mk_state ACheck false (mk_barrier 2 2 0) MRunning false (replicate n (mk_worker false false)) 0.

(** The completion function of the barrier: [adjust_workers] looks at the flag first. *)
Inductive completion (stop : bool) (ws : list worker) (n : nat) : list worker -> nat -> Prop :=
| completion_stopped : stop = true -> completion stop ws n ws n
| completion_adjusts ws' : stop = false -> completion stop ws n ws' (S n).

(** Arriving at the barrier: the last arrival runs the completion and starts a phase. *)
Inductive arrive (drop : bool) (stop : bool) (ws : list worker) (n : nat) : barrier -> barrier -> list worker -> nat -> Prop :=
| arrive_early p e k : (0 < p)%nat -> let e' := if drop then pred e else e in
    arrive drop stop ws n (mk_barrier (S p) e k) (mk_barrier p e' k) ws n
| arrive_last e k ws' n' : let e' := if drop then pred e else e in
    completion stop ws n ws' n' -> arrive drop stop ws n (mk_barrier 1 e k) (mk_barrier e' e' (S k)) ws' n'.

Inductive step : state -> state -> Prop :=
| step_check s b m r ws n :
    step (mk_state ACheck s b m r ws n) (mk_state (if s then AEnded else AArrive) s b m r ws n)
| step_arrive s b b' m r ws ws' n n' : arrive false r ws n b b' ws' n' ->
    step (mk_state AArrive s b m r ws n) (mk_state (AWait (phase b)) s b' m r ws' n')
| step_wake k s b m r ws n : phase b <> k ->
    step (mk_state (AWait k) s b m r ws n) (mk_state ASleep s b m r ws n)
| step_sleep s b m r ws n :
    step (mk_state ASleep s b m r ws n) (mk_state ACheck s b m r ws n)
| step_shutdown a s b r ws n :
    step (mk_state a s b MRunning r ws n) (mk_state a s b MExchange r ws n)
| step_exchange a s b r ws n :
    step (mk_state a s b MExchange r ws n) (mk_state a s b (if r then MReturned else MRequest) true ws n)
| step_request a s b r ws n :
    step (mk_state a s b MRequest r ws n) (mk_state a true b MDrop r ws n)
| step_drop a s b b' r ws ws' n n' : arrive true r ws n b b' ws' n' ->
    step (mk_state a s b MDrop r ws n) (mk_state a s b' MLock r ws' n')
| step_lock a s b r ws n :
    step (mk_state a s b MLock r ws n) (mk_state a s b (MJoin 0) r ws n)
| step_join a s b i w r ws n : ws !! i = Some w -> ended w = true ->
    step (mk_state a s b (MJoin i) r ws n) (mk_state a s b (MJoin (S i)) r ws n)
| step_joined a s b i r ws n : ws !! i = None ->
    step (mk_state a s b (MJoin i) r ws n) (mk_state a s b MReturned r ws n)
| step_worker a s b m r ws i w n : ws !! i = Some w -> token w = true ->
    step (mk_state a s b m r ws n) (mk_state a s b m r (<[i := mk_worker true true]> ws) n).

Definition reachable (n : nat) (s : state) : Prop := rtc step (start n) s.

(** [enqueue]: refused once the flag is set; it needs the lock, which [shutdown] keeps
    from the moment it joins. *)
Inductive enqueued := Queued | Throws | Blocks.
Definition enqueue (s : state) : enqueued :=
  match mpc s with
  | MJoin _ => Blocks
  | _ => if stop_requested s then Throws else Queued
  end.

(** * The pool is never adjusted and never shut down *)

Definition asleep (a : adjust_pc) : bool := match a with AWait _ => true | _ => false end.
Definition before_drop (m : main_pc) : bool := match m with MRunning | MExchange | MRequest | MDrop => true | _ => false end.
Definition flag_set (m : main_pc) : bool := match m with MRunning | MExchange => false | _ => true end.

Record pinv (n : nat) (s : state) : Prop := {
  pinv_workers : workers s = replicate n (mk_worker false false);
  pinv_adjusted : adjusted s = 0%nat;
  pinv_stop : stop_requested s = flag_set (mpc s);
  pinv_join : forall i, mpc s = MJoin i -> i = 0%nat;
  pinv_returned : mpc s <> MReturned;
  pinv_barrier : before_drop (mpc s) = true -> exists p, bar s = mk_barrier p 2 0 /\
    ((p = 2%nat /\ (apc s = ACheck \/ apc s = AArrive \/ apc s = AEnded)) \/ (p = 1%nat /\ apc s = AWait 0))
}.

Lemma pinv_start n : pinv n (start n).
Proof. split; cbn; try done. intros _. exists 2%nat. auto. Qed.

(** A worker of the initial pool has no stop request. *)
Lemma worker_waits n i w : replicate n (mk_worker false false) !! i = Some w -> token w = false /\ ended w = false.
Proof. by intros [-> _]%lookup_replicate. Qed.

Lemma pinv_step n s s' : (0 < n)%nat -> pinv n s -> step s s' -> pinv n s'.
Proof.
  intros Hn [H1 H2 H3 H4 H5 H6] Hs.
  destruct Hs as [s b m r ws c|s b b' m r ws ws' c c' Ha|k s b m r ws c Hk|s b m r ws c|a s b r ws c|a s b r ws c|a s b r ws c
    |a s b b' r ws ws' c c' Ha|a s b r ws c|a s b i w r ws c Hi He|a s b i r ws c Hi|a s b m r ws i w c Hi He];
    cbn [workers adjusted stop_requested mpc bar apc] in *; subst ws c.
  - split; cbn; try done. intros Hb. destruct (H6 Hb) as (p & -> & [[-> Ha]|[_ ?]]); [|done].
    exists 2%nat. split; [done|]. left. split; [done|]. destruct s; auto.
  - destruct (before_drop m) eqn:Eb.
    + destruct (H6 eq_refl) as (p & -> & [[-> _]|[_ ?]]); [|done]. inversion Ha; subst.
      * split; cbn; try done. intros _. exists 1%nat. auto.
    + assert (r = true) as -> by (rewrite H3; by destruct m).
      inversion Ha as [|e k ws'' n'' e' Hc]; subst; [|inversion Hc; subst; [|done]]; split; cbn; try done; by rewrite Eb.
  - split; cbn; try done. intros Hb. destruct (H6 Hb) as (p & -> & [[_ [?|[?|?]]]|[_ [= ->]]]); done.
  - split; cbn; try done. intros Hb. destruct (H6 Hb) as (p & -> & [[_ [?|[?|?]]]|[_ ?]]); done.
  - split; cbn; (done || by apply H6).
  - rewrite H3. split; cbn; (done || by apply H6).
  - split; cbn; (done || by apply H6).
  - assert (r = true) as -> by done.
    inversion Ha as [|e k ws'' n'' e' Hc]; subst; [|inversion Hc; subst; [|done]]; split; cbn; done.
  - split; cbn; try done. by intros i [= <-].
  - apply worker_waits in Hi as [_ Hi]. congruence.
  - rewrite (H4 i eq_refl) in Hi. destruct n; [lia|done].
  - apply worker_waits in Hi as [Hi _]. congruence.
Qed.

(** C28: with at least one worker, in every interleaving of the adjusting thread, the
    workers and shutdown: the pool is never adjusted, no worker is ever told to stop,
    and shutdown (so the destructor) never returns; from its first join on, enqueue
    waits for a lock that is not given back. *)
Theorem pool_never_shuts_down n s : (0 < n)%nat -> reachable n s ->
  adjusted s = 0%nat /\ workers s = replicate n (mk_worker false false) /\ mpc s <> MReturned /\
  (forall i, mpc s = MJoin i -> i = 0%nat /\ enqueue s = Blocks /\ forall s', rtc step s s' -> mpc s' = MJoin 0).
Proof.
  intros Hn Hr. assert (HI : forall t, reachable n t -> pinv n t).
  { apply (rtc_ind_r (pinv n)); [apply pinv_start|]. intros y z _ Hs I. by eapply pinv_step. }
  destruct (HI s Hr) as [H1 H2 H3 H4 H5 H6]. split_and!; [done..|]. intros i Hi. split; [by apply H4|].
  split; [unfold enqueue; by rewrite Hi|]. intros s' Hs'.
  assert (Hj : mpc s = MJoin 0) by (by rewrite Hi, (H4 i Hi)). clear -HI Hr Hs' Hj Hn.
  induction Hs' as [s|s t u Hst _ IH]; [done|].
  assert (Ht : reachable n t) by (by eapply rtc_r). apply IH; [done|].
  pose proof (HI t Ht) as It. destruct (HI s Hr) as [H1 _ _ _ _ _]. 
  destruct Hst; cbn in *; try done; try congruence.
  - f_equal. apply (pinv_join n _ It). done.
  - by destruct (pinv_returned n _ It).
Qed.

Definition joining (n : nat) : state :=
  mk_state ACheck true (mk_barrier 1 1 0) (MJoin 0) true (replicate n (mk_worker false false)) 0.

Lemma joining_reachable n : reachable n (joining n).
Proof.
  eapply rtc_l; [apply step_shutdown|]. eapply rtc_l; [apply step_exchange|]. eapply rtc_l; [apply step_request|].
  eapply rtc_l; [apply step_drop; apply (arrive_early true true _ _ 1 2 0); lia|]. eapply rtc_l; [apply step_lock|]. apply rtc_refl.
Qed.

Lemma pool_never_shuts_down_witness :
  adjusted (joining 2) = 0%nat /\ mpc (joining 2) <> MReturned /\ enqueue (joining 2) = Blocks.
Proof.
  destruct (pool_never_shuts_down 2 (joining 2) ltac:(lia) (joining_reachable 2)) as (H1 & _ & H3 & H4).
  destruct (H4 0%nat eq_refl) as (_ & H5 & _). auto.
Defined.

End PoolLife.
