(* ===== verification/MemAlloc.v ===== *)
(** * The buddy allocator (src/mm/memalloc.cpp)

    An array of 65536 block descriptors of four words each (size, free flag, next,
    buddy); the allocator hands out the descriptors themselves. Memory is a map from
    addresses to 64-bit words; the free flag is the low byte of its word. A pointer
    that is not aligned or does not point into the array has no meaning. [base] is the
    address of the array. *)
From Stdlib Require Import ZArith Lia.
From stdpp Require Import strings numbers gmap base.
From stdpp Require Import list.
From S2P Require Import Prelude.

Open Scope Z_scope.

Module MemAlloc.

Definition MEMORY_SIZE : Z := 2 ^ 20.
Definition BLOCK_SIZE : Z := 16.
Definition COUNT : Z := MEMORY_SIZE / BLOCK_SIZE.
Definition DESCRIPTOR : Z := 32.
Definition NULL : Z := 0.

Section Memory.
Context (base : Z).

Abbreviation memory := (Z -> Z).

(** [&memory_blocks[i]]. *)
Definition block (i : Z) : Z := base + DESCRIPTOR * i.

Definition valid (p : Z) : bool :=
  (base <=? p) && (p + DESCRIPTOR <=? base + DESCRIPTOR * COUNT) && ((p - base) mod 8 =? 0).

(** The words of a descriptor. *)
Inductive field := Size | Free | Next | Buddy.
Definition offset (f : field) : Z := match f with Size => 0 | Free => 8 | Next => 16 | Buddy => 24 end.

Definition get (m : memory) (p : Z) (f : field) : outcome Z :=
  if valid p then Ok (m (p + offset f)) else Undef "pointer".

Definition set (p : Z) (f : field) (v : Z) (m : memory) : outcome memory :=
  if valid p then Ok (upd m (p + offset f) v) else Undef "pointer".

Definition is_free (m : memory) (p : Z) : outcome bool := w ← get m p Free; Ok (negb (w mod 256 =? 0)).

(** A store of one byte: the rest of the word stays. *)
Definition set_free (p : Z) (b : bool) (m : memory) : outcome memory :=
  w ← get m p Free; set p Free (w / 256 * 256 + (if b then 1 else 0)) m.

(** ** init_memory *)

Definition init_one (i : Z) (m : memory) : outcome memory :=
  m ← set (block i) Size BLOCK_SIZE m; m ← set_free (block i) true m;
  m ← set (block i) Next NULL m; set (block i) Buddy NULL m.

Definition init_buddy (i : Z) (m : memory) : outcome memory :=
  if i mod 2 =? 0 then m ← set (block i) Buddy (block (i + 1)) m; set (block (i + 1)) Buddy (block i) m
  else Ok m.

(** The third loop, with the block it has reached. *)
Definition init_next (i : Z) (s : Z * memory) : outcome (Z * memory) :=
  let '(current, m) := s in m ← set current Next (block i) m; n ← get m current Next; Ok (n, m).

Definition init_memory (m : memory) : outcome memory :=
  m ← for_range (Z.to_nat COUNT) 0 init_one m;
  m ← for_range (Z.to_nat COUNT) 0 init_buddy m;
  s ← for_range (Z.to_nat (COUNT - 1)) 1 init_next (block 0, m);
  Ok (snd s).

(** ** Allocation *)

(** More steps than there are descriptors: the list is a cycle. *)
Fixpoint find_loop (fuel : nat) (m : memory) (current size : Z) : outcome Z :=
  match fuel with
  | O => Hang
  | S fuel =>
      if current =? NULL then Ok NULL
      else f ← is_free m current; s ← get m current Size;
           if f && (size <=? s) then Ok current
           else n ← get m current Next; find_loop fuel m n size
  end.

Definition find_free_block (m : memory) (size : Z) : outcome Z :=
  find_loop (S (Z.to_nat COUNT)) m (block 0) size.

Definition split_block (p size : Z) (m : memory) : outcome memory :=
  let new_block := u64 (p + size) in
  s ← get m p Size; m ← set new_block Size (u64 (s - size)) m; m ← set_free new_block true m;
  n ← get m p Next; m ← set new_block Next n m;
  b ← get m p Buddy; m ← set new_block Buddy b m;
  m ← set p Size size m; m ← set p Next new_block m;
  b ← get m new_block Buddy; m ← set p Buddy b m;
  b ← get m new_block Buddy; set b Buddy new_block m.

Definition merge_blocks (p : Z) (m : memory) : outcome memory :=
  buddy ← get m p Buddy; f ← is_free m buddy;
  if f : bool then
    s ← get m p Size; t ← get m buddy Size; m ← set p Size (u64 (s + t)) m;
    n ← get m buddy Next; m ← set p Next n m;
    b ← get m buddy Buddy; m ← set p Buddy b m;
    b ← get m p Buddy; set b Buddy p m
  else Ok m.

(** [while (rounded_size < size) rounded_size <<= 1]; once it has wrapped to zero it stays. *)
Fixpoint round_loop (fuel : nat) (rounded_size size : Z) : outcome Z :=
  match fuel with
  | O => Hang
  | S fuel => if rounded_size <? size then round_loop fuel (shl64 rounded_size 1) size else Ok rounded_size
  end.

Definition round_up (size : Z) : outcome Z := round_loop 66 1 size.

Definition kmalloc (size : Z) (m : memory) : outcome (Z * memory) :=
  rounded_size ← round_up size;
  p ← find_free_block m rounded_size;
  if p =? NULL then Ok (NULL, m)
  else
    s ← get m p Size;
    m ← (if rounded_size <? s then split_block p rounded_size m else Ok m);
    m ← set_free p false m;
    Ok (p, m).

Definition kfree (p : Z) (m : memory) : outcome memory := m ← set_free p true m; merge_blocks p m.

(** * The initial list *)

Context (base_ok : 8 <= base /\ base + DESCRIPTOR * COUNT < 2 ^ 64).

Lemma COUNT_eq : COUNT = 65536.
Proof. reflexivity. Qed.

#[local] Opaque COUNT.

Lemma valid_block i : 0 <= i < COUNT -> valid (block i) = true.
Proof.
  intros H. unfold valid, block, DESCRIPTOR in *. replace (base + 32 * i - base) with (i * 4 * 8) by lia.
  rewrite Z.mod_mul by lia. zcases; lia.
Qed.

Lemma block_inj i j f g : block i + offset f = block j + offset g -> i = j /\ f = g.
Proof. unfold block, DESCRIPTOR. intros H. destruct f, g; cbn [offset] in H; (split; [lia|]); (done || (exfalso; lia)). Qed.

(** A word of the [i]-th descriptor. *)
Definition word (m : memory) (i : Z) (f : field) : Z := m (block i + offset f).

Lemma get_block m i f : 0 <= i < COUNT -> get m (block i) f = Ok (word m i f).
Proof. intros H. unfold get. by rewrite valid_block. Qed.

#[local] Instance field_eq_dec : EqDecision field.
Proof. solve_decision. Defined.

Lemma set_block i f v m : 0 <= i < COUNT ->
  exists m', set (block i) f v m = Ok m' /\
    forall j g, word m' j g = if decide (j = i /\ g = f) then v else word m j g.
Proof.
  intros H. unfold set. rewrite valid_block by done. eexists. split; [done|]. intros j g. unfold word.
  destruct (decide (j = i /\ g = f)) as [[-> ->]|Hn]; [apply upd_eq|]. apply upd_ne. intros E. by apply block_inj in E.
Qed.

Lemma set_free_block i b m : 0 <= i < COUNT ->
  exists m', set_free (block i) b m = Ok m' /\
    forall j g, word m' j g =
      if decide (j = i /\ g = Free) then word m i Free / 256 * 256 + (if b then 1 else 0) else word m j g.
Proof. intros H. unfold set_free. rewrite get_block by done. cbn [mbind outcome_bind]. by apply set_block. Qed.

Definition shape (m : memory) (i : Z) : Z * Z * Z := (word m i Size, word m i Free mod 256, word m i Next).

Ltac step_set i := 
  match goal with
  | |- context [set (block i) ?f ?v ?m] =>
      let m' := fresh "m" in let E := fresh "E" in let W := fresh "W" in
      destruct (set_block i f v m ltac:(lia)) as (m' & E & W); rewrite E; clear E; cbn [mbind outcome_bind]
  | |- context [set_free (block i) ?b ?m] =>
      let m' := fresh "m" in let E := fresh "E" in let W := fresh "W" in
      destruct (set_free_block i b m ltac:(lia)) as (m' & E & W); rewrite E; clear E; cbn [mbind outcome_bind]
  end.

Ltac fields :=
  repeat first [rewrite decide_True by (split; (reflexivity || lia)) | rewrite decide_False by (intros [? ?]; (discriminate || lia))].

Lemma byte_set w (b : bool) : (w / 256 * 256 + (if b then 1 else 0)) mod 256 = if b then 1 else 0.
Proof. rewrite Z.add_comm, Z.mod_add by lia. by destruct b. Qed.

Lemma init_one_loop m : exists m', for_range (Z.to_nat COUNT) 0 init_one m = Ok m' /\
  forall i, 0 <= i < COUNT -> (shape m' i, word m' i Buddy) = (BLOCK_SIZE, 1, NULL, NULL).
Proof.
  destruct (for_range_spec (fun _ => True) (fun m i => (shape m i, word m i Buddy)) (fun _ => (BLOCK_SIZE, 1, NULL, NULL)) 0 COUNT init_one)
    with (n := Z.to_nat COUNT) (start := 0) (s := m) as (m' & E & _ & H); [|done|lia|rewrite COUNT_eq; lia|].
  - intros s i _ Hi. unfold init_one. step_set i. step_set i. step_set i.
    destruct (set_block i Buddy NULL m2 Hi) as (m3 & E & W3). exists m3. split; [done|]. split; [done|].
    unfold shape. split.
    + rewrite !W3, !W1, !W0, !W. fields. by rewrite (byte_set _ true).
    + intros j _ Hj. rewrite !W3, !W1, !W0, !W. fields. done.
  - exists m'. split; [exact E|]. intros i Hi. rewrite H by done. rewrite Z2Nat.id by (rewrite COUNT_eq; lia). zcases; lia || done.
Qed.

Lemma init_buddy_loop m : exists m', for_range (Z.to_nat COUNT) 0 init_buddy m = Ok m' /\
  (forall i, shape m' i = shape m i) /\
  forall i, 0 <= i < COUNT -> word m' i Buddy = if i mod 2 =? 0 then block (i + 1) else block (i - 1).
Proof.
  destruct (for_range_spec (fun m' => forall i, shape m' i = shape m i)
    (fun m i => if i mod 2 =? 0 then (word m i Buddy, word m (i + 1) Buddy) else (0, 0))
    (fun i => if i mod 2 =? 0 then (block (i + 1), block i) else (0, 0)) 0 COUNT init_buddy)
    with (n := Z.to_nat COUNT) (start := 0) (s := m) as (m' & E & Hs & H); [|done|lia|rewrite COUNT_eq; lia|].
  - intros s i Hs Hi. unfold init_buddy. destruct (Z.eqb_spec (i mod 2) 0) as [Hm|Hm]; [|by exists s; split_and!].
    assert (i + 1 < COUNT). { pose proof COUNT_eq. pose proof (Z.div_mod i 2 ltac:(lia)). lia. }
    step_set i. destruct (set_block (i + 1) Buddy (block i) m0) as (m1 & E1 & W1); [lia|]. exists m1. split; [done|]. split; [|split].
    + intros j. rewrite <- Hs. unfold shape. rewrite !W1, !W. fields. done.
    + rewrite !W1, !W. fields. done.
    + intros j Hj Hne. destruct (Z.eqb_spec (j mod 2) 0) as [Hmj|]; [|done].
      assert (j <> i + 1) by (pose proof (Z.div_mod i 2 ltac:(lia)); pose proof (Z.div_mod j 2 ltac:(lia)); lia).
      assert (j + 1 <> i) by (pose proof (Z.div_mod i 2 ltac:(lia)); pose proof (Z.div_mod j 2 ltac:(lia)); lia).
      rewrite !W1, !W. fields. done.
  - exists m'. split; [exact E|]. split; [done|]. rewrite Z2Nat.id in H by (rewrite COUNT_eq; lia). intros i Hi.
    destruct (Z.eqb_spec (i mod 2) 0) as [Hm|Hm].
    + specialize (H i Hi). rewrite Hm in H. cbn [Z.eqb] in H. replace ((0 <=? i) && (i <? 0 + COUNT)) with true in H by (symmetry; zcases; lia).
      by injection H.
    + assert (Hm1 : (i - 1) mod 2 = 0).
      { pose proof (Z.mod_pos_bound i 2 ltac:(lia)). pose proof (Z.div_mod i 2 ltac:(lia)).
        replace (i - 1) with (i / 2 * 2) by lia. apply Z.mod_mul. lia. }
      assert (Hi1 : 0 <= i - 1 < COUNT). { destruct (decide (i = 0)) as [->|]; [done|lia]. }
      specialize (H (i - 1) Hi1). rewrite Hm1 in H. cbn [Z.eqb] in H.
      replace ((0 <=? i - 1) && (i - 1 <? 0 + COUNT)) with true in H by (symmetry; zcases; lia).
      injection H as _ H. by replace (i - 1 + 1) with i in H by lia.
Qed.

Lemma init_next_loop n i m : 1 <= i -> i + Z.of_nat n <= COUNT ->
  exists m', for_range n i init_next (block (i - 1), m) = Ok (block (i - 1 + Z.of_nat n), m') /\
    forall j f, word m' j f = if decide (f = Next /\ i - 1 <= j < i - 1 + Z.of_nat n) then block (j + 1) else word m j f.
Proof.
  revert i m. induction n as [|n IH]; intros i m Hi Hn.
  - exists m. cbn [for_range]. rewrite Z.add_0_r. split; [done|]. intros j f. rewrite decide_False by lia. done.
  - cbn [for_range]. destruct (set_block (i - 1) Next (block i) m) as (m1 & E1 & W1); [lia|].
    assert (init_next i (block (i - 1), m) = Ok (block i, m1)) as ->.
    { unfold init_next. rewrite E1. cbn [mbind outcome_bind]. rewrite get_block, W1 by lia. by fields. }
    cbn [mbind outcome_bind].
    destruct (IH (i + 1) m1) as (m' & E' & W'); [lia..|]. replace (i + 1 - 1) with i in * by lia.
    exists m'. split; [rewrite E'; do 3 f_equal; lia|]. intros j f. rewrite W', W1.
    destruct (decide (f = Next)) as [->|Hf]; [|rewrite !decide_False by tauto; done].
    destruct (decide (j = i - 1)) as [->|Hj].
    + rewrite decide_False by lia. rewrite decide_True by done. rewrite decide_True by (split; [done|lia]). f_equal. lia.
    + rewrite (decide_False (P := j = i - 1 /\ _)) by tauto. destruct (decide (i <= j < i + Z.of_nat n)).
      * rewrite !decide_True by (split; [done|lia]). done.
      * rewrite !decide_False by lia. done.
Qed.

(** After initialisation the descriptors form one list in order, each free, of one
    block, with its pair as its buddy. *)
Record fresh_list (m : memory) : Prop := {
  fresh_size : forall i, 0 <= i < COUNT -> word m i Size = BLOCK_SIZE;
  fresh_next : forall i, 0 <= i < COUNT -> word m i Next = if i + 1 <? COUNT then block (i + 1) else NULL;
  fresh_buddy : forall i, 0 <= i < COUNT -> word m i Buddy = if i mod 2 =? 0 then block (i + 1) else block (i - 1)
}.

Lemma init_memory_spec m : exists m', init_memory m = Ok m' /\ fresh_list m' /\
  forall i, 0 <= i < COUNT -> word m' i Free mod 256 = 1.
Proof.
  destruct (init_one_loop m) as (m1 & E1 & H1). destruct (init_buddy_loop m1) as (m2 & E2 & H2 & H3).
  destruct (init_next_loop (Z.to_nat (COUNT - 1)) 1 m2) as (m3 & E3 & H4); [lia|rewrite COUNT_eq; lia|].
  exists m3. replace (1 - 1) with 0 in E3 by lia. split.
  { unfold init_memory. apply bind_Ok. exists m1. split; [exact E1|]. apply bind_Ok. exists m2. split; [exact E2|].
    apply bind_Ok. eexists. split; [exact E3|]. reflexivity. }
  assert (HC : Z.of_nat (Z.to_nat (COUNT - 1)) = COUNT - 1) by (rewrite COUNT_eq; lia). rewrite HC in H4.
  assert (HS : forall i, 0 <= i < COUNT -> word m2 i Size = BLOCK_SIZE /\ word m2 i Free mod 256 = 1 /\ word m2 i Next = NULL).
  { intros i Hi. specialize (H1 i Hi). specialize (H2 i). unfold shape in *. injection H1 as A B C D. injection H2 as A' B' C'.
    clear E1 E2 E3. split_and!; congruence. }
  split; [split|]; intros i Hi; rewrite H4.
  - rewrite decide_False by (intros [? _]; done). by apply HS.
  - destruct (Z.ltb_spec (i + 1) COUNT); [rewrite decide_True by (split; [done|lia]); done|].
    rewrite decide_False by lia. by apply HS.
  - rewrite decide_False by (intros [? _]; done). by apply H3.
  - rewrite decide_False by (intros [? _]; done). by apply HS.
Qed.

(** * Rounding *)

Lemma round_loop_spec fuel e size : 0 <= e <= 63 -> 64 - e < Z.of_nat fuel -> 0 <= size <= 2 ^ 63 ->
  exists e', e <= e' <= 63 /\ round_loop fuel (2 ^ e) size = Ok (2 ^ e') /\ size <= 2 ^ e' /\ (e' = e \/ 2 ^ (e' - 1) < size).
Proof.
  revert e. induction fuel as [|fuel IH]; intros e He Hf Hs; [lia|]. cbn [round_loop].
  destruct (Z.ltb_spec (2 ^ e) size) as [Hlt|Hge]; [|exists e; split_and!; (done || lia || by left)].
  assert (e < 63). { destruct (decide (e = 63)) as [->|]; lia. }
  assert (shl64 (2 ^ e) 1 = 2 ^ (e + 1)) as ->.
  { unfold shl64. rewrite Z.shiftl_mul_pow2, <- Z.pow_add_r by lia. apply u64_small. split; [lia|]. apply Z.pow_lt_mono_r; lia. }
  destruct (IH (e + 1)) as (e' & He' & E & H1 & H2); [lia..|]. exists e'. split_and!; [lia..|done|done|].
  destruct H2 as [->|H2]; [|by right]. right. by replace (e + 1 - 1) with e by lia.
Qed.

(** The least power of two that holds the request, for every request up to 2^63. *)
Lemma round_up_spec size : 0 <= size <= 2 ^ 63 ->
  exists e, 0 <= e <= 63 /\ round_up size = Ok (2 ^ e) /\ size <= 2 ^ e /\ (e = 0 \/ 2 ^ (e - 1) < size).
Proof. intros H. exact (round_loop_spec 66 0 size ltac:(lia) ltac:(lia) H). Qed.

Lemma round_zero fuel size : 0 < size -> round_loop fuel 0 size = Hang.
Proof. intros H. induction fuel as [|fuel IH]; [done|]. cbn [round_loop]. by rewrite (proj2 (Z.ltb_lt 0 size)). Qed.

Lemma round_wraps fuel e size : 0 <= e <= 63 -> 2 ^ 63 < size -> round_loop fuel (2 ^ e) size = Hang.
Proof.
  revert e. induction fuel as [|fuel IH]; intros e He Hs; [done|]. cbn [round_loop].
  assert (2 ^ e <= 2 ^ 63) by (apply Z.pow_le_mono_r; lia). rewrite (proj2 (Z.ltb_lt (2 ^ e) size)) by lia.
  destruct (decide (e = 63)) as [->|]; [apply round_zero; lia|].
  assert (shl64 (2 ^ e) 1 = 2 ^ (e + 1)) as ->; [|apply IH; lia].
  unfold shl64. rewrite Z.shiftl_mul_pow2, <- Z.pow_add_r by lia. apply u64_small. split; [lia|]. apply Z.pow_lt_mono_r; lia.
Qed.

(** * Allocating *)

(** The first [k] descriptors are taken. *)
Record taken (k : Z) (m : memory) : Prop := {
  taken_fresh : fresh_list m;
  taken_free : forall i, 0 <= i < COUNT -> word m i Free mod 256 = if i <? k then 0 else 1
}.

Definition entry (i : Z) : Z := if i <? COUNT then block i else NULL.

Lemma block_nonnull i : 0 <= i -> (block i =? NULL) = false.
Proof. intros H. unfold block, NULL, DESCRIPTOR. apply Z.eqb_neq. lia. Qed.

Lemma is_free_block m i k : taken k m -> 0 <= i < COUNT -> is_free m (block i) = Ok (negb (i <? k)).
Proof.
  intros [_ H] Hi. unfold is_free. rewrite get_block by done. cbn [mbind outcome_bind]. specialize (H i Hi). unfold word in *.
  rewrite H. by destruct (i <? k).
Qed.

Lemma find_walk n k m size i : taken k m -> 0 <= i <= k -> k <= COUNT -> Z.of_nat n = k - i ->
  forall fuel, find_loop (S n + fuel) m (entry i) size = find_loop (S fuel) m (entry k) size.
Proof.
  revert i. induction n as [|n IH]; intros i T Hi Hk Hn fuel; [by replace i with k by lia|].
  change (S (S n) + fuel)%nat with (S (S n + fuel)). unfold entry at 1. rewrite (proj2 (Z.ltb_lt i COUNT)) by lia.
  change (find_loop (S (S n + fuel)) m (block i) size) with
    (if block i =? NULL then Ok NULL
     else f ← is_free m (block i); s ← get m (block i) Size;
          if f && (size <=? s) then Ok (block i) else n0 ← get m (block i) Next; find_loop (S n + fuel) m n0 size).
  rewrite block_nonnull, (is_free_block _ _ k) by (done || lia). cbn [mbind outcome_bind].
  rewrite !get_block by lia. cbn [mbind outcome_bind]. rewrite (proj2 (Z.ltb_lt i k)) by lia. cbn [negb andb].
  rewrite (fresh_next m (taken_fresh _ _ T)) by lia. fold (entry (i + 1)). apply IH; (done || lia).
Qed.

Lemma find_first k m size : taken k m -> 0 <= k <= COUNT -> size <= BLOCK_SIZE -> find_free_block m size = Ok (entry k).
Proof.
  intros T Hk Hs. unfold find_free_block. pose proof COUNT_eq.
  replace (S (Z.to_nat COUNT)) with (S (Z.to_nat k) + Z.to_nat (COUNT - k))%nat by lia.
  replace (block 0) with (entry 0) by done. rewrite (find_walk (Z.to_nat k) k m size 0 T) by lia. cbn [find_loop]. unfold entry.
  destruct (Z.ltb_spec k COUNT); [|done]. rewrite block_nonnull, (is_free_block _ _ k) by (done || lia). cbn [mbind outcome_bind].
  rewrite !get_block by lia. cbn [mbind outcome_bind]. rewrite (proj2 (Z.ltb_ge k k)) by lia.
  rewrite (fresh_size m (taken_fresh _ _ T)) by lia. by rewrite (proj2 (Z.leb_le _ _) Hs).
Qed.

Lemma round_block size : 8 < size <= BLOCK_SIZE -> round_up size = Ok 16.
Proof.
  unfold BLOCK_SIZE. intros H. destruct (round_up_spec size) as (e & He & E & H1 & H2); [lia|]. rewrite E. do 2 f_equal.
  assert (e <= 4). { destruct H2 as [->|H2]; [lia|]. destruct (Z.le_gt_cases e 4); [done|].
    assert (2 ^ 4 <= 2 ^ (e - 1)) by (apply Z.pow_le_mono_r; lia). lia. }
  assert (3 < e). { destruct (Z.le_gt_cases e 3); [|lia]. assert (2 ^ e <= 2 ^ 3) by (apply Z.pow_le_mono_r; lia). lia. }
  by replace e with 4 by lia.
Qed.

(** A request for one block takes the next descriptor, or fails when all are taken. *)
Lemma kmalloc_block k m size : taken k m -> 0 <= k <= COUNT -> 8 < size <= BLOCK_SIZE ->
  exists m', kmalloc size m = Ok (entry k, m') /\ taken (Z.min (k + 1) COUNT) m'.
Proof.
  intros T Hk Hs. unfold kmalloc. rewrite round_block by done. cbn [mbind outcome_bind].
  rewrite (find_first k m) by (done || (unfold BLOCK_SIZE; lia)). cbn [mbind outcome_bind]. unfold entry.
  destruct (Z.ltb_spec k COUNT) as [Hlt|Hge].
  - rewrite block_nonnull, get_block by lia. cbn [mbind outcome_bind]. rewrite (fresh_size m (taken_fresh _ _ T)) by lia.
    rewrite (proj2 (Z.ltb_ge 16 BLOCK_SIZE)) by (unfold BLOCK_SIZE; lia). cbn [mbind outcome_bind].
    destruct (set_free_block k false m) as (m' & E & W); [lia|]. rewrite E. cbn [mbind outcome_bind]. exists m'. split; [done|].
    destruct T as [[F1 F2 F3] F4]. rewrite Z.min_l by lia. split; [split|]; intros i Hi; rewrite W.
    + rewrite decide_False by (intros [_ ?]; done). auto.
    + rewrite decide_False by (intros [_ ?]; done). auto.
    + rewrite decide_False by (intros [_ ?]; done). auto.
    + destruct (decide (i = k)) as [->|Hne].
      * rewrite decide_True by done. rewrite (byte_set _ false). by rewrite (proj2 (Z.ltb_lt k (k + 1))) by lia.
      * rewrite decide_False by tauto. rewrite F4 by done. zcases; lia || done.
  - exists m. split; [done|]. replace (Z.min (k + 1) COUNT) with k by lia. done.
Qed.

Fixpoint kmallocs (sizes : list Z) (m : memory) : outcome (list Z * memory) :=
  match sizes with
  | [] => Ok ([], m)
  | s :: sizes => '(p, m) ← kmalloc s m; '(ps, m) ← kmallocs sizes m; Ok (p :: ps, m)
  end.

Lemma entry_past k n : COUNT <= k -> entry <$> seqZ k (Z.of_nat n) = replicate n NULL.
Proof.
  revert k. induction n as [|n IH]; intros k Hk; [by rewrite seqZ_nil by lia|].
  rewrite seqZ_cons by lia. rewrite fmap_cons. cbn [replicate]. f_equal.
  - unfold entry. by rewrite (proj2 (Z.ltb_ge k COUNT)).
  - replace (Z.pred (Z.of_nat (S n))) with (Z.of_nat n) by lia. apply IH. lia.
Qed.

Lemma kmallocs_spec sizes k m : Forall (fun s => 8 < s <= BLOCK_SIZE) sizes -> taken k m -> 0 <= k <= COUNT ->
  exists m', kmallocs sizes m = Ok (entry <$> seqZ k (Z.of_nat (length sizes)), m').
Proof.
  revert k m. induction sizes as [|s sizes IH]; intros k m Hs T Hk; [by exists m|].
  inversion Hs as [|? ? H1 H2]; subst. destruct (kmalloc_block k m s T Hk H1) as (m1 & E1 & T1).
  destruct (IH (Z.min (k + 1) COUNT) m1 H2 T1) as (m2 & E2); [lia|]. exists m2. cbn [kmallocs]. rewrite E1. cbn [mbind outcome_bind].
  rewrite E2. cbn [mbind outcome_bind length]. rewrite (seqZ_cons k) by lia. rewrite fmap_cons. do 3 f_equal.
  replace (Z.pred (Z.of_nat (S (length sizes)))) with (Z.of_nat (length sizes)) by lia.
  destruct (decide (k < COUNT)); [by rewrite Z.min_l by lia|].
  rewrite !entry_past by lia. done.
Qed.

(** after init_memory the allocator serves requests of one block (9 to 16 bytes)
    with the descriptors of the array in order, all different and aligned, one each,
    until all 65536 are taken; after that it returns NULL, and never faults. *)
Theorem buddy_history m sizes : Forall (fun s => 8 < s <= BLOCK_SIZE) sizes ->
  exists m0 ps m', init_memory m = Ok m0 /\ kmallocs sizes m0 = Ok (ps, m') /\ length ps = length sizes /\
    forall i p, ps !! i = Some p -> p = if Z.of_nat i <? COUNT then block (Z.of_nat i) else NULL.
Proof.
  intros Hs. destruct (init_memory_spec m) as (m0 & E & F & Hf). exists m0.
  assert (T : taken 0 m0).
  { split; [done|]. intros i Hi. rewrite Hf by done. by rewrite (proj2 (Z.ltb_ge i 0)) by lia. }
  destruct (kmallocs_spec sizes 0 m0 Hs T) as (m' & E'); [rewrite COUNT_eq; lia|].
  exists (entry <$> seqZ 0 (Z.of_nat (length sizes))), m'. split_and!; [done..| |].
  - rewrite length_fmap, length_seqZ. lia.
  - intros i p. rewrite list_lookup_fmap_Some. intros (x & -> & Hx). apply lookup_seqZ in Hx as [-> _]. done.
Qed.

(** Requests above one block, up to 2^63 bytes, fail on the initial list, and larger
    ones never return. *)
Lemma large_fails k m size : taken k m -> 0 <= k <= COUNT -> BLOCK_SIZE < size <= 2 ^ 63 -> kmalloc size m = Ok (NULL, m).
Proof.
  intros T Hk Hs. unfold BLOCK_SIZE in Hs. destruct (round_up_spec size) as (e & He & E & H1 & _); [lia|].
  unfold kmalloc. rewrite E. cbn [mbind outcome_bind].
  enough (find_free_block m (2 ^ e) = Ok NULL) as -> by done.
  assert (Hw : forall n i fuel, Z.of_nat n = COUNT - i -> 0 <= i <= COUNT ->
    find_loop (S n + fuel) m (entry i) (2 ^ e) = Ok NULL).
  { induction n as [|n IH]; intros i fuel Hn Hi.
    - unfold entry. rewrite (proj2 (Z.ltb_ge i COUNT)) by lia. done.
    - unfold entry. rewrite (proj2 (Z.ltb_lt i COUNT)) by lia. cbn [find_loop Nat.add].
      rewrite block_nonnull, (is_free_block _ _ k) by (done || lia). cbn [mbind outcome_bind].
      rewrite !get_block by lia. cbn [mbind outcome_bind]. rewrite (fresh_size m (taken_fresh _ _ T)) by lia.
      rewrite (proj2 (Z.leb_gt (2 ^ e) BLOCK_SIZE)) by (unfold BLOCK_SIZE; lia). rewrite andb_false_r.
      rewrite (fresh_next m (taken_fresh _ _ T)) by lia. fold (entry (i + 1)). apply (IH (i + 1) fuel); lia. }
  unfold find_free_block. pose proof COUNT_eq. pose proof (Hw (Z.to_nat COUNT) 0 0%nat) as Hz. rewrite Nat.add_0_r in Hz.
  apply Hz; lia.
Qed.

Lemma huge_hangs m size : 2 ^ 63 < size -> kmalloc size m = Hang.
Proof. intros H. unfold kmalloc, round_up. pose proof (round_wraps 66 0 size ltac:(lia) H) as E. change (2 ^ 0) with 1 in E. by rewrite E. Qed.

End Memory.

(** ** Examples *)

Lemma buddy_history_witness :
  exists m0 ps m', init_memory 4096 (fun _ => 0) = Ok m0 /\ kmallocs 4096 [16; 9; 12] m0 = Ok (ps, m') /\ ps = [4096; 4128; 4160].
Proof.
  destruct (buddy_history 4096 ltac:(rewrite COUNT_eq; unfold DESCRIPTOR; lia) (fun _ => 0) [16; 9; 12]) as (m0 & ps & m' & E & E' & L & H);
    [repeat constructor; unfold BLOCK_SIZE; lia|].
  exists m0, ps, m'. split; [exact E|]. split; [exact E'|].
  destruct ps as [|a [|b [|c [|]]]]; try discriminate L.
  rewrite (H 0%nat a eq_refl), (H 1%nat b eq_refl), (H 2%nat c eq_refl). reflexivity.
Defined.

(** The memory that initialisation leaves at address 4096, for experiments. *)
Definition fresh_memory (a : Z) : Z :=
  let i := (a - 4096) / 32 in
  match (a - 4096) mod 32 with
  | 0 => 16
  | 8 => 1
  | 16 => if i =? 65535 then 0 else 4096 + 32 * (i + 1)
  | 24 => if i mod 2 =? 0 then 4096 + 32 * (i + 1) else 4096 + 32 * (i - 1)
  | _ => 0
  end.

(** Requests up to eight bytes write a second descriptor over the first. *)
Lemma small_corrupts : kmalloc 4096 8 fresh_memory = Undef "pointer" /\ kmalloc 4096 3 fresh_memory = Undef "pointer".
Proof. split; vm_compute; reflexivity. Qed.

(** Allocate, free, allocate: freeing merges the block with its free buddy and makes
    it its own buddy, and the next request splits the descriptor in its middle. *)
Lemma reuse_corrupts :
  ('(p, m) ← kmalloc 4096 16 fresh_memory; m ← kfree 4096 p m; kmalloc 4096 16 m) = Undef "pointer".
Proof. vm_compute. reflexivity. Qed.

End MemAlloc.
