(* ===== verification/Timers.v ===== *)
(** * Timers (src/kernel/timer.c)

    [ScopedTimer] and [ManualTimer] over readings of the steady clock in nanoseconds,
    which are inputs. The epoch (zero) is the value of a time point that was never
    set. [elapsed] is modelled for the integral durations ([duration_cast] truncates);
    the functions that return a [double] are the same reading in another unit. *)
From Stdlib Require Import ZArith Lia.
From stdpp Require Import strings numbers gmap base.
From stdpp Require Import list.
From S2P Require Import Prelude.

Open Scope Z_scope.

Module Timers.

(** * ScopedTimer *)

Inductive message := Started (name : string) | Stopped (name : string) (duration : Z).

Record ScopedTimer := mk_scoped { st_name : string; st_start : Z; st_stopped : bool }.

Definition scoped_new (name : string) (now : Z) : ScopedTimer * list message :=
  (mk_scoped name now false, [Started name]).

Definition scoped_stop (now : Z) (t : ScopedTimer) : ScopedTimer * list message :=
  if st_stopped t then (t, [])
  else (mk_scoped (st_name t) (st_start t) true, [Stopped (st_name t) (now - st_start t)]).

(** The destructor stops a timer that runs. *)
Definition scoped_destroy (now : Z) (t : ScopedTimer) : list message :=
  if st_stopped t then [] else (scoped_stop now t).2.

Fixpoint scoped_stops (nows : list Z) (t : ScopedTimer) : ScopedTimer * list message :=
  match nows with
  | [] => (t, [])
  | now :: nows => let '(t, m) := scoped_stop now t in let '(t, m') := scoped_stops nows t in (t, m ++ m')
  end.

(** A scope: construction, any number of calls of stop, destruction. *)
Definition scope (name : string) (born : Z) (stops : list Z) (died : Z) : list message :=
  let '(t, m) := scoped_new name born in
  let '(t, m') := scoped_stops stops t in
  m ++ m' ++ scoped_destroy died t.

(** * ManualTimer *)

Record ManualTimer := mk_manual { start_time : Z; end_time : Z; running : bool }.

Definition manual_new : ManualTimer := mk_manual 0 0 false.

(** The timer, and whether a warning was printed. *)
Definition start (now : Z) (t : ManualTimer) : ManualTimer * bool :=
  if running t then (t, true) else (mk_manual now (end_time t) true, false).

Definition stop (now : Z) (t : ManualTimer) : ManualTimer * bool :=
  if running t then (mk_manual (start_time t) now false, false) else (t, true).

(** In units of [unit] nanoseconds. *)
Definition elapsed (unit now : Z) (t : ManualTimer) : Z :=
  if running t then Z.quot (now - start_time t) unit
  else if negb (start_time t =? 0) && negb (end_time t =? 0) then Z.quot (end_time t - start_time t) unit
  else 0.

Definition is_running (t : ManualTimer) : bool := running t.

(** * A stopwatch *)

Inductive watch := Idle | Running (since : Z) | Held (since until : Z).

Inductive op := Start (now : Z) | Stop (now : Z).
Definition time_of (o : op) : Z := match o with Start n | Stop n => n end.

Definition watch_step (w : watch) (o : op) : watch :=
  match w, o with
  | Running s, Start _ => w
  | _, Start n => Running n
  | Running s, Stop n => Held s n
  | _, Stop _ => w
  end.

Definition reading (now : Z) (w : watch) : Z :=
  match w with Idle => 0 | Running s => now - s | Held s u => u - s end.

Definition timer_step (t : ManualTimer) (o : op) : ManualTimer :=
  match o with Start n => (start n t).1 | Stop n => (stop n t).1 end.

(** The timer shows a watch whose marks are readings up to [last]. *)
Definition shows (last : Z) (t : ManualTimer) (w : watch) : Prop :=
  match w with
  | Idle => running t = false /\ start_time t = 0
  | Running s => running t = true /\ start_time t = s /\ 0 < s <= last
  | Held s u => running t = false /\ start_time t = s /\ end_time t = u /\ 0 < s <= u /\ u <= last
  end.

Lemma shows_step last t w o : shows last t w -> 0 < last <= time_of o -> shows (time_of o) (timer_step t o) (watch_step w o).
Proof.
  intros H Hl. destruct o as [n|n]; cbn [time_of] in Hl; destruct w as [|s|s u]; cbn in *; destruct_and?;
    unfold start, stop; match goal with E : running t = _ |- _ => rewrite E end; cbn; split_and?; (done || lia).
Qed.

Lemma reading_shows last t w now unit : shows last t w -> last <= now -> 0 < unit ->
  elapsed unit now t = Z.quot (reading now w) unit /\ 0 <= reading now w.
Proof.
  intros H Hn Hu. destruct w as [|s|s u]; cbn in *; unfold elapsed; destruct_and?.
  - replace (running t) with false by done. replace (start_time t) with 0 by done. cbn. rewrite Z.quot_0_l by lia. done.
  - replace (running t) with true by done. split; [congruence|lia].
  - replace (running t) with false by done. rewrite (proj2 (Z.eqb_neq (start_time t) 0)), (proj2 (Z.eqb_neq (end_time t) 0)) by lia.
    cbn. split; [congruence|lia].
Qed.

(** Clock readings that never go back, from [last] on. *)
Fixpoint steady (last : Z) (os : list op) : Prop :=
  match os with [] => True | o :: os => last <= time_of o /\ steady (time_of o) os end.

Lemma shows_run last os t w : shows last t w -> 0 < last -> steady last os ->
  shows (foldl (fun _ o => time_of o) last os) (foldl timer_step t os) (foldl watch_step w os).
Proof.
  revert last t w. induction os as [|o os IH]; intros last t w H Hl Hs; [done|]. destruct Hs as [Ho Hs]. cbn [foldl].
  apply IH; [|lia|done]. by eapply shows_step.
Qed.

(** after any sequence of starts and stops, useless ones included, with a clock
    that starts after its epoch and does not go back, the timer runs exactly when the
    stopwatch does, and elapsed is the stopwatch's reading in the chosen unit, rounded
    down, never negative. *)
Theorem timer_refines_stopwatch first os now unit : 0 < first -> steady first os -> 0 < unit ->
  foldl (fun _ o => time_of o) first os <= now ->
  let t := foldl timer_step manual_new os in let w := foldl watch_step Idle os in
  elapsed unit now t = reading now w / unit /\ 0 <= elapsed unit now t /\
  is_running t = match w with Running _ => true | _ => false end.
Proof.
  intros Hf Hs Hu Hn. cbv zeta. pose proof (shows_run first os manual_new Idle) as H. cbn [shows manual_new running start_time] in H.
  specialize (H (conj eq_refl eq_refl) Hf Hs). destruct (reading_shows _ _ _ now unit H Hn Hu) as [-> H0].
  rewrite Z.quot_div_nonneg by lia. split_and!; [done|apply Z.div_pos; lia|].
  unfold is_running. destruct (foldl watch_step Idle os); cbn in H; by destruct_and?.
Qed.

Lemma timer_refines_stopwatch_witness :
  elapsed 1000000 900000000 (foldl timer_step manual_new [Start 100000000; Start 150000000; Stop 310999999; Stop 400000000]) = 210.
Proof.
  destruct (timer_refines_stopwatch 1 [Start 100000000; Start 150000000; Stop 310999999; Stop 400000000] 900000000 1000000)
    as (H & _ & _); [lia|cbn; lia|lia|cbn; lia|]. rewrite H. reflexivity.
Defined.

(** A scope prints one duration: to the first call of stop, or to its end. *)
Lemma scope_prints_once name born stops died :
  scope name born stops died = [Started name; Stopped name (List.hd died stops - born)].
Proof.
  unfold scope, scoped_new. destruct stops as [|n stops]; [done|]. cbn [scoped_stops scoped_stop st_stopped].
  assert (H : forall ns t, st_stopped t = true -> scoped_stops ns t = (t, [])).
  { induction ns as [|x ns IH]; intros t Ht; [done|]. cbn [scoped_stops]. unfold scoped_stop. rewrite Ht. by rewrite IH. }
  rewrite H by done. done.
Qed.

End Timers.
