(* ===== verification/DemoNet.v ===== *)
(** * Demonstration servers and messages (src/net/socket.c, net.c, protocol.c)

    The two servers answer one client after the other with one buffer of 256 bytes;
    what the system calls answer is a script. A negative answer ends the program. The
    buffer keeps what earlier clients sent, and printing it reads up to a zero byte.
    Messages are built with [strcat] in arrays of the size of their first word. *)
From Stdlib Require Import ZArith Lia.
From stdpp Require Import strings numbers gmap base.
From stdpp Require Import list.
From S2P Require Import Prelude Text.

Open Scope Z_scope.

Module DemoNet.
Import Text.

(** [exit(EXIT_FAILURE)] with the message of [perror]. *)
Definition die {A} (what : string) : outcome A := Panic what.

(** * The wrappers of socket.c *)

Definition checked (what : string) (answer : Z) : outcome Z := if answer <? 0 then die what else Ok answer.

Definition create_socket (answer : Z) : outcome Z := checked "socket creation failed" answer.
Definition bind_socket (answer : Z) : outcome Z := checked "binding failed" answer.
Definition listen_socket (answer : Z) : outcome Z := checked "listening failed" answer.
Definition accept_socket (answer : Z) : outcome Z := checked "accept failed" answer.
Definition close_socket (answer : Z) : outcome Z := r ← checked "closing failed" answer; Ok 0.

(** What a read brings: an error, or bytes, which replace the beginning of the buffer. *)
Definition read_socket (answer : option text) (buffer : text) : outcome text :=
  match answer with
  | None => die "reading failed"
  | Some data => if (length data <=? length buffer)%nat then Ok (data ++ drop (length data) buffer) else Undef "read"
  end.

Definition write_socket (answer : Z) : outcome Z := checked "writing failed" answer.

(** ** The servers *)

(** [printf] with [%s] of the buffer: up to a zero byte, which must be there. *)
Definition cstring (buffer : text) : outcome text :=
  if bool_decide (0 ∈ buffer) then Ok (upto 0 buffer).1 else Undef "unterminated".

Record client := mk_client { accepted : Z; sends : option text; written : Z; closed : Z }.

(** What happens for a client: the text that is printed, the bytes that are offered. *)
Record service := mk_service { printed : text; response : text; fd : Z }.

Definition hello : text := lit "Hello, client!".

(** One turn of the loop of socket.c. *)
Definition serve (c : client) (buffer : text) : outcome (service * text) :=
  fd ← accept_socket (accepted c);
  buffer ← read_socket (sends c) buffer;
  msg ← cstring buffer;
  _ ← write_socket (written c);
  _ ← close_socket (closed c);
  Ok (mk_service msg hello fd, buffer).

Fixpoint serve_all (cs : list client) (buffer : text) : outcome (list service) :=
  match cs with
  | [] => Ok []
  | c :: cs => '(s, buffer) ← serve c buffer; ss ← serve_all cs buffer; Ok (s :: ss)
  end.

Definition socket_main (sock bound listening : Z) (buffer : text) (cs : list client) : outcome (list service) :=
  fd ← create_socket sock; _ ← bind_socket bound; _ ← listen_socket listening; serve_all cs buffer.

(** One turn of the loop of net.c: only [accept] is checked. *)
Definition net_serve (c : client) (buffer : text) : outcome (service * text) :=
  fd ← checked "Accept failed" (accepted c);
  let buffer := match sends c with Some data => data ++ drop (length data) buffer | None => buffer end in
  if (length buffer <=? 256)%nat then msg ← cstring buffer; Ok (mk_service msg hello fd, buffer) else Undef "read".

(** The test of net.c is for zero, so an error passes on to [bind]. *)
Definition net_setup (sock bound listening : Z) : outcome Z :=
  if sock =? 0 then die "Socket failed"
  else _ ← checked "Bind failed" bound; _ ← checked "Listen failed" listening; Ok sock.

(** * Messages (protocol.c) *)

(** [strcat(dest, src)] in an array of [cap] bytes. *)
Definition strcat (cap : nat) (dest src : text) : outcome text :=
  if (length dest + length src <? cap)%nat then Ok (dest ++ src) else Undef "strcat".

(** [char message[] = word]: as many bytes as the word and its terminator. *)
Definition send_word (word tail : text) : outcome text :=
  let cap := S (length word) in
  m ← strcat cap word tail; strcat cap m [NEWLINE].

Definition sendHello (name : text) : outcome text := send_word (lit "hello") name.
Definition sendGoodbye (reason : text) : outcome text := send_word (lit "goodbye") reason.
Definition sendData (data : text) : text := data.

Inductive kind := Hello | Goodbye | Data | Unknown | Invalid.

(** [strtok(message, newline)]: the first piece that is not empty. *)
Fixpoint strtok (s : text) : option text :=
  match s with
  | [] => None
  | c :: r => if c =? NEWLINE then strtok r else Some (upto NEWLINE s).1
  end.

Definition parseMessage (message : text) : kind :=
  match strtok message with
  | None => Invalid
  | Some token =>
      if bool_decide (token = lit "hello") then Hello
      else if bool_decide (token = lit "goodbye") then Goodbye
      else if bool_decide (token = lit "data") then Data
      else Unknown
  end.

(** * Properties *)

(** A client whose calls succeed and that sends a terminated text. *)
Definition polite (c : client) : Prop :=
  0 <= accepted c /\ 0 <= written c /\ 0 <= closed c /\
  exists data, sends c = Some (data ++ [0]) /\ (0 ∉ data) /\ (length data < 256)%nat.

Lemma serve_polite c buffer : polite c -> length buffer = 256%nat ->
  exists data buffer', sends c = Some (data ++ [0]) /\ serve c buffer = Ok (mk_service data hello (accepted c), buffer') /\
    length buffer' = 256%nat.
Proof.
  intros (H1 & H2 & H3 & data & Hd & Hn & Hl) Hb. exists data. unfold serve, accept_socket, write_socket, close_socket, checked.
  rewrite (proj2 (Z.ltb_ge (accepted c) 0)) by lia. cbn [mbind outcome_bind]. rewrite Hd. unfold read_socket.
  rewrite length_app, Hb. cbn [length]. rewrite (proj2 (Nat.leb_le _ _)) by lia. cbn [mbind outcome_bind]. unfold cstring.
  rewrite bool_decide_true by set_solver. rewrite <- app_assoc. cbn [app]. rewrite upto_app by done. cbn [mbind outcome_bind fst].
  rewrite (proj2 (Z.ltb_ge (written c) 0)), (proj2 (Z.ltb_ge (closed c) 0)) by lia. cbn [mbind outcome_bind].
  eexists. split; [done|]. split; [done|]. rewrite length_app. cbn [length]. rewrite length_drop. lia.
Qed.

(** with clients that send terminated texts, the server of socket.c greets each one
    in order, prints exactly what it sent, and closes the descriptor that was accepted. *)
Theorem polite_clients_served sock bound listening buffer cs : 0 <= sock -> 0 <= bound -> 0 <= listening ->
  length buffer = 256%nat -> Forall polite cs ->
  exists ss, socket_main sock bound listening buffer cs = Ok ss /\
    Forall2 (fun c s => sends c = Some (printed s ++ [0]) /\ response s = hello /\ fd s = accepted c) cs ss.
Proof.
  intros H1 H2 H3 Hb Hc. unfold socket_main, create_socket, bind_socket, listen_socket, checked.
  rewrite (proj2 (Z.ltb_ge sock 0)), (proj2 (Z.ltb_ge bound 0)), (proj2 (Z.ltb_ge listening 0)) by lia. cbn [mbind outcome_bind].
  revert buffer Hb. induction Hc as [|c cs Hp Hc IH]; intros buffer Hb; [by exists []|].
  destruct (serve_polite c buffer Hp Hb) as (data & buffer' & Hs & E & Hb'). cbn [serve_all]. rewrite E. cbn [mbind outcome_bind].
  destruct (IH buffer' Hb') as (ss & -> & HF). cbn [mbind outcome_bind]. eexists. split; [done|]. by constructor.
Qed.

Definition blank : text := replicate 256 0.
Definition says (s : string) : client := mk_client 5 (Some (lit s ++ [0])) 14 0.

Lemma says_polite s : (0 ∉ lit s) -> (length (lit s) < 256)%nat -> polite (says s).
Proof. intros H1 H2. split_and!; cbn; try lia. by exists (lit s). Qed.

Lemma polite_clients_served_witness :
  exists ss, socket_main 3 0 0 blank [says "one"; says "two"] = Ok ss /\ printed <$> ss = [lit "one"; lit "two"].
Proof.
  destruct (polite_clients_served 3 0 0 blank [says "one"; says "two"]) as (ss & E & _); [lia..|reflexivity| |].
  - constructor; [|constructor; [|constructor]]; (apply says_polite; [apply (bool_decide_unpack _); vm_compute; exact I|vm_compute; lia]).
  - exists ss. split; [exact E|]. vm_compute in E. injection E as <-. reflexivity.
Defined.

(** A client that sends no terminator gets the tail of an earlier client's text printed. *)
Lemma stale_bytes_leak : exists ss,
  socket_main 3 0 0 blank [says "password"; mk_client 6 (Some (lit "hi")) 14 0] = Ok ss /\
  printed <$> ss = [lit "password"; lit "hissword"].
Proof. eexists. split; vm_compute; reflexivity. Qed.

(** A client that fills the buffer makes the server read past it. *)
Lemma full_buffer_overreads :
  socket_main 3 0 0 blank [mk_client 5 (Some (replicate 256 65)) 14 0] = Undef "unterminated".
Proof. vm_compute. reflexivity. Qed.

(** Every message of protocol.c overflows its array. *)
Lemma send_word_overflows word tail : send_word word tail = Undef "strcat".
Proof.
  unfold send_word, strcat. destruct (Nat.ltb_spec (length word + length tail) (S (length word))) as [H|H]; [|done].
  cbn [mbind outcome_bind]. destruct tail; [|cbn in H; lia]. rewrite app_nil_r. cbn [length].
  rewrite (proj2 (Nat.ltb_ge _ _)) by lia. done.
Qed.

(** The receiver knows none of the greetings that carry a name. *)
Lemma greeting_unknown name : name <> [] -> (NEWLINE ∉ name) -> parseMessage (lit "hello" ++ name ++ [NEWLINE]) = Unknown.
Proof.
  intros Hn Hl. unfold parseMessage.
  assert (E : strtok (lit "hello" ++ name ++ [NEWLINE]) = Some (lit "hello" ++ name)).
  { change (strtok (lit "hello" ++ name ++ [NEWLINE])) with (Some (upto NEWLINE (lit "hello" ++ name ++ [NEWLINE])).1).
    rewrite app_assoc, upto_app; [done|]. rewrite elem_of_app. intros [H|H]; [|done]. vm_compute in H. set_solver. }
  rewrite E. rewrite !bool_decide_false; [done|intros H; by destruct name..].
Qed.

End DemoNet.
