(* ===== verification/Fctl.v ===== *)
(** * File control blocks (src/kernel/fctl.h)

    A kernel module that gives every open file a control block of its own from a slab
    cache. The cache is the set of blocks that are allocated, by address; which address
    an allocation yields, or that it fails, is an input. [FCB_MAGIC] is not defined in
    the repository and is a variable. *)
From Stdlib Require Import ZArith Lia.
From stdpp Require Import strings numbers gmap base.
From stdpp Require Import list.
From S2P Require Import Prelude.

Open Scope Z_scope.

Module Fctl.

Definition ENOMEM : Z := 12.

Record fcb := mk_fcb { magic : Z; flags : Z; mode : Z; offset : Z }.

(** The cache, when it was created, and [private_data] of the files that are open. *)
Record state := mk_state { fcb_cache : option (gmap Z fcb); private_data : gmap Z Z }.

Section Module_.
Context (FCB_MAGIC : Z).

(** [kmem_cache_zalloc]: a zeroed block at a new address, or NULL. *)
Definition alloc_fcb (answer : option Z) (cache : gmap Z fcb) : option (Z * gmap Z fcb) :=
  match answer with
  | None => None
  | Some p => Some (p, <[p := mk_fcb FCB_MAGIC 0 0 0]> cache)
  end.

(** [kmem_cache_free] of a block that is not allocated has no meaning. *)
Definition free_fcb (p : Z) (cache : gmap Z fcb) : outcome (gmap Z fcb) :=
  match cache !! p with Some _ => Ok (delete p cache) | None => Undef "kmem_cache_free" end.

Definition with_cache (s : state) : outcome (gmap Z fcb) :=
  match fcb_cache s with Some c => Ok c | None => Undef "no cache" end.

Definition fcb_open (filp : Z) (answer : option Z) (s : state) : outcome (Z * state) :=
  c ← with_cache s;
  match alloc_fcb answer c with
  | None => Ok (- ENOMEM, s)
  | Some (p, c) => Ok (0, mk_state (Some c) (<[filp := p]> (private_data s)))
  end.

Definition fcb_release (filp : Z) (s : state) : outcome (Z * state) :=
  c ← with_cache s;
  match private_data s !! filp with
  | None => Undef "private_data"
  | Some p => c ← free_fcb p c; Ok (0, mk_state (Some c) (delete filp (private_data s)))
  end.

Definition init_fctl (created : bool) : Z * state :=
  if created then (0, mk_state (Some ∅) ∅) else (- ENOMEM, mk_state None ∅).

(** The blocks that [kmem_cache_destroy] finds still allocated. *)
Definition exit_fctl (s : state) : outcome (gmap Z fcb) := with_cache s.

(** * What the kernel does with the module *)

(** The kernel opens a file once, with an address that is free, and releases open files. *)
Inductive call := Open (filp : Z) (answer : option Z) | Release (filp : Z).

Definition allowed (c : call) (s : state) : Prop :=
  match c with
  | Open filp answer => private_data s !! filp = None /\
      forall p cache, answer = Some p -> fcb_cache s = Some cache -> cache !! p = None
  | Release filp => is_Some (private_data s !! filp)
  end.

Definition exec (c : call) (s : state) : outcome (Z * state) :=
  match c with Open filp answer => fcb_open filp answer s | Release filp => fcb_release filp s end.

Inductive runs : state -> state -> Prop :=
| runs_nil s : runs s s
| runs_step c s s1 s2 r : allowed c s -> exec c s = Ok (r, s1) -> runs s1 s2 -> runs s s2.

(** Each open file has a block of its own, and there are no others. *)
Record owned (s : state) : Prop := {
  owned_cache : exists cache, fcb_cache s = Some cache /\
    (forall p b, cache !! p = Some b <-> b = mk_fcb FCB_MAGIC 0 0 0 /\ exists f, private_data s !! f = Some p);
  owned_own : forall f g p, private_data s !! f = Some p -> private_data s !! g = Some p -> f = g
}.

Lemma fcb_init_owned : owned (init_fctl true).2.
Proof.
  split; cbn; [|intros f g p H; by rewrite lookup_empty in H]. exists ∅. split; [done|]. intros p b. rewrite lookup_empty.
  split; [done|]. intros (_ & f & Hf). by rewrite lookup_empty in Hf.
Qed.

Lemma fcb_open_owned filp p s : owned s -> allowed (Open filp (Some p)) s ->
  exists s', fcb_open filp (Some p) s = Ok (0, s') /\ owned s'.
Proof.
  intros [(cache & Hc & H1) H2] [Hf Hp]. specialize (Hp p cache eq_refl Hc).
  assert (Hnp : forall f, private_data s !! f <> Some p).
  { intros f Hfp. assert (cache !! p = Some (mk_fcb FCB_MAGIC 0 0 0)) by (apply H1; eauto). congruence. }
  unfold fcb_open, with_cache. rewrite Hc. cbn. eexists. split; [done|]. split; cbn.
  - eexists. split; [done|]. intros q b. destruct (decide (q = p)) as [->|Hq].
    + rewrite lookup_insert_eq. split; [intros [= <-]; split; [done|]; exists filp; apply lookup_insert_eq|by intros [-> _]].
    + rewrite lookup_insert_ne by done. rewrite H1. split; intros [Hb (f & Hfq)]; (split; [done|]); exists f.
      * rewrite lookup_insert_ne; [done|]. congruence.
      * destruct (decide (f = filp)) as [->|Hne]; [rewrite lookup_insert_eq in Hfq; congruence|]. by rewrite lookup_insert_ne in Hfq.
  - intros f g q Hfq Hgq. destruct (decide (f = filp)) as [->|Hff], (decide (g = filp)) as [->|Hgf]; try done;
      rewrite ?lookup_insert_eq, ?lookup_insert_ne in Hfq by done; rewrite ?lookup_insert_eq, ?lookup_insert_ne in Hgq by done; simplify_eq.
    + by apply Hnp in Hgq.
    + by apply Hnp in Hfq.
    + by eapply H2.
Qed.

Lemma fcb_release_owned filp s : owned s -> allowed (Release filp) s ->
  exists s', fcb_release filp s = Ok (0, s') /\ owned s' /\ private_data s' = delete filp (private_data s).
Proof.
  intros [(cache & Hc & H1) H2] [p Hp]. unfold fcb_release, with_cache. rewrite Hc. cbn. rewrite Hp. unfold free_fcb.
  assert (cache !! p = Some (mk_fcb FCB_MAGIC 0 0 0)) as -> by (apply H1; eauto). cbn. eexists. split; [done|]. split; [|done].
  split; cbn.
  - eexists. split; [done|]. intros q b. rewrite lookup_delete_Some, H1. split.
    + intros (Hq & Hb & f & Hf). split; [done|]. exists f. apply lookup_delete_Some. split; [|done]. intros ->. congruence.
    + intros (Hb & f & [Hne Hf]%lookup_delete_Some). split; [|eauto]. intros ->. apply Hne. by eapply H2.
  - intros f g q [_ Hf]%lookup_delete_Some [_ Hg]%lookup_delete_Some. by eapply H2.
Qed.

Lemma fcb_exec_owned c s : owned s -> allowed c s -> exists r s', exec c s = Ok (r, s') /\ owned s'.
Proof.
  intros O A. destruct c as [filp [p|]|filp]; cbn [exec].
  - destruct (fcb_open_owned filp p s O A) as (s' & E & O'). eauto.
  - pose proof O as [(cache & Hc & _) _]. unfold fcb_open, with_cache. rewrite Hc. cbn. eauto.
  - destruct (fcb_release_owned filp s O A) as (s' & E & O' & _). eauto.
Qed.

(** however the kernel opens and releases files, failed allocations included, no
    call of the module is undefined, every open file has a block of its own with the
    right magic, and when all files were released nothing is left for exit to leak. *)
Theorem fcb_lifetimes s : runs (init_fctl true).2 s ->
  owned s /\ (forall c, allowed c s -> exists r s', exec c s = Ok (r, s')) /\ (private_data s = ∅ -> exit_fctl s = Ok ∅).
Proof.
  intros Hr. assert (O : owned s).
  { pose proof fcb_init_owned as H. revert H. induction Hr as [s|c s s1 s2 r A E _ IH]; intros O; [done|]. apply IH.
    destruct (fcb_exec_owned c s O A) as (r' & s' & E' & O'). congruence. }
  split_and!; [done| |].
  - intros c A. destruct (fcb_exec_owned c s O A) as (r & s' & E & _). eauto.
  - intros He. destruct O as [(cache & Hc & H1) _]. unfold exit_fctl, with_cache. rewrite Hc. f_equal. apply map_empty. intros p.
    destruct (cache !! p) as [b|] eqn:Eb; [|done]. apply H1 in Eb as (_ & f & Hf). by rewrite He, lookup_empty in Hf.
Qed.

End Module_.

Lemma fcb_lifetimes_witness : exists s, runs 7 (init_fctl true).2 s /\ exit_fctl s = Ok ∅.
Proof.
  eexists. assert (H : runs 7 (init_fctl true).2 (mk_state (Some ∅) ∅)).
  { eapply (runs_step 7 (Open 1 (Some 64))); [split; [reflexivity|intros p cache [= <-] [= <-]; reflexivity]|reflexivity|].
    eapply (runs_step 7 (Release 1)); [eexists; reflexivity|reflexivity|]. apply runs_nil. }
  split; [exact H|]. apply (fcb_lifetimes 7 _ H). reflexivity.
Defined.

End Fctl.
