(* ===== verification/Vectors.v ===== *)
(** * Vector helpers (src/kernel/util.h) and program setup (src/kernel/setup.c)

    The class [Vector] of util.h over any element type with decidable equality, and
    the start of setup.c, whose table of system calls is always absent. *)
From Stdlib Require Import ZArith Lia.
From stdpp Require Import strings numbers gmap base.
From stdpp Require Import list.
From S2P Require Import Prelude Text Console.

Open Scope Z_scope.

Module Vectors.

Section Vector.
Context {T : Type} `{EqDecision T}.

(** [std::count]. *)
Definition count (data : list T) (x : T) : nat := length (filter (fun y => y = x) data).

Definition hasNoDuplicates (data : list T) : bool := forallb (fun x => (count data x =? 1)%nat) data.

Fixpoint unique_loop (data result : list T) : list T :=
  match data with
  | [] => result
  | x :: data => unique_loop data (if bool_decide (x ∈ result) then result else result ++ [x])
  end.

Definition getUniqueElements (data : list T) : list T := unique_loop data [].

(** [printVector] of a vector: every element is followed by a comma. *)
Definition printVector (show : T -> Text.text) (data : list T) : Text.text :=
  Text.lit "{ " ++ (data ≫= (fun x => show x ++ Text.lit ", ")) ++ Text.lit "}" ++ [Text.NEWLINE].

(** * Properties *)

Lemma count_cons x y data : count (y :: data) x = ((if decide (y = x) then 1 else 0) + count data x)%nat.
Proof. unfold count. rewrite filter_cons. by destruct (decide (y = x)). Qed.

Lemma count_elem data x : x ∈ data <-> (0 < count data x)%nat.
Proof.
  induction data as [|y data IH]; [split; [by intros ?%elem_of_nil|cbn; lia]|]. rewrite count_cons, elem_of_cons, IH.
  destruct (decide (y = x)) as [->|Hne]; [split; [lia|by left]|]. split; [intros [?|?]; [congruence|lia]|right; lia].
Qed.

Lemma NoDup_count data : NoDup data <-> forall x, (count data x <= 1)%nat.
Proof.
  induction data as [|y data IH]; [split; [intros _ x; cbn; lia|constructor]|]. rewrite NoDup_cons, IH. split.
  - intros [Hy H] x. rewrite count_cons. destruct (decide (y = x)) as [->|]; [|apply H].
    rewrite count_elem in Hy. lia.
  - intros H. split.
    + rewrite count_elem. specialize (H y). rewrite count_cons, decide_True in H by done. lia.
    + intros x. specialize (H x). rewrite count_cons in H. lia.
Qed.

Lemma hasNoDuplicates_spec data : hasNoDuplicates data = true <-> NoDup data.
Proof.
  unfold hasNoDuplicates. rewrite forallb_forall, NoDup_count. split.
  - intros H x. destruct (decide (x ∈ data)) as [Hx|Hx].
    + rewrite list_elem_of_In in Hx. apply H, Nat.eqb_eq in Hx. lia.
    + rewrite count_elem in Hx. lia.
  - intros H x Hx%list_elem_of_In. apply Nat.eqb_eq. rewrite count_elem in Hx. specialize (H x). lia.
Qed.

Lemma unique_loop_spec data result : NoDup result ->
  NoDup (unique_loop data result) /\ (forall x, x ∈ unique_loop data result <-> x ∈ result \/ x ∈ data) /\
  exists kept, unique_loop data result = result ++ kept /\ sublist kept data.
Proof.
  revert result. induction data as [|x data IH]; intros result Hr; cbn [unique_loop].
  - split_and!; [done|set_solver|]. exists []. by rewrite app_nil_r.
  - destruct (bool_decide_reflect (x ∈ result)) as [Hx|Hx].
    + destruct (IH result Hr) as (H1 & H2 & kept & H3 & H4). split_and!; [done|set_solver|]. exists kept. split; [done|by apply sublist_cons].
    + destruct (IH (result ++ [x])) as (H1 & H2 & kept & H3 & H4); [apply NoDup_app; split_and!; [done|set_solver|apply NoDup_singleton]|].
      split_and!; [done|set_solver|]. exists (x :: kept). rewrite H3, <- app_assoc. split; [done|by apply sublist_skip].
Qed.

Lemma sublist_full (l k : list T) : sublist l k -> length l = length k -> l = k.
Proof.
  induction 1 as [|x l k H IH|x l k H IH]; cbn; intros E; [done|f_equal; auto|]. apply sublist_length in H. lia.
Qed.

(** the unique elements of a vector are its elements without repetition, in their
    order; the vector has no duplicates exactly when that is the vector itself, and
    exactly when hasNoDuplicates says so. *)
Theorem unique_elements_correct data :
  NoDup (getUniqueElements data) /\ (forall x, x ∈ getUniqueElements data <-> x ∈ data) /\
  sublist (getUniqueElements data) data /\
  (hasNoDuplicates data = true <-> getUniqueElements data = data).
Proof.
  unfold getUniqueElements. destruct (unique_loop_spec data [] (NoDup_nil_2)) as (H1 & H2 & kept & H3 & H4).
  assert (Hs : sublist (unique_loop data []) data) by (by rewrite H3).
  split_and!; [done|set_solver|done|]. rewrite hasNoDuplicates_spec. split; [|by intros <-].
  intros Hn. assert (unique_loop data [] ≡ₚ data) as Hp by (apply NoDup_Permutation; [done..|set_solver]).
  apply sublist_full; [done|by rewrite Hp].
Qed.

End Vector.

(** * setup.c *)

(** [split]: the words of a text. *)
Definition split (str : Text.text) : list Text.text := Console.splitArgs str.

(** [getSystemCalls] returns an empty optional, and [main] uses its value. *)
Definition getSystemCalls : option (Z * Text.text) := None.

Definition setup_main : outcome Z :=
  match getSystemCalls with Some _ => Ok 0 | None => Undef "empty optional" end.

End Vectors.
