(* ===== verification/FsShell.v ===== *)
(** * The file system shell (src/fs/fs.cpp)

    The class [FileSystem]: the current directory is a string that only [pwd] reads;
    the other operations use their argument as it is. Files are texts by path; whether
    a path opens is an input of the operation. Creating, removing and listing
    directories are calls of the library and are left out. *)
From Stdlib Require Import ZArith Lia.
From stdpp Require Import strings numbers gmap base.
From stdpp Require Import list.
From S2P Require Import Prelude Text.

Open Scope Z_scope.

Module FsShell.
Import Text.

Record FileSystem := mk_fs { current : text; root : text; files : gmap text text; out : text }.

Definition new_fs (disk : gmap text text) : FileSystem := mk_fs (lit ".") (lit ".") disk [].

Definition print (s : text) (f : FileSystem) : FileSystem := mk_fs (current f) (root f) (files f) (out f ++ s).

Definition cd (path : text) (f : FileSystem) : FileSystem := mk_fs path (root f) (files f) (out f).

Definition pwd (f : FileSystem) : FileSystem := print (current f ++ [NEWLINE]) f.

(** [std::ofstream out(filename)] creates or truncates. *)
Definition touch (opens : bool) (filename : text) (f : FileSystem) : FileSystem :=
  if opens then mk_fs (current f) (root f) (<[filename := []]> (files f)) (out f) else f.

Definition echo (opens : bool) (text : text) (f : FileSystem) : FileSystem := touch opens text f.

Fixpoint cat_loop (fuel : nat) (s printed : text) : option text :=
  match fuel with
  | O => None
  | S fuel =>
      match getline NEWLINE s with
      | None => Some printed
      | Some (line, rest) => cat_loop fuel rest (printed ++ line ++ [NEWLINE])
      end
  end.

(** A file that does not open prints nothing. *)
Definition cat (opens : bool) (filename : text) (f : FileSystem) : option FileSystem :=
  let s := if opens then default [] (files f !! filename) else [] in
  (fun p => print p f) <$> cat_loop (S (length s)) s [].

(** * Properties *)

(** A text with its last line ended. *)
Definition ended (s : text) : text :=
  if bool_decide (s = []) || bool_decide (last s = Some NEWLINE) then s else s ++ [NEWLINE].

Lemma upto_ended s line rest : s <> [] -> upto NEWLINE s = (line, rest) -> ended s = line ++ NEWLINE :: ended rest.
Proof.
  revert line rest. induction s as [|c s IH]; [done|]. intros line rest _. cbn [upto].
  destruct (Z.eqb_spec c NEWLINE) as [->|Hc].
  - intros [= <- <-]. unfold ended. destruct s as [|d s]; [done|]. rewrite !(bool_decide_eq_false_2 (_ = [])) by done.
    change (last (NEWLINE :: d :: s)) with (last (d :: s)). cbn [orb app]. by destruct (bool_decide _).
  - destruct (upto NEWLINE s) as [a r] eqn:E. intros [= <- <-]. destruct s as [|d s].
    + cbn in E. injection E as <- <-. unfold ended. cbn. rewrite bool_decide_false; [done|]. intros [= H]. apply Hc. exact H.
    + specialize (IH a r ltac:(done) eq_refl). revert IH. unfold ended. rewrite !(bool_decide_eq_false_2 (_ :: _ = [])) by done.
      change (last (c :: d :: s)) with (last (d :: s)). cbn [orb]. destruct (bool_decide (last (d :: s) = Some NEWLINE)); cbn [app]; intros ->; done.
Qed.

Lemma cat_loop_spec fuel s printed : (length s < fuel)%nat -> cat_loop fuel s printed = Some (printed ++ ended s).
Proof.
  revert s printed. induction fuel as [|fuel IH]; intros s printed H; [lia|]. cbn [cat_loop].
  destruct s as [|c s]; [cbn; by rewrite app_nil_r|]. unfold getline.
  destruct (upto NEWLINE (c :: s)) as [line rest] eqn:E. rewrite IH by (apply upto_shorter in E; [cbn in *; lia|done]).
  rewrite (upto_ended (c :: s) line rest ltac:(done) E). by rewrite <- !app_assoc.
Qed.

(** [cat] ends and prints the file, ending its last line if it was not. *)
Lemma cat_prints filename f s : files f !! filename = Some s ->
  cat true filename f = Some (print (ended s) f).
Proof. intros H. unfold cat. rewrite H. cbn [default from_option id]. change (default [] (Some s)) with s. by rewrite cat_loop_spec by lia. Qed.

(** [touch] empties a file that exists, and [echo] makes an empty file named by its text. *)
Lemma touch_empties filename f : files (touch true filename f) !! filename = Some [].
Proof. apply lookup_insert_eq. Qed.

Lemma echo_prints_nothing t f : out (echo true t f) = out f /\ files (echo true t f) = <[t := []]> (files f).
Proof. done. Qed.

(** [cd] changes what [pwd] prints and no file operation. *)
Lemma cd_only_pwd path name f o : cat o name (cd path f) = (cd path <$> cat o name f) /\ out (pwd (cd path f)) = out f ++ path ++ [NEWLINE].
Proof.
  split; [|done]. unfold cat. cbn [files cd]. destruct (cat_loop _ _ _); done.
Qed.

End FsShell.
